(* ===== verification/_CoqProject ===== *)
-Q . S2P
Prelude.v
Memory.v
CString.v
Cache.v
AllocPool.v
MemoryCache.v
HookProxy.v
Backtrace64.v
StackRange32.v
Unwind32.v
Unwind32Chain.v
Relocate32.v
InlineHook32.v
A64Hook.v
A64Rehook.v
XhReloc.v
XhUtil.v
XhElf.v
XdlIterate.v
Xdl.v
PltGot.v
InlineProxy.v
InlineProxy32.v
XhCore.v
MapData.v
Lifecycle.v
Session.v
