(* ===== verification/Prelude.v ===== *)
(** * memory-leak-detector (Raphael): a verification development

    Raphael records the heap and mapping allocations of an Android process with the
    call stacks that made them.  Its native library hooks the allocator, unwinds the
    caller's stack in each hooked call, keeps one record per live block and writes the
    records out as a report.  This library models the C and C++ code under
    src/library/src/main and proves what makes its parts correct.

    ** The parts and how they work together

    [Raphael::start] (Lifecycle.v) makes a leak cache (MemoryCache.v over the node
    pool AllocPool.v, behind the interface of Cache.v) and registers the proxies
    (HookProxy.v) with a hooking component: inline hooks that rewrite the code of the
    allocator (InlineHook32.v with Relocate32.v on arm, A64Hook.v on arm64), or hooks of the
    relocation tables of the loaded libraries (PltGot.v over XhElf.v, XhReloc.v, XhUtil.v
    and XdlIterate.v).  A proxy calls the original function, unwinds the stack
    (Unwind32.v with StackRange32.v on arm, Backtrace64.v on arm64) and inserts or removes
    a record.  [Raphael::print] writes the report directory.

    ** Files, and what they correspond to

    - Prelude.v: notations, machine words, the result monad [res] ([Fault]: undefined
      behaviour or a crash; [NoFuel]: a fuel bound reached), tactics, list lemmas.
    - Memory.v, CString.v: the byte memory of the process ([gmap Z Z], little endian)
      and the functions of the C library the sources use on strings and text files.
    - Cache.v: cpp/Cache.h.  The record types, and class [CacheSpec], what a leak cache
      promises: records by address, newest first, up to a capacity.
    - AllocPool.v: cpp/AllocPool.hpp.  Module [Seq]: each method run alone.  Module
      [Conc]: the atomic accesses of [apply] and [recycle] as steps of many threads.
    - MemoryCache.v: cpp/MemoryCache.cpp.  The hash table of linked nodes; the instance of
      [CacheSpec]; the text of the report.
    - HookProxy.v: cpp/HookProxy.h.  The nine proxies over any [CacheSpec].
    - Backtrace64.v: unwind64/backtrace_64.cpp.
    - StackRange32.v, Unwind32.v: unwind32/.  The bounds of the main thread's stack out of
      /proc, the exception index, the EHABI interpreter and the frame loop.
      Unwind32Chain.v: what they return together for a chain of calls.
    - Relocate32.v, InlineHook32.v: inline32/relocate.c and inlineHook.c.
    - A64Hook.v: inline64/And64InlineHook.cpp.  A64Rehook.v: what it does to a function it
      has hooked before.
    - InlineProxy.v: [registerInlineProxy] of cpp/HookProxy.h for both architectures, with the
      table of hooks and [invoke_je_free]; InlineProxy32.v: its theorem on arm.
    - XhReloc.v, XhUtil.v, XhElf.v: xHook/xh_elf.c and xh_util.c.
    - XdlIterate.v: xDL/xdl_iterate.c and xdl_util.c; and, as lemmas, that a walk which stops
      at a library finds the first of those a full walk visits.
    - Xdl.v: xDL/xdl.c and xdl_lzma.c.  The report's symbols ([xdl_addr] with its cache of
      handles, which MemoryCache.v takes as a parameter with such a state) and the linker's
      functions PltGot.v looks up.
    - PltGot.v: cpp/PltGotHookProxy.h.
    - XhCore.v: xHook/xh_core.c, the registry and refresh of hooks by pattern, with
      [registerPltGotProxy] of cpp/HookProxy.h.
    - MapData.v: cpp/MapData.cpp, the map from addresses to libraries (nothing calls it: the
      report is printed without one).
    - Lifecycle.v: cpp/Raphael.cpp, over any hooking component.  Session.v: the same with the
      hooking components of arm64, on one process that has their states.

    Each definition has the name of the function it models; loops that the source writes
    inline are the definitions named [.._loop] next to it.  Pointers and integers are [Z] at
    their width ([u32], [up] ..), pointer size and ELF class are class [Arch].  Code that
    may read or write memory returns [res].

    ** What the theorems show

    - The report: over any run the allocator and the kernel allow it lists exactly the
      outstanding blocks and mappings, as the two modes of the configuration ask
      ([leak_report_exact]), also through a whole session with its files ([session_report_exact]);
      the cache refines a list of records whatever the storage held before ([report_exact]).
      The depth is at most 15 throughout: the configuration has room for 31, for which the
      backtrace overruns its buffer ([insert_deep_faults]).
    - The proxies are transparent ([proxy_transparent]), re-entry is not recorded
      ([guarded_is_origin]), after [stop], which leaves a last report, they never touch the deleted cache
      ([stopped_is_origin]).
    - The node pool: module [Seq] is what a thread does alone ([solo_is_sequential]);
      interleaved threads never share a node as long as no [recycle] overlaps a pop
      ([pool_exclusive]), and can otherwise ([pool_aba]).
    - Unwinding: the frames of a well-formed chain on arm64 ([unwind_backtrace_correct]) and on arm
      ([unwind_calls_exact], which rests on the exact search of the index,
      [get_exception_handler_exact]); termination and bounds of the arm unwinder on any
      input and its interpreter against the EHABI's table ([unwind_backtrace_common_bounds],
      [personality_refines_ehabi]: all instructions but the two the code decodes wrongly,
      [wmmx_operand_ignored]).
    - Inline hooks: a hooked function reaches its replacement and the trampoline the rest of
      the function; unhooking restores the bytes; moved branches, when taken, keep their targets.
      Registering a session hooks every row of a table that can be hooked ([arm64_rows_redirected],
      [arm32_rows_redirected]), and the session's report is exact ([inline_session_exact]).  A second session changes nothing on arm; on arm64 it hooks the hooked
      functions again, and a proxy then calls itself ([restart_recurses]).
    - Table hooks: symbol lookup, the dynamic section, the packed relocations' encoding,
      the protections out of the maps file, the replaced slots, and their composition over
      all libraries ([register_hooks_all], [dlopen_hooks_library]); through the registry
      ([refresh_patches]), once per library ([refresh_again]), also in the background
      ([async_refresh_served]), and from the start after clearing ([clear_resets]).
    - Symbols: a name is found as in the library's hash tables ([xdl_sym_correct]); the cache
      of handles is invisible ([addr_cache_transparent]); decompression ends with the whole
      output ([decompress_all]), and frees a block twice when it fails
      ([debugdata_double_free]).  The address map finds the mapping of an address
      ([find_mapping]) and keeps its order whatever mappings the maps file lists, in lines that fit its
      buffer ([find_keeps_entries]).
    - Theorems named [.._overflow], [.._faults], [.._truncated] and the like state where the code
      does not do what it means to, with a concrete witness.

    ** Bounds and fuel

    Loops over a list or a count recurse on it.  The others take fuel: walks over the
    cache's linked lists take the size of the node heap, which bounds a path without
    repetition; the unwinder's frame loop is bounded by [ignore_depth + max_depth] and its
    interpreter by the number of instruction bytes; the binary search takes 33
    rounds, its 32-bit interval halving each time; hash chains and packed relocations take the [fuel] argument, which the
    theorems require to exceed the number of symbols or relocations.  The theorems prove that
    a result is returned, not only that a result is right.

    ** What is not modelled

    - Threads: the proxies, the hash table and the inline hook registries are sequential
      (the cache's mutex serialises its table).  The lock-free pool is modelled with
      interleavings, under sequential consistency, and xh_core.c with turns of its
      refresh thread between the calls.
    - What a caught SIGSEGV leaves of a half-done [xh_elf_hook] (XhCore.v).
    - The linker, the kernel (mprotect, the maps file), the original functions, regular
      expressions, demangling and liblzma's decoder are parameters.
    - A read(2) of the maps file that fails (ptrace.c), ptrace(2) of other processes, stopping the other threads (inlineHook.c).
    - queue.h and tree.h, copied BSD macros; logging; JNI glue; the Java and Python code. *)
From stdpp Require Export base option numbers list gmap strings.
From Stdlib Require Export ZArith Lia.

(** ** Notations for the bit operators of C *)

Declare Scope cword_scope.
Delimit Scope cword_scope with cword.
Notation "a .& b" := (Z.land a b) (at level 37, left associativity) : cword_scope.
Notation "a .| b" := (Z.lor a b) (at level 39, left associativity) : cword_scope.
Notation "a .^ b" := (Z.lxor a b) (at level 38, left associativity) : cword_scope.
Notation "a .<< b" := (Z.shiftl a b) (at level 36, left associativity) : cword_scope.
Notation "a .>> b" := (Z.shiftr a b) (at level 36, left associativity) : cword_scope.

#[global] Open Scope Z_scope.
#[global] Open Scope cword_scope.

Create HintDb cword.
Create Rewrite HintDb cword.

(** ** Machine words

    A [w]-bit unsigned integer is a [Z] in [0 .. 2^w).  [uwrap] is the
    reduction C performs on unsigned arithmetic, [swrap] the two's complement
    reinterpretation of a signed conversion. *)

Definition uwrap (w x : Z) : Z := x mod 2 ^ w.
Definition swrap (w x : Z) : Z := (x + 2 ^ (w - 1)) mod 2 ^ w - 2 ^ (w - 1).

Abbreviation u8 := (uwrap 8).
Abbreviation u16 := (uwrap 16).
Abbreviation u32 := (uwrap 32).
Abbreviation u64 := (uwrap 64).
Abbreviation s32 := (swrap 32).
Abbreviation s64 := (swrap 64).

Definition is_word (w x : Z) : Prop := 0 <= x < 2 ^ w.

#[export] Instance is_word_dec w x : Decision (is_word w x).
Proof. unfold is_word. apply _. Defined.

(** The two ABIs CMakeLists.txt builds: arm64-v8a ([__LP64__], [__aarch64__])
    and armeabi-v7a ([__arm__]). *)
Class Arch : Type := { lp64 : bool }.
Definition arm64 : Arch := {| lp64 := true |}.
Definition arm32 : Arch := {| lp64 := false |}.
Definition ptr_bits `{Arch} : Z := if lp64 then 64 else 32.
Definition ptr_size `{Arch} : Z := if lp64 then 8 else 4.

(** C's [!x] and [x ? .. : ..] on integers. *)
Definition truthy (x : Z) : bool := negb (x =? 0).
Definition b2z (b : bool) : Z := if b then 1 else 0.

(** ** Automation *)

(** Turn every boolean comparison of the goal and the hypotheses into a case
    split with the corresponding proposition. *)
Ltac zbool1 :=
  match goal with
  | |- context [Z.ltb ?a ?b] => destruct (Z.ltb_spec a b)
  | |- context [Z.leb ?a ?b] => destruct (Z.leb_spec a b)
  | |- context [Z.eqb ?a ?b] => destruct (Z.eqb_spec a b)
  | H : context [Z.ltb ?a ?b] |- _ => destruct (Z.ltb_spec a b)
  | H : context [Z.leb ?a ?b] |- _ => destruct (Z.leb_spec a b)
  | H : context [Z.eqb ?a ?b] |- _ => destruct (Z.eqb_spec a b)
  end.

Ltac zbool := repeat (zbool1; simpl in *; try (exfalso; lia)).

(** Propositions out of boolean hypotheses, without splitting. *)
Ltac breflect :=
  repeat match goal with
  | H : andb _ _ = true |- _ => apply andb_true_iff in H as [? ?]
  | H : orb _ _ = false |- _ => apply orb_false_iff in H as [? ?]
  | H : negb _ = true |- _ => apply negb_true_iff in H
  | H : negb _ = false |- _ => apply negb_false_iff in H
  | H : Z.ltb _ _ = true |- _ => apply Z.ltb_lt in H
  | H : Z.ltb _ _ = false |- _ => apply Z.ltb_ge in H
  | H : Z.leb _ _ = true |- _ => apply Z.leb_le in H
  | H : Z.leb _ _ = false |- _ => apply Z.leb_gt in H
  | H : Z.eqb _ _ = true |- _ => apply Z.eqb_eq in H
  | H : Z.eqb _ _ = false |- _ => apply Z.eqb_neq in H
  end.

(** Split on the scrutinee of a [match] of the goal, or of a hypothesis. *)
Ltac dmatch :=
  match goal with
  | |- context [match ?x with _ => _ end] => destruct x eqn:?
  end.
Ltac dmatch_in H :=
  match type of H with
  | context [match ?x with _ => _ end] => destruct x eqn:?
  end.

(** ** Lemmas on words *)

Lemma uwrap_range w x : 0 <= w -> 0 <= uwrap w x < 2 ^ w.
Proof. intros. apply Z.mod_pos_bound. lia. Qed.

Lemma uwrap_small w x : 0 <= x < 2 ^ w -> uwrap w x = x.
Proof. apply Z.mod_small. Qed.

Lemma uwrap_uwrap w x : uwrap w (uwrap w x) = uwrap w x.
Proof. apply Zmod_mod. Qed.

Lemma uwrap_add_l w x y : uwrap w (uwrap w x + y) = uwrap w (x + y).
Proof. apply Zplus_mod_idemp_l. Qed.

Lemma uwrap_add_r w x y : uwrap w (x + uwrap w y) = uwrap w (x + y).
Proof. apply Zplus_mod_idemp_r. Qed.

Lemma uwrap_sub_l w x y : uwrap w (uwrap w x - y) = uwrap w (x - y).
Proof. apply Zminus_mod_idemp_l. Qed.

Lemma uwrap_sub_r w x y : uwrap w (x - uwrap w y) = uwrap w (x - y).
Proof. apply Zminus_mod_idemp_r. Qed.

Lemma uwrap_word w x : 0 <= w -> is_word w (uwrap w x).
Proof. apply uwrap_range. Qed.

Lemma uwrap_mask w x : 0 <= w -> x .& Z.ones w = uwrap w x.
Proof. apply Z.land_ones. Qed.

Lemma is_word_le w w' x : is_word w x -> w <= w' -> 0 <= w -> is_word w' x.
Proof.
  unfold is_word. intros [??] ??. split; [done|].
  apply Z.lt_le_trans with (2 ^ w); [done|]. apply Z.pow_le_mono_r; lia.
Qed.

Lemma testbit_above w x i : is_word w x -> 0 <= w <= i -> Z.testbit x i = false.
Proof.
  intros Hx Hi. rewrite <- (Z.mod_small x (2 ^ w)) by apply Hx.
  apply Z.mod_pow2_bits_high; lia.
Qed.

Lemma is_word_testbit w x :
  0 <= w -> 0 <= x -> (forall i, w <= i -> Z.testbit x i = false) -> is_word w x.
Proof.
  intros Hw Hx Hb. split; [done|].
  replace x with (x mod 2 ^ w); [apply Z.mod_pos_bound; lia|].
  apply Z.bits_inj'. intros i Hi. rewrite Z.testbit_mod_pow2 by lia.
  destruct (Z.ltb_spec i w); [done|]. by rewrite Hb.
Qed.

Lemma is_word_land_l w x y : 0 <= w -> is_word w x -> is_word w (x .& y).
Proof.
  intros Hw Hx. apply is_word_testbit; [done| |].
  - apply Z.land_nonneg. left. apply Hx.
  - intros i Hi. rewrite Z.land_spec, (testbit_above w x) by (done || lia). done.
Qed.

Lemma is_word_land_r w x y : 0 <= w -> is_word w y -> is_word w (x .& y).
Proof. rewrite Z.land_comm. apply is_word_land_l. Qed.

Lemma is_word_lor w x y : 0 <= w -> is_word w x -> is_word w y -> is_word w (x .| y).
Proof.
  intros Hw Hx Hy. apply is_word_testbit; [done| |].
  - apply Z.lor_nonneg. split; [apply Hx|apply Hy].
  - intros i Hi.
    by rewrite Z.lor_spec, (testbit_above w x), (testbit_above w y) by (done || lia).
Qed.

Lemma is_word_lxor w x y : 0 <= w -> is_word w x -> is_word w y -> is_word w (x .^ y).
Proof.
  intros Hw Hx Hy. apply is_word_testbit; [done| |].
  - apply Z.lxor_nonneg. split; intros _; [apply Hy|apply Hx].
  - intros i Hi.
    by rewrite Z.lxor_spec, (testbit_above w x), (testbit_above w y) by (done || lia).
Qed.

Lemma is_word_shiftr w x n : 0 <= n -> is_word w x -> is_word w (x .>> n).
Proof.
  unfold is_word. intros Hn [Hx Hw]. rewrite Z.shiftr_div_pow2 by done.
  split; [apply Z.div_pos; lia|].
  apply Z.le_lt_trans with x; [|done]. apply Z.div_le_upper_bound; [lia|]. nia.
Qed.

Lemma swrap_small w x : 0 < w -> - 2 ^ (w - 1) <= x < 2 ^ (w - 1) -> swrap w x = x.
Proof.
  intros Hw Hx. unfold swrap.
  assert (2 ^ w = 2 * 2 ^ (w - 1)) by (rewrite <- Z.pow_succ_r by lia; f_equal; lia).
  rewrite Z.mod_small by lia. lia.
Qed.

Lemma swrap_uwrap w x : swrap w (uwrap w x) = swrap w x.
Proof. unfold swrap, uwrap. by rewrite Zplus_mod_idemp_l. Qed.

Lemma uwrap_swrap w x : uwrap w (swrap w x) = uwrap w x.
Proof.
  unfold swrap, uwrap. rewrite Zminus_mod_idemp_l. f_equal. lia.
Qed.

Lemma swrap_scale k w x : 0 <= k -> 0 < w -> swrap (w + k) (2 ^ k * x) = 2 ^ k * swrap w x.
Proof.
  intros Hk Hw. unfold swrap. replace (w + k - 1) with (k + (w - 1)) by lia.
  rewrite (Z.add_comm w k), !Z.pow_add_r by lia.
  rewrite <- Z.mul_add_distr_l, Z.mul_mod_distr_l by (apply Z.pow_nonzero; lia). ring.
Qed.

Lemma land_ones_mod x n : 0 <= n -> x .& Z.ones n = x mod 2 ^ n.
Proof. apply Z.land_ones. Qed.

#[export] Hint Resolve uwrap_range uwrap_word is_word_land_l is_word_land_r
  is_word_lor is_word_lxor is_word_shiftr : cword.
#[export] Hint Rewrite uwrap_uwrap uwrap_add_l uwrap_add_r uwrap_sub_l uwrap_sub_r
  swrap_uwrap uwrap_swrap : cword.

Lemma land_pow2_testbit x k : 0 <= k -> x .& 2 ^ k = if Z.testbit x k then 2 ^ k else 0.
Proof.
  intros Hk. apply Z.bits_inj'. intros i Hi. rewrite Z.land_spec, Z.pow2_bits_eqb by done.
  destruct (Z.eqb_spec k i) as [<-|Hne].
  - rewrite andb_true_r. destruct (Z.testbit x k); [by rewrite Z.pow2_bits_true|by rewrite Z.bits_0].
  - rewrite andb_false_r. destruct (Z.testbit x k); [|by rewrite Z.bits_0].
    by rewrite Z.pow2_bits_false.
Qed.

(** A flag test [x & (1 << k)]. *)
Lemma truthy_flag x k : 0 <= k -> truthy (x .& 2 ^ k) = Z.testbit x k.
Proof.
  intros Hk. rewrite land_pow2_testbit by done.
  destruct (Z.testbit x k); [|done]. unfold truthy.
  destruct (Z.eqb_spec (2 ^ k) 0) as [He|]; [|done].
  pose proof (Z.pow_pos_nonneg 2 k). lia.
Qed.

Lemma b2z_testbit b i : 0 <= i -> Z.testbit (b2z b) i = b && (i =? 0).
Proof.
  intros Hi. destruct (Z.eqb_spec i 0) as [->|]; [by destruct b|].
  rewrite andb_false_r. apply (testbit_above 1); [destruct b; split; simpl; lia|lia].
Qed.

Lemma b2z_shiftl_testbit b k i : 0 <= k -> 0 <= i -> Z.testbit (b2z b .<< k) i = b && (i =? k).
Proof.
  intros Hk Hi. rewrite Z.shiftl_spec by done. destruct (Z.leb_spec k i).
  - rewrite b2z_testbit by lia. f_equal. apply eq_true_iff_eq. rewrite !Z.eqb_eq. lia.
  - rewrite Z.testbit_neg_r by lia. destruct (Z.eqb_spec i k); [lia|]. by rewrite andb_false_r.
Qed.

Lemma lor_add_disjoint a b n : is_word n a -> 0 <= n -> a .| (b .<< n) = a + b * 2 ^ n.
Proof.
  intros Ha Hn. rewrite Z.shiftl_mul_pow2 by done.
  assert (Hdis : a .& (b * 2 ^ n) = 0).
  { rewrite <- Z.shiftl_mul_pow2 by done. apply Z.bits_inj'. intros i Hi.
    rewrite Z.land_spec, Z.shiftl_spec, Z.bits_0 by done. destruct (Z.ltb_spec i n).
    - by rewrite (Z.testbit_neg_r b), andb_false_r by lia.
    - by rewrite (testbit_above n) by (done || lia). }
  by rewrite Z.add_nocarry_lxor, Z.lxor_lor.
Qed.

(** Clearing the low [n] bits of a [w]-bit word. *)
Lemma land_high w n x :
  0 <= n <= w -> is_word w x -> x .& (2 ^ w - 2 ^ n) = x - x mod 2 ^ n.
Proof.
  intros Hn Hx. assert (Hm : 2 ^ w - 2 ^ n = Z.ones (w - n) .<< n).
  { rewrite Z.ones_equiv, Z.shiftl_mul_pow2 by lia.
    replace (2 ^ w) with (2 ^ (w - n) * 2 ^ n) by (rewrite <- Z.pow_add_r by lia; f_equal; lia).
    lia. }
  assert (Hd : x .& (2 ^ w - 2 ^ n) = (x .>> n) .<< n).
  { rewrite Hm. apply Z.bits_inj'. intros i Hi. rewrite Z.land_spec, !Z.shiftl_spec by done.
    destruct (Z.ltb_spec i n).
    - by rewrite !(Z.testbit_neg_r _ (i - n)), andb_false_r by lia.
    - rewrite Z.shiftr_spec by lia. replace (i - n + n) with i by lia.
      destruct (Z.ltb_spec i w).
      + rewrite Z.testbit_ones_nonneg by lia. destruct (Z.ltb_spec (i - n) (w - n)); [|lia].
        by rewrite andb_true_r.
      + by rewrite (testbit_above w) by (done || lia). }
  rewrite Hd, Z.shiftl_mul_pow2, Z.shiftr_div_pow2 by lia.
  pose proof (Z.div_mod x (2 ^ n) ltac:(apply Z.pow_nonzero; lia)). lia.
Qed.

(** Sign extension as C code writes it: or in the high bits of a 32-bit word when
    the top bit is set. *)
Lemma sign_extend w p x :
  0 < w < 32 -> p = w \/ p = w - 1 -> is_word w x ->
  u32 (if truthy (x .>> (w - 1)) then x .| u32 (0xFFFFFFFF .<< p) else x) = u32 (swrap w x).
Proof.
  intros Hw Hp [H0 Hx].
  assert (H2w : 2 ^ w = 2 ^ (w - 1) * 2) by (replace w with (Z.succ (w - 1)) at 1 by lia;
    rewrite Z.pow_succ_r by lia; lia).
  pose proof (Z.pow_pos_nonneg 2 (w - 1) ltac:(lia) ltac:(lia)) as Hpos.
  unfold swrap. rewrite Z.shiftr_div_pow2 by lia.
  destruct (decide (x < 2 ^ (w - 1))).
  { rewrite Z.div_small by lia. simpl. f_equal. rewrite Z.mod_small; lia. }
  assert (Hq : x / 2 ^ (w - 1) = 1)
    by (symmetry; apply Z.div_unique with (x - 2 ^ (w - 1)); lia).
  rewrite Hq. change (truthy 1) with true. cbv iota.
  replace ((x + 2 ^ (w - 1)) mod 2 ^ w) with (x - 2 ^ (w - 1))
    by (apply Z.mod_unique with 1; lia).
  assert (Hmask : u32 (0xFFFFFFFF .<< p) = (2 ^ (32 - p) - 1) .<< p).
  { rewrite !Z.shiftl_mul_pow2 by lia. unfold uwrap.
    assert (Hs : 2 ^ 32 = 2 ^ (32 - p) * 2 ^ p) by (rewrite <- Z.pow_add_r by lia; f_equal; lia).
    pose proof (Z.pow_pos_nonneg 2 p ltac:(lia) ltac:(lia)).
    pose proof (Z.pow_pos_nonneg 2 (32 - p) ltac:(lia) ltac:(lia)).
    symmetry. apply Z.mod_unique with (2 ^ p - 1); [left; rewrite Hs; nia|].
    change 0xFFFFFFFF with (2 ^ 32 - 1). rewrite Hs. ring. }
  rewrite Hmask. destruct Hp as [-> | ->].
  - rewrite lor_add_disjoint by (done || lia).
    replace (x + (2 ^ (32 - w) - 1) * 2 ^ w) with (x - 2 ^ w + 1 * 2 ^ 32).
    2:{ replace (2 ^ 32) with (2 ^ (32 - w) * 2 ^ w) by (rewrite <- Z.pow_add_r by lia; f_equal; lia).
        ring. }
    unfold uwrap. rewrite Z_mod_plus_full. f_equal. lia.
  - replace x with ((x - 2 ^ (w - 1)) .| (1 .<< (w - 1))) at 1
      by (rewrite lor_add_disjoint by (unfold is_word; lia); lia).
    rewrite <- Z.lor_assoc, <- Z.shiftl_lor.
    set (k := 32 - (w - 1)). assert (Hk : 2 ^ k = 2 ^ (k - 1) * 2)
      by (replace k with (Z.succ (k - 1)) at 1 by lia; rewrite Z.pow_succ_r by lia; lia).
    assert (Hones : 2 ^ k - 1 = 1 .| ((2 ^ (k - 1) - 1) .<< 1)).
    { rewrite lor_add_disjoint by (unfold is_word; lia). lia. }
    rewrite Hones, Z.lor_assoc, Z.lor_diag, <- Hones.
    rewrite lor_add_disjoint by (unfold is_word; lia).
    replace (x - 2 ^ (w - 1) + (2 ^ k - 1) * 2 ^ (w - 1))
      with (x - 2 ^ (w - 1) - 2 ^ (w - 1) + 1 * 2 ^ 32).
    2:{ replace (2 ^ 32) with (2 ^ k * 2 ^ (w - 1)) by (rewrite <- Z.pow_add_r by lia; f_equal; lia).
        ring. }
    unfold uwrap. by rewrite Z_mod_plus_full.
Qed.

(** Two words that agree modulo [2^w] are equal. *)
Lemma uwrap_inj w x y :
  is_word w x -> is_word w y -> uwrap w x = uwrap w y -> x = y.
Proof. intros Hx Hy. by rewrite !uwrap_small. Qed.

(** ** Outcomes of code that can go wrong

    [Fault] is an access outside the objects of the program (undefined
    behaviour, a SIGSEGV at best).  [NoFuel] says that a loop was cut off by
    the fuel of the model.  Neither is an error code: error codes are values. *)

Inductive res (A : Type) : Type :=
| Ok (a : A)
| Fault
| NoFuel.
Arguments Ok {A} a.
Arguments Fault {A}.
Arguments NoFuel {A}.

Definition rbind {A B} (m : res A) (f : A -> res B) : res B :=
  match m with Ok a => f a | Fault => Fault | NoFuel => NoFuel end.

Notation "'let!' x ':=' m 'in' k" := (rbind m (fun x => k))
  (at level 10, x pattern, m at level 100, k at level 200).

Definition of_opt {A} (o : option A) : res A :=
  match o with Some a => Ok a | None => Fault end.

Definition res_map {A B} (f : A -> B) (m : res A) : res B :=
  match m with Ok a => Ok (f a) | Fault => Fault | NoFuel => NoFuel end.

#[export] Instance res_eq_dec {A} `{EqDecision A} : EqDecision (res A).
Proof. solve_decision. Defined.

#[export] Instance Ok_inj {A} : Inj (=) (=) (@Ok A).
Proof. by intros x y [= ->]. Qed.

Lemma rbind_Ok {A B} (m : res A) (f : A -> res B) b :
  rbind m f = Ok b <-> exists a, m = Ok a /\ f a = Ok b.
Proof. destruct m; naive_solver. Qed.

Lemma of_opt_Ok {A} (o : option A) a : of_opt o = Ok a <-> o = Some a.
Proof. destruct o; naive_solver. Qed.

Ltac inv_res :=
  repeat match goal with
  | H : of_opt _ = Ok _ |- _ => apply of_opt_Ok in H
  | H : rbind _ _ = Ok _ |- _ => apply rbind_Ok in H as (? & ? & ?)
  | H : Ok _ = Ok _ |- _ => injection H as H
  | H : Fault = Ok _ |- _ => discriminate H
  | H : Ok _ = Fault |- _ => discriminate H
  | H : NoFuel = Ok _ |- _ => discriminate H
  end.

(** [wp safe m Q]: [m] terminates, its result satisfies [Q], and it does not
    fault when [safe] holds. *)
Definition wp {A} (safe : Prop) (m : res A) (Q : A -> Prop) : Prop :=
  match m with Ok a => Q a | Fault => ~ safe | NoFuel => False end.

Lemma wp_bind {A B} safe (m : res A) (f : A -> res B) Q :
  wp safe m (fun a => wp safe (f a) Q) -> wp safe (rbind m f) Q.
Proof. by destruct m. Qed.

Lemma wp_mono {A} safe (m : res A) (P Q : A -> Prop) :
  wp safe m P -> (forall a, P a -> Q a) -> wp safe m Q.
Proof. destruct m; simpl; auto. Qed.

Lemma wp_Ok {A} (safe : Prop) (m : res A) (Q : A -> Prop) :
  safe -> wp safe m Q -> exists a, m = Ok a /\ Q a.
Proof. destruct m as [a| |]; simpl; intros Hs H; [by exists a|done..]. Qed.

Lemma wp_of_opt {A} (safe : Prop) (o : option A) (Q : A -> Prop) :
  (safe -> is_Some o) -> (forall a, o = Some a -> Q a) -> wp safe (of_opt o) Q.
Proof. destruct o as [a|]; simpl; [auto|]. by intros H _ [? ?]%H. Qed.

(** ** Reachability of a step relation *)

Inductive star {S : Type} (R : S -> S -> Prop) : S -> S -> Prop :=
| star_nil s : star R s s
| star_cons s1 s2 s3 : R s1 s2 -> star R s2 s3 -> star R s1 s3.

Lemma star_invariant {S} (R : S -> S -> Prop) (I : S -> Prop) :
  (forall s s', I s -> R s s' -> I s') ->
  forall s s', star R s s' -> I s -> I s'.
Proof. intros HI s s' Hs. induction Hs; eauto. Qed.

(** ** Lists *)

Lemma filter_Permutation_app {A} (P : A -> Prop) `{forall x, Decision (P x)} (l k : list A) :
  filter P (l ++ k) ≡ₚ filter P k ++ filter P l.
Proof. rewrite filter_app. apply Permutation_app_comm. Qed.

Lemma filter_list_fmap {A B} (f : A -> B) (P : B -> Prop) `{!forall x, Decision (P x)} (l : list A) :
  filter P (f <$> l) = f <$> filter (fun x => P (f x)) l.
Proof.
  induction l as [|x l IH]; [done|]. rewrite fmap_cons, !filter_cons, IH. by case_decide.
Qed.

Lemma Forall_insert_Z {A} (P : A -> Prop) (l : list A) i x :
  Forall P l -> P x -> Forall P (<[i:=x]> l).
Proof. intros. by apply Forall_insert. Qed.

(** [list_write i xs l]: a [memcpy] of [xs] to position [i] of an array; [None]
    when it leaves the array. *)
Definition list_write {A} (i : nat) (xs l : list A) : option (list A) :=
  if decide (i + length xs <= length l)%nat
  then Some (take i l ++ xs ++ drop (i + length xs) l)
  else None.

Definition list_read {A} (i n : nat) (l : list A) : option (list A) :=
  if decide (i + n <= length l)%nat then Some (take n (drop i l)) else None.

Definition list_set {A} (i : nat) (x : A) (l : list A) : option (list A) :=
  if decide (i < length l)%nat then Some (<[i:=x]> l) else None.

Lemma list_write_length {A} i (xs l l' : list A) :
  list_write i xs l = Some l' -> length l' = length l.
Proof.
  unfold list_write. case_decide; intros; simplify_eq.
  rewrite !length_app, length_take, length_drop. lia.
Qed.

Lemma list_write_0 {A} (xs l : list A) :
  (length xs <= length l)%nat -> list_write 0 xs l = Some (xs ++ drop (length xs) l).
Proof. intros. unfold list_write. by rewrite decide_True. Qed.

Lemma list_read_length {A} i n (l l' : list A) :
  list_read i n l = Some l' -> length l' = n.
Proof.
  unfold list_read. case_decide; intros; simplify_eq.
  rewrite length_take, length_drop. lia.
Qed.

Lemma list_set_length {A} i x (l l' : list A) :
  list_set i x l = Some l' -> length l' = length l.
Proof. unfold list_set. case_decide; intros; simplify_eq. apply length_insert. Qed.

Lemma list_set_app_r {A} (l k : list A) x i :
  i = length l -> (0 < length k)%nat -> list_set i x (l ++ k) = Some (l ++ x :: drop 1 k).
Proof.
  intros -> Hk. unfold list_set. rewrite decide_True by (rewrite length_app; lia).
  destruct k as [|y k]; simpl in *; [lia|].
  rewrite insert_app_r_alt by lia. rewrite Nat.sub_diag. simpl. by rewrite drop_0.
Qed.

(** The integers [k, k+1, .. k+n-1]: the values of a counting [for] loop. *)
Fixpoint zrange (k : Z) (n : nat) : list Z :=
  match n with O => [] | S n' => k :: zrange (k + 1) n' end.

Lemma elem_of_zrange x k n : x ∈ zrange k n <-> k <= x < k + Z.of_nat n.
Proof.
  revert k. induction n as [|n IH]; intros k; simpl.
  - rewrite elem_of_nil. lia.
  - rewrite elem_of_cons, IH. lia.
Qed.

Lemma NoDup_zrange k n : NoDup (zrange k n).
Proof.
  revert k. induction n as [|n IH]; intros k; simpl; constructor; [|apply IH].
  rewrite elem_of_zrange. lia.
Qed.

Lemma zrange_length k n : length (zrange k n) = n.
Proof. revert k. induction n; intros; simpl; auto. Qed.

(** A decidable fact about every value of a small range, by computation. *)
Lemma range_check (P : Z -> bool) (n : nat) :
  forallb P (zrange 0 n) = true -> forall x, 0 <= x < Z.of_nat n -> P x = true.
Proof.
  rewrite forallb_forall. intros H x Hx. apply H, list_elem_of_In, elem_of_zrange. lia.
Qed.

Lemma range_check_Z (P : Z -> bool) (n : Z) :
  forallb P (zrange 0 (Z.to_nat n)) = true -> forall x, 0 <= x < n -> P x = true.
Proof. intros H x Hx. apply (range_check P (Z.to_nat n) H). lia. Qed.

(** Solve [e n = true] (or decide the test of an [if]) for [n] in a range of
    [N] values, when nothing else of the context depends on [n]. *)
Ltac by_range n N :=
  match goal with H : 0 <= n < _ |- _ => revert n H; apply (range_check _ N); vm_compute; reflexivity end.
Ltac range_test n N :=
  match goal with
  | |- context [if ?e =? ?c then _ else _] =>
      let E := fresh in
      first
        [ assert (E : (e =? c) = true) by by_range n N
        | assert (E : (e =? c) = false) by
            (apply negb_true_iff; by_range n N) ];
      rewrite E; clear E
  end.

(** Lists that agree key by key are permutations of each other. *)
Lemma Permutation_by_key {A} (key : A -> Z) (l l' : list A) :
  (forall k, filter (fun x => key x = k) l = filter (fun x => key x = k) l') -> l ≡ₚ l'.
Proof.
  revert l'. induction l as [|x l IH]; intros l' Hk.
  - destruct l' as [|y l']; [done|]. specialize (Hk (key y)).
    rewrite filter_cons_True in Hk by done. done.
  - assert (Hx : exists l1 l2, l' = l1 ++ x :: l2 /\ Forall (fun y => key y <> key x) l1).
    { specialize (Hk (key x)). rewrite filter_cons_True in Hk by done.
      clear IH. revert Hk. generalize (filter (fun y => key y = key x) l). intros k Hk.
      induction l' as [|y l' IH']; [done|]. rewrite filter_cons in Hk. case_decide as Hy.
      - injection Hk as -> ->. by exists [], l'.
      - destruct (IH' Hk) as (l1 & l2 & -> & Hl1). exists (y :: l1), l2.
        split; [done|]. by constructor. }
    destruct Hx as (l1 & l2 & -> & Hl1). rewrite <- Permutation_middle. constructor.
    apply IH. intros k. specialize (Hk k). rewrite filter_app in Hk |- *.
    rewrite !filter_cons in Hk. case_decide as Hkx; [|done]. subst k.
    assert (Hz : filter (fun y => key y = key x) l1 = []).
    { clear - Hl1. induction Hl1; [done|]. by rewrite filter_cons_False. }
    rewrite Hz in Hk |- *. simpl in *. by injection Hk.
Qed.
