(* ===== verification/Memory.v ===== *)
(** The memory of the process: bytes at addresses.  A load or store of an
    unmapped byte is [None] (a SIGSEGV); loads and stores are little-endian, as
    on every Android ABI. *)
From S2P Require Import Prelude.

Abbreviation mem := (gmap Z Z).

(** ** Little-endian encoding *)

Fixpoint le_val (bs : list Z) : Z :=
  match bs with [] => 0 | b :: bs' => b + 256 * le_val bs' end.

Fixpoint le_bytes (n : nat) (v : Z) : list Z :=
  match n with O => [] | S n' => v mod 256 :: le_bytes n' (v / 256) end.

Definition byte_ok (b : Z) : Prop := is_word 8 b.

#[export] Instance byte_ok_dec b : Decision (byte_ok b).
Proof. unfold byte_ok. apply _. Defined.

Lemma le_bytes_length n v : length (le_bytes n v) = n.
Proof. revert v. induction n; intros; simpl; auto. Qed.

Lemma le_bytes_ok n v : Forall byte_ok (le_bytes n v).
Proof.
  revert v. induction n as [|n IH]; intros v; simpl; constructor; [|apply IH].
  apply (Z.mod_pos_bound v 256). lia.
Qed.

Lemma le_val_range bs : Forall byte_ok bs -> 0 <= le_val bs < 2 ^ (8 * Z.of_nat (length bs)).
Proof.
  induction bs as [|b bs IH]; intros Hok; [simpl; lia|].
  apply Forall_cons in Hok as [Hb Hok]. specialize (IH Hok). simpl le_val.
  replace (8 * Z.of_nat (length (b :: bs))) with (8 + 8 * Z.of_nat (length bs)) by (simpl; lia).
  rewrite Z.pow_add_r by lia. unfold byte_ok, is_word in Hb.
  change (2 ^ 8) with 256 in *. nia.
Qed.

Lemma le_val_bytes n v : le_val (le_bytes n v) = v mod 2 ^ (8 * Z.of_nat n).
Proof.
  revert v. induction n as [|n IH]; intros v; [by rewrite Z.mod_1_r|].
  simpl le_bytes. simpl le_val. rewrite IH.
  replace (8 * Z.of_nat (S n)) with (8 + 8 * Z.of_nat n) by lia.
  rewrite Z.pow_add_r by lia. change (2 ^ 8) with 256.
  rewrite Z.rem_mul_r by lia. lia.
Qed.

Lemma le_bytes_val bs : Forall byte_ok bs -> le_bytes (length bs) (le_val bs) = bs.
Proof.
  induction 1 as [|b bs Hb Hok IH]; [done|]. simpl. unfold byte_ok, is_word in Hb.
  change (2 ^ 8) with 256 in *.
  rewrite (Z.mul_comm 256), Z_mod_plus_full, Z.mod_small, Z.div_add by lia.
  rewrite Z.div_small by lia. by rewrite Z.add_0_l, IH.
Qed.

(** ** Loads and stores *)

Fixpoint load_bytes (m : mem) (a : Z) (n : nat) : option (list Z) :=
  match n with
  | O => Some []
  | S n' => match m !! a with
            | Some b => match load_bytes m (a + 1) n' with
                        | Some bs => Some (b :: bs) | None => None end
            | None => None
            end
  end.

Fixpoint store_bytes (m : mem) (a : Z) (bs : list Z) : option mem :=
  match bs with
  | [] => Some m
  | b :: bs' => match m !! a with
                | Some _ => store_bytes (<[a:=b]> m) (a + 1) bs'
                | None => None
                end
  end.

Definition load (m : mem) (n : nat) (a : Z) : option Z := le_val <$> load_bytes m a n.
Definition store (m : mem) (n : nat) (a v : Z) : option mem := store_bytes m a (le_bytes n v).

Abbreviation load8 m := (load m 1).
Abbreviation load16 m := (load m 2).
Abbreviation load32 m := (load m 4).
Abbreviation load64 m := (load m 8).
Abbreviation store8 m := (store m 1).
Abbreviation store16 m := (store m 2).
Abbreviation store32 m := (store m 4).
Abbreviation store64 m := (store m 8).

(** The bytes [a .. a+n-1] are mapped. *)
Definition mapped (m : mem) (a n : Z) : Prop := forall i, 0 <= i < n -> is_Some (m !! (a + i)).
(** Every byte is a byte. *)
Definition mem_ok (m : mem) : Prop := forall a b, m !! a = Some b -> byte_ok b.

(** A memory that maps [bs] at [a]. *)
Fixpoint mem_at (a : Z) (bs : list Z) (m : mem) : mem :=
  match bs with [] => m | b :: bs' => <[a:=b]> (mem_at (a + 1) bs' m) end.

Lemma load_bytes_length m a n bs : load_bytes m a n = Some bs -> length bs = n.
Proof.
  revert a bs. induction n as [|n IH]; intros a bs; simpl; [by intros [= <-]|].
  destruct (m !! a); [|done]. destruct (load_bytes m (a + 1) n) eqn:Hl; [|done].
  intros [= <-]. simpl. f_equal. eauto.
Qed.

Lemma load_bytes_ok m a n bs : mem_ok m -> load_bytes m a n = Some bs -> Forall byte_ok bs.
Proof.
  intros Hm. revert a bs. induction n as [|n IH]; intros a bs; simpl; [by intros [= <-]|].
  destruct (m !! a) eqn:Ha; [|done]. destruct (load_bytes m (a + 1) n) eqn:Hl; [|done].
  intros [= <-]. constructor; eauto.
Qed.

Lemma load_range m n a v : mem_ok m -> load m n a = Some v -> is_word (8 * Z.of_nat n) v.
Proof.
  unfold load. intros Hm H. apply fmap_Some in H as (bs & Hl & ->).
  rewrite <- (load_bytes_length _ _ _ _ Hl). apply le_val_range. by eapply load_bytes_ok.
Qed.

Lemma load_bytes_mapped m a n :
  mapped m a (Z.of_nat n) <-> is_Some (load_bytes m a n).
Proof.
  revert a. induction n as [|n IH]; intros a; simpl; [split; [by eexists|]; intros _ i; lia|].
  split.
  - intros H. destruct (H 0 ltac:(lia)) as [b Hb]. rewrite Z.add_0_r in Hb. rewrite Hb.
    destruct (proj1 (IH (a + 1))) as [bs ->]; [|by eexists].
    intros i Hi. specialize (H (1 + i) ltac:(lia)). by rewrite Z.add_assoc in H.
  - destruct (m !! a) eqn:Ha; [|by intros []].
    destruct (load_bytes m (a + 1) n) eqn:Hl; [|by intros []]. intros _ i Hi.
    destruct (decide (i = 0)) as [->|]; [by rewrite Z.add_0_r|].
    replace (a + i) with (a + 1 + (i - 1)) by lia. apply IH; [by eexists|lia].
Qed.

Lemma load_mapped m n a : mapped m a (Z.of_nat n) -> is_Some (load m n a).
Proof. intros [bs Hb]%load_bytes_mapped. unfold load. rewrite Hb. by eexists. Qed.

Lemma load_bytes_ext m m' a n :
  (forall i, 0 <= i < Z.of_nat n -> m !! (a + i) = m' !! (a + i)) ->
  load_bytes m a n = load_bytes m' a n.
Proof.
  revert a. induction n as [|n IH]; intros a H; simpl; [done|].
  rewrite (IH (a + 1)).
  - specialize (H 0 ltac:(lia)). rewrite Z.add_0_r in H. by rewrite H.
  - intros i Hi. specialize (H (1 + i) ltac:(lia)). by rewrite Z.add_assoc in H.
Qed.

Lemma store_bytes_lookup m a bs m' :
  store_bytes m a bs = Some m' ->
  forall b, m' !! b = if decide (a <= b < a + Z.of_nat (length bs))
                      then bs !! Z.to_nat (b - a) else m !! b.
Proof.
  revert a m. induction bs as [|x bs IH]; intros a m; simpl.
  { intros [= ->] b. case_decide; [lia|done]. }
  destruct (m !! a) eqn:Ha; [|done]. intros Hs b. rewrite (IH _ _ Hs).
  destruct (decide (b = a)) as [->|].
  - rewrite decide_False, decide_True by lia. rewrite lookup_insert_eq.
    by rewrite Z.sub_diag.
  - destruct (decide (a + 1 <= b < a + 1 + Z.of_nat (length bs))).
    + rewrite decide_True by lia.
      replace (Z.to_nat (b - a)) with (S (Z.to_nat (b - (a + 1)))) by lia. done.
    + rewrite decide_False by lia. by rewrite lookup_insert_ne.
Qed.

Lemma store_bytes_load m a bs m' :
  store_bytes m a bs = Some m' -> load_bytes m' a (length bs) = Some bs.
Proof.
  revert a m. induction bs as [|x bs IH]; intros a m; simpl; [done|].
  destruct (m !! a) eqn:Ha; [|done]. intros Hs. rewrite (IH _ _ Hs).
  rewrite (store_bytes_lookup _ _ _ _ Hs a), decide_False by lia. by rewrite lookup_insert_eq.
Qed.

Lemma store_bytes_mapped m a bs :
  mapped m a (Z.of_nat (length bs)) -> is_Some (store_bytes m a bs).
Proof.
  revert a m. induction bs as [|x bs IH]; intros a m Hm; simpl; [by eexists|].
  destruct (Hm 0 ltac:(simpl; lia)) as [b Hb]. rewrite Z.add_0_r in Hb. rewrite Hb. apply IH.
  intros i Hi. rewrite lookup_insert_ne by lia. specialize (Hm (1 + i) ltac:(simpl; lia)).
  by rewrite Z.add_assoc in Hm.
Qed.

Lemma store_load m n a v m' :
  store m n a v = Some m' -> load m' n a = Some (v mod 2 ^ (8 * Z.of_nat n)).
Proof.
  unfold store, load. intros Hs%store_bytes_load. rewrite le_bytes_length in Hs.
  rewrite Hs. simpl. by rewrite le_val_bytes.
Qed.

Lemma store_lookup_ne m n a v m' b :
  store m n a v = Some m' -> ~ (a <= b < a + Z.of_nat n) -> m' !! b = m !! b.
Proof.
  intros Hs Hb. rewrite (store_bytes_lookup _ _ _ _ Hs), le_bytes_length.
  by rewrite decide_False.
Qed.

Lemma store_load_ne m n a v m' k b :
  store m n a v = Some m' -> b + Z.of_nat k <= a \/ a + Z.of_nat n <= b ->
  load m' k b = load m k b.
Proof.
  intros Hs Hd. unfold load. f_equal. apply load_bytes_ext. intros i Hi.
  apply (store_lookup_ne _ _ _ _ _ _ Hs). lia.
Qed.

Lemma store_mapped m n a v : mapped m a (Z.of_nat n) -> is_Some (store m n a v).
Proof. intros H. apply store_bytes_mapped. by rewrite le_bytes_length. Qed.

Lemma store_keeps_mapped m n a v m' b :
  store m n a v = Some m' -> is_Some (m !! b) -> is_Some (m' !! b).
Proof.
  intros Hs Hb. rewrite (store_bytes_lookup _ _ _ _ Hs). case_decide; [|done].
  apply lookup_lt_is_Some. lia.
Qed.

Lemma store_mem_ok m n a v m' : mem_ok m -> store m n a v = Some m' -> mem_ok m'.
Proof.
  intros Hm Hs b x. rewrite (store_bytes_lookup _ _ _ _ Hs). case_decide; [|apply Hm].
  apply Forall_lookup_1, le_bytes_ok.
Qed.

Lemma mem_at_lookup a bs m b :
  mem_at a bs m !! b = if decide (a <= b < a + Z.of_nat (length bs))
                       then bs !! Z.to_nat (b - a) else m !! b.
Proof.
  revert a. induction bs as [|x bs IH]; intros a; simpl; [case_decide; [lia|done]|].
  destruct (decide (b = a)) as [->|].
  - rewrite lookup_insert_eq, decide_True by lia. by rewrite Z.sub_diag.
  - rewrite lookup_insert_ne, IH by done. case_decide.
    + rewrite decide_True by lia.
      replace (Z.to_nat (b - a)) with (S (Z.to_nat (b - (a + 1)))) by lia. done.
    + by rewrite decide_False by lia.
Qed.

Lemma bytes_length n (ws : list Z) : length (mjoin (le_bytes n <$> ws)) = (n * length ws)%nat.
Proof.
  induction ws as [|w ws IH]; [cbn; lia|]. cbn [fmap list_fmap].
  change (length (le_bytes n w ++ mjoin (le_bytes n <$> ws)) = (n * S (length ws))%nat).
  rewrite length_app, le_bytes_length, IH. lia.
Qed.

Lemma load_bytes_lookup m a n bs i :
  load_bytes m a n = Some bs -> 0 <= i < Z.of_nat n -> m !! (a + i) = bs !! Z.to_nat i.
Proof.
  revert a bs i. induction n as [|n IH]; intros a bs i Hl Hi; [lia|]. simpl in Hl.
  destruct (m !! a) eqn:Ha; [|done]. destruct (load_bytes m (a + 1) n) eqn:Hn; [|done].
  injection Hl as <-. destruct (decide (i = 0)) as [->|]; [by rewrite Z.add_0_r|].
  replace (Z.to_nat i) with (S (Z.to_nat (i - 1))) by lia. simpl.
  rewrite <- (IH _ _ _ Hn) by lia. f_equal. lia.
Qed.

Lemma store_bytes_app m a xs ys :
  store_bytes m a (xs ++ ys) =
  match store_bytes m a xs with Some m' => store_bytes m' (a + Z.of_nat (length xs)) ys | None => None end.
Proof.
  revert m a. induction xs as [|x xs IH]; intros m a; cbn [app store_bytes length].
  - f_equal. lia.
  - destruct (m !! a); [|done]. rewrite IH. destruct (store_bytes _ (a + 1) xs); [|done]. f_equal. lia.
Qed.

Lemma store_bytes_dom m a bs m' x :
  store_bytes m a bs = Some m' -> is_Some (m' !! x) <-> is_Some (m !! x).
Proof.
  intros Hs. rewrite (store_bytes_lookup _ _ _ _ Hs). case_decide as Hx; [|done].
  split; intros _; [|apply lookup_lt_is_Some; lia].
  revert m a Hs Hx. induction bs as [|b bs IH]; intros m a; cbn [store_bytes length]; [lia|].
  destruct (m !! a) eqn:Ha; [|done]. intros Hs Hx. destruct (decide (x = a)) as [->|]; [by eexists|].
  rewrite <- (lookup_insert_ne m a x b) by done. apply (IH _ _ Hs). lia.
Qed.

Lemma load_bytes_split m a n k bs :
  load_bytes m a (n + k) = Some bs ->
  load_bytes m a n = Some (take n bs) /\ load_bytes m (a + Z.of_nat n) k = Some (drop n bs).
Proof.
  revert a bs. induction n as [|n IH]; intros a bs; cbn [Nat.add load_bytes].
  - rewrite Z.add_0_r. rewrite drop_0. done.
  - destruct (m !! a); [|done]. destruct (load_bytes m (a + 1) (n + k)) as [bs'|] eqn:Hl; [|done].
    intros [= <-]. destruct (IH _ _ Hl) as [H1 H2]. rewrite H1. cbn [take drop]. split; [done|].
    rewrite <- H2. f_equal. lia.
Qed.

(** A word stored among the bytes read. *)
Lemma load_at m a bs n v k post :
  load_bytes m a (length bs) = Some bs -> drop k bs = le_bytes n v ++ post -> (k <= length bs)%nat ->
  load m n (a + Z.of_nat k) = Some (v mod 2 ^ (8 * Z.of_nat n)).
Proof.
  intros Hl Hd Hk. replace (length bs) with (k + (length bs - k))%nat in Hl by lia.
  apply load_bytes_split in Hl as [_ Hl]. rewrite Hd in Hl.
  assert (Hn : (length bs - k)%nat = (n + length post)%nat).
  { rewrite <- length_drop, Hd, length_app, le_bytes_length. done. }
  rewrite Hn in Hl. apply load_bytes_split in Hl as [Hl _].
  rewrite take_app_le, take_ge in Hl by (rewrite le_bytes_length; lia).
  unfold load. rewrite Hl. cbn. by rewrite le_val_bytes.
Qed.


(** By computation, on concrete memories. *)
Lemma mapped_check m a n :
  forallb (fun i => bool_decide (is_Some (m !! (a + i)))) (zrange 0 (Z.to_nat n)) = true -> mapped m a n.
Proof.
  rewrite forallb_forall. intros H i Hi.
  apply (bool_decide_eq_true (is_Some (m !! (a + i)))), H, list_elem_of_In, elem_of_zrange. lia.
Qed.

Lemma mem_ok_check m : bool_decide (map_Forall (fun _ b => byte_ok b) m) = true -> mem_ok m.
Proof. rewrite bool_decide_eq_true. intros H a b Ha. exact (H a b Ha). Qed.

(** ** Reading is monotone

    What a computation reads in a memory it reads in every larger one. *)

Definition mono {A} (f : mem -> res A) : Prop :=
  forall m m' r, m ⊆ m' -> f m = Ok r -> f m' = Ok r.

Lemma load_bytes_mono m m' a n bs : m ⊆ m' -> load_bytes m a n = Some bs -> load_bytes m' a n = Some bs.
Proof.
  intros Hm. revert a bs. induction n as [|n IH]; intros a bs; cbn [load_bytes]; [done|].
  destruct (m !! a) as [b|] eqn:Ha; [|done]. rewrite (lookup_weaken _ _ _ _ Ha Hm).
  destruct (load_bytes m (a + 1) n) as [bs'|] eqn:Hl; [|done]. by rewrite (IH _ _ Hl).
Qed.

Lemma load_mono m m' n a v : m ⊆ m' -> load m n a = Some v -> load m' n a = Some v.
Proof.
  unfold load. intros Hm Hl. apply fmap_Some in Hl as (bs & Hb & ->).
  by rewrite (load_bytes_mono m m' a n bs Hm Hb).
Qed.

Lemma mono_const {A} (r : res A) : mono (fun _ => r).
Proof. by intros m m' x _. Qed.

Lemma mono_load n a : mono (fun m => of_opt (load m n a)).
Proof. intros m m' r Hm Hl. apply of_opt_Ok in Hl. apply of_opt_Ok. by eapply load_mono. Qed.

Lemma mono_bind {A B} (f : mem -> res A) (g : A -> mem -> res B) :
  mono f -> (forall a, mono (g a)) -> mono (fun m => let! a := f m in g a m).
Proof.
  intros Hf Hg m m' r Hm He. apply rbind_Ok in He as (a & Ha & Hr). rewrite (Hf m m' a Hm Ha). cbn [rbind].
  by apply (Hg a m m').
Qed.

(** Structural steps; lemmas about the functions called come from the database. *)
Create HintDb mono.
#[export] Hint Resolve mono_const mono_load : mono.
Ltac mono_step :=
  match goal with
  | |- mono _ => solve [eauto 2 with mono]
  | |- mono (fun m => rbind _ _) => apply mono_bind; [|intros]
  | |- mono (fun m => if ?b then _ else _) => destruct b
  | |- mono (fun m => match ?x with _ => _ end) => destruct x
  | x : _ * _ |- _ => destruct x
  end.
Ltac solve_mono := cbv zeta; repeat mono_step.
