(* ===== verification/CString.v ===== *)
(** Characters and strings of the C library: what the sources use of [strtoul],
    [strcmp], [strstr], [fgets] and [sscanf], on lists of character codes and on
    the memory of the process. *)
From S2P Require Import Prelude Memory.

(** The character codes of a literal. *)
Definition codes (s : string) : list Z := (fun c => Z.of_nat (Ascii.nat_of_ascii c)) <$> String.list_ascii_of_string s.

Definition NL : Z := 10.
Definition SPACE : Z := 32.

(** ** [strtoul] of the C library *)

Definition digit_of (base c : Z) : option Z :=
  let d := if (48 <=? c) && (c <=? 57) then c - 48
           else if (97 <=? c) && (c <=? 122) then c - 87
           else if (65 <=? c) && (c <=? 90) then c - 55
           else base in
  if d <? base then Some d else None.

Fixpoint digits (base acc : Z) (s : list Z) : Z :=
  match s with
  | [] => acc
  | c :: s' => match digit_of base c with
               | Some d => digits base (acc * base + d) s'
               | None => acc
               end
  end.

Definition is_space (c : Z) : bool := (c =? SPACE) || ((9 <=? c) && (c <=? 13)).

Fixpoint skip_spaces (s : list Z) : list Z :=
  match s with [] => [] | c :: s' => if is_space c then skip_spaces s' else s end.

(** The prefix [0x] belongs to a hexadecimal number when a digit follows. *)
Definition hex_prefix (base : Z) (s : list Z) : list Z :=
  match s with
  | 48 :: x :: d :: s' =>
      if (base =? 16) && ((x =? 120) || (x =? 88)) && bool_decide (is_Some (digit_of 16 d))
      then d :: s' else s
  | _ => s
  end.

Definition sign (s : list Z) : bool * list Z :=
  match s with 45 :: s' => (true, s') | 43 :: s' => (false, s') | _ => (false, s) end.

(** [strtoul] on a string cut at its NUL; [ULONG_MAX] on overflow. *)
Definition strtoul `{Arch} (base : Z) (s : list Z) : Z :=
  let s := skip_spaces s in
  let '(neg, s) := sign s in
  let v := digits base 0 (hex_prefix base s) in
  if 2 ^ ptr_bits <=? v then 2 ^ ptr_bits - 1
  else if neg then uwrap ptr_bits (- v) else v.

(** A string up to its NUL. *)
Fixpoint until_nul (s : list Z) : list Z :=
  match s with [] => [] | c :: s' => if c =? 0 then [] else c :: until_nul s' end.
(** ** Hexadecimal text *)

Definition hex_digit (d : Z) : Z := if d <? 10 then 48 + d else 87 + d.

(** The [n] hexadecimal digits of [v], as the kernel prints addresses. *)
Fixpoint hex_of (n : nat) (v : Z) : list Z :=
  match n with O => [] | S n' => hex_of n' (v / 16) ++ [hex_digit (v mod 16)] end.

Lemma hex_of_length n v : length (hex_of n v) = n.
Proof. revert v. induction n as [|n IH]; intros v; simpl; [done|]. rewrite length_app, IH. simpl. lia. Qed.

Lemma digit_of_hex d : 0 <= d < 16 -> digit_of 16 (hex_digit d) = Some d.
Proof.
  intros Hd. assert (H : bool_decide (digit_of 16 (hex_digit d) = Some d) = true).
  { by_range d 16%nat. }
  by apply bool_decide_eq_true in H.
Qed.

Lemma digits_app base acc s s' :
  Forall (fun c => is_Some (digit_of base c)) s ->
  digits base acc (s ++ s') = digits base (digits base acc s) s'.
Proof.
  intros Hs. revert acc. induction Hs as [|c s [d Hd] Hs IH]; intros acc; [done|].
  simpl. by rewrite Hd.
Qed.

Lemma hex_of_digits n v : Forall (fun c => is_Some (digit_of 16 c)) (hex_of n v).
Proof.
  revert v. induction n as [|n IH]; intros v; simpl; [constructor|].
  apply Forall_app. split; [apply IH|]. constructor; [|constructor].
  rewrite digit_of_hex by (apply Z.mod_pos_bound; lia). by eexists.
Qed.

Lemma digits_hex n v acc :
  0 <= v < 16 ^ Z.of_nat n -> digits 16 acc (hex_of n v) = acc * 16 ^ Z.of_nat n + v.
Proof.
  revert v acc. induction n as [|n IH]; intros v acc Hv; [simpl in *; lia|].
  replace (Z.of_nat (S n)) with (Z.of_nat n + 1) in * by lia. rewrite Z.pow_add_r in * by lia.
  cbn [hex_of]. rewrite digits_app by apply hex_of_digits.
  pose proof (Z.div_mod v 16 ltac:(lia)). pose proof (Z.mod_pos_bound v 16 ltac:(lia)).
  rewrite IH by (split; [apply Z.div_pos; lia|apply Z.div_lt_upper_bound; lia]).
  cbn [digits]. rewrite digit_of_hex by done. lia.
Qed.

Lemma hex_digit_char d : 0 <= d < 16 -> hex_digit d <> 0 /\ hex_digit d <> NL.
Proof. intros. unfold hex_digit, NL. destruct (Z.ltb_spec d 10); lia. Qed.

Lemma hex_of_chars n v : Forall (fun c => c <> 0 /\ c <> NL) (hex_of n v).
Proof.
  revert v. induction n as [|n IH]; intros v; simpl; [constructor|].
  apply Forall_app. split; [apply IH|]. constructor; [|constructor].
  apply hex_digit_char, Z.mod_pos_bound. lia.
Qed.

Lemma until_nul_app s s' : Forall (fun c => c <> 0) s -> until_nul (s ++ 0 :: s') = s.
Proof.
  induction 1 as [|c s Hc Hs IH]; [done|]. simpl. destruct (Z.eqb_spec c 0); [done|]. by rewrite IH.
Qed.

(** [strtoul] reads back an address printed in hexadecimal. *)
Lemma strtoul_hex `{Arch} n v :
  (0 < n)%nat -> 0 <= v < 16 ^ Z.of_nat n -> v < 2 ^ ptr_bits ->
  strtoul 16 (48 :: 120 :: hex_of n v) = v.
Proof.
  intros Hn Hv Hp. unfold strtoul. cbn [skip_spaces is_space Z.eqb Z.leb Z.compare orb andb].
  change (is_space 48) with false. cbv iota.
  destruct (hex_of n v) as [|d s] eqn:He.
  { pose proof (hex_of_length n v) as Hl. rewrite He in Hl. simpl in Hl. lia. }
  cbn [sign hex_prefix]. pose proof (hex_of_digits n v) as Hd. rewrite He in Hd.
  rewrite bool_decide_true by (by apply Forall_cons in Hd as [? _]). cbn [andb orb Z.eqb Pos.eqb].
  change ((16 =? 16) && ((120 =? 120) || (120 =? 88)) && true) with true. cbv iota.
  rewrite <- He, digits_hex by done. rewrite Z.mul_0_l, Z.add_0_l.
  destruct (Z.leb_spec (2 ^ ptr_bits) v); [lia|done].
Qed.

(** ** Strings in memory *)

(** The bytes of a C string at [a]. *)
Definition no_nul (s : list Z) : Prop := Forall (fun c => c <> 0) s.
Definition cstr_at (m : mem) (a : Z) (s : list Z) : Prop :=
  load_bytes m a (length s + 1) = Some (s ++ [0]).

(** [0 == strcmp(s, a)]: reads [a] up to the first difference. *)
Fixpoint strcmp_eq (m : mem) (s : list Z) (a : Z) : res bool :=
  match s with
  | [] => let! b := of_opt (load8 m a) in Ok (b =? 0)
  | c :: s' =>
      let! b := of_opt (load8 m a) in
      if b =? c then strcmp_eq m s' (a + 1) else Ok false
  end.

(** The characters of [s] at [a], compared in order: [a\[0\] != s\[0\] || ..]. *)
Fixpoint strcmp_prefix (m : mem) (s : list Z) (a : Z) : res bool :=
  match s with
  | [] => Ok true
  | c :: s' =>
      let! b := of_opt (load8 m a) in
      if b =? c then strcmp_prefix m s' (a + 1) else Ok false
  end.

Lemma load8_cons m a c s :
  load_bytes m a (S (length s)) = Some (c :: s) -> load8 m a = Some c /\ load_bytes m (a + 1) (length s) = Some s.
Proof.
  unfold load. cbn [load_bytes]. destruct (m !! a); [|done].
  destruct (load_bytes m (a + 1) (length s)); [|done]. intros [= -> ->]. split; [|done]. cbn. f_equal. lia.
Qed.

Lemma cstr_at_cons m a c s : cstr_at m a (c :: s) -> load8 m a = Some c /\ cstr_at m (a + 1) s.
Proof.
  unfold cstr_at. cbn [length app Nat.add]. intros Hl.
  replace (length s + 1)%nat with (length (s ++ [0])) in * by (rewrite length_app; done).
  by apply load8_cons.
Qed.

Lemma cstr_at_nil m a : cstr_at m a [] -> load8 m a = Some 0.
Proof. intros Hl. by apply (load8_cons m a 0 []) in Hl as [? _]. Qed.

Lemma strcmp_eq_spec m s t a :
  no_nul s -> no_nul t -> cstr_at m a t -> strcmp_eq m s a = Ok (bool_decide (s = t)).
Proof.
  intros Hs. revert t a. induction Hs as [|c s Hc Hs IH]; intros t a Ht Hat; cbn [strcmp_eq].
  - destruct t as [|d t].
    + by rewrite (cstr_at_nil _ _ Hat).
    + destruct (cstr_at_cons _ _ _ _ Hat) as [-> _]. cbn [of_opt rbind].
      apply Forall_cons in Ht as [Hd _]. by destruct (Z.eqb_spec d 0).
  - destruct t as [|d t].
    + rewrite (cstr_at_nil _ _ Hat). cbn [of_opt rbind]. by destruct (Z.eqb_spec 0 c).
    + destruct (cstr_at_cons _ _ _ _ Hat) as [-> Hat']. cbn [of_opt rbind].
      apply Forall_cons in Ht as [Hd Ht]. destruct (Z.eqb_spec d c) as [->|Hne].
      * rewrite (IH t) by done. f_equal. apply bool_decide_ext. split; [by intros ->|congruence].
      * rewrite bool_decide_false by congruence. done.
Qed.

(** ** [strstr]: whether [p] occurs in [s] *)

Fixpoint strstr (s p : list Z) : bool :=
  bool_decide (take (length p) s = p) || match s with [] => false | _ :: s' => strstr s' p end.

Lemma strstr_app a p b : strstr (a ++ p ++ b) p = true.
Proof.
  induction a as [|c a IH]; cbn [app strstr].
  - destruct (p ++ b) eqn:He; cbn [strstr]; rewrite <- He, take_app_length, bool_decide_true by done; done.
  - rewrite IH. apply orb_true_r.
Qed.

(** ** [fgets(line, n + 1, file)] until the end of the file *)

Fixpoint fgets_all (n : nat) (cur : list Z) (file : list Z) : list (list Z) :=
  match file with
  | [] => match cur with [] => [] | _ => [cur] end
  | c :: file' =>
      let cur := cur ++ [c] in
      if (c =? NL) || (n <=? length cur)%nat then cur :: fgets_all n [] file' else fgets_all n cur file'
  end.

Definition text_line (l : list Z) : list Z := l ++ [NL].

Lemma fgets_all_line n cur l file :
  Forall (fun c => c <> NL) l -> (length cur + length l < n)%nat ->
  fgets_all n cur (text_line l ++ file) = text_line (cur ++ l) :: fgets_all n [] file.
Proof.
  unfold text_line. intros Hl. revert cur. induction Hl as [|c l Hc Hl IH]; intros cur Hn; cbn [app fgets_all].
  - rewrite Z.eqb_refl. cbn [orb]. by rewrite app_nil_r.
  - destruct (Z.eqb_spec c NL); [done|]. cbn [length] in Hn.
    destruct (Nat.leb_spec n (length (cur ++ [c]))) as [Hle|_]; [rewrite length_app in Hle; cbn in Hle; lia|].
    cbn [orb]. rewrite (IH (cur ++ [c])) by (rewrite length_app; cbn [length]; lia). by rewrite <- !app_assoc.
Qed.

Lemma fgets_all_lines n ls :
  Forall (fun l => Forall (fun c => c <> NL) l /\ (length l < n)%nat) ls ->
  fgets_all n [] (mjoin (text_line <$> ls)) = text_line <$> ls.
Proof.
  induction 1 as [|l ls [Hl Hn] Hls IH]; [done|]. cbn [fmap list_fmap mjoin list_join].
  rewrite fgets_all_line by (done || (cbn; lia)). f_equal. exact IH.
Qed.

(** ** [sscanf] *)

Fixpoint skip_digits (base : Z) (s : list Z) : list Z :=
  match s with
  | [] => []
  | c :: s' => if bool_decide (is_Some (digit_of base c)) then skip_digits base s' else s
  end.

(** [%lx] (and [PRIxPTR]): the number and the rest. *)
Definition scan_hex `{Arch} (s : list Z) : option (Z * list Z) :=
  let s := skip_spaces s in
  let d := hex_prefix 16 (snd (sign s)) in
  match d with
  | c :: _ => if bool_decide (is_Some (digit_of 16 c)) then Some (strtoul 16 s, skip_digits 16 d) else None
  | [] => None
  end.

(** A literal character. *)
Definition scan_lit (c : Z) (s : list Z) : option (list Z) :=
  match s with c' :: s' => if c' =? c then Some s' else None | [] => None end.

(** [%ns]: at least one and at most [n] characters that are not spaces. *)
Fixpoint word (n : nat) (s : list Z) : list Z :=
  match n, s with
  | S n', c :: s' => if is_space c then [] else c :: word n' s'
  | _, _ => []
  end.
Definition scan_word (n : nat) (s : list Z) : option (list Z * list Z) :=
  match word n (skip_spaces s) with
  | [] => None
  | w => Some (w, drop (length w) (skip_spaces s))
  end.

Lemma digit_of_16 c :
  is_Some (digit_of 16 c) -> 48 <= c <= 57 \/ 65 <= c <= 70 \/ 97 <= c <= 102.
Proof.
  unfold digit_of. intros [d Hd].
  destruct (Z.leb_spec 48 c), (Z.leb_spec c 57), (Z.leb_spec 97 c), (Z.leb_spec c 122), (Z.leb_spec 65 c),
    (Z.leb_spec c 90); cbn [andb] in Hd; try lia; revert Hd;
    match goal with |- context [?x <? 16] => destruct (Z.ltb_spec x 16); intros; try done; lia end.
Qed.

(** A number that starts with two digits: no blank, no sign, no prefix. *)
Lemma plain_number `{Arch} a b l :
  is_Some (digit_of 16 a) -> is_Some (digit_of 16 b) ->
  scan_hex (a :: b :: l) = Some (Z.min (digits 16 0 (a :: b :: l)) (2 ^ ptr_bits - 1), skip_digits 16 (a :: b :: l)).
Proof.
  intros Ha Hb. pose proof (digit_of_16 a Ha) as Ha'. pose proof (digit_of_16 b Hb) as Hb'.
  assert (Hs : skip_spaces (a :: b :: l) = a :: b :: l).
  { cbn [skip_spaces]. unfold is_space, SPACE. destruct (Z.eqb_spec a 32); [lia|].
    destruct (Z.leb_spec 9 a), (Z.leb_spec a 13); try lia; done. }
  assert (Hp : hex_prefix 16 (a :: b :: l) = a :: b :: l).
  { unfold hex_prefix. destruct (Z.eqb_spec b 120), (Z.eqb_spec b 88); try lia; cbn [orb].
    destruct l; repeat case_match; done. }
  assert (Hsign : sign (a :: b :: l) = (false, a :: b :: l)).
  { unfold sign. repeat case_match; simplify_eq; lia || done. }
  unfold scan_hex, strtoul. rewrite Hs, Hsign; cbn [snd]. rewrite Hp, bool_decide_true, Hs, Hsign by done. cbv beta iota zeta.
  rewrite Hp. destruct (Z.leb_spec (2 ^ ptr_bits) (digits 16 0 (a :: b :: l)));
    [rewrite Z.min_r by lia|rewrite Z.min_l by lia]; done.
Qed.

Lemma hex_scan `{Arch} n v s :
  (2 <= n)%nat -> 0 <= v < 16 ^ Z.of_nat n -> v < 2 ^ ptr_bits ->
  match s with c :: _ => digit_of 16 c = None | [] => True end ->
  scan_hex (hex_of n v ++ s) = Some (v, s).
Proof.
  intros Hn Hv Hp Hs. pose proof (hex_of_digits n v) as Hd.
  assert (Hdig : digits 16 0 (hex_of n v ++ s) = v).
  { rewrite digits_app, digits_hex by done. destruct s as [|c s]; cbn [digits]; [lia|rewrite Hs; lia]. }
  assert (Hskip : skip_digits 16 (hex_of n v ++ s) = s).
  { clear -Hd Hs. induction Hd as [|c l Hc Hl IH]; cbn [app skip_digits].
    - destruct s as [|c s]; [done|]. cbn [skip_digits]. rewrite Hs. done.
    - by rewrite bool_decide_true. }
  pose proof (hex_of_length n v) as Hlen. destruct (hex_of n v) as [|a [|b l]]; [cbn in Hlen; lia..|].
  apply Forall_cons in Hd as [Ha Hd]. apply Forall_cons in Hd as [Hb Hd]. cbn [app] in *.
  rewrite plain_number by done. rewrite Hdig, Hskip, Z.min_l by lia. done.
Qed.

Lemma mono_strcmp_eq s a : mono (fun m => strcmp_eq m s a).
Proof. revert a. induction s as [|c s IH]; intros a; cbn [strcmp_eq]; solve_mono. Qed.

Lemma mono_strcmp_prefix s a : mono (fun m => strcmp_prefix m s a).
Proof. revert a. induction s as [|c s IH]; intros a; cbn [strcmp_prefix]; solve_mono. Qed.
#[export] Hint Resolve mono_strcmp_eq mono_strcmp_prefix : mono.
