(* ===== verification/Cache.v ===== *)
(** The types of Cache.h and the interface every leak cache implements: the
    virtual methods [reset], [insert], [remove], [print] of [class Cache] as a
    [Record] of operations, and the contract the hook proxies rely on as a
    type class.  The proxies (HookProxy.v) are proved against the contract;
    MemoryCache.v discharges it. *)
From S2P Require Import Prelude.

Definition MAX_TRACE_DEPTH : nat := 16.
Definition ALLOC_INDEX_SIZE : Z := 1 .<< 16.
Definition ALLOC_CACHE_SIZE : Z := 1 .<< 15.
Definition ADDR_HASH_OFFSET `{Arch} : Z := if lp64 then 6 else 4.

(** [Backtrace]: the unwinder fills [bt_trace], an array of [MAX_TRACE_DEPTH]
    words, and sets [bt_depth]. *)
Record Backtrace := { bt_depth : Z; bt_trace : list Z }.

(** [AllocNode]; pointers to nodes are indices into the pool's array. *)
Record AllocNode := {
  an_size : Z;              (* uint32_t *)
  an_addr : Z;
  an_trace : list Z;        (* uintptr_t[MAX_TRACE_DEPTH] *)
  an_next : option nat
}.

#[export] Instance AllocNode_eq_dec : EqDecision AllocNode.
Proof. solve_decision. Defined.

Definition set_next (n : AllocNode) (q : option nat) : AllocNode :=
  {| an_size := an_size n; an_addr := an_addr n; an_trace := an_trace n; an_next := q |}.

(** What a report shows of a node: address, size and the trace up to its zero
    terminator. *)
Record alloc_record := { r_addr : Z; r_size : Z; r_trace : list Z }.

#[export] Instance alloc_record_eq_dec : EqDecision alloc_record.
Proof. solve_decision. Defined.

Fixpoint until_zero (l : list Z) : list Z :=
  match l with
  | [] => []
  | x :: l' => if x =? 0 then [] else x :: until_zero l'
  end.

Definition record_of (n : AllocNode) : alloc_record :=
  {| r_addr := an_addr n; r_size := an_size n; r_trace := until_zero (an_trace n) |}.

(** The record [insert] is to store: [depth - 2] frames from the third one on,
    one frame when there are at most two, the size as a [uint32_t]. *)
Definition trace_depth (bt : Backtrace) : Z :=
  if 2 <? bt_depth bt then bt_depth bt - 2 else 1.

Definition new_record (address size : Z) (bt : Backtrace) : alloc_record :=
  {| r_addr := address; r_size := u32 size;
     r_trace := until_zero (take (Z.to_nat (trace_depth bt)) (drop 2 (bt_trace bt))) |}.

(** A backtrace the fixed-size buffers can hold. *)
Definition bt_ok (bt : Backtrace) : Prop :=
  length (bt_trace bt) = MAX_TRACE_DEPTH /\ 0 <= bt_depth bt <= Z.of_nat MAX_TRACE_DEPTH.

#[export] Instance bt_ok_dec bt : Decision (bt_ok bt).
Proof. unfold bt_ok. apply _. Defined.

(** The operations of [class Cache]. *)
Record cache_ops (C : Type) := {
  c_reset : C -> C;
  c_insert : C -> Z -> Z -> Backtrace -> res C;
  c_remove : C -> Z -> res C;
  c_print : C -> res (list alloc_record)
}.
Arguments c_reset {C} _ _.
Arguments c_insert {C} _ _ _ _ _.
Arguments c_remove {C} _ _ _.
Arguments c_print {C} _ _.

(** The contract.  [view c a] is the list of live records of address [a],
    newest first; [room c] counts the records that can still be stored. *)
Class CacheSpec {C : Type} (ops : cache_ops C) := {
  wf : C -> Prop;
  view : C -> Z -> list alloc_record;
  room : C -> nat;
  made : C -> Prop;          (* constructed, not necessarily reset yet *)
  capacity : C -> nat;

  reset_view c :
    made c ->
    wf (c_reset ops c) /\ room (c_reset ops c) = capacity c /\
    forall a, view (c_reset ops c) a = [];
  insert_room c a s bt :
    wf c -> bt_ok bt -> (0 < room c)%nat ->
    exists c', c_insert ops c a s bt = Ok c' /\ wf c' /\
      room c = S (room c') /\
      view c' a = new_record a s bt :: view c a /\
      (forall b, b <> a -> view c' b = view c b);
  insert_full c a s bt :
    wf c -> room c = 0%nat -> c_insert ops c a s bt = Ok c;
  remove_view c a :
    wf c ->
    exists c', c_remove ops c a = Ok c' /\ wf c' /\
      room c' = (room c + match view c a with [] => 0 | _ => 1 end)%nat /\
      view c' a = tail (view c a) /\
      (forall b, b <> a -> view c' b = view c b);
  print_view c :
    wf c ->
    exists l, c_print ops c = Ok l /\
      forall a, filter (fun r => r_addr r = a) l = view c a
}.

(** ** Running a cache against its abstract specification

    The specification of a cache of capacity [cap] is the list of live records,
    newest first. *)
Inductive cache_op :=
| OInsert (a s : Z) (bt : Backtrace)
| ORemove (a : Z).

Definition op_ok (o : cache_op) : Prop :=
  match o with OInsert _ _ bt => bt_ok bt | ORemove _ => True end.

#[export] Instance op_ok_dec o : Decision (op_ok o).
Proof. destruct o; simpl; apply _. Defined.

Fixpoint remove_first (a : Z) (l : list alloc_record) : list alloc_record :=
  match l with
  | [] => []
  | r :: l' => if r_addr r =? a then l' else r :: remove_first a l'
  end.

Definition spec_step (cap : nat) (l : list alloc_record) (o : cache_op) : list alloc_record :=
  match o with
  | OInsert a s bt => if decide (length l < cap)%nat then new_record a s bt :: l else l
  | ORemove a => remove_first a l
  end.

Section Run.
Context {C : Type} (ops : cache_ops C).

Definition run_op (c : C) (o : cache_op) : res C :=
  match o with
  | OInsert a s bt => c_insert ops c a s bt
  | ORemove a => c_remove ops c a
  end.

Fixpoint run_ops (c : C) (l : list cache_op) : res C :=
  match l with
  | [] => Ok c
  | o :: l' => let! c' := run_op c o in run_ops c' l'
  end.
End Run.

Section Refine.
Context {C : Type} {ops : cache_ops C} `{!CacheSpec ops}.

(** The simulation relation. *)
Definition refines (cap : nat) (c : C) (l : list alloc_record) : Prop :=
  wf c /\ (room c + length l = cap)%nat /\
  forall a, view c a = filter (fun r => r_addr r = a) l.

Lemma filter_remove_first_eq a l :
  filter (fun r => r_addr r = a) (remove_first a l) =
  tail (filter (fun r => r_addr r = a) l).
Proof.
  induction l as [|r l IH]; [done|]. simpl.
  destruct (Z.eqb_spec (r_addr r) a); rewrite (filter_cons _ r);
    [by rewrite decide_True|].
  rewrite decide_False, filter_cons_False by done. apply IH.
Qed.

Lemma filter_remove_first_ne a b l :
  b <> a ->
  filter (fun r => r_addr r = b) (remove_first a l) = filter (fun r => r_addr r = b) l.
Proof.
  intros Hb. induction l as [|r l IH]; [done|]. simpl.
  destruct (Z.eqb_spec (r_addr r) a); rewrite (filter_cons _ r).
  - by rewrite decide_False by congruence.
  - by rewrite filter_cons, IH.
Qed.

Lemma length_remove_first a l :
  (length (remove_first a l) +
     match filter (fun r => r_addr r = a) l with [] => 0 | _ => 1 end)%nat = length l.
Proof.
  induction l as [|r l IH]; [done|]. simpl. rewrite filter_cons.
  destruct (Z.eqb_spec (r_addr r) a).
  - rewrite decide_True by done. simpl. lia.
  - rewrite decide_False by done. simpl. lia.
Qed.

Lemma refines_step cap c l o :
  refines cap c l -> op_ok o ->
  exists c', run_op ops c o = Ok c' /\ refines cap c' (spec_step cap l o).
Proof.
  intros (Hwf & Hroom & Hview) Hok. destruct o as [a s bt|a]; simpl.
  - case_decide as Hd.
    + destruct (insert_room c a s bt Hwf Hok ltac:(lia)) as (c' & Hi & Hwf' & Hr & Ha & Hb).
      exists c'. split; [done|]. split; [done|]. split; [simpl; lia|]. intros b.
      destruct (decide (b = a)) as [->|Hne].
      * by rewrite Ha, Hview, filter_cons_True.
      * rewrite Hb, Hview, filter_cons_False; simpl; [done|congruence|done].
    + exists c. split; [|done]. apply insert_full; [done|lia].
  - destruct (remove_view c a Hwf) as (c' & Hi & Hwf' & Hr & Ha & Hb).
    exists c'. split; [done|]. split; [done|]. split.
    + pose proof (length_remove_first a l). rewrite Hview in Hr. lia.
    + intros b. destruct (decide (b = a)) as [->|Hne].
      * by rewrite Ha, Hview, filter_remove_first_eq.
      * by rewrite Hb, Hview, filter_remove_first_ne.
Qed.

Lemma refines_run cap ol c l :
  refines cap c l -> Forall op_ok ol ->
  exists c', run_ops ops c ol = Ok c' /\ refines cap c' (foldl (spec_step cap) l ol).
Proof.
  revert c l. induction ol as [|o ol IH]; intros c l Hs Hok; [by exists c|].
  apply Forall_cons in Hok as [Ho Hok].
  destruct (refines_step cap c l o Hs Ho) as (c1 & H1 & Hs1). simpl. rewrite H1. by apply IH.
Qed.

Lemma refines_reset c : made c -> refines (capacity c) (c_reset ops c) [].
Proof.
  intros Hm. destruct (reset_view c Hm) as (Hwf & Hr & Hv). split; [done|].
  split; [simpl; lia|]. intros a. by rewrite Hv.
Qed.

Lemma refines_print cap c l :
  refines cap c l -> exists l', c_print ops c = Ok l' /\ l' ≡ₚ l.
Proof.
  intros (Hwf & _ & Hv). destruct (print_view c Hwf) as (l' & Hp & Hl').
  exists l'. split; [done|]. apply (Permutation_by_key r_addr). intros a. by rewrite Hl', Hv.
Qed.
End Refine.
