(* ===== verification/AllocPool.v ===== *)
(** The node pool of AllocPool.hpp: an array of nodes handed out through a bump
    counter [mIndex] and a lock-free free list [mStack] threaded through the
    nodes' [next] fields.  Module [Seq] is the effect of each method run without
    interference; Module [Conc] is its atomic steps, for interleavings. *)
From S2P Require Import Prelude Cache.

Module Seq.

(** [AllocPool]; the nodes [mCache\[0..mCount)] live in the heap the cache
    shares. *)
Record AllocPool := {
  mCount : Z;
  mIndex : Z;                 (* std::atomic<uint> *)
  mStack : option nat
}.

(** Node storage as [malloc] returns it: [raw i] is the uninitialised content of
    node [i]. *)
Definition malloc_nodes (count : nat) (raw : nat -> AllocNode) : gmap nat AllocNode :=
  list_to_map ((fun i => (i, raw i)) <$> seq 0 count).

Definition reset (p : AllocPool) : AllocPool :=
  {| mCount := mCount p; mIndex := 0; mStack := None |}.

(** [apply]: pop the free list, else bump the counter, else [nullptr]. *)
Definition apply (p : AllocPool) (h : gmap nat AllocNode) : res (option nat * AllocPool) :=
  match mStack p with
  | Some i =>
      let! n := of_opt (h !! i) in
      Ok (Some i, {| mCount := mCount p; mIndex := mIndex p; mStack := an_next n |})
  | None =>
      let ii := mIndex p in
      if ii <? mCount p
      then Ok (Some (Z.to_nat ii),
               {| mCount := mCount p; mIndex := u32 (ii + 1); mStack := None |})
      else Ok (None, p)
  end.

(** [recycle]: push on the free list; writes the node's [next]. *)
Definition recycle (i : nat) (p : AllocPool) (h : gmap nat AllocNode)
    : res (AllocPool * gmap nat AllocNode) :=
  let! n := of_opt (h !! i) in
  Ok ({| mCount := mCount p; mIndex := mIndex p; mStack := Some i |},
      <[i := set_next n (mStack p)]> h).

Lemma malloc_nodes_lookup count raw i :
  malloc_nodes count raw !! i = if decide (i < count)%nat then Some (raw i) else None.
Proof.
  unfold malloc_nodes. case_decide as Hi.
  - apply elem_of_list_to_map_1.
    + rewrite <- list_fmap_compose. simpl. rewrite list_fmap_id. apply NoDup_seq.
    + apply list_elem_of_fmap. exists i. split; [done|]. apply elem_of_seq. lia.
  - apply not_elem_of_list_to_map_1. rewrite <- list_fmap_compose. simpl.
    rewrite list_fmap_id. rewrite elem_of_seq. lia.
Qed.

Lemma malloc_nodes_size count raw : size (malloc_nodes count raw) = count.
Proof.
  unfold malloc_nodes. rewrite map_size_list_to_map.
  - by rewrite length_fmap, length_seq.
  - rewrite <- list_fmap_compose. simpl. rewrite list_fmap_id. apply NoDup_seq.
Qed.

End Seq.

(** The atomic steps of [apply] and [recycle], one shared access each, under
    sequential consistency (the orders the code asks for are weaker still). *)
Module Conc.
Import Seq.

(** Where a thread is. *)
Inductive pc :=
| Idle
| ApplyLoad                                 (* p = mStack.load() *)
| PopNext (p : nat)                         (* while (p != nullptr) read p->next *)
| PopCas (p : nat) (next : option nat)      (* mStack.compare_exchange_weak(p, next) *)
| IndexLoad                                 (* ii = mIndex.load() *)
| IndexCas (ii : Z)                         (* while (ii < mCount) mIndex.compare_exchange_weak(ii, ii + 1) *)
| RecycleLoad (p : nat)                     (* mStack.load() *)
| RecycleStore (p : nat) (h : option nat)   (* p->next = h *)
| RecycleCas (p : nat).                     (* mStack.compare_exchange_weak(p->next, p) *)

(** [held]: the nodes [apply] has returned and no [recycle] has taken back yet,
    once for each time it was returned. *)
Record state := { pool : AllocPool; heap : gmap nat AllocNode; threads : gmap nat pc; held : list nat }.

Definition set_pc (t : nat) (c : pc) (s : state) : state :=
  {| pool := pool s; heap := heap s; threads := <[t := c]> (threads s); held := held s |}.
Definition set_held (l : list nat) (s : state) : state :=
  {| pool := pool s; heap := heap s; threads := threads s; held := l |}.
Definition set_stack (h : option nat) (s : state) : state :=
  {| pool := {| mCount := mCount (pool s); mIndex := mIndex (pool s); mStack := h |}; heap := heap s;
     threads := threads s; held := held s |}.
Definition set_index (ii : Z) (s : state) : state :=
  {| pool := {| mCount := mCount (pool s); mIndex := ii; mStack := mStack (pool s) |}; heap := heap s;
     threads := threads s; held := held s |}.
Definition set_node (i : nat) (n : AllocNode) (s : state) : state :=
  {| pool := pool s; heap := <[i := n]> (heap s); threads := threads s; held := held s |}.

(** What the thread does next: a call, a write to a node that was handed out, or
    one step of the call it is in, whose compare-exchange may fail spuriously. *)
Inductive action := CallApply | CallRecycle (p : nat) | Write (p : nat) (n : AllocNode) | Run (spurious : bool).

(** The list without one of its [p]s. *)
Fixpoint give_back (p : nat) (l : list nat) : option (list nat) :=
  match l with
  | [] => None
  | i :: l' => if decide (i = p) then Some l' else cons i <$> give_back p l'
  end.

(** The head of the loops over [p]. *)
Definition pop_loop (h : option nat) : pc := match h with Some p => PopNext p | None => IndexLoad end.

Definition tstep (t : nat) (a : action) (s : state) : option state :=
  c ← threads s !! t;
  match c, a with
  | Idle, CallApply => Some (set_pc t ApplyLoad s)
  | Idle, CallRecycle p => l ← give_back p (held s); Some (set_pc t (RecycleLoad p) (set_held l s))
  | Idle, Write p n => if bool_decide (p ∈ held s) then Some (set_node p n s) else None
  | ApplyLoad, Run _ => Some (set_pc t (pop_loop (mStack (pool s))) s)
  | PopNext p, Run _ => n ← heap s !! p; Some (set_pc t (PopCas p (an_next n)) s)
  | PopCas p next, Run spurious =>
      if negb spurious && bool_decide (mStack (pool s) = Some p)
      then Some (set_pc t Idle (set_held (p :: held s) (set_stack next s)))
      else Some (set_pc t (pop_loop (mStack (pool s))) s)
  | IndexLoad, Run _ => Some (set_pc t (IndexCas (mIndex (pool s))) s)
  | IndexCas ii, Run spurious =>
      if ii <? mCount (pool s) then
        if negb spurious && (mIndex (pool s) =? ii)
        then Some (set_pc t Idle (set_held (Z.to_nat ii :: held s) (set_index (u32 (ii + 1)) s)))
        else Some (set_pc t (IndexCas (mIndex (pool s))) s)
      else Some (set_pc t Idle s)
  | RecycleLoad p, Run _ => Some (set_pc t (RecycleStore p (mStack (pool s))) s)
  | RecycleStore p h, Run _ => n ← heap s !! p; Some (set_pc t (RecycleCas p) (set_node p (set_next n h) s))
  | RecycleCas p, Run spurious =>
      n ← heap s !! p;
      if negb spurious && bool_decide (mStack (pool s) = an_next n)
      then Some (set_pc t Idle (set_stack (Some p) s))
      else Some (set_node p (set_next n (mStack (pool s))) s)
  | _, _ => None
  end.

Lemma tstep_count t a s s' : tstep t a s = Some s' -> mCount (pool s') = mCount (pool s).
Proof. unfold tstep. intros. repeat (case_match || simplify_option_eq); done. Qed.

Definition step (s s' : state) : Prop := exists t a, tstep t a s = Some s'.

(** A schedule: which thread does what. *)
Fixpoint exec (l : list (nat * action)) (s : state) : option state :=
  match l with [] => Some s | (t, a) :: l' => s ← tstep t a s; exec l' s end.

(** After the constructor and [reset], with [n] threads. *)
Definition init (n count : nat) (raw : nat -> AllocNode) : state :=
  {| pool := {| mCount := Z.of_nat count; mIndex := 0; mStack := None |}; heap := malloc_nodes count raw;
     threads := list_to_map ((fun t => (t, Idle)) <$> seq 0 n); held := [] |}.

(** *** Invariant *)

(** The free list. *)
Fixpoint chain (h : gmap nat AllocNode) (head : option nat) (l : list nat) : Prop :=
  match l with
  | [] => head = None
  | i :: l' => head = Some i /\ exists n, h !! i = Some n /\ chain h (an_next n) l'
  end.

(** The node a thread is giving back, and the one it tries to pop. *)
Definition giving (c : pc) : option nat :=
  match c with RecycleLoad p | RecycleStore p _ | RecycleCas p => Some p | _ => None end.
Definition popping (c : pc) : option nat := match c with PopNext p | PopCas p _ => Some p | _ => None end.

(** No thread gives a node back while another one is in the loop that pops one. *)
Definition phased (s : state) : Prop :=
  forall t t' c c' p, threads s !! t = Some c -> threads s !! t' = Some c' -> popping c = Some p -> giving c' = None.
Definition phased_step (s s' : state) : Prop := phased s /\ step s s'.

(** What a thread that is popping knows: the node has not come back into the list,
    and while it is the head its successor is the one read. *)
Definition pop_ok (s : state) (l : list nat) (c : pc) : Prop :=
  match c with
  | PopNext p => p ∉ tail l
  | PopCas p next => p ∉ tail l /\ (mStack (pool s) = Some p -> exists n, heap s !! p = Some n /\ an_next n = next)
  | _ => True
  end.

(** [l]: the free list.  A node is free, held, being given back by one thread, or
    not handed out yet. *)
Record inv (s : state) (l : list nat) : Prop := {
  i_count : 0 <= mCount (pool s) < 2 ^ 32;
  i_index : 0 <= mIndex (pool s) <= mCount (pool s);
  i_heap : forall i, is_Some (heap s !! i) <-> Z.of_nat i < mCount (pool s);
  i_chain : chain (heap s) (mStack (pool s)) l;
  i_nodup : NoDup (l ++ held s);
  i_bound : forall i, i ∈ l ++ held s -> Z.of_nat i < mIndex (pool s);
  i_giving : forall t c p, threads s !! t = Some c -> giving c = Some p ->
    p ∉ l ++ held s /\ Z.of_nat p < mIndex (pool s) /\
    forall t' c', threads s !! t' = Some c' -> giving c' = Some p -> t' = t;
  i_pop : forall t c, threads s !! t = Some c -> pop_ok s l c
}.

Lemma give_back_perm p l l' : give_back p l = Some l' -> l ≡ₚ p :: l'.
Proof.
  revert l'. induction l as [|i l IH]; intros l' Hl; [done|]. cbn [give_back] in Hl.
  destruct (decide (i = p)) as [->|]; [by apply (inj Some) in Hl as ->|].
  apply fmap_Some in Hl as (l1 & Hl1 & ->). rewrite (IH l1 Hl1). apply Permutation_swap.
Qed.

Lemma chain_other h head l i n : i ∉ l -> chain h head l -> chain (<[i := n]> h) head l.
Proof.
  revert head. induction l as [|j l IH]; intros head Hi; cbn [chain]; [done|].
  apply not_elem_of_cons in Hi as [Hne Hi]. intros (-> & m & Hm & Hc). split; [done|].
  exists m. split; [by rewrite lookup_insert_ne|by apply IH].
Qed.

Lemma chain_head h p l : chain h (Some p) l -> exists n l', l = p :: l' /\ h !! p = Some n /\ chain h (an_next n) l'.
Proof. destruct l as [|i l]; [done|]. intros ([= ->] & n & Hn & Hc). by exists n, l. Qed.

Lemma not_in_tail (i : nat) l : i ∉ l -> i ∉ tail l.
Proof. destruct l; set_solver. Qed.

(** Whose step it was. *)
Ltac thread_case H := cbn in H; apply lookup_insert_Some in H as [[<- <-]|[? H]].

(** A step that only changes where the thread is. *)
Lemma inv_set_pc s l t c c' :
  inv s l -> threads s !! t = Some c -> (forall p, giving c' = Some p -> giving c = Some p) ->
  pop_ok s l c' -> inv (set_pc t c' s) l.
Proof.
  intros Hi Ht Hg Hp. destruct Hi. constructor; try done.
  - intros t1 c1 p H1 Hp1. assert (Hc1 : exists c0, threads s !! t1 = Some c0 /\ giving c0 = Some p)
      by (thread_case H1; eauto).
    destruct Hc1 as (c0 & H0 & Hp0). destruct (i_giving0 t1 c0 p H0 Hp0) as (Hn & Hb & Hu). split; [done|]. split; [done|].
    intros t2 c2 H2 Hp2. thread_case H2; eauto.
  - intros t1 c1 H1. thread_case H1; [done|exact (i_pop0 t1 c1 H1)].
Qed.

(** A write to a node that is not free. *)
Lemma inv_set_node s l i n :
  inv s l -> i ∉ l -> Z.of_nat i < mCount (pool s) -> inv (set_node i n s) l.
Proof.
  intros Hi Hni Hic. destruct Hi. constructor; try done.
  - intros j. cbn. rewrite lookup_insert_is_Some, i_heap0. destruct (decide (i = j)) as [->|]; naive_solver.
  - by apply chain_other.
  - intros t c Ht. pose proof (i_pop0 t c Ht) as Hp. destruct c; try done. cbn in *. destruct Hp as [Hp1 Hp2].
    split; [done|]. intros Hs. destruct (Hp2 Hs) as (m & Hm & Hn). exists m.
    rewrite Hs in i_chain0. apply chain_head in i_chain0 as (? & l' & -> & _).
    rewrite lookup_insert_ne; [done|]. intros ->. apply Hni. by left.
Qed.

(** A holder starts to give its node back. *)
Lemma inv_call_recycle s l t p held' :
  inv s l -> threads s !! t = Some Idle -> held s ≡ₚ p :: held' -> inv (set_pc t (RecycleLoad p) (set_held held' s)) l.
Proof.
  intros Hi Ht Hperm. destruct Hi.
  assert (Hnd : NoDup (p :: l ++ held')) by (rewrite Hperm, <- Permutation_middle in i_nodup0; done).
  apply NoDup_cons in Hnd as [Hp Hnd].
  assert (Hsub : forall i, i ∈ l ++ held s <-> i = p \/ i ∈ l ++ held') by (intros i; rewrite Hperm; set_solver).
  constructor; try done.
  - intros i Hin. apply i_bound0, Hsub. by right.
  - intros t1 c1 q H1 Hq. thread_case H1.
    + apply (inj Some) in Hq as <-. split; [done|]. split; [apply i_bound0, Hsub; by left|].
      intros t2 c2 H2 Hq2. thread_case H2; [done|].
      destruct (i_giving0 t2 c2 p H2 Hq2) as (Hn & _). destruct Hn. apply Hsub. by left.
    + destruct (i_giving0 t1 c1 q H1 Hq) as (Hn & Hb & Hu).
      split; [intros Hin; apply Hn, Hsub; by right|]. split; [done|].
      intros t2 c2 H2 Hq2. thread_case H2; [|by eapply Hu].
      apply (inj Some) in Hq2 as ->. destruct Hn. apply Hsub. by left.
  - intros t1 c1 H1. thread_case H1; [done|]. exact (i_pop0 t1 c1 H1).
Qed.

(** [apply] takes the head of the free list ... *)
Lemma inv_pop s l t p next :
  inv s l -> threads s !! t = Some (PopCas p next) -> mStack (pool s) = Some p ->
  inv (set_pc t Idle (set_held (p :: held s) (set_stack next s))) (tail l).
Proof.
  intros Hi Ht Hs. destruct Hi. destruct (i_pop0 _ _ Ht) as [_ Hnext]. destruct (Hnext Hs) as (n & Hn & Hnx).
  rewrite Hs in i_chain0. apply chain_head in i_chain0 as (n' & l' & -> & Hn' & Hc). cbn [tail]. simplify_eq.
  assert (Hsub : forall i, i ∈ l' ++ p :: held s <-> i ∈ (p :: l') ++ held s) by set_solver.
  assert (Hnd : NoDup (l' ++ p :: held s)) by (rewrite <- Permutation_middle; exact i_nodup0).
  constructor; try done.
  - intros i Hin. apply i_bound0. by apply Hsub.
  - intros t1 c1 q H1 Hq. thread_case H1; [done|].
    destruct (i_giving0 t1 c1 q H1 Hq) as (Hno & Hb & Hu). split; [intros Hin; by apply Hno, Hsub|]. split; [done|].
    intros t2 c2 H2 Hq2. thread_case H2; [done|by eapply Hu].
  - intros t1 c1 H1. thread_case H1; [done|].
    pose proof (i_pop0 t1 c1 H1) as Hp. destruct c1; try done; cbn in *; [by apply not_in_tail|].
    destruct Hp as [Hp _]. split; [by apply not_in_tail|]. intros Heq. rewrite Heq in Hc.
    apply chain_head in Hc as (? & ? & -> & _). destruct Hp. by left.
Qed.

(** ... or the next node never used. *)
Lemma inv_bump s l t :
  inv s l -> threads s !! t = Some (IndexCas (mIndex (pool s))) -> mIndex (pool s) < mCount (pool s) ->
  inv (set_pc t Idle (set_held (Z.to_nat (mIndex (pool s)) :: held s) (set_index (u32 (mIndex (pool s) + 1)) s))) l.
Proof.
  intros Hi Ht Hlt. destruct Hi. set (i := mIndex (pool s)) in *.
  assert (Hnew : Z.to_nat i ∉ l ++ held s) by (intros Hin; specialize (i_bound0 _ Hin); lia).
  unfold uwrap. rewrite Z.mod_small by lia. constructor; cbn; try done.
  - lia.
  - rewrite <- Permutation_middle. by apply NoDup_cons_2.
  - intros j Hj. assert (j = Z.to_nat i \/ j ∈ l ++ held s) as [->|Hj'] by set_solver; [lia|].
    specialize (i_bound0 j Hj'). fold i in i_bound0. lia.
  - intros t1 c1 q H1 Hq. thread_case H1; [done|].
    destruct (i_giving0 t1 c1 q H1 Hq) as (Hno & Hb & Hu). split; [|split; [lia|]].
    + intros Hin. assert (q = Z.to_nat i) by set_solver. lia.
    + intros t2 c2 H2 Hq2. thread_case H2; [done|by eapply Hu].
  - intros t1 c1 H1. thread_case H1; [done|]. exact (i_pop0 t1 c1 H1).
Qed.

(** [recycle] links the node in front of the free list. *)
Lemma inv_push s l t p n :
  inv s l -> phased s -> threads s !! t = Some (RecycleCas p) -> heap s !! p = Some n -> mStack (pool s) = an_next n ->
  inv (set_pc t Idle (set_stack (Some p) s)) (p :: l).
Proof.
  intros Hi Hph Ht Hn Hs. destruct Hi. destruct (i_giving0 t _ p Ht eq_refl) as (Hp & Hb & Hu).
  constructor; try done.
  - cbn. split; [done|]. exists n. by rewrite <- Hs.
  - by apply NoDup_cons_2.
  - intros i Hin. cbn in Hin. apply elem_of_cons in Hin as [->|Hin]; [done|by apply i_bound0].
  - intros t1 c1 q H1 Hq. thread_case H1; [done|].
    destruct (i_giving0 t1 c1 q H1 Hq) as (Hno & Hb1 & Hu1). split; [|split; [done|]].
    + cbn. rewrite elem_of_cons. intros [->|Hin]; [by destruct (Hu _ _ H1 Hq)|done].
    + intros t2 c2 H2 Hq2. thread_case H2; [done|by eapply Hu1].
  - intros t1 c1 H1. thread_case H1; [done|].
    destruct (popping c1) as [q|] eqn:Hq; [|by destruct c1]. by pose proof (Hph _ _ _ _ _ H1 Ht Hq).
Qed.

Lemma popping_head_ok s l : inv s l -> pop_ok s l (pop_loop (mStack (pool s))).
Proof.
  intros Hi. destruct (mStack (pool s)) as [p|] eqn:Hs; [|done]. cbn. pose proof (i_chain _ _ Hi) as Hc.
  pose proof (i_nodup _ _ Hi) as Hnd. rewrite Hs in Hc. apply chain_head in Hc as (? & l' & -> & _). cbn.
  apply NoDup_app in Hnd as [Hnd _]. by apply NoDup_cons in Hnd as [].
Qed.

Lemma pop_loop_enter s l t c : inv s l -> threads s !! t = Some c -> inv (set_pc t (pop_loop (mStack (pool s))) s) l.
Proof.
  intros Hi Ht. eapply inv_set_pc; try done.
  - by destruct (mStack (pool s)).
  - by apply popping_head_ok.
Qed.

Lemma inv_run s l t c spurious s' :
  inv s l -> phased s -> threads s !! t = Some c -> tstep t (Run spurious) s = Some s' -> exists l', inv s' l'.
Proof.
  intros Hi Hph Ht Hstep. unfold tstep in Hstep. rewrite Ht in Hstep. cbn [mbind option_bind] in Hstep.
  destruct c as [| |p|p next| |ii|p|p h|p]; simplify_eq; try (exists l; by eapply pop_loop_enter).
  - apply bind_Some in Hstep as (n & Hn & [= <-]). exists l. eapply inv_set_pc; try done.
    split; [exact (i_pop _ _ Hi t _ Ht)|]. intros _. by exists n.
  - destruct (negb spurious && _) eqn:Hcas; simplify_eq; [|exists l; by eapply pop_loop_enter].
    apply andb_true_iff in Hcas as [_ Hcas%bool_decide_eq_true]. exists (tail l). by apply inv_pop.
  - exists l. by eapply inv_set_pc.
  - destruct (Z.ltb_spec ii (mCount (pool s))); simplify_eq; [|exists l; by eapply inv_set_pc].
    destruct (negb spurious && _) eqn:Hcas; simplify_eq.
    + apply andb_true_iff in Hcas as [_ <-%Z.eqb_eq]. exists l. by apply inv_bump.
    + exists l. by eapply inv_set_pc.
  - exists l. by eapply inv_set_pc.
  - apply bind_Some in Hstep as (n & Hn & [= <-]). exists l. destruct (i_giving _ _ Hi t _ p Ht eq_refl) as (Hp & Hb & _).
    eapply (inv_set_pc (set_node p (set_next n h) s)); try done.
    apply inv_set_node; [done|set_solver|]. pose proof (i_index _ _ Hi). lia.
  - apply bind_Some in Hstep as (n & Hn & Hstep). destruct (i_giving _ _ Hi t _ p Ht eq_refl) as (Hp & Hb & _).
    destruct (negb spurious && _) eqn:Hcas; simplify_eq.
    + apply andb_true_iff in Hcas as [_ Hcas%bool_decide_eq_true]. exists (p :: l). by eapply inv_push.
    + exists l. apply inv_set_node; [done|set_solver|]. pose proof (i_index _ _ Hi). lia.
Qed.

Lemma inv_step s l s' : inv s l -> phased_step s s' -> exists l', inv s' l'.
Proof.
  intros Hi (Hph & t & a & Hstep). pose proof Hstep as Hrun. unfold tstep in Hstep.
  apply bind_Some in Hstep as (c & Ht & Hstep). destruct a as [|p|p n|spurious].
  - destruct c; simplify_eq. exists l. by eapply inv_set_pc.
  - destruct c; simplify_eq. apply bind_Some in Hstep as (held' & Hg%give_back_perm & [= <-]).
    exists l. by apply inv_call_recycle.
  - destruct c; simplify_eq. case_bool_decide as Hin; simplify_eq. exists l. pose proof (i_nodup _ _ Hi) as Hnd.
    apply NoDup_app in Hnd as (_ & Hno & _). apply inv_set_node; [done|by intros ?; apply (Hno p)|].
    pose proof (i_index _ _ Hi). pose proof (i_bound _ _ Hi p ltac:(set_solver)). lia.
  - by eapply inv_run.
Qed.

Lemma inv_init n count raw : Z.of_nat count < 2 ^ 32 -> inv (init n count raw) [].
Proof.
  intros Hc. assert (Hidle : forall t c, threads (init n count raw) !! t = Some c -> c = Idle).
  { intros t c Ht. apply elem_of_list_to_map_2, list_elem_of_fmap in Ht as (? & [= _ ->] & _). done. }
  constructor; cbn; try done; try (intros t c; intros; by rewrite (Hidle t c) in *).
  - lia.
  - lia.
  - intros i. rewrite malloc_nodes_lookup. case_decide; [split; [lia|by eexists]|split; [by intros []|lia]].
  - by apply NoDup_nil_2.
  - intros i Hin. by apply elem_of_nil in Hin.
Qed.

(** C22: As long as no thread gives a node back while another one is in the loop of
    [apply] that pops one, no node is handed out again before its holder has given
    it back, however the threads' steps interleave. *)
Theorem pool_exclusive n count raw s :
  Z.of_nat count < 2 ^ 32 -> rtc phased_step (init n count raw) s ->
  NoDup (held s) /\ forall p, p ∈ held s -> (p < count)%nat.
Proof.
  intros Hc Hrun. assert (Hinv : exists l, inv s l).
  { pose proof (inv_init n count raw Hc) as Hi. revert Hi. generalize (@nil nat). induction Hrun as [|s s1 s2 Hs _ IH];
      intros l Hi; [by exists l|]. destruct (inv_step s l s1 Hi Hs) as [l1 Hi1]. by apply (IH l1). }
  destruct Hinv as [l Hi]. pose proof (i_nodup _ _ Hi) as (_ & _ & Hnd)%NoDup_app. split; [done|].
  intros p Hp. pose proof (i_bound _ _ Hi p ltac:(set_solver)). pose proof (i_index _ _ Hi).
  assert (Hm : mCount (pool s) = Z.of_nat count); [|lia].
  clear - Hrun. change (Z.of_nat count) with (mCount (pool (init n count raw))).
  induction Hrun as [|? ? ? (_ & t & a & Hs) _ ->]; [done|]. symmetry. by apply tstep_count in Hs.
Qed.

Lemma exec_rtc l s s' : exec l s = Some s' -> rtc step s s'.
Proof.
  revert s. induction l as [|[t a] l IH]; intros s Hl; cbn in Hl; [simplify_eq; apply rtc_refl|].
  apply bind_Some in Hl as (s1 & Hs & Hl). eapply rtc_l; [by exists t, a|by apply IH].
Qed.

(** A call run by thread [t] alone. *)
Definition solo (t : nat) (call : action) : list (nat * action) := (t, call) :: replicate 3 (t, Run false).

(** Execute a thread's steps, its place being the last one written. *)
Ltac solo_steps := repeat (cbn; rewrite ?lookup_insert_eq, ?insert_insert_eq; cbn).
Ltac solo_done Hback :=
  unfold set_pc, set_held, set_stack, set_index, set_node; cbn; by rewrite ?insert_insert_eq, Hback.

Lemma exec_app l1 l2 s : exec (l1 ++ l2) s = s1 ← exec l1 s; exec l2 s1.
Proof.
  revert s. induction l1 as [|[t a] l1 IH]; intros s; cbn [app exec]; [done|]. destruct (tstep t a s); [apply IH|done].
Qed.

Lemma solo_apply t s r p' :
  threads s !! t = Some Idle -> Seq.apply (pool s) (heap s) = Ok (r, p') ->
  exec (solo t CallApply) s = Some {| pool := p'; heap := heap s; threads := threads s; held := option_list r ++ held s |}.
Proof.
  intros Ht Hr. destruct s as [[cnt idx stk] h ths hd]. cbn in Ht.
  assert (Hback : <[t := Idle]> ths = ths) by (by apply insert_id).
  unfold solo, replicate. cbn [exec]. unfold tstep. unfold Seq.apply in Hr. cbn in Hr |- *. rewrite Ht.
  destruct stk as [i|]; solo_steps.
  - destruct (h !! i) as [n|] eqn:Hn; [|done]. cbn in Hr. simplify_eq. solo_steps. rewrite bool_decide_eq_true_2 by done.
    solo_done Hback.
  - destruct (idx <? cnt) eqn:Hlt; simplify_eq; solo_steps; rewrite ?Z.eqb_refl; solo_done Hback.
Qed.

Lemma solo_recycle t s i held' p' h' :
  threads s !! t = Some Idle -> Seq.recycle i (pool s) (heap s) = Ok (p', h') -> give_back i (held s) = Some held' ->
  exec (solo t (CallRecycle i)) s = Some {| pool := p'; heap := h'; threads := threads s; held := held' |}.
Proof.
  intros Ht Hr Hg. destruct s as [[cnt idx stk] h ths hd]. cbn in Ht.
  assert (Hback : <[t := Idle]> ths = ths) by (by apply insert_id).
  unfold solo, replicate. cbn [exec]. unfold tstep. unfold Seq.recycle in Hr. cbn in Hr, Hg |- *. rewrite Ht. cbn.
  rewrite Hg. destruct (h !! i) as [n|] eqn:Hn; [|done]. cbn in Hr. simplify_eq. solo_steps. rewrite Hn. solo_steps.
  rewrite bool_decide_eq_true_2 by done. solo_done Hback.
Qed.

(** C23: The methods of module [Seq] are the runs without interference: a thread that
    runs [apply] or [recycle] alone reaches the state the sequential definition
    gives. *)
Theorem solo_is_sequential t s :
  threads s !! t = Some Idle ->
  (forall r p', Seq.apply (pool s) (heap s) = Ok (r, p') ->
    exec (solo t CallApply) s =
    Some {| pool := p'; heap := heap s; threads := threads s; held := option_list r ++ held s |}) /\
  (forall i held' p' h', Seq.recycle i (pool s) (heap s) = Ok (p', h') -> give_back i (held s) = Some held' ->
    exec (solo t (CallRecycle i)) s = Some {| pool := p'; heap := h'; threads := threads s; held := held' |}).
Proof. intros Ht. split; [intros r p' Hr; by apply solo_apply|]. intros i held' p' h' Hr Hg. by apply solo_recycle. Qed.

(** Two threads: after thread 0 has taken nodes 0 and 1 and given them back, it reads
    the head 0 and its successor 1 and is held up; thread 1 takes 0 and 1 and gives 0
    back; thread 0 goes on, finds 0 at the head again and makes node 1, which thread
    1 holds, the new head; thread 1 takes it once more. *)
Definition read_head : list (nat * action) := [(0%nat, CallApply); (0%nat, Run false); (0%nat, Run false)].
Definition resume : list (nat * action) := [(0%nat, Run false)].
Definition aba : list (nat * action) :=
  solo 0 CallApply ++ solo 0 CallApply ++ solo 0 (CallRecycle 1) ++ solo 0 (CallRecycle 0) ++
  read_head ++
  solo 1 CallApply ++ solo 1 CallApply ++ solo 1 (CallRecycle 0) ++ resume ++ solo 1 CallApply.

Lemma exec_run_app l1 l2 s s1 : exec l1 s = Some s1 -> exec (l1 ++ l2) s = exec l2 s1.
Proof. intros Hs. by rewrite exec_app, Hs. Qed.

Ltac aba_cbn := cbn [an_next set_next pool heap threads held mCount mIndex mStack option_list app];
  repeat change (u32 (0 + 1)) with 1; repeat change (u32 (1 + 1)) with 2;
  repeat (rewrite lookup_insert_eq || rewrite lookup_insert_ne by done).
Ltac aba_apply := erewrite exec_run_app; [|eapply solo_apply; [done|unfold Seq.apply; aba_cbn]].
Ltac aba_recycle := erewrite exec_run_app; [|eapply solo_recycle; [done|unfold Seq.recycle; aba_cbn|done]].
Ltac aba_run := erewrite exec_run_app; [|unfold read_head, resume; cbn [exec]; unfold tstep; solo_steps].

Lemma exec_aba cnt h n0 n1 :
  2 <= cnt < 2 ^ 32 -> h !! 0%nat = Some n0 -> h !! 1%nat = Some n1 ->
  exists s, exec aba {| pool := {| mCount := cnt; mIndex := 0; mStack := None |}; heap := h;
    threads := {[0%nat := Idle; 1%nat := Idle]}; held := [] |} = Some s /\ held s = [1; 0; 1]%nat.
Proof.
  intros Hc H0 H1. unfold aba.
  aba_apply; [|by rewrite (proj2 (Z.ltb_lt _ _)) by lia]. aba_cbn.
  aba_apply; [|by rewrite (proj2 (Z.ltb_lt _ _)) by lia]. aba_cbn.
  aba_recycle; [|by rewrite H1]. aba_cbn.
  aba_recycle; [|by rewrite H0]. aba_cbn.
  aba_run; [|reflexivity]. unfold set_pc. aba_cbn.
  aba_apply; [|reflexivity]. aba_cbn.
  aba_apply; [|reflexivity]. aba_cbn.
  aba_recycle; [|reflexivity]. aba_cbn.
  aba_run; [|reflexivity]. unfold set_pc, set_held, set_stack. aba_cbn.
  erewrite solo_apply; [|done|unfold Seq.apply; aba_cbn; reflexivity].
  by eexists.
Qed.

(** C24: Without that condition [apply] can hand a node out twice: the comparison of
    [mStack] with the node read before does not notice that the node was taken and
    given back in between (the ABA problem). *)
Theorem pool_aba count raw :
  (2 <= count)%nat -> Z.of_nat count < 2 ^ 32 ->
  exists s, rtc step (init 2 count raw) s /\ held s = [1; 0; 1]%nat.
Proof.
  intros Hc Hc'. destruct (exec_aba (Z.of_nat count) (malloc_nodes count raw) (raw 0%nat) (raw 1%nat)) as (s & Hs & Hheld).
  - lia.
  - rewrite malloc_nodes_lookup. by rewrite decide_True by lia.
  - rewrite malloc_nodes_lookup. by rewrite decide_True by lia.
  - exists s. split; [by eapply exec_rtc|done].
Qed.

(** ** Witnesses *)

(** A schedule that keeps to the condition. *)
Definition is_phased (s : state) : bool :=
  forallb (fun x => forallb (fun y => negb (bool_decide (is_Some (popping x.2)) && bool_decide (is_Some (giving y.2))))
    (map_to_list (threads s))) (map_to_list (threads s)).
Fixpoint exec_phased (l : list (nat * action)) (s : state) : option state :=
  match l with
  | [] => Some s
  | (t, a) :: l' => if is_phased s then s ← tstep t a s; exec_phased l' s else None
  end.

Lemma is_phased_ok s : is_phased s = true -> phased s.
Proof.
  unfold is_phased. rewrite forallb_forall. intros Hall t t' c c' p Ht Ht' Hp.
  apply elem_of_map_to_list, list_elem_of_In in Ht, Ht'. specialize (Hall _ Ht). rewrite forallb_forall in Hall.
  specialize (Hall _ Ht'). cbn in Hall. rewrite Hp in Hall. by destruct (giving c').
Qed.

Lemma exec_phased_rtc l s s' : exec_phased l s = Some s' -> rtc phased_step s s'.
Proof.
  revert s. induction l as [|[t a] l IH]; intros s Hl; cbn in Hl; [simplify_eq; apply rtc_refl|].
  destruct (is_phased s) eqn:Hp; [|done]. apply bind_Some in Hl as (s1 & Hs & Hl).
  eapply rtc_l; [split; [by apply is_phased_ok|by exists t, a]|by apply IH].
Qed.

Definition demo_node (_ : nat) : AllocNode := {| an_size := 0; an_addr := 0; an_trace := []; an_next := None |}.
Definition demo_state : state :=
  {| pool := {| mCount := 2; mIndex := 2; mStack := Some 0%nat |}; heap := malloc_nodes 2 demo_node;
     threads := {[ 3%nat := Idle ]}; held := [1%nat] |}.

Lemma pool_exclusive_witness : exists s, rtc phased_step (init 2 8 demo_node) s /\ held s = [1; 0]%nat /\
  (NoDup (held s) /\ forall p, p ∈ held s -> (p < 8)%nat).
Proof.
  destruct (exec_phased (solo 0 CallApply ++ solo 0 (CallRecycle 0) ++
    [(0%nat, CallApply); (1%nat, CallApply); (0%nat, Run false); (1%nat, Run false); (0%nat, Run false); (1%nat, Run false);
     (0%nat, Run false); (1%nat, Run false); (1%nat, Run true); (1%nat, Run true); (1%nat, Run false)]) (init 2 8 demo_node))
    as [s|] eqn:Hs; [|exfalso; revert Hs; vm_compute; discriminate].
  exists s. assert (Hrun : rtc phased_step (init 2 8 demo_node) s) by (by eapply exec_phased_rtc).
  split; [exact Hrun|]. split.
  - apply (f_equal (fmap held)) in Hs. apply (inj Some). change (Some (held s)) with (held <$> Some s).
    rewrite <- Hs. vm_compute. reflexivity.
  - apply (pool_exclusive 2 8 demo_node s); [lia|exact Hrun].
Defined.

Lemma solo_is_sequential_witness :
  exists p', Seq.apply (pool demo_state) (heap demo_state) = Ok (Some 0%nat, p') /\
    exec (solo 3 CallApply) demo_state =
    Some {| pool := p'; heap := heap demo_state; threads := threads demo_state; held := [0; 1]%nat |}.
Proof.
  eexists. split; [vm_compute; reflexivity|].
  apply (proj1 (solo_is_sequential 3 demo_state eq_refl) (Some 0%nat)). vm_compute. reflexivity.
Defined.

Lemma pool_aba_witness :
  exists s, rtc step (init 2 (Z.to_nat ALLOC_CACHE_SIZE) demo_node) s /\ held s = [1; 0; 1]%nat.
Proof. apply (pool_aba (Z.to_nat ALLOC_CACHE_SIZE) demo_node); change ALLOC_CACHE_SIZE with 32768; lia. Defined.

End Conc.
