(* ===== verification/MemoryCache.v ===== *)
(** The leak cache of MemoryCache.cpp: a hash table of singly linked lists of
    pool nodes.  The nodes, the table's lists and the pool's free list share one
    heap.  [repr] is the representation invariant (every node below the bump
    counter is in exactly one list, and in the list of its hash when it is
    live); the operations refine the contract [CacheSpec]. *)
From S2P Require Import Prelude Cache AllocPool.

Section MemoryCache.
Context `{Arch}.

(** ** State and operations *)

(** [MemoryCache]: [alloc_table] (an absent key is [nullptr]), the pool
    [alloc_cache] and the node heap.  [alloc_mutex] serialises the table
    accesses, which this sequential model runs one at a time. *)
Record MemoryCache := {
  alloc_table : gmap Z nat;
  alloc_cache : Seq.AllocPool;
  heap : gmap nat AllocNode
}.

Definition alloc_hash (address : Z) : Z := u16 ((address .>> ADDR_HASH_OFFSET) .& 0xFFFF).

Definition set_head (t : gmap Z nat) (k : Z) (q : option nat) : gmap Z nat :=
  match q with Some i => <[k := i]> t | None => delete k t end.

(** The constructor: the pool's storage comes from [malloc] and is
    uninitialised ([raw]), and so are the pool's atomics ([idx], [stk]). *)
Definition new_MemoryCache (raw : nat -> AllocNode) (tbl : gmap Z nat) (idx : Z)
    (stk : option nat) : MemoryCache :=
  {| alloc_table := tbl;
     alloc_cache := {| Seq.mCount := ALLOC_CACHE_SIZE; Seq.mIndex := idx; Seq.mStack := stk |};
     heap := Seq.malloc_nodes (Z.to_nat ALLOC_CACHE_SIZE) raw |}.

(** [reset]: resets the pool, then writes [nullptr] to the
    [ALLOC_INDEX_SIZE] entries of the table. *)
Definition clear_table (n : Z) (t : gmap Z nat) : gmap Z nat :=
  foldl (fun t i => delete i t) t (zrange 0 (Z.to_nat n)).

Definition reset (c : MemoryCache) : MemoryCache :=
  {| alloc_table := clear_table ALLOC_INDEX_SIZE (alloc_table c);
     alloc_cache := Seq.reset (alloc_cache c);
     heap := heap c |}.

Definition insert (c : MemoryCache) (address size : Z) (bt : Backtrace) : res MemoryCache :=
  let! (o, pool) := Seq.apply (alloc_cache c) (heap c) in
  match o with
  | None => Ok c                       (* "Alloc cache is full!!!!!!!!" *)
  | Some p =>
      let! n := of_opt (heap c !! p) in
      let depth := Z.to_nat (trace_depth bt) in
      let! chunk := of_opt (list_read 2 depth (bt_trace bt)) in
      let! copied := of_opt (list_write 0 chunk (an_trace n)) in
      let! ended := of_opt (list_set depth 0 copied) in
      let k := alloc_hash address in
      Ok {| alloc_table := <[k := p]> (alloc_table c);
            alloc_cache := pool;
            heap := <[p := {| an_size := u32 size; an_addr := address; an_trace := ended;
                              an_next := alloc_table c !! k |}]> (heap c) |}
  end.

(** The loop of [remove_alloc]: [while (p->next != nullptr && p->next->addr !=
    address) p = p->next;], then unlink [p->next]. *)
Fixpoint unlink (fuel : nat) (h : gmap nat AllocNode) (address : Z) (p : nat)
    : res (option nat * gmap nat AllocNode) :=
  match fuel with
  | O => NoFuel
  | S fuel' =>
      let! n := of_opt (h !! p) in
      match an_next n with
      | None => Ok (None, h)
      | Some t =>
          let! nt := of_opt (h !! t) in
          if an_addr nt =? address
          then Ok (Some t, <[p := set_next n (an_next nt)]> h)
          else unlink fuel' h address t
      end
  end.

Definition remove_alloc (fuel : nat) (t : gmap Z nat) (h : gmap nat AllocNode) (k address : Z)
    : res (option nat * gmap Z nat * gmap nat AllocNode) :=
  match t !! k with
  | None => Ok (None, t, h)
  | Some hptr =>
      let! n := of_opt (h !! hptr) in
      if an_addr n =? address
      then Ok (Some hptr, set_head t k (an_next n), h)
      else let! (o, h') := unlink fuel h address hptr in Ok (o, t, h')
  end.

Definition remove (c : MemoryCache) (address : Z) : res MemoryCache :=
  let k := alloc_hash address in
  match alloc_table c !! k with
  | None => Ok c
  | Some _ =>
      let! (o, t, h) := remove_alloc (base.size (heap c)) (alloc_table c) (heap c) k address in
      match o with
      | None => Ok {| alloc_table := t; alloc_cache := alloc_cache c; heap := h |}
      | Some p =>
          let! (pool, h') := Seq.recycle p (alloc_cache c) h in
          Ok {| alloc_table := t; alloc_cache := pool; heap := h' |}
      end
  end.

(** [for (; p != nullptr; p = p->next) write_trace(report, p, ..)] *)
Fixpoint walk (fuel : nat) (h : gmap nat AllocNode) (p : option nat) : res (list AllocNode) :=
  match p with
  | None => Ok []
  | Some i =>
      match fuel with
      | O => NoFuel
      | S fuel' =>
          let! n := of_opt (h !! i) in
          let! l := walk fuel' h (an_next n) in
          Ok (n :: l)
      end
  end.

Fixpoint mapM_res {A B} (f : A -> res B) (l : list A) : res (list B) :=
  match l with
  | [] => Ok []
  | x :: l' => let! y := f x in let! ys := mapM_res f l' in Ok (y :: ys)
  end.

(** The indices of [alloc_table]. *)
Definition table_range : list Z := zrange 0 (Z.to_nat ALLOC_INDEX_SIZE).

(** The nodes [print] visits, in its order: [for (auto p : alloc_table)]. *)
Definition all_nodes (c : MemoryCache) : res (list AllocNode) :=
  let! ls := mapM_res
    (fun k => walk (base.size (heap c)) (heap c) (alloc_table c !! k)) table_range in
  Ok (concat ls).

(** The record a node contributes to the report; the trace loop of
    [write_trace] has to find a zero word inside the array. *)
Definition node_record (n : AllocNode) : res alloc_record :=
  if bool_decide (0 ∈ an_trace n) then Ok (record_of n) else Fault.

Definition print_records (c : MemoryCache) : res (list alloc_record) :=
  let! ns := all_nodes c in mapM_res node_record ns.

Definition MemoryCache_ops : cache_ops MemoryCache :=
  {| c_reset := reset; c_insert := insert; c_remove := remove; c_print := print_records |}.


(** ** Chains of nodes *)

Inductive chain (h : gmap nat AllocNode) : option nat -> list nat -> Prop :=
| chain_nil : chain h None []
| chain_cons i n l :
    h !! i = Some n -> chain h (an_next n) l -> chain h (Some i) (i :: l).

Definition nodes (h : gmap nat AllocNode) (l : list nat) : list AllocNode :=
  omap (fun i => h !! i) l.

Definition addr_at (h : gmap nat AllocNode) (i : nat) : option Z := an_addr <$> h !! i.

(** Heaps that differ in [next] fields only. *)
Definition same_data (h h' : gmap nat AllocNode) : Prop :=
  forall i, (fun n => set_next n None) <$> h !! i = (fun n => set_next n None) <$> h' !! i.

Lemma set_next_data n n' :
  set_next n None = set_next n' None ->
  an_size n = an_size n' /\ an_addr n = an_addr n' /\ an_trace n = an_trace n'.
Proof. unfold set_next. intros Heq. by injection Heq. Qed.

Lemma same_data_refl h : same_data h h.
Proof. done. Qed.

Lemma same_data_set_next h i n q :
  h !! i = Some n -> same_data h (<[i := set_next n q]> h).
Proof. intros Hi j. destruct (decide (i = j)) as [->|]; by simplify_map_eq. Qed.

Lemma same_data_lookup h h' i n :
  same_data h h' -> h !! i = Some n -> exists q, h' !! i = Some (set_next n q).
Proof.
  intros Hd Hi. specialize (Hd i). rewrite Hi in Hd. simpl in Hd.
  destruct (h' !! i) as [n'|]; simpl in Hd; [|done]. exists (an_next n').
  apply (inj Some), set_next_data in Hd as (? & ? & ?). destruct n, n'; simpl in *. by subst.
Qed.

Lemma same_data_addr h h' i : same_data h h' -> addr_at h' i = addr_at h i.
Proof.
  intros Hd. specialize (Hd i). unfold addr_at.
  destruct (h !! i) as [n|], (h' !! i) as [n'|]; simpl in *; try done.
  apply (inj Some), set_next_data in Hd. destruct Hd as (_ & -> & _). done.
Qed.

Lemma same_data_records h h' l :
  same_data h h' -> record_of <$> nodes h' l = record_of <$> nodes h l.
Proof.
  intros Hd. unfold nodes. induction l as [|i l IH]; [done|]. csimpl.
  specialize (Hd i). destruct (h !! i) as [n|], (h' !! i) as [n'|]; try done.
  apply (inj Some), set_next_data in Hd as (Hs & Ha & Ht).
  rewrite !fmap_cons, IH. unfold record_of. by rewrite Hs, Ha, Ht.
Qed.

Lemma chain_insert_notin h p l i n : i ∉ l -> chain h p l -> chain (<[i:=n]> h) p l.
Proof.
  intros Hi Hc. induction Hc as [|j m l Hj Hc IH]; [constructor|].
  apply not_elem_of_cons in Hi as [??]. econstructor; [|by apply IH].
  by rewrite lookup_insert_ne.
Qed.

Lemma chain_eq_on h h' p l :
  (forall i, i ∈ l -> h' !! i = h !! i) -> chain h p l -> chain h' p l.
Proof.
  intros Heq Hc. induction Hc as [|j m l Hj Hc IH]; [constructor|]. econstructor.
  - rewrite Heq by (by left). done.
  - apply IH. intros. apply Heq. by right.
Qed.

Lemma chain_lookup h p l i : chain h p l -> i ∈ l -> is_Some (h !! i).
Proof. induction 1; intros Hi; [by apply elem_of_nil in Hi|]. apply elem_of_cons in Hi; naive_solver. Qed.

Lemma walk_chain h p l fuel :
  chain h p l -> (length l <= fuel)%nat -> walk fuel h p = Ok (nodes h l).
Proof.
  intros Hc. revert fuel. induction Hc as [|i n l Hi Hc IH]; intros fuel Hf.
  - by destruct fuel.
  - destruct fuel as [|fuel]; simpl in Hf; [lia|].
    change (walk (S fuel) h (Some i)) with
      (let! m := of_opt (h !! i) in let! k := walk fuel h (an_next m) in Ok (m :: k)).
    rewrite Hi. cbn [of_opt rbind]. rewrite IH by lia.
    unfold nodes. csimpl. by rewrite Hi.
Qed.

Lemma chain_nodes_length h p l : chain h p l -> length (nodes h l) = length l.
Proof.
  unfold nodes. induction 1 as [|i n l Hi Hc IH]; [done|]. csimpl. rewrite Hi. csimpl. by rewrite IH.
Qed.

(** ** Unlinking *)

Lemma unlink_spec h a p l fuel :
  chain h (Some p) (p :: l) -> NoDup (p :: l) -> (S (length l) <= fuel)%nat ->
  (Forall (fun i => addr_at h i <> Some a) l /\ unlink fuel h a p = Ok (None, h)) \/
  (exists l1 i l2 h', l = l1 ++ i :: l2 /\ addr_at h i = Some a /\
     Forall (fun i => addr_at h i <> Some a) l1 /\
     unlink fuel h a p = Ok (Some i, h') /\ chain h' (Some p) (p :: l1 ++ l2) /\
     same_data h h' /\ (forall j, j ∉ p :: l1 -> h' !! j = h !! j)).
Proof.
  revert p l. induction fuel as [|fuel IH]; intros p l Hc Hnd Hf; [lia|].
  inversion Hc as [|? n ? Hp Hl]; subst. simpl. rewrite Hp. simpl.
  inversion Hl as [Hq|t nt l' Ht Hl' Hq]; subst; [left; done|].
  rewrite Ht. simpl.
  assert (Hat : addr_at h t = Some (an_addr nt)) by (unfold addr_at; by rewrite Ht).
  destruct (Z.eqb_spec (an_addr nt) a) as [Ha|Ha].
  - right. exists [], t, l', (<[p := set_next n (an_next nt)]> h).
    rewrite Hat, Ha. repeat split_and!; try done.
    + simpl. econstructor; [by rewrite lookup_insert_eq|]. simpl.
      apply chain_insert_notin; [|done]. inversion Hnd; subst. set_solver.
    + by apply same_data_set_next.
    + intros j Hj. rewrite lookup_insert_ne; [done|]. set_solver.
  - apply NoDup_cons in Hnd as [Hpn Hnd]. rewrite <- Hq in Hl.
    assert (Ht' : addr_at h t <> Some a) by (rewrite Hat; congruence).
    destruct (IH t l' Hl Hnd ltac:(simpl in *; lia))
      as [[Hall ->]|(l1 & i & l2 & h' & -> & Hi & Hall & -> & Hc' & Hd & Hout)].
    + left. split; [by constructor|done].
    + right. exists (t :: l1), i, l2, h'. repeat split_and!; try done.
      * by constructor.
      * econstructor; [|rewrite <- Hq; exact Hc'].
        rewrite Hout; [done|]. set_solver.
      * intros j Hj. apply Hout. set_solver.
Qed.

Lemma remove_alloc_spec t h k a l fuel :
  chain h (t !! k) l -> NoDup l -> (length l <= fuel)%nat ->
  (Forall (fun i => addr_at h i <> Some a) l /\
     remove_alloc fuel t h k a = Ok (None, t, h)) \/
  (exists l1 i l2 t' h', l = l1 ++ i :: l2 /\ addr_at h i = Some a /\
     Forall (fun i => addr_at h i <> Some a) l1 /\
     remove_alloc fuel t h k a = Ok (Some i, t', h') /\ chain h' (t' !! k) (l1 ++ l2) /\
     (forall k', k' <> k -> t' !! k' = t !! k') /\
     same_data h h' /\ (forall j, j ∉ l1 -> h' !! j = h !! j)).
Proof.
  intros Hc Hnd Hf. unfold remove_alloc. inversion Hc as [Hk|i n l' Hi Hl Hk]; subst.
  { left. split; [constructor|done]. }
  rewrite Hi. simpl.
  assert (Hat : addr_at h i = Some (an_addr n)) by (unfold addr_at; by rewrite Hi).
  destruct (Z.eqb_spec (an_addr n) a) as [Ha|Ha].
  - right. exists [], i, l', (set_head t k (an_next n)), h. rewrite Hat, Ha.
    repeat split_and!; try done.
    + unfold set_head. simpl. destruct (an_next n); by simplify_map_eq.
    + intros k' Hk'. unfold set_head. destruct (an_next n); by simplify_map_eq.
  - assert (Hi' : addr_at h i <> Some a) by (rewrite Hat; congruence).
    rewrite <- Hk in Hc. 
    destruct (unlink_spec h a i l' fuel Hc Hnd Hf)
      as [[Hall ->]|(l1 & j & l2 & h' & -> & Hj & Hall & -> & Hc' & Hd & Hout)].
    + left. split; [by constructor|done].
    + right. exists (i :: l1), j, l2, t, h'. repeat split_and!; try done.
      * by constructor.
      * by rewrite <- Hk.
Qed.


(** ** The representation invariant *)

(** All node ids of a bucket map, bucket after bucket. *)
Definition flat (B : gmap Z (list nat)) : list nat := map_to_list B ≫= snd.

Lemma flat_lookup B k : flat B ≡ₚ B !!! k ++ flat (delete k B).
Proof.
  unfold flat. destruct (B !! k) as [l|] eqn:Hk.
  - rewrite <- (map_to_list_delete B k l Hk). csimpl. by rewrite (lookup_total_correct _ _ _ Hk).
  - rewrite delete_id by done. by rewrite lookup_total_alt, Hk.
Qed.

Lemma flat_insert B k l : flat (<[k:=l]> B) ≡ₚ l ++ flat (delete k B).
Proof. by rewrite (flat_lookup _ k), lookup_total_insert_eq, delete_insert_eq. Qed.

Record repr (c : MemoryCache) (B : gmap Z (list nat)) (fr : list nat) : Prop := {
  rp_bucket k : chain (heap c) (alloc_table c !! k) (B !!! k);
  rp_free : chain (heap c) (Seq.mStack (alloc_cache c)) fr;
  rp_part : fr ++ flat B ≡ₚ seq 0 (Z.to_nat (Seq.mIndex (alloc_cache c)));
  rp_index : 0 <= Seq.mIndex (alloc_cache c) <= Seq.mCount (alloc_cache c) /\
             Seq.mCount (alloc_cache c) < 2 ^ 32;
  rp_heap i :
    (i < Z.to_nat (Seq.mCount (alloc_cache c)))%nat ->
    exists n, heap c !! i = Some n /\ length (an_trace n) = MAX_TRACE_DEPTH;
  rp_size : base.size (heap c) = Z.to_nat (Seq.mCount (alloc_cache c));
  rp_live k i n :
    i ∈ B !!! k -> heap c !! i = Some n ->
    alloc_hash (an_addr n) = k /\ 0 ∈ an_trace n;
  rp_keys k : ~ (0 <= k < ALLOC_INDEX_SIZE) -> B !!! k = []
}.

(** What the contract of Cache.v says of this cache. *)
Definition bucket (c : MemoryCache) (k : Z) : list alloc_record :=
  match walk (base.size (heap c)) (heap c) (alloc_table c !! k) with
  | Ok ns => record_of <$> ns
  | _ => []
  end.

Definition mc_view (c : MemoryCache) (a : Z) : list alloc_record :=
  filter (fun r => r_addr r = a) (bucket c (alloc_hash a)).

Definition mc_room (c : MemoryCache) : nat :=
  Z.to_nat (Seq.mCount (alloc_cache c) - Seq.mIndex (alloc_cache c)) +
  match walk (base.size (heap c)) (heap c) (Seq.mStack (alloc_cache c)) with
  | Ok ns => length ns
  | _ => 0%nat
  end.

Definition mc_wf (c : MemoryCache) : Prop := exists B fr, repr c B fr.

Definition mc_made (c : MemoryCache) : Prop :=
  0 <= Seq.mCount (alloc_cache c) < 2 ^ 32 /\
  base.size (heap c) = Z.to_nat (Seq.mCount (alloc_cache c)) /\
  (forall k, ~ (0 <= k < ALLOC_INDEX_SIZE) -> alloc_table c !! k = None) /\
  (forall i, (i < Z.to_nat (Seq.mCount (alloc_cache c)))%nat ->
     exists n, heap c !! i = Some n /\ length (an_trace n) = MAX_TRACE_DEPTH).

Definition mc_capacity (c : MemoryCache) : nat := Z.to_nat (Seq.mCount (alloc_cache c)).

Lemma alloc_hash_range a : 0 <= alloc_hash a < ALLOC_INDEX_SIZE.
Proof. unfold alloc_hash. apply (uwrap_range 16). lia. Qed.

Section Repr.
Context (c : MemoryCache) (B : gmap Z (list nat)) (fr : list nat).
Hypothesis Hr : repr c B fr.

Lemma repr_NoDup : NoDup (fr ++ flat B).
Proof. rewrite (rp_part _ _ _ Hr). apply NoDup_seq. Qed.

Lemma repr_bucket_NoDup k : NoDup (B !!! k).
Proof.
  pose proof repr_NoDup as Hnd. rewrite (flat_lookup B k) in Hnd.
  apply NoDup_app in Hnd as (_ & _ & Hnd). by apply NoDup_app in Hnd as [? _].
Qed.

Lemma repr_length : (length fr + length (flat B) <= base.size (heap c))%nat.
Proof.
  pose proof (Permutation_length (rp_part _ _ _ Hr)) as Hl.
  rewrite length_app, length_seq in Hl.
  rewrite (rp_size _ _ _ Hr). pose proof (rp_index _ _ _ Hr). lia.
Qed.

Lemma repr_bucket_length k : (length (B !!! k) <= base.size (heap c))%nat.
Proof.
  pose proof repr_length as Hl. rewrite (flat_lookup B k), length_app in Hl. lia.
Qed.

Lemma repr_disjoint k k' i : i ∈ B !!! k -> i ∈ B !!! k' -> k = k'.
Proof.
  intros Hk Hk'. destruct (decide (k = k')) as [|Hne]; [done|]. exfalso.
  pose proof repr_NoDup as Hnd. rewrite (flat_lookup B k) in Hnd.
  apply NoDup_app in Hnd as (_ & _ & Hnd). apply NoDup_app in Hnd as (_ & Hd & _).
  apply (Hd i Hk). rewrite (flat_lookup _ k'), lookup_total_delete_ne by done. set_solver.
Qed.

Lemma repr_free_bucket k i : i ∈ fr -> i ∈ B !!! k -> False.
Proof.
  intros Hf Hk. pose proof repr_NoDup as Hnd.
  apply NoDup_app in Hnd as (_ & Hd & _). apply (Hd i Hf).
  rewrite (flat_lookup B k). set_solver.
Qed.

Lemma repr_bound i : i ∈ fr ++ flat B -> (i < Z.to_nat (Seq.mIndex (alloc_cache c)))%nat.
Proof. rewrite (rp_part _ _ _ Hr), elem_of_seq. lia. Qed.

Lemma repr_bucket_bound k i :
  i ∈ B !!! k -> (i < Z.to_nat (Seq.mIndex (alloc_cache c)))%nat.
Proof. intros. apply repr_bound. rewrite (flat_lookup B k). set_solver. Qed.

Lemma bucket_repr k : bucket c k = record_of <$> nodes (heap c) (B !!! k).
Proof.
  unfold bucket. by rewrite (walk_chain _ _ _ _ (rp_bucket _ _ _ Hr k) (repr_bucket_length k)).
Qed.

Lemma room_repr :
  mc_room c = (Z.to_nat (Seq.mCount (alloc_cache c) - Seq.mIndex (alloc_cache c)) + length fr)%nat.
Proof.
  unfold mc_room. rewrite (walk_chain _ _ fr).
  - f_equal. apply (chain_nodes_length _ _ _ (rp_free _ _ _ Hr)).
  - apply Hr.
  - pose proof repr_length. lia.
Qed.

(** [apply] fails exactly when there is no room; otherwise it yields a node
    that is in no list. *)
Lemma apply_full : mc_room c = 0%nat -> Seq.apply (alloc_cache c) (heap c) = Ok (None, alloc_cache c).
Proof.
  rewrite room_repr. intros Hz. pose proof (rp_index _ _ _ Hr).
  pose proof (rp_free _ _ _ Hr) as Hc.
  destruct fr; [|simpl in Hz; lia]. inversion Hc as [Hs|]. unfold Seq.apply.
  rewrite <- Hs. destruct (Z.ltb_spec (Seq.mIndex (alloc_cache c)) (Seq.mCount (alloc_cache c))); [lia|done].
Qed.

Lemma apply_room :
  (0 < mc_room c)%nat ->
  exists p pool fr', Seq.apply (alloc_cache c) (heap c) = Ok (Some p, pool) /\
    chain (heap c) (Seq.mStack pool) fr' /\
    p :: fr' ++ flat B ≡ₚ seq 0 (Z.to_nat (Seq.mIndex pool)) /\
    Seq.mCount pool = Seq.mCount (alloc_cache c) /\
    (0 <= Seq.mIndex pool <= Seq.mCount pool /\ Seq.mCount pool < 2 ^ 32) /\
    mc_room c = S (Z.to_nat (Seq.mCount pool - Seq.mIndex pool) + length fr').
Proof.
  rewrite room_repr. intros Hz. pose proof (rp_index _ _ _ Hr) as Hi.
  pose proof (rp_free _ _ _ Hr) as Hc. pose proof (rp_part _ _ _ Hr) as Hp.
  unfold Seq.apply. destruct (Seq.mStack (alloc_cache c)) as [i|] eqn:Hs.
  - inversion Hc as [|? n fr' Hn Hc']; subst. rewrite Hn. simpl.
    eexists _, _, fr'. repeat split_and!; try done; simpl; try lia.
  - assert (Hf : fr = []) by (by inversion Hc). rewrite Hf in Hz, Hp |- *. simpl in *.
    destruct (Z.ltb_spec (Seq.mIndex (alloc_cache c)) (Seq.mCount (alloc_cache c))); [|lia].
    rewrite uwrap_small by lia.
    eexists _, _, []. repeat split_and!; try done; simpl; try lia; [constructor|].
    rewrite Hp. replace (Z.to_nat (Seq.mIndex (alloc_cache c) + 1))
      with (S (Z.to_nat (Seq.mIndex (alloc_cache c)))) by lia.
    rewrite seq_S. apply Permutation_cons_append.
Qed.
End Repr.


(** ** [insert] *)

Lemma until_zero_app l r : until_zero (l ++ 0 :: r) = until_zero l.
Proof.
  induction l as [|x l IH]; [done|]. simpl. destruct (x =? 0); [done|]. by rewrite IH.
Qed.

Lemma nodes_insert_notin h p n l : p ∉ l -> nodes (<[p:=n]> h) l = nodes h l.
Proof.
  unfold nodes. induction l as [|i l IH]; [done|]. intros Hp.
  apply not_elem_of_cons in Hp as [??]. csimpl. rewrite lookup_insert_ne by done.
  by rewrite IH.
Qed.

Lemma nodes_cons h i n l : h !! i = Some n -> nodes h (i :: l) = n :: nodes h l.
Proof. intros Hi. unfold nodes. csimpl. by rewrite Hi. Qed.

Lemma nodes_app h l k : nodes h (l ++ k) = nodes h l ++ nodes h k.
Proof. apply omap_app. Qed.

(** The trace the node ends up with. *)
Lemma store_trace bt old :
  bt_ok bt -> length old = MAX_TRACE_DEPTH ->
  exists chunk copied ended,
    list_read 2 (Z.to_nat (trace_depth bt)) (bt_trace bt) = Some chunk /\
    list_write 0 chunk old = Some copied /\
    list_set (Z.to_nat (trace_depth bt)) 0 copied = Some ended /\
    length ended = MAX_TRACE_DEPTH /\ 0 ∈ ended /\
    until_zero ended =
      until_zero (take (Z.to_nat (trace_depth bt)) (drop 2 (bt_trace bt))).
Proof.
  unfold MAX_TRACE_DEPTH. intros [Hl Hd] Ho. unfold MAX_TRACE_DEPTH in *.
  assert (Hn : (Z.to_nat (trace_depth bt) <= 14)%nat)
    by (unfold trace_depth; zbool; lia).
  set (n := Z.to_nat (trace_depth bt)) in *.
  set (chunk := take n (drop 2 (bt_trace bt))).
  assert (Hc : length chunk = n) by (unfold chunk; rewrite length_take, length_drop; lia).
  exists chunk, (chunk ++ drop n old), (chunk ++ 0 :: drop 1 (drop n old)).
  repeat split_and!.
  - unfold list_read. by rewrite decide_True by lia.
  - by rewrite list_write_0, Hc by lia.
  - apply list_set_app_r; [done|]. rewrite length_drop. lia.
  - rewrite length_app. simpl. rewrite !length_drop. lia.
  - set_solver.
  - apply until_zero_app.
Qed.

Lemma insert_repr c B fr a s bt :
  repr c B fr -> bt_ok bt -> (0 < mc_room c)%nat ->
  exists c' p fr', insert c a s bt = Ok c' /\
    repr c' (<[alloc_hash a := p :: B !!! alloc_hash a]> B) fr' /\
    mc_room c = S (mc_room c') /\
    (forall k, p ∉ B !!! k) /\
    (exists n, heap c' = <[p := n]> (heap c) /\ record_of n = new_record a s bt).
Proof.
  intros Hr Hbt Hroom.
  destruct (apply_room c B fr Hr Hroom)
    as (p & pool & fr' & Happ & Hfr & Hpart & Hcnt & Hidx & Hrm).
  assert (Hp : (p < Z.to_nat (Seq.mIndex pool))%nat).
  { assert (p ∈ p :: fr' ++ flat B) as Hin by set_solver.
    rewrite Hpart, elem_of_seq in Hin. lia. }
  assert (Hnd : NoDup (p :: fr' ++ flat B)) by (rewrite Hpart; apply NoDup_seq).
  apply NoDup_cons in Hnd as [Hpn Hnd].
  assert (HpB : forall k, p ∉ B !!! k)
    by (intros k ?; apply Hpn; rewrite (flat_lookup B k); set_solver).
  destruct (rp_heap _ _ _ Hr p ltac:(lia)) as (n & Hn & Hlen).
  destruct (store_trace bt (an_trace n) Hbt Hlen)
    as (chunk & copied & ended & Hrd & Hwr & Hst & Hle & Hze & Huz).
  set (n' := {| an_size := u32 s; an_addr := a; an_trace := ended;
                an_next := alloc_table c !! alloc_hash a |}).
  set (c' := {| alloc_table := <[alloc_hash a := p]> (alloc_table c);
                alloc_cache := pool; heap := <[p := n']> (heap c) |}).
  assert (Hr' : repr c' (<[alloc_hash a := p :: B !!! alloc_hash a]> B) fr').
  { split; simpl.
    - intros k. destruct (decide (k = alloc_hash a)) as [->|Hk].
      + rewrite lookup_insert_eq, lookup_total_insert_eq. econstructor; [apply lookup_insert_eq|].
        apply chain_insert_notin; [done|]. apply Hr.
      + rewrite lookup_insert_ne, lookup_total_insert_ne by done.
        apply chain_insert_notin; [done|]. apply Hr.
    - apply chain_insert_notin; [set_solver|done].
    - rewrite flat_insert, <- Hpart, (flat_lookup B (alloc_hash a)).
      simpl. by rewrite <- Permutation_middle.
    - lia.
    - intros i Hi. destruct (decide (i = p)) as [->|].
      + exists n'. by rewrite lookup_insert_eq.
      + rewrite lookup_insert_ne by done. apply Hr. lia.
    - rewrite map_size_insert_Some by (by rewrite Hn). rewrite Hcnt. apply Hr.
    - intros k i m Hi Hm. destruct (decide (i = p)) as [->|Hip].
      + rewrite lookup_insert_eq in Hm. injection Hm as <-. simpl. split; [|done].
        destruct (decide (k = alloc_hash a)) as [->|Hk]; [done|].
        rewrite lookup_total_insert_ne in Hi by done. by apply HpB in Hi.
      + rewrite lookup_insert_ne in Hm by done. apply (rp_live _ _ _ Hr k i m); [|done].
        destruct (decide (k = alloc_hash a)) as [->|Hk].
        * rewrite lookup_total_insert_eq in Hi. set_solver.
        * by rewrite lookup_total_insert_ne in Hi by done.
    - intros k Hk. rewrite lookup_total_insert_ne; [by apply Hr|].
      intros <-. apply Hk, alloc_hash_range. }
  exists c', p, fr'. repeat split_and!; try done.
  - unfold insert. rewrite Happ. simpl. rewrite Hn. simpl. rewrite Hrd. simpl.
    rewrite Hwr. simpl. by rewrite Hst.
  - by rewrite (room_repr _ _ _ Hr').
  - exists n'. split; [done|]. unfold record_of, new_record. simpl. by rewrite Huz.
Qed.

Lemma insert_ok c a s bt :
  mc_wf c -> bt_ok bt -> (0 < mc_room c)%nat ->
  exists c', insert c a s bt = Ok c' /\ mc_wf c' /\ mc_room c = S (mc_room c') /\
    mc_view c' a = new_record a s bt :: mc_view c a /\
    (forall b, b <> a -> mc_view c' b = mc_view c b).
Proof.
  intros (B & fr & Hr) Hbt Hroom.
  destruct (insert_repr c B fr a s bt Hr Hbt Hroom)
    as (c' & p & fr' & Hi & Hr' & Hrm & HpB & n & Hh & Hrec).
  exists c'. repeat split_and!; try done; [by eexists _, _| |].
  - unfold mc_view. rewrite (bucket_repr _ _ _ Hr), (bucket_repr _ _ _ Hr').
    rewrite lookup_total_insert_eq, Hh, (nodes_cons _ _ n) by apply lookup_insert_eq.
    rewrite nodes_insert_notin by done. csimpl. by rewrite Hrec, filter_cons_True.
  - intros b Hb. unfold mc_view. rewrite (bucket_repr _ _ _ Hr), (bucket_repr _ _ _ Hr').
    destruct (decide (alloc_hash b = alloc_hash a)) as [->|Hk].
    + rewrite lookup_total_insert_eq, Hh, (nodes_cons _ _ n) by apply lookup_insert_eq.
      rewrite nodes_insert_notin by done. csimpl. rewrite Hrec, filter_cons_False; [done|].
      simpl. congruence.
    + by rewrite lookup_total_insert_ne, Hh, nodes_insert_notin by done.
Qed.

Lemma insert_drop c a s bt : mc_wf c -> mc_room c = 0%nat -> insert c a s bt = Ok c.
Proof.
  intros (B & fr & Hr) Hroom. unfold insert. by rewrite (apply_full c B fr Hr Hroom).
Qed.


(** ** [remove] *)

Lemma nodes_Forall_addr h l a :
  Forall (fun i => addr_at h i <> Some a) l ->
  filter (fun r => r_addr r = a) (record_of <$> nodes h l) = [].
Proof.
  intros Hl. unfold nodes. induction Hl as [|i l Hi Hl IH]; [done|]. csimpl.
  unfold addr_at in Hi. destruct (h !! i) as [n|] eqn:Hn; [|done].
  rewrite fmap_cons, filter_cons_False; [done|]. simpl in *. congruence.
Qed.

Lemma remove_table_repr c B fr l1 i l2 t' h' a :
  repr c B fr -> B !!! alloc_hash a = l1 ++ i :: l2 ->
  chain h' (t' !! alloc_hash a) (l1 ++ l2) ->
  (forall k', k' <> alloc_hash a -> t' !! k' = alloc_table c !! k') ->
  same_data (heap c) h' -> (forall j, j ∉ l1 -> h' !! j = heap c !! j) ->
  base.size h' = base.size (heap c) ->
  exists c' n, h' !! i = Some n /\
    c' = {| alloc_table := t';
            alloc_cache := {| Seq.mCount := Seq.mCount (alloc_cache c);
                              Seq.mIndex := Seq.mIndex (alloc_cache c); Seq.mStack := Some i |};
            heap := <[i := set_next n (Seq.mStack (alloc_cache c))]> h' |} /\
    repr c' (<[alloc_hash a := l1 ++ l2]> B) (i :: fr).
Proof.
  intros Hr HB Hc Ht Hd Hout Hsz. set (k := alloc_hash a) in *.
  pose proof (repr_bucket_NoDup _ _ _ Hr k) as Hnd. rewrite HB in Hnd.
  apply NoDup_app in Hnd as (Hnd1 & Hdj & Hnd2). apply NoDup_cons in Hnd2 as [Hi2 Hnd2].
  assert (HiB : i ∈ B !!! k) by (rewrite HB; set_solver).
  assert (Hi1 : i ∉ l1) by set_solver.
  destruct (rp_heap _ _ _ Hr i) as (n & Hn & Hlen).
  { pose proof (repr_bucket_bound _ _ _ Hr _ _ HiB). pose proof (rp_index _ _ _ Hr). lia. }
  assert (Hn' : h' !! i = Some n) by (by rewrite Hout).
  eexists _, n. split; [done|]. split; [reflexivity|]. split; simpl.
  - intros k'. destruct (decide (k' = k)) as [->|Hk].
    + rewrite lookup_total_insert_eq. apply chain_insert_notin; [set_solver|done].
    + rewrite lookup_total_insert_ne, Ht by done. apply chain_insert_notin.
      { intros Hik. by apply Hk, (repr_disjoint _ _ _ Hr _ _ i). }
      apply chain_eq_on with (heap c); [|apply Hr]. intros j Hj. apply Hout. intros Hj1.
      apply Hk, (repr_disjoint _ _ _ Hr _ _ j); [done|]. rewrite HB. set_solver.
  - econstructor; [apply lookup_insert_eq|]. simpl. apply chain_insert_notin.
    { intros Hif. by apply (repr_free_bucket _ _ _ Hr k i). }
    apply chain_eq_on with (heap c); [|apply Hr]. intros j Hj. apply Hout. intros Hj1.
    apply (repr_free_bucket _ _ _ Hr k j); [done|]. rewrite HB. set_solver.
  - rewrite flat_insert, <- (rp_part _ _ _ Hr), (flat_lookup B k), HB.
    rewrite Permutation_middle. by rewrite <- !app_assoc, Permutation_middle.
  - apply Hr.
  - intros j Hj. destruct (rp_heap _ _ _ Hr j Hj) as (m & Hm & Hml).
    destruct (same_data_lookup _ _ _ _ Hd Hm) as (q & Hq).
    destruct (decide (j = i)) as [->|].
    + eexists. rewrite lookup_insert_eq. split; [done|]. simpl. rewrite Hn' in Hq.
      simplify_eq. done.
    + eexists. rewrite lookup_insert_ne by done. by split.
  - rewrite map_size_insert_Some by (by rewrite Hn'). rewrite Hsz. apply Hr.
  - intros k' j m Hj Hm.
    assert (Hjk : j ∈ B !!! k').
    { destruct (decide (k' = k)) as [->|Hk].
      - rewrite lookup_total_insert_eq in Hj. rewrite HB. set_solver.
      - by rewrite lookup_total_insert_ne in Hj by done. }
    destruct (chain_lookup _ _ _ _ (rp_bucket _ _ _ Hr k') Hjk) as (m0 & Hm0).
    destruct (same_data_lookup _ _ _ _ Hd Hm0) as (q & Hq).
    pose proof (rp_live _ _ _ Hr k' j m0 Hjk Hm0) as Hlive.
    destruct (decide (j = i)) as [->|].
    + rewrite lookup_insert_eq in Hm. injection Hm as <-. simpl. rewrite Hn' in Hq.
      simplify_eq. done.
    + rewrite lookup_insert_ne, Hq in Hm by done. simplify_eq. done.
  - intros k' Hk'. rewrite lookup_total_insert_ne; [by apply Hr|].
    intros <-. apply Hk', alloc_hash_range.
Qed.

Lemma unlink_size h a p fuel o h' : unlink fuel h a p = Ok (o, h') -> base.size h' = base.size h.
Proof.
  revert p. induction fuel as [|fuel IH]; intros p; simpl; [done|].
  intros (n & Hn & Hu)%rbind_Ok. apply of_opt_Ok in Hn.
  destruct (an_next n) as [t|]; [|by simplify_eq].
  apply rbind_Ok in Hu as (nt & Hnt & Hu). destruct (an_addr nt =? a); [|by apply IH in Hu].
  simplify_eq. rewrite map_size_insert_Some; [done|]. by rewrite Hn.
Qed.

Lemma remove_alloc_size fuel t h k a o t' h' :
  remove_alloc fuel t h k a = Ok (o, t', h') -> base.size h' = base.size h.
Proof.
  unfold remove_alloc. destruct (t !! k) as [hp|]; intros Hu; [|by simplify_eq].
  apply rbind_Ok in Hu as (n & Hn & Hu). destruct (an_addr n =? a); [by simplify_eq|].
  apply rbind_Ok in Hu as ([o1 h1] & Hu & Heq). simplify_eq. by eapply unlink_size.
Qed.

Lemma remove_ok c a :
  mc_wf c ->
  exists c', remove c a = Ok c' /\ mc_wf c' /\
    mc_room c' = (mc_room c + match mc_view c a with [] => 0 | _ => 1 end)%nat /\
    mc_view c' a = tail (mc_view c a) /\
    (forall b, b <> a -> mc_view c' b = mc_view c b).
Proof.
  intros (B & fr & Hr).
  assert (Hview : mc_view c a =
    filter (fun r => r_addr r = a) (record_of <$> nodes (heap c) (B !!! alloc_hash a)))
    by (unfold mc_view; by rewrite (bucket_repr _ _ _ Hr)).
  pose proof (rp_bucket _ _ _ Hr (alloc_hash a)) as Hc.
  unfold remove. destruct (alloc_table c !! alloc_hash a) as [p|] eqn:Hp.
  2:{ assert (HB : B !!! alloc_hash a = []) by (by inversion Hc). rewrite HB in Hview. exists c. rewrite Hview. simpl.
      repeat split_and!; try done; by eexists _, _. }
  rewrite <- Hp in Hc.
  pose proof (repr_bucket_NoDup _ _ _ Hr (alloc_hash a)) as Hnd.
  pose proof (repr_bucket_length _ _ _ Hr (alloc_hash a)) as Hlen.
  destruct (remove_alloc_spec (alloc_table c) (heap c) (alloc_hash a) a _ _ Hc Hnd Hlen)
    as [[Hall Heq]|(l1 & i & l2 & t' & h' & HB & Hi & Hall & Heq & Hc' & Ht & Hd & Hout)];
    rewrite Heq; simpl.
  { rewrite (nodes_Forall_addr _ _ _ Hall) in Hview. rewrite Hview. exists c. simpl.
    destruct c. repeat split_and!; try done; by eexists _, _. }
  pose proof (remove_alloc_size _ _ _ _ _ _ _ _ Heq) as Hsz.
  destruct (remove_table_repr c B fr l1 i l2 t' h' a Hr HB Hc' Ht Hd Hout Hsz)
    as (c' & n & Hn & -> & Hr').
  assert (Hn0 : heap c !! i = Some n).
  { rewrite <- Hout; [done|]. rewrite HB in Hnd. apply NoDup_app in Hnd as (_ & Hnd & _).
    intros Hi1. apply (Hnd _ Hi1). set_solver. }
  assert (Ha : an_addr n = a) by (unfold addr_at in Hi; rewrite Hn0 in Hi; simpl in Hi; congruence).
  assert (Hd' : same_data (heap c) (<[i := set_next n (Seq.mStack (alloc_cache c))]> h')).
  { intros j. rewrite (Hd j). by apply same_data_set_next. }
  eexists. unfold Seq.recycle. rewrite Hn. simpl. split; [reflexivity|].
  repeat split_and!.
  - by eexists _, _.
  - rewrite (room_repr _ _ _ Hr'), (room_repr _ _ _ Hr), Hview, HB. simpl.
    rewrite nodes_app, (nodes_cons _ _ n) by done.
    rewrite fmap_app, filter_app, (nodes_Forall_addr _ l1) by done.
    rewrite fmap_cons, filter_cons_True by (simpl; done). simpl. lia.
  - unfold mc_view at 1. rewrite (bucket_repr _ _ _ Hr'), lookup_total_insert_eq, Hview, HB.
    cbn [heap]. rewrite (same_data_records _ _ _ Hd'), !nodes_app, (nodes_cons _ i n) by done.
    rewrite !fmap_app, !filter_app, (nodes_Forall_addr _ l1) by done.
    rewrite fmap_cons, filter_cons_True by (simpl; done). done.
  - intros b Hb. unfold mc_view. rewrite (bucket_repr _ _ _ Hr'), (bucket_repr _ _ _ Hr).
    cbn [heap]. rewrite (same_data_records _ _ _ Hd').
    destruct (decide (alloc_hash b = alloc_hash a)) as [->|Hk];
      [|by rewrite lookup_total_insert_ne].
    rewrite lookup_total_insert_eq, HB, !nodes_app, (nodes_cons _ i n) by done.
    rewrite !fmap_app, !filter_app, fmap_cons, (filter_cons_False _ (record_of n)); [done|].
    simpl. congruence.
Qed.

(** ** [print] and [reset] *)

Lemma mapM_res_Ok {A B} (f : A -> res B) (g : A -> B) l :
  (forall x, x ∈ l -> f x = Ok (g x)) -> mapM_res f l = Ok (g <$> l).
Proof.
  induction l as [|x l IH]; intros Hf; [done|]. simpl. rewrite Hf by left. simpl.
  rewrite IH; [done|]. intros. apply Hf. by right.
Qed.

Definition repr_nodes (c : MemoryCache) (B : gmap Z (list nat)) (ks : list Z) : list AllocNode :=
  concat ((fun k => nodes (heap c) (B !!! k)) <$> ks).

Lemma all_nodes_repr c B fr : repr c B fr -> all_nodes c = Ok (repr_nodes c B table_range).
Proof.
  intros Hr. unfold all_nodes, repr_nodes. generalize table_range as ks. intros ks.
  rewrite (mapM_res_Ok _ (fun k => nodes (heap c) (B !!! k))); [done|].
  intros k _. apply walk_chain; [apply Hr|]. by apply (repr_bucket_length _ _ fr).
Qed.

Lemma repr_nodes_zero c B fr ks n : repr c B fr -> n ∈ repr_nodes c B ks -> 0 ∈ an_trace n.
Proof.
  intros Hr Hn. unfold repr_nodes in Hn. apply list_elem_of_In, in_concat in Hn as (l & Hl & Hn).
  apply list_elem_of_In, list_elem_of_fmap in Hl as (k & -> & _).
  apply list_elem_of_In in Hn. unfold nodes in Hn. apply list_elem_of_omap in Hn as (i & Hi & Hn).
  by apply (rp_live _ _ _ Hr k i n).
Qed.

Lemma node_records c B fr ks :
  repr c B fr -> mapM_res node_record (repr_nodes c B ks) = Ok (record_of <$> repr_nodes c B ks).
Proof.
  intros Hr. apply mapM_res_Ok. intros n Hn. unfold node_record.
  rewrite bool_decide_true; [done|]. by apply (repr_nodes_zero c B fr ks).
Qed.

Lemma records_by_bucket c B ks :
  record_of <$> repr_nodes c B ks =
  concat ((fun k => record_of <$> nodes (heap c) (B !!! k)) <$> ks).
Proof.
  unfold repr_nodes. induction ks as [|k ks IH]; [done|]. csimpl. by rewrite fmap_app, IH.
Qed.

Lemma print_repr c B fr :
  repr c B fr -> print_records c = Ok (record_of <$> repr_nodes c B table_range).
Proof.
  intros Hr. unfold print_records. rewrite (all_nodes_repr _ _ _ Hr). cbn [rbind].
  by apply (node_records c B fr).
Qed.

Lemma filter_other_bucket c B fr k a :
  repr c B fr -> k <> alloc_hash a ->
  filter (fun r => r_addr r = a) (record_of <$> nodes (heap c) (B !!! k)) = [].
Proof.
  intros Hr Hk. apply nodes_Forall_addr, Forall_forall. intros i Hi Ha.
  unfold addr_at in Ha. destruct (heap c !! i) as [n|] eqn:Hn; simplify_eq/=.
  apply Hk. by destruct (rp_live _ _ _ Hr k i n Hi Hn) as [<- _].
Qed.

(** Among the buckets, only the one of an address contributes to it. *)
Lemma filter_concat_one {A} (P : A -> Prop) `{forall x, Decision (P x)} (f : Z -> list A) k0 l :
  NoDup l -> k0 ∈ l -> (forall k, k <> k0 -> filter P (f k) = []) ->
  filter P (concat (f <$> l)) = filter P (f k0).
Proof.
  intros Hnd Hk0 Hne. induction Hnd as [|k l Hk Hnd IH]; [by apply elem_of_nil in Hk0|].
  csimpl. rewrite filter_app. destruct (decide (k = k0)) as [->|Hk1].
  - assert (Hz : filter P (concat (f <$> l)) = []); [|by rewrite Hz, app_nil_r].
    clear - Hk Hne. induction l as [|k l IH]; [done|]. csimpl. rewrite filter_app.
    apply not_elem_of_cons in Hk as [??]. rewrite Hne by done. by apply IH.
  - rewrite Hne by done. apply IH. set_solver.
Qed.

Lemma hash_in_table a : alloc_hash a ∈ table_range.
Proof.
  pose proof (alloc_hash_range a). unfold table_range. apply elem_of_zrange.
  rewrite Z2Nat.id; [lia|]. unfold ALLOC_INDEX_SIZE. apply Z.shiftl_nonneg. lia.
Qed.

Lemma print_ok c :
  mc_wf c ->
  exists l, print_records c = Ok l /\ forall a, filter (fun r => r_addr r = a) l = mc_view c a.
Proof.
  intros (B & fr & Hr). eexists. split; [by apply (print_repr c B fr)|]. intros a.
  rewrite records_by_bucket. unfold mc_view. rewrite (bucket_repr _ _ _ Hr).
  apply (filter_concat_one (fun r => r_addr r = a)
           (fun k => record_of <$> nodes (heap c) (B !!! k)) (alloc_hash a)).
  - apply NoDup_zrange.
  - apply hash_in_table.
  - intros k Hk. by eapply filter_other_bucket.
Qed.

Lemma clear_table_lookup n t k :
  clear_table n t !! k = if decide (0 <= k < n) then None else t !! k.
Proof.
  unfold clear_table.
  assert (forall l t, foldl (fun t i => delete i t) t l !! k =
                      if decide (k ∈ l) then None else (t : gmap Z nat) !! k) as ->.
  { clear. induction l as [|i l IH]; intros t; simpl; [done|]. rewrite IH.
    destruct (decide (k ∈ l)); [by rewrite decide_True by set_solver|].
    destruct (decide (k = i)) as [->|].
    - by rewrite lookup_delete_eq, decide_True by set_solver.
    - by rewrite lookup_delete_ne, decide_False by set_solver. }
  destruct (decide (k ∈ _)) as [Hk|Hk]; rewrite elem_of_zrange in Hk;
    [rewrite decide_True by lia|rewrite decide_False by lia]; done.
Qed.

Lemma reset_ok c :
  mc_made c ->
  mc_wf (reset c) /\ mc_room (reset c) = mc_capacity c /\ forall a, mc_view (reset c) a = [].
Proof.
  intros (Hcnt & Hsz & Hout & Hnodes).
  assert (Ht : forall k, alloc_table (reset c) !! k = None).
  { intros k. unfold reset. cbn [alloc_table]. rewrite clear_table_lookup.
    case_decide; [reflexivity|]. by apply Hout. }
  assert (Hr : repr (reset c) ∅ []).
  { split.
    - intros k. rewrite Ht, lookup_total_empty. constructor.
    - constructor.
    - constructor.
    - cbn [reset alloc_cache Seq.reset Seq.mIndex Seq.mCount]. lia.
    - exact Hnodes.
    - exact Hsz.
    - intros k i n Hi. rewrite lookup_total_empty in Hi. by apply elem_of_nil in Hi.
    - intros k _. by rewrite lookup_total_empty. }
  split; [by exists ∅, []|]. split.
  - rewrite (room_repr _ _ _ Hr). unfold mc_capacity.
    cbn [reset alloc_cache Seq.reset Seq.mIndex Seq.mCount length]. lia.
  - intros a. unfold mc_view. rewrite (bucket_repr _ _ _ Hr), lookup_total_empty. reflexivity.
Qed.

#[export] Instance MemoryCache_spec : CacheSpec MemoryCache_ops :=
  @Build_CacheSpec _ MemoryCache_ops mc_wf mc_view mc_room mc_made mc_capacity
    reset_ok insert_ok insert_drop remove_ok print_ok.


(** ** The text of the report

    [xdl_addr] (xDL, modelled separately) and [__cxa_demangle] (the C++ runtime)
    are parameters; [xdl_addr] threads its handle cache [dl_cache]. *)
Record Dl_info := {
  dli_fbase : Z;
  dli_fname : option string;    (* [None]: a null pointer *)
  dli_sname : option string;
  dli_saddr : Z
}.

Inductive line :=
| STACK_HEADER (addr size : Z)
| STACK_UNKNOWN (pc : Z)
| STACK_ANONYMOUS (rel base : Z)
| STACK_FILE (rel : Z) (fname : string)
| STACK_FILE_NAME (rel : Z) (fname sym : string)
| STACK_FILE_NAME_LINE (rel : Z) (fname sym : string) (off : Z).

(** [nullptr == s || '\0' == s\[0\]] *)
Definition name_opt (s : option string) : option string :=
  match s with Some EmptyString => None | _ => s end.

Section Report.
Context {X : Type} (xdl_addr : X -> Z -> option Dl_info * X)
        (cxa_demangle : string -> option string).

Definition frame_line (pc : Z) (info : option Dl_info) : line :=
  match info with
  | None => STACK_UNKNOWN pc
  | Some i =>
      if pc <? dli_fbase i then STACK_UNKNOWN pc else
      match name_opt (dli_fname i) with
      | None => STACK_ANONYMOUS (pc - dli_fbase i) (dli_fbase i)
      | Some f =>
          match name_opt (dli_sname i) with
          | None => STACK_FILE (pc - dli_fbase i) f
          | Some s =>
              let sym := default s (cxa_demangle s) in
              if (dli_saddr i =? 0) || (pc <? dli_saddr i)
              then STACK_FILE_NAME (pc - dli_fbase i) f sym
              else STACK_FILE_NAME_LINE (pc - dli_fbase i) f sym (pc - dli_saddr i)
          end
      end
  end.

(** [for (int i = 0; alloc_node->trace\[i\] != 0; i++)] *)
Fixpoint write_frames (dl : X) (trace : list Z) : res (list line * X) :=
  match trace with
  | [] => Fault
  | pc :: trace' =>
      if pc =? 0 then Ok ([], dl)
      else let '(info, dl1) := xdl_addr dl pc in
           let! (ls, dl2) := write_frames dl1 trace' in
           Ok (frame_line pc info :: ls, dl2)
  end.

Definition write_trace (dl : X) (n : AllocNode) : res (list line * X) :=
  let! (ls, dl') := write_frames dl (an_trace n) in
  Ok (STACK_HEADER (an_addr n) (an_size n) :: ls, dl').

Fixpoint write_traces (dl : X) (ns : list AllocNode) : res (list line * X) :=
  match ns with
  | [] => Ok ([], dl)
  | n :: ns' =>
      let! (l1, dl1) := write_trace dl n in
      let! (l2, dl2) := write_traces dl1 ns' in
      Ok (l1 ++ l2, dl2)
  end.

(** [print]; [opened] says whether [fopen] succeeded, [dl0] is the empty
    handle cache. *)
Definition print (opened : bool) (dl0 : X) (c : MemoryCache) : res (list line) :=
  if opened then
    let! ns := all_nodes c in
    let! (ls, _) := write_traces dl0 ns in Ok ls
  else Ok [].

(** What a reader of the report recovers: one entry per header, with the
    number of frame lines that follow it. *)
Fixpoint entries (ls : list line) : list (Z * Z * nat) * nat :=
  match ls with
  | [] => ([], 0%nat)
  | STACK_HEADER a s :: ls' => let '(es, k) := entries ls' in ((a, s, k) :: es, 0%nat)
  | _ :: ls' => let '(es, k) := entries ls' in (es, S k)
  end.

Definition entry_of (r : alloc_record) : Z * Z * nat :=
  (r_addr r, r_size r, length (r_trace r)).

Lemma write_frames_ok dl trace :
  0 ∈ trace ->
  exists ls dl', write_frames dl trace = Ok (ls, dl') /\
    forall rest, entries (ls ++ rest) =
      ((entries rest).1, length (until_zero trace) + (entries rest).2)%nat.
Proof.
  revert dl. induction trace as [|pc trace IH]; intros dl Hz; [by apply elem_of_nil in Hz|].
  simpl. destruct (Z.eqb_spec pc 0) as [->|Hpc].
  - exists [], dl. split; [done|]. intros rest. simpl. by destruct (entries rest).
  - destruct (xdl_addr dl pc) as [info dl1].
    destruct (IH dl1) as (ls & dl2 & Hw & He); [set_solver|]. rewrite Hw. simpl.
    eexists _, dl2. split; [done|]. intros rest. simpl. rewrite He. simpl.
    unfold frame_line. destruct info as [i|]; [|done]. repeat (case_match; try done).
Qed.

Lemma write_traces_ok dl ns :
  Forall (fun n => 0 ∈ an_trace n) ns ->
  exists ls dl', write_traces dl ns = Ok (ls, dl') /\
    entries ls = (entry_of <$> (record_of <$> ns), 0%nat).
Proof.
  intros Hns. revert dl. induction Hns as [|n ns Hz Hns IH]; intros dl; [by exists [], dl|].
  destruct (write_frames_ok dl (an_trace n) Hz) as (l1 & dl1 & H1 & E1).
  destruct (IH dl1) as (l2 & dl2 & H2 & E2).
  exists (STACK_HEADER (an_addr n) (an_size n) :: l1 ++ l2), dl2. split.
  - simpl. unfold write_trace. rewrite H1. simpl. by rewrite H2.
  - simpl. rewrite E1, E2. simpl. unfold entry_of at 1. simpl. by rewrite Nat.add_0_r.
Qed.

Lemma print_entries dl0 c :
  mc_wf c ->
  exists ls l, print true dl0 c = Ok ls /\ print_records c = Ok l /\
    entries ls = (entry_of <$> l, 0%nat).
Proof.
  intros (B & fr & Hr).
  destruct (write_traces_ok dl0 (repr_nodes c B table_range)) as (ls & dl' & Hw & He).
  { apply Forall_forall. intros n. by apply (repr_nodes_zero c B fr). }
  exists ls, (record_of <$> repr_nodes c B table_range).
  rewrite (print_repr c B fr Hr). unfold print. rewrite (all_nodes_repr _ _ _ Hr).
  cbn [rbind]. rewrite Hw. cbn [rbind]. done.
Qed.
End Report.

(** ** Properties *)

(** Conversion is to look through the interface record before it evaluates the
    traversal of 65536 buckets. *)
#[local] Strategy 100 [print_records all_nodes table_range].

Lemma made_new raw tbl idx stk :
  (forall i, length (an_trace (raw i)) = MAX_TRACE_DEPTH) ->
  (forall k, ~ (0 <= k < ALLOC_INDEX_SIZE) -> tbl !! k = None) ->
  mc_made (new_MemoryCache raw tbl idx stk).
Proof.
  intros Hraw Htbl. unfold mc_made, new_MemoryCache.
  cbn [alloc_cache alloc_table heap Seq.mCount]. unfold ALLOC_CACHE_SIZE.
  generalize (Z.to_nat (1 .<< 15)) as n. intros n. repeat split_and!; [by apply Z.shiftl_nonneg|reflexivity| |done|].
  - apply Seq.malloc_nodes_size.
  - intros i Hi. exists (raw i). rewrite Seq.malloc_nodes_lookup, decide_True by done.
    split; [done|apply Hraw].
Qed.

Lemma capacity_new raw tbl idx stk :
  mc_capacity (new_MemoryCache raw tbl idx stk) = Z.to_nat ALLOC_CACHE_SIZE.
Proof. reflexivity. Qed.

Lemma reset_refines raw tbl idx stk :
  mc_made (new_MemoryCache raw tbl idx stk) ->
  refines (ops := MemoryCache_ops) (Z.to_nat ALLOC_CACHE_SIZE)
    (reset (new_MemoryCache raw tbl idx stk)) [].
Proof.
  intros Hm. rewrite <- (capacity_new raw tbl idx stk).
  exact (@refines_reset _ MemoryCache_ops MemoryCache_spec _ Hm).
Qed.

Lemma report_from {X} (xdl_addr : X -> Z -> option Dl_info * X) demangle dl0 cap c0 ol :
  refines (ops := MemoryCache_ops) cap c0 [] -> Forall op_ok ol ->
  exists c l ls,
    run_ops MemoryCache_ops c0 ol = Ok c /\
    print_records c = Ok l /\ print xdl_addr demangle true dl0 c = Ok ls /\
    entries ls = (entry_of <$> l, 0%nat) /\ l ≡ₚ foldl (spec_step cap) [] ol.
Proof.
  intros Hr Hol. destruct (refines_run _ ol _ _ Hr Hol) as (c & Hrun & Hc).
  destruct (refines_print _ _ _ Hc) as (l & Hl & Hp). cbn [c_print MemoryCache_ops] in Hl.
  destruct Hc as (Hwf & _ & _).
  destruct (print_entries xdl_addr demangle dl0 c Hwf) as (ls & l' & Hls & Hl' & He).
  rewrite Hl in Hl'. injection Hl' as <-. by exists c, l, ls.
Qed.

(** C3: The report is exact. After [reset], any sequence of [insert]s of backtraces
    that fit their buffer, of at most 16 frames (a deeper one overruns it: [insert_deep_faults]), and of
    [remove]s runs without a fault, whatever the uninitialised storage held (the hash table having been
    nothing but its 65536 cells), and [print], once its file is open, then writes one entry (address, size, number of frames) for
    each record that is live in the abstract cache of 32768 records (a newest
    first list: insertion conses unless full, removal drops the newest record of
    the address), and no other. *)
Theorem report_exact {X} (xdl_addr : X -> Z -> option Dl_info * X) demangle dl0 raw tbl idx stk ol :
  (forall i, length (an_trace (raw i)) = MAX_TRACE_DEPTH) ->
  (forall k, ~ (0 <= k < ALLOC_INDEX_SIZE) -> tbl !! k = None) ->
  Forall op_ok ol ->
  exists c l ls,
    run_ops MemoryCache_ops (reset (new_MemoryCache raw tbl idx stk)) ol = Ok c /\
    print_records c = Ok l /\ print xdl_addr demangle true dl0 c = Ok ls /\
    entries ls = (entry_of <$> l, 0%nat) /\
    l ≡ₚ foldl (spec_step (Z.to_nat ALLOC_CACHE_SIZE)) [] ol.
Proof.
  intros Hraw Htbl Hol. apply report_from; [|done]. apply reset_refines. by apply made_new.
Qed.

(** A backtrace deeper than the fixed 16 words overruns the buffers: with
    room left, [insert] reads (and writes) outside [trace\[16\]].  The depth
    mask of Raphael.h admits configured depths up to 31. *)
Theorem insert_deep_faults c a s bt :
  mc_wf c -> (0 < mc_room c)%nat ->
  length (bt_trace bt) = MAX_TRACE_DEPTH -> Z.of_nat MAX_TRACE_DEPTH < bt_depth bt ->
  insert c a s bt = Fault.
Proof.
  unfold MAX_TRACE_DEPTH. intros (B & fr & Hr) Hroom Hlen Hd.
  destruct (apply_room c B fr Hr Hroom) as (p & pool & fr' & Happ & _ & Hpart & Hcnt & Hidx & _).
  assert (Hp : (p < Z.to_nat (Seq.mIndex pool))%nat).
  { assert (p ∈ p :: fr' ++ flat B) as Hin by set_solver.
    rewrite Hpart, elem_of_seq in Hin. lia. }
  destruct (rp_heap _ _ _ Hr p ltac:(lia)) as (n & Hn & _).
  unfold insert. rewrite Happ. simpl. rewrite Hn. simpl. unfold list_read, trace_depth.
  destruct (Z.ltb_spec 2 (bt_depth bt)); [|lia]. by rewrite decide_False by lia.
Qed.

End MemoryCache.

(** ** Witnesses *)

Definition blank_node (i : nat) : AllocNode :=
  {| an_size := 0; an_addr := 7; an_trace := replicate 16 9; an_next := Some 3%nat |}.

Definition bt4 : Backtrace :=
  {| bt_depth := 4; bt_trace := [11; 12; 13; 14; 0; 0; 0; 0; 0; 0; 0; 0; 0; 0; 0; 0] |}.

Definition bt_deep : Backtrace :=
  {| bt_depth := 18; bt_trace := replicate 16 5 |}.

Lemma report_exact_witness :
  exists c l ls,
    run_ops (@MemoryCache_ops arm64) (reset (new_MemoryCache blank_node ∅ 77 (Some 5%nat)))
      [OInsert 0x7000 4096 bt4; OInsert 0x8000 512 bt4; ORemove 0x7000] = Ok c /\
    print_records c = Ok l /\
    print (fun (x : unit) _ => (None, x)) (fun _ => None) true tt c = Ok ls /\
    entries ls = (entry_of <$> l, 0%nat) /\
    l ≡ₚ foldl (spec_step (Z.to_nat ALLOC_CACHE_SIZE)) []
      [OInsert 0x7000 4096 bt4; OInsert 0x8000 512 bt4; ORemove 0x7000].
Proof.
  apply (@report_exact arm64 unit).
  - intros i. reflexivity.
  - intros k _. apply lookup_empty.
  - repeat (constructor; [by vm_compute; repeat split; discriminate|]). constructor.
Defined.

Lemma insert_deep_faults_witness :
  @insert arm64 (reset (new_MemoryCache blank_node ∅ 0 None)) 0x7000 4096 bt_deep = Fault.
Proof.
  assert (Hm : mc_made (new_MemoryCache blank_node ∅ 0 None)).
  { apply made_new; [reflexivity|]. intros k _. apply lookup_empty. }
  destruct (@reset_ok arm64 _ Hm) as (Hwf & Hroom & _).
  apply (@insert_deep_faults arm64); [exact Hwf| |reflexivity|by vm_compute].
  rewrite Hroom, capacity_new. apply Nat2Z.inj_lt. rewrite Z2Nat.id; by vm_compute.
Defined.
