(* ===== verification/HookProxy.v ===== *)
(** The allocation proxies of HookProxy.h: what runs in place of [malloc],
    [calloc], [realloc], [memalign], [free], [mmap], [mmap64], [munmap] and
    [pthread_exit] once they are hooked.  The hooked functions themselves, the
    unwinder and the thread's stack base are parameters; the cache is any
    implementation of [CacheSpec]. *)
From S2P Require Import Prelude Cache AllocPool MemoryCache.

#[local] Arguments rbind {_ _} !_ _ /.

Definition LIMIT_MASK : Z := 0x0000FFFF.
Definition DEPTH_MASK : Z := 0x001F0000.
Definition ALLOC_MODE : Z := 0x00400000.
Definition MAP64_MODE : Z := 0x00800000.

Record mmap_args := { m_ptr : Z; m_size : Z; m_prot : Z; m_flags : Z; m_fd : Z; m_offset : Z }.

(** A call of one of the hooked functions. *)
Inductive call :=
| Malloc (size : Z)
| Calloc (count bytes : Z)
| Realloc (ptr size : Z)
| Memalign (alignment size : Z)
| Free (address : Z)
| Mmap (args : mmap_args)
| Mmap64 (args : mmap_args)
| Munmap (address size : Z)
| Pthread_exit (value : Z).

Section HookProxy.
Context `{Arch} {C : Type} (ops : cache_ops C) {W : Type}.

(** [origin w k] is the effect of the original function ([malloc_origin], ..):
    its result, [0] for a void function, and the new world. *)
Variable origin : W -> call -> Z * W.
(** [unwind_backtrace(trace, max_depth)] / [libudf_unwind_backtrace]. *)
Variable unwind : W -> Z -> Backtrace.
(** [attr.stack_base] when [pthread_getattr_np] succeeds. *)
Variable stack_base : W -> option Z.

Definition MAP_FAILED : Z := 2 ^ ptr_bits - 1.

(** The static variables of HookProxy.h, with the running thread's value of the
    TLS key [guard], and the world the original functions act on. *)
Record hook := {
  cache : option C;
  limit : Z;
  depth : Z;
  isPss : Z;
  isVss : Z;
  guard : Z;
  world : W
}.

Definition set_guard (g : Z) (st : hook) : hook :=
  {| cache := cache st; limit := limit st; depth := depth st; isPss := isPss st;
     isVss := isVss st; guard := g; world := world st |}.
Definition set_world (w : W) (st : hook) : hook :=
  {| cache := cache st; limit := limit st; depth := depth st; isPss := isPss st;
     isVss := isVss st; guard := guard st; world := w |}.
Definition set_cache (c : C) (st : hook) : hook :=
  {| cache := Some c; limit := limit st; depth := depth st; isPss := isPss st;
     isVss := isVss st; guard := guard st; world := world st |}.

Definition update_configs (pNew : option C) (params : Z) (st : hook) : hook :=
  {| cache := match pNew with Some c => Some c | None => cache st end;
     limit := params .& LIMIT_MASK;
     depth := (params .& DEPTH_MASK) .>> 16;
     isPss := b2z (truthy (params .& ALLOC_MODE));
     isVss := b2z (truthy (params .& MAP64_MODE));
     guard := guard st; world := world st |}.

(** [X_origin(..)] *)
Definition call_origin (k : call) (st : hook) : Z * hook :=
  let '(r, w) := origin (world st) k in (r, set_world w st).

Definition insert_memory_backtrace (address size : Z) (st : hook) : res hook :=
  let! c := of_opt (cache st) in
  let! c' := c_insert ops c address size (unwind (world st) (depth st + 1)) in
  Ok (set_cache c' st).

Definition cache_remove (address : Z) (st : hook) : res hook :=
  let! c := of_opt (cache st) in
  let! c' := c_remove ops c address in
  Ok (set_cache c' st).

(** ** The proxies *)

Definition malloc_proxy (size : Z) (st : hook) : res (Z * hook) :=
  if truthy (isPss st) && (limit st <=? size) && negb (truthy (guard st)) then
    let st := set_guard 1 st in
    let '(address, st) := call_origin (Malloc size) st in
    let! st := if truthy address then insert_memory_backtrace address size st else Ok st in
    Ok (address, set_guard 0 st)
  else Ok (call_origin (Malloc size) st).

Definition calloc_proxy (count bytes : Z) (st : hook) : res (Z * hook) :=
  let size := u32 (count * bytes) in
  if truthy (isPss st) && (limit st <=? size) && negb (truthy (guard st)) then
    let st := set_guard 1 st in
    let '(address, st) := call_origin (Calloc count bytes) st in
    let! st := if truthy address then insert_memory_backtrace address size st else Ok st in
    Ok (address, set_guard 0 st)
  else Ok (call_origin (Calloc count bytes) st).

Definition realloc_proxy (ptr size : Z) (st : hook) : res (Z * hook) :=
  if truthy (isPss st) && negb (truthy (guard st)) then
    let st := set_guard 1 st in
    let '(address, st) := call_origin (Realloc ptr size) st in
    let! st := if truthy ptr && ((size =? 0) || truthy address)
               then cache_remove ptr st else Ok st in
    let! st := if truthy address && (limit st <=? size)
               then insert_memory_backtrace address size st else Ok st in
    Ok (address, set_guard 0 st)
  else Ok (call_origin (Realloc ptr size) st).

Definition memalign_proxy (alignment size : Z) (st : hook) : res (Z * hook) :=
  if truthy (isPss st) && (limit st <=? size) && negb (truthy (guard st)) then
    let st := set_guard 1 st in
    let '(address, st) := call_origin (Memalign alignment size) st in
    let! st := if truthy address then insert_memory_backtrace address size st else Ok st in
    Ok (address, set_guard 0 st)
  else Ok (call_origin (Memalign alignment size) st).

Definition free_proxy (address : Z) (st : hook) : res (Z * hook) :=
  if truthy (isVss st .| isPss st) && truthy address && negb (truthy (guard st)) then
    let st := set_guard 1 st in
    let '(r, st) := call_origin (Free address) st in
    let! st := cache_remove address st in
    Ok (r, set_guard 0 st)
  else Ok (call_origin (Free address) st).

Definition mmap_proxy (args : mmap_args) (st : hook) : res (Z * hook) :=
  if truthy (isVss st) && negb (truthy (guard st)) then
    let st := set_guard 1 st in
    let '(address, st) := call_origin (Mmap args) st in
    let! st := if negb (address =? MAP_FAILED)
               then insert_memory_backtrace address (m_size args) st else Ok st in
    Ok (address, set_guard 0 st)
  else Ok (call_origin (Mmap args) st).

Definition mmap64_proxy (args : mmap_args) (st : hook) : res (Z * hook) :=
  if truthy (isVss st) && negb (truthy (guard st)) then
    let st := set_guard 1 st in
    let '(address, st) := call_origin (Mmap64 args) st in
    let! st := if negb (address =? MAP_FAILED)
               then insert_memory_backtrace address (m_size args) st else Ok st in
    Ok (address, set_guard 0 st)
  else Ok (call_origin (Mmap64 args) st).

Definition munmap_proxy (address size : Z) (st : hook) : res (Z * hook) :=
  if truthy (isVss st) && truthy address && negb (truthy (guard st)) then
    let st := set_guard 1 st in
    let '(result, st) := call_origin (Munmap address size) st in
    let! st := if result =? 0 then cache_remove address st else Ok st in
    Ok (result, set_guard 0 st)
  else Ok (call_origin (Munmap address size) st).

(** Unlike the others this proxy does not look at the guard. *)
Definition pthread_exit_proxy (value : Z) (st : hook) : res (Z * hook) :=
  let! st :=
    if truthy (isVss st) then
      match stack_base (world st) with
      | Some base =>
          let! st := cache_remove base (set_guard 1 st) in Ok (set_guard 0 st)
      | None => Ok st
      end
    else Ok st in
  Ok (call_origin (Pthread_exit value) st).

Definition proxy (k : call) (st : hook) : res (Z * hook) :=
  match k with
  | Malloc size => malloc_proxy size st
  | Calloc count bytes => calloc_proxy count bytes st
  | Realloc ptr size => realloc_proxy ptr size st
  | Memalign alignment size => memalign_proxy alignment size st
  | Free address => free_proxy address st
  | Mmap args => mmap_proxy args st
  | Mmap64 args => mmap64_proxy args st
  | Munmap address size => munmap_proxy address size st
  | Pthread_exit value => pthread_exit_proxy value st
  end.

Fixpoint run_calls (ks : list call) (st : hook) : res hook :=
  match ks with
  | [] => Ok st
  | k :: ks' => let! (_, st') := proxy k st in run_calls ks' st'
  end.

(** ** Safety and transparency *)

Section Client.
Context `{!CacheSpec ops}.
Hypothesis unwind_ok : forall w d, 0 <= d <= Z.of_nat MAX_TRACE_DEPTH -> bt_ok (unwind w d).

(** States in which the recorder is usable. *)
Definition ready (st : hook) : Prop :=
  0 <= depth st < Z.of_nat MAX_TRACE_DEPTH /\ exists c, cache st = Some c /\ wf c.

(** Configuration, and what a call may change of it. *)
Definition same_config (st st' : hook) : Prop :=
  limit st' = limit st /\ depth st' = depth st /\ isPss st' = isPss st /\ isVss st' = isVss st.

Definition cache_view (st : hook) (a : Z) : list alloc_record :=
  match cache st with Some c => view c a | None => [] end.

Definition cache_room (st : hook) : nat :=
  match cache st with Some c => room c | None => 0%nat end.

Lemma call_origin_eq k st :
  call_origin k st = ((origin (world st) k).1, set_world (origin (world st) k).2 st).
Proof. unfold call_origin. by destruct (origin (world st) k). Qed.

(** [insert_memory_backtrace] never faults; it adds a record unless full. *)
Lemma imb_ok a s st :
  ready st ->
  exists st', insert_memory_backtrace a s st = Ok st' /\ ready st' /\ same_config st st' /\
    guard st' = guard st /\ world st' = world st /\
    ((0 < cache_room st)%nat ->
       cache_room st = S (cache_room st') /\
       cache_view st' a = new_record a s (unwind (world st) (depth st + 1)) :: cache_view st a /\
       forall b, b <> a -> cache_view st' b = cache_view st b).
Proof.
  intros (Hd & c & Hc & Hwf). unfold insert_memory_backtrace, cache_view, cache_room.
  rewrite Hc. simpl.
  assert (Hbt : bt_ok (unwind (world st) (depth st + 1))) by (apply unwind_ok; lia).
  destruct (decide (0 < room c)%nat) as [Hr|Hr].
  - destruct (insert_room c a s _ Hwf Hbt Hr) as (c' & -> & Hwf' & Hrm & Ha & Hb).
    exists (set_cache c' st). simpl.
    split; [done|]. split; [by split; [|exists c']|]. do 3 (split; [done|]). done.
  - rewrite (insert_full c a s _ Hwf) by lia. exists (set_cache c st). simpl.
    split; [done|]. split; [by split; [|exists c]|]. do 3 (split; [done|]). lia.
Qed.

Lemma cache_remove_ok a st :
  ready st ->
  exists st', cache_remove a st = Ok st' /\ ready st' /\ same_config st st' /\
    guard st' = guard st /\ world st' = world st /\
    (cache_room st <= cache_room st')%nat /\
    cache_view st' a = tail (cache_view st a) /\
    forall b, b <> a -> cache_view st' b = cache_view st b.
Proof.
  intros (Hd & c & Hc & Hwf). unfold cache_remove, cache_view, cache_room. rewrite Hc. simpl.
  destruct (remove_view c a Hwf) as (c' & -> & Hwf' & Hrm & Ha & Hb).
  exists (set_cache c' st). simpl.
  split; [done|]. split; [by split; [|exists c']|]. do 3 (split; [done|]).
  split; [lia|]. by split.
Qed.

Lemma ready_set_guard g st : ready st -> ready (set_guard g st).
Proof. done. Qed.
Lemma ready_set_world w st : ready st -> ready (set_world w st).
Proof. done. Qed.

Ltac split_if :=
  match goal with
  | |- context [if ?b then _ else _] => destruct b eqn:?
  | |- context [stack_base ?w] => destruct (stack_base w) eqn:?
  end.

(** Run the straight-line code of a proxy: one optional cache action at a time. *)
Ltac proxy_step :=
  match goal with
  | |- context [insert_memory_backtrace ?a ?s ?st] =>
      let Hr := fresh "Hr" in let st' := fresh "st'" in
      assert (Hr : ready st) by (repeat first [assumption | apply ready_set_guard | apply ready_set_world]);
      destruct (imb_ok a s st Hr) as (st' & -> & ? & ? & ? & ? & ?)
  | |- context [cache_remove ?a ?st] =>
      let Hr := fresh "Hr" in let st' := fresh "st'" in
      assert (Hr : ready st) by (repeat first [assumption | apply ready_set_guard | apply ready_set_world]);
      destruct (cache_remove_ok a st Hr) as (st' & -> & ? & ? & ? & ? & ? & ? & ?)
  end.

(** What every proxy promises, whatever it records. *)
Definition proxy_post (k : call) (st : hook) (o : res (Z * hook)) : Prop :=
  exists st', o = Ok ((origin (world st) k).1, st') /\ ready st' /\ same_config st st' /\
    world st' = (origin (world st) k).2 /\ (guard st = 0 -> guard st' = 0).

Ltac proxy_ready :=
  repeat first [assumption | apply ready_set_guard | apply ready_set_world].

Ltac proxy_done :=
  eexists; split; [reflexivity|]; split; [proxy_ready|];
  unfold same_config in *; simpl in *;
  repeat match goal with H : _ /\ _ |- _ => destruct H end;
  split; [by repeat split; congruence|split; congruence].

Lemma proxy_transparent_aux k st : ready st -> proxy_post k st (proxy k st).
Proof.
  intros Hst. unfold proxy_post. destruct k; simpl;
    unfold malloc_proxy, calloc_proxy, realloc_proxy, memalign_proxy, free_proxy, mmap_proxy,
      mmap64_proxy, munmap_proxy, pthread_exit_proxy;
    rewrite ?call_origin_eq; simpl;
    repeat first [progress simpl | split_if | proxy_step];
    rewrite ?call_origin_eq; simpl;
    repeat match goal with H : world _ = world _ |- _ => simpl in H; rewrite H end; proxy_done.
Qed.

(** C4: Recording is transparent: with a live cache, a configured depth of at most
    15 frames (the configuration word has room for 31, for which the backtrace
    overruns its buffer) and an unwinder that keeps to the 16 words it is given, a hooked function
    returns what the original one returns and leaves the process as it does, in every
    mode and with every limit.  Only the leak cache changes besides, the configuration
    is kept, the proxy does not fault, and the thread's guard is clear again
    afterwards if it was before. *)
Theorem proxy_transparent k st :
  ready st ->
  exists st', proxy k st = Ok ((origin (world st) k).1, st') /\ ready st' /\
    same_config st st' /\ world st' = (origin (world st) k).2 /\
    (guard st = 0 -> guard st' = 0).
Proof. apply proxy_transparent_aux. Qed.

(** ** Exactness of the leak report *)

(** What the program can hold: a block of the allocator or a mapping. *)
Inductive item := Block (size : Z) | Mapping (size : Z).

#[export] Instance item_eq_dec : EqDecision item.
Proof. solve_decision. Defined.

Definition item_size (i : item) : Z := match i with Block n | Mapping n => n end.

Definition MAP_FIXED : Z := 0x10.

(** The size a call asks for. *)
Definition request (k : call) : option Z :=
  match k with
  | Malloc n | Realloc _ n | Memalign _ n => Some n
  | Calloc c b => Some (c * b)
  | Mmap args | Mmap64 args => Some (m_size args)
  | _ => None
  end.

(** Requests a [uint32_t] can hold. *)
Definition small_call (k : call) : Prop :=
  match request k with Some n => is_word 32 n | None => True end.

Section Items.
(** [vss]: whether the mappings count, as [MAP64_MODE] asks. *)
Context (vss : bool).

(** The address whose item a call releases, given the result [r] of the original
    function: by [free], [realloc] or a successful [munmap], and, when a thread
    ends, its stack. *)
Definition released (w : W) (k : call) (r : Z) : option Z :=
  match k with
  | Free a => if truthy a then Some a else None
  | Realloc p n => if truthy p && ((n =? 0) || truthy r) then Some p else None
  | Munmap a _ => if vss && truthy a && (r =? 0) then Some a else None
  | Pthread_exit _ => if vss then stack_base w else None
  | _ => None
  end.

(** The item a call obtains, of the size it asked for. *)
Definition obtained (k : call) (r : Z) : option (Z * item) :=
  match k with
  | Mmap args | Mmap64 args =>
      if vss && negb (r =? MAP_FAILED) then Some (r, Mapping (m_size args)) else None
  | _ => if truthy r then (fun n => (r, Block n)) <$> request k else None
  end.

(** The items outstanding after a call. *)
Definition outstanding (t : gmap Z item) (w : W) (k : call) (r : Z) : gmap Z item :=
  let t1 := match released w k r with Some a => delete a t | None => t end in
  match obtained k r with Some (a, i) => <[a:=i]> t1 | None => t1 end.

Fixpoint leaks (ks : list call) (w : W) (t : gmap Z item) : gmap Z item :=
  match ks with
  | [] => t
  | k :: ks' => leaks ks' (origin w k).2 (outstanding t w k (origin w k).1)
  end.

(** What the C library and the kernel promise: [live w a] is the item that starts
    at [a].  A legal call frees only blocks, and, when mappings count, unmaps only
    whole mappings and asks for no fixed address.  It keeps the items it does not
    release, and obtains one at an address where none was, or the one it has
    released. *)
Definition legal (live : W -> Z -> option item) (w : W) (k : call) : Prop :=
  match k with
  | Free a | Realloc a _ => a = 0 \/ exists n, live w a = Some (Block n)
  | Munmap a n => vss = true -> live w a = Some (Mapping n)
  | Mmap args | Mmap64 args => vss = true -> m_flags args .& MAP_FIXED = 0
  | _ => True
  end.

Class HeapContract (live : W -> Z -> option item) := {
  heap_keeps w k a i :
    legal live w k -> live w a = Some i -> released w k (origin w k).1 <> Some a ->
    live (origin w k).2 a = Some i;
  heap_fresh w k a i :
    legal live w k -> obtained k (origin w k).1 = Some (a, i) ->
    live (origin w k).2 a = Some i /\ (is_Some (live w a) -> released w k (origin w k).1 = Some a)
}.
End Items.

(** What a configuration has reported: every mapping that counts, and, with
    [ALLOC_MODE], the blocks of at least [lim] bytes. *)
Definition reported (lim pss : Z) (i : item) : bool :=
  match i with Block n => truthy pss && (lim <=? n) | Mapping _ => true end.

Definition to_report (lim pss : Z) (t : gmap Z item) : gmap Z Z :=
  item_size <$> filter (fun p => reported lim pss p.2 = true) t.

Section Report.
Context (vss : bool) (live : W -> Z -> option item) `{!HeapContract vss live}.

Fixpoint legal_run (ks : list call) (w : W) : Prop :=
  match ks with
  | [] => True
  | k :: ks' => legal vss live w k /\ legal_run ks' (origin w k).2
  end.

Definition shown (r : alloc_record) : Z * Z := (r_addr r, r_size r).

(** The records of [st] are those to report of [t]. *)
Definition tracks (st : hook) (t : gmap Z item) : Prop :=
  forall a, shown <$> cache_view st a =
    match to_report (limit st) (isPss st) t !! a with Some n => [(a, n)] | None => [] end.

(** The state after [start]: not inside a proxy, mappings recorded if [vss]. *)
Definition recording (st : hook) : Prop := ready st /\ guard st = 0 /\ truthy (isVss st) = vss.

Definition held (w : W) (t : gmap Z item) : Prop := forall a i, t !! a = Some i -> live w a = Some i.

Lemma to_report_lookup lim pss t a :
  to_report lim pss t !! a =
  match t !! a with Some i => if reported lim pss i then Some (item_size i) else None | None => None end.
Proof.
  unfold to_report. rewrite lookup_fmap, map_lookup_filter. destruct (t !! a) as [i|]; [|done]. cbn.
  case_guard as Hg; cbn in Hg; destruct (reported lim pss i); done.
Qed.

Lemma to_report_insert lim pss t a i :
  reported lim pss i = true -> to_report lim pss (<[a:=i]> t) = <[a:=item_size i]> (to_report lim pss t).
Proof.
  intros Hi. apply map_eq. intros b. rewrite to_report_lookup. destruct (decide (b = a)) as [->|].
  - by rewrite !lookup_insert_eq, Hi.
  - by rewrite !lookup_insert_ne, to_report_lookup by done.
Qed.

Lemma to_report_delete lim pss t a : to_report lim pss (delete a t) = delete a (to_report lim pss t).
Proof.
  apply map_eq. intros b. rewrite to_report_lookup. destruct (decide (b = a)) as [->|].
  - by rewrite !lookup_delete_eq.
  - by rewrite !lookup_delete_ne, to_report_lookup by done.
Qed.

(** An item that is not reported is as good as none. *)
Lemma to_report_skip lim pss t a i :
  t !! a = None -> reported lim pss i = false -> to_report lim pss (<[a:=i]> t) = to_report lim pss t.
Proof.
  intros Ha Hi. apply map_eq. intros b. rewrite !to_report_lookup. destruct (decide (b = a)) as [->|].
  - by rewrite lookup_insert_eq, Hi, Ha.
  - by rewrite lookup_insert_ne.
Qed.

Lemma outstanding_held w k t :
  legal vss live w k -> held w t -> held (origin w k).2 (outstanding vss t w k (origin w k).1).
Proof.
  intros Hl Ht a i. unfold outstanding.
  assert (Hdel : match released vss w k (origin w k).1 with Some a => delete a t | None => t end !! a
            = Some i -> live (origin w k).2 a = Some i).
  { intros Ha. apply (heap_keeps vss); [done| |].
    - destruct (released _ _ _ _); [apply lookup_delete_Some in Ha as [_ Ha]|]; eauto.
    - intros He. rewrite He in Ha. by rewrite lookup_delete_eq in Ha. }
  destruct (obtained _ _ _) as [[b m]|] eqn:Ho; [|done].
  destruct (decide (a = b)) as [->|]; [|by rewrite lookup_insert_ne].
  rewrite lookup_insert_eq. intros [= ->]. by destruct (heap_fresh vss w k b i Hl Ho).
Qed.

Lemma fresh_None w k t a i :
  legal vss live w k -> held w t -> obtained vss k (origin w k).1 = Some (a, i) ->
  match released vss w k (origin w k).1 with Some b => delete b t | None => t end !! a = None.
Proof.
  intros Hl Ht Ho. destruct (heap_fresh vss w k a i Hl Ho) as [_ Hf].
  destruct (t !! a) as [m|] eqn:Ha.
  - rewrite Hf by (rewrite (Ht _ _ Ha); by eexists). apply lookup_delete_eq.
  - destruct (released _ _ _ _); [|done]. apply lookup_delete_None. by right.
Qed.

(** *** The two cache actions of the proxies, as they move the records *)

Definition recorded (st st' : hook) (t : gmap Z item) : Prop :=
  ready st' /\ same_config st st' /\ guard st' = guard st /\ world st' = world st /\
  tracks st' t /\ (cache_room st <= S (cache_room st'))%nat.

Definition record_block (o : option (Z * item)) (st : hook) : res hook :=
  match o with
  | Some (a, i) => if reported (limit st) (isPss st) i then insert_memory_backtrace a (item_size i) st else Ok st
  | None => Ok st
  end.
Definition forget_block (o : option Z) (st : hook) : res hook :=
  match o with Some a => cache_remove a st | None => Ok st end.

Lemma tracks_same st st' t :
  tracks st t -> same_config st st' -> cache st' = cache st -> tracks st' t.
Proof. unfold tracks, cache_view. by intros Ht (-> & _ & -> & _) ->. Qed.

Lemma record_block_ok o st t :
  ready st -> tracks st t -> (0 < cache_room st)%nat ->
  (forall a i, o = Some (a, i) -> t !! a = None /\ is_word 32 (item_size i)) ->
  exists st', record_block o st = Ok st' /\
    recorded st st' (match o with Some (a, i) => <[a:=i]> t | None => t end).
Proof.
  intros Hr Ht Hroom Ho.
  assert (Hsame : recorded st st t) by (do 5 (split; [done|]); lia).
  destruct o as [[a i]|]; [|by exists st]. destruct (Ho a i eq_refl) as [Ha Hn]. cbn.
  destruct (reported (limit st) (isPss st) i) eqn:Hi.
  - destruct (imb_ok a (item_size i) st Hr) as (st' & -> & Hr' & Hc & Hg & Hw & Hv).
    destruct (Hv Hroom) as (Hrm & Hva & Hvb). exists st'. split; [done|].
    do 4 (split; [done|]). split; [|lia]. intros b. destruct Hc as (-> & _ & -> & _).
    rewrite to_report_insert by done. destruct (decide (b = a)) as [->|].
    + specialize (Ht a). rewrite to_report_lookup, Ha in Ht.
      rewrite Hva, lookup_insert_eq, fmap_cons, Ht. unfold shown. cbn. by rewrite uwrap_small.
    + rewrite Hvb, lookup_insert_ne by done. apply Ht.
  - exists st. split; [done|]. destruct Hsame as (? & ? & ? & ? & ? & ?).
    do 4 (split; [done|]). split; [|done]. intros b. rewrite to_report_skip by done. apply Ht.
Qed.

Lemma forget_block_ok o st t :
  ready st -> tracks st t ->
  exists st', forget_block o st = Ok st' /\ ready st' /\ same_config st st' /\
    guard st' = guard st /\ world st' = world st /\
    tracks st' (match o with Some a => delete a t | None => t end) /\
    (cache_room st <= cache_room st')%nat.
Proof.
  intros Hr Ht. destruct o as [a|]; [|by exists st]. cbn [forget_block].
  destruct (cache_remove_ok a st Hr) as (st' & -> & Hr' & Hc & Hg & Hw & Hrm & Hva & Hvb).
  exists st'. split; [done|]. do 4 (split; [done|]). split; [|done].
  intros b. destruct Hc as (-> & _ & -> & _). rewrite to_report_delete. destruct (decide (b = a)) as [->|].
  - rewrite Hva, lookup_delete_eq. specialize (Ht a).
    destruct (cache_view st a) as [|r [|r' v]]; [done..|]. by destruct (to_report _ _ _ !! a).
  - rewrite Hvb, lookup_delete_ne by done. apply Ht.
Qed.

(** The address a proxy removes from the cache.  In [MAP64_MODE] alone [free_proxy]
    looks for the block, which has no record, and [realloc_proxy] does not. *)
Definition forgotten (st : hook) (k : call) (r : Z) : option Z :=
  match k with
  | Free _ => if truthy (isVss st .| isPss st) then released vss (world st) k r else None
  | Realloc _ _ => if truthy (isPss st) then released vss (world st) k r else None
  | _ => released vss (world st) k r
  end.

Lemma truthy_lor a b : truthy (a .| b) = truthy a || truthy b.
Proof.
  unfold truthy. rewrite <- negb_andb. f_equal. apply eq_true_iff_eq.
  rewrite andb_true_iff, !Z.eqb_eq. apply Z.lor_eq_0_iff.
Qed.

(** What is released without being forgotten had no record. *)
Lemma forgotten_report st k t :
  held (world st) t -> legal vss live (world st) k ->
  to_report (limit st) (isPss st) (match forgotten st k (origin (world st) k).1 with Some a => delete a t | None => t end) =
  to_report (limit st) (isPss st) (match released vss (world st) k (origin (world st) k).1 with Some a => delete a t | None => t end).
Proof.
  intros Ht Hl. set (r := (origin (world st) k).1).
  assert (Hq : forall a, legal vss live (world st) (Free a) -> truthy a = true -> truthy (isPss st) = false ->
    to_report (limit st) (isPss st) t = to_report (limit st) (isPss st) (delete a t)).
  { intros a [->|(n & Hn)] Ha Hp; [done|]. rewrite to_report_delete, delete_id; [done|].
    rewrite to_report_lookup. destruct (t !! a) as [i|] eqn:Hi; [|done].
    rewrite (Ht _ _ Hi) in Hn. injection Hn as ->. cbn. by rewrite Hp. }
  destruct k as [| |p n| |a| | | |]; try done; cbn [forgotten].
  - destruct (truthy (isPss st)) eqn:Hp; [done|]. cbn [released].
    destruct (truthy p) eqn:Hpp, (_ || _); cbn [andb]; try done. by apply Hq.
  - rewrite truthy_lor. destruct (truthy (isVss st)), (truthy (isPss st)) eqn:Hp; try done. cbn.
    destruct (truthy a) eqn:Ha; [|done]. by apply Hq.
Qed.

(** A proxy is the original call between setting and clearing the guard, followed
    by these two actions. *)
Lemma set_guard_back w st : guard st = 0 -> set_guard 0 (set_world w (set_guard 1 st)) = set_world w st.
Proof. destruct st. simpl. by intros ->. Qed.

Lemma obtained_small k r a i : small_call k -> obtained vss k r = Some (a, i) -> is_word 32 (item_size i).
Proof.
  unfold small_call, obtained. destruct k; cbn; repeat case_match; intros; simplify_eq/=; done.
Qed.

Lemma proxy_recording k st :
  recording st -> small_call k ->
  let r := (origin (world st) k).1 in
  proxy k st =
    let! st1 := forget_block (forgotten st k r) (set_world (origin (world st) k).2 (set_guard 1 st)) in
    let! st2 := record_block (obtained vss k r) st1 in
    Ok (r, set_guard 0 st2).
Proof.
  intros (Hr & Hg & Hvss) Hs r. subst r.
  assert (Hg' : truthy (guard st) = false) by by rewrite Hg.
  destruct k; simpl;
    unfold malloc_proxy, calloc_proxy, realloc_proxy, memalign_proxy, free_proxy, mmap_proxy,
      mmap64_proxy, munmap_proxy, pthread_exit_proxy, obtained, small_call in *;
    simpl in *; rewrite ?(uwrap_small _ (_ * _)) by done;
    rewrite ?Hvss, ?Hg', ?call_origin_eq; simpl.
  all: try (destruct vss); destruct (truthy (isPss st)) eqn:Hpss; rewrite ?truthy_lor, ?Hvss, ?Hpss; simpl;
    repeat first [progress simpl | rewrite Hpss | rewrite andb_true_r | split_if];
    rewrite ?call_origin_eq; simpl; rewrite ?set_guard_back by done; try done.
  all: unfold cache_remove; cbn [cache set_world set_guard of_opt]; destruct (cache st) as [c|]; [cbn|done];
    destruct (c_remove ops c _); cbn; rewrite ?Hpss, ?call_origin_eq; done.
Qed.

Definition run_inv (st : hook) (t : gmap Z item) : Prop :=
  recording st /\ tracks st t /\ held (world st) t.

Lemma proxy_tracks k st t :
  run_inv st t -> legal vss live (world st) k -> small_call k -> (0 < cache_room st)%nat ->
  exists st', proxy k st = Ok ((origin (world st) k).1, st') /\
    run_inv st' (outstanding vss t (world st) k (origin (world st) k).1) /\ same_config st st' /\
    world st' = (origin (world st) k).2 /\ (cache_room st <= S (cache_room st'))%nat.
Proof.
  intros (Hrec & Ht & Hheld) Hl Hs Hroom. rewrite proxy_recording by done. simpl.
  pose proof (forgotten_report st k t Hheld Hl) as Hfr. destruct Hrec as (Hr & Hg & Hvss).
  set (r := (origin (world st) k).1) in *. set (w' := (origin (world st) k).2).
  destruct (forget_block_ok (forgotten st k r) (set_world w' (set_guard 1 st)) t)
    as (st1 & -> & Hr1 & Hc1 & Hg1 & Hw1 & Ht1 & Hrm1); [done|by apply (tracks_same st)|].
  assert (Ht1' : tracks st1 (match released vss (world st) k r with Some a => delete a t | None => t end)).
  { intros a. rewrite Ht1. destruct Hc1 as (-> & _ & -> & _). cbn. by rewrite Hfr. }
  simpl. edestruct (record_block_ok (obtained vss k r) st1) as (st2 & -> & Hrec2); [done|exact Ht1'| | |].
  { change (cache_room (set_world w' (set_guard 1 st))) with (cache_room st) in Hrm1. lia. }
  { intros a i Ho. split; [by eapply fresh_None|]. by eapply obtained_small. }
  destruct Hrec2 as (Hr2 & Hc2 & Hg2 & Hw2 & Ht2 & Hrm2).
  exists (set_guard 0 st2). simpl.
  change (cache_room (set_world w' (set_guard 1 st))) with (cache_room st) in Hrm1.
  change (cache_room (set_guard 0 st2)) with (cache_room st2).
  assert (Hc : same_config st (set_guard 0 st2)).
  { unfold same_config in *. simpl in *.
    repeat match goal with H : _ /\ _ |- _ => destruct H end. repeat split; congruence. }
  split; [done|]. split; [|split; [done|split; [by rewrite Hw2, Hw1|lia]]].
  split; [|split].
  - split; [done|]. split; [done|]. destruct Hc as (_ & _ & _ & ->). done.
  - by apply (tracks_same st2).
  - simpl. rewrite Hw2, Hw1. simpl. by apply outstanding_held.
Qed.

Lemma run_calls_tracks ks st t :
  run_inv st t -> legal_run ks (world st) -> Forall small_call ks ->
  (length ks <= cache_room st)%nat ->
  exists st', run_calls ks st = Ok st' /\ run_inv st' (leaks vss ks (world st) t) /\
    same_config st st'.
Proof.
  revert st t. induction ks as [|k ks IH]; intros st t Hi Hl Hs Hroom; [by exists st|].
  destruct Hl as [Hl Hls]. apply Forall_cons in Hs as [Hs Hss]. simpl in Hroom.
  destruct (proxy_tracks k st t Hi Hl Hs ltac:(lia)) as (st1 & H1 & Hi1 & Hc1 & Hw1 & Hrm1).
  destruct (IH st1 (outstanding vss t (world st) k (origin (world st) k).1)) as (st2 & H2 & Hi2 & Hc2);
    [done|by rewrite Hw1|done|lia|].
  exists st2. simpl. rewrite H1. simpl. rewrite <- Hw1. split; [done|]. split; [done|].
  unfold same_config in *. destruct Hc1 as (-> & -> & -> & ->) in Hc2. done.
Qed.

Lemma filter_map_to_list (m : gmap Z Z) k :
  filter (fun p => p.1 = k) (map_to_list m) =
  match m !! k with Some n => [(k, n)] | None => [] end.
Proof.
  induction m as [|i x m Hi IH] using map_ind.
  { by rewrite map_to_list_empty, lookup_empty. }
  pose proof (map_to_list_insert m i x Hi) as Hp.
  apply (filter_Permutation (fun p : Z * Z => p.1 = k)) in Hp.
  rewrite filter_cons in Hp. simpl in Hp. rewrite IH in Hp.
  destruct (decide (i = k)) as [->|].
  - rewrite Hi in Hp. rewrite lookup_insert_eq. by apply Permutation_singleton_r in Hp.
  - rewrite lookup_insert_ne by done. destruct (m !! k).
    + by apply Permutation_singleton_r in Hp.
    + by apply Permutation_nil_r in Hp.
Qed.

(** A cache that tracks the items [t] prints exactly those to report. *)
Lemma tracked_report st t :
  ready st -> tracks st t ->
  exists c l, cache st = Some c /\ c_print ops c = Ok l /\
    shown <$> l ≡ₚ map_to_list (to_report (limit st) (isPss st) t).
Proof.
  intros (_ & c & Hcc & Hwf) Ht. destruct (print_view c Hwf) as (l & Hp & Hl').
  exists c, l. do 2 (split; [done|]). apply (Permutation_by_key fst). intros a.
  rewrite (filter_map_to_list (to_report _ _ _)), filter_list_fmap.
  change (fun x => (shown x).1 = a) with (fun x => r_addr x = a). rewrite Hl'.
  specialize (Ht a). unfold cache_view in Ht. by rewrite Hcc in Ht.
Qed.

(** C1: The leak report is exact, in every mode.  Start recording, outside of any proxy, with
    an empty cache, a depth of at most 15 and an unwinder that keeps to the 16 words it is
    given, and let the program make any sequence of calls the allocator and the kernel allow,
    with 32-bit sizes and no more calls than the cache has room: blocks are freed and
    reallocated only while they are live, and in MAP64_MODE mappings are unmapped
    whole and none is made at a fixed address.  The report then lists, with its size, in
    ALLOC_MODE every block obtained since the start, at least [limit] bytes long and not released
    by [free] or [realloc]; in MAP64_MODE every mapping made since the start whose [munmap]
    has not succeeded; in MAP64_MODE without what a thread that has since exited had for its
    stack; and nothing else. *)
Theorem leak_report_exact ks st :
  recording st -> (forall a, cache_view st a = []) ->
  legal_run ks (world st) -> Forall small_call ks -> (length ks <= cache_room st)%nat ->
  exists st' c l,
    run_calls ks st = Ok st' /\ cache st' = Some c /\ c_print ops c = Ok l /\
    shown <$> l ≡ₚ map_to_list (to_report (limit st) (isPss st) (leaks vss ks (world st) ∅)).
Proof.
  intros Hrec Hv Hl Hs Hroom.
  destruct (run_calls_tracks ks st ∅) as (st' & Hrun & Hi & Hc); [|done..|].
  { split; [done|]. split; [|by intros]. intros a. by rewrite Hv, to_report_lookup. }
  destruct Hi as ((Hready & _) & Ht & _). destruct (tracked_report st' _ Hready Ht) as (c & l & Hcc & Hp & Hl').
  exists st', c, l. do 3 (split; [done|]). by destruct Hc as (-> & _ & -> & _) in Hl'.
Qed.

End Report.

(** A successful [munmap] of a part of a mapping that begins at its start removes the record of the whole
    of it: the size is not looked at. *)
Lemma munmap_ignores_size a n st :
  ready st -> guard st = 0 -> truthy (isVss st) = true -> a <> 0 -> (origin (world st) (Munmap a n)).1 = 0 ->
  exists st', munmap_proxy a n st = Ok (0, st') /\ cache_view st' a = tail (cache_view st a).
Proof.
  intros Hr Hg Hv Ha Ho. unfold munmap_proxy. rewrite Hv, Hg. unfold truthy at 1. rewrite (proj2 (Z.eqb_neq _ _) Ha).
  cbn [negb andb truthy Z.eqb]. rewrite call_origin_eq. cbn [world set_guard]. rewrite Ho. cbn [Z.eqb].
  destruct (cache_remove_ok a (set_world (origin (world st) (Munmap a n)).2 (set_guard 1 st)) Hr) as (st' & -> & _ & _ & _ & _ & _ & Hva & _).
  cbn [rbind]. by exists (set_guard 0 st').
Qed.

End Client.

(** The guard stops re-entry: while the thread's guard is set every hooked
    function but [pthread_exit] is exactly the original one, so what the
    unwinder, the cache or the original function itself allocates is neither
    recorded nor removed from the records. *)
Theorem guarded_is_origin k st :
  guard st <> 0 -> (forall v, k <> Pthread_exit v) -> proxy k st = Ok (call_origin k st).
Proof.
  intros Hg Hk. assert (Hg' : truthy (guard st) = true) by by apply negb_true_iff, Z.eqb_neq.
  destruct k; simpl;
    unfold malloc_proxy, calloc_proxy, realloc_proxy, memalign_proxy, free_proxy, mmap_proxy,
      mmap64_proxy, munmap_proxy;
    rewrite ?Hg', ?andb_false_r; [done..|]. by destruct (Hk value).
Qed.

(** Recording nothing, a proxy is the original function. *)
Lemma idle_is_origin k st : isPss st = 0 -> isVss st = 0 -> proxy k st = Ok (call_origin k st).
Proof.
  intros Hp Hv. destruct k; simpl;
    unfold malloc_proxy, calloc_proxy, realloc_proxy, memalign_proxy, free_proxy, mmap_proxy,
      mmap64_proxy, munmap_proxy, pthread_exit_proxy; by rewrite ?Hp, ?Hv.
Qed.

(** [calloc] is judged by its size modulo 2^32 ([uint size = count * bytes]):
    on a 64-bit device a block of 4 GiB (or any multiple, plus less than the
    limit) is not recorded, although [malloc] of that size is. *)
Theorem calloc_truncated count bytes st :
  u32 (count * bytes) < limit st ->
  calloc_proxy count bytes st = Ok (call_origin (Calloc count bytes) st).
Proof.
  intros Hs. unfold calloc_proxy. destruct (Z.leb_spec (limit st) (u32 (count * bytes))); [lia|].
  by rewrite andb_false_r.
Qed.

(** The configuration word the Java side builds. *)
Definition pack_configs (lim dep : Z) (alloc map64 : bool) : Z :=
  lim .| (dep .<< 16) .| (b2z alloc .<< 22) .| (b2z map64 .<< 23).

(** [update_configs] reads back each field of the configuration word
    (limit in bits 0-15, depth in 16-20, the two modes in 22 and 23), whatever
    the other bits hold, and keeps the cache when it is given none. *)
Theorem update_configs_fields pNew lim dep alloc map64 rest st :
  is_word 16 lim -> is_word 5 dep ->
  let st' := update_configs pNew
    (pack_configs lim dep alloc map64 .| (rest .& 0xFF200000)) st in
  limit st' = lim /\ depth st' = dep /\ isPss st' = b2z alloc /\ isVss st' = b2z map64 /\
  guard st' = guard st /\ world st' = world st /\
  cache st' = match pNew with Some c => Some c | None => cache st end.
Proof.
  intros Hl Hd. set (x := pack_configs _ _ _ _ .| _).
  assert (Hb : forall i, 0 <= i -> Z.testbit x i =
    Z.testbit lim i || Z.testbit dep (i - 16) || alloc && (i =? 22) ||
    map64 && (i =? 23) || Z.testbit rest i && Z.testbit 0x7F9 (i - 21)).
  { intros i Hi. unfold x, pack_configs. change 0xFF200000 with (0x7F9 .<< 21).
    rewrite !Z.lor_spec, Z.land_spec, !b2z_shiftl_testbit by lia.
    by rewrite !Z.shiftl_spec by done. }
  simpl. split; [|split; [|split; [|split; [|done]]]].
  - change LIMIT_MASK with (Z.ones 16). apply Z.bits_inj'. intros i Hi.
    rewrite Z.land_spec, Z.testbit_ones_nonneg, Hb by done. destruct (Z.ltb_spec i 16).
    + rewrite andb_true_r, (Z.testbit_neg_r dep), (Z.testbit_neg_r 0x7F9) by lia.
      destruct (Z.eqb_spec i 22), (Z.eqb_spec i 23); [lia..|].
      by rewrite ?andb_false_r, ?orb_false_r, ?andb_true_r.
    + rewrite andb_false_r. by rewrite (testbit_above 16) by (done || lia).
  - change DEPTH_MASK with (Z.ones 5 .<< 16). apply Z.bits_inj'. intros i Hi.
    rewrite Z.shiftr_spec, Z.land_spec, Z.shiftl_spec by lia.
    rewrite Z.testbit_ones_nonneg, Hb by lia. replace (i + 16 - 16) with i by lia.
    rewrite (testbit_above 16 lim) by (done || lia). destruct (Z.ltb_spec i 5).
    + rewrite (Z.testbit_neg_r 0x7F9) by lia.
      destruct (Z.eqb_spec (i + 16) 22), (Z.eqb_spec (i + 16) 23); [lia..|].
      by rewrite ?andb_false_r, ?orb_false_r, ?andb_true_r.
    + rewrite andb_false_r. by rewrite (testbit_above 5) by (done || lia).
  - change ALLOC_MODE with (2 ^ 22). rewrite truthy_flag, Hb by lia.
    rewrite (testbit_above 16 lim), (testbit_above 5 dep) by (done || lia). simpl.
    destruct alloc, map64; simpl; by rewrite ?andb_false_r.
  - change MAP64_MODE with (2 ^ 23). rewrite truthy_flag, Hb by lia.
    rewrite (testbit_above 16 lim), (testbit_above 5 dep) by (done || lia). simpl.
    destruct alloc, map64; simpl; by rewrite ?andb_false_r.
Qed.

End HookProxy.

(** ** Witnesses: a bump allocator, a fixed backtrace and the fixed-array cache *)

(** The address behind every item. *)
Definition next_address (w : gmap Z item) : Z :=
  map_fold (fun a i m => Z.max (a + Z.max 16 (item_size i)) m) 4096 w.

Definition bump (w : gmap Z item) (k : call) : Z * gmap Z item :=
  let a := next_address w in
  match k with
  | Malloc n | Memalign _ n => (a, <[a:=Block n]> w)
  | Calloc c b => (a, <[a:=Block (c * b)]> w)
  | Realloc p n =>
      if truthy p && (n =? 0) then (0, delete p w) else (a, <[a:=Block n]> (if truthy p then delete p w else w))
  | Free p => (0, if truthy p then delete p w else w)
  | Mmap args | Mmap64 args => (a, <[a:=Mapping (m_size args)]> w)
  | Munmap p n => if decide (p <> 0 /\ w !! p = Some (Mapping n)) then (0, delete p w) else (-1, w)
  | Pthread_exit _ => (0, w)
  end.

(** The items of a mode. *)
Definition bump_live (vss : bool) (w : gmap Z item) (a : Z) : option item :=
  match w !! a with Some (Mapping n) => if vss then Some (Mapping n) else None | o => o end.

Lemma next_address_above w :
  4096 <= next_address w /\ forall a i, w !! a = Some i -> a < next_address w.
Proof.
  unfold next_address.
  apply (map_fold_weak_ind (fun m (w : gmap Z item) => 4096 <= m /\ forall a i, w !! a = Some i -> a < m)).
  - split; [done|]. intros a i. by rewrite lookup_empty.
  - intros a i w' m Ha [Hm Hw]. split; [lia|]. intros b j. destruct (decide (b = a)) as [->|]; [intros _; lia|].
    rewrite lookup_insert_ne by done. intros Hb. specialize (Hw b j Hb). lia.
Qed.

Lemma next_address_fresh w : next_address w <> 0 /\ w !! next_address w = None.
Proof.
  destruct (next_address_above w) as [H1 H2]. split; [lia|].
  destruct (w !! next_address w) as [i|] eqn:Hi; [|done]. specialize (H2 _ _ Hi). lia.
Qed.

Lemma bump_live_Some vss w a i :
  bump_live vss w a = Some i <-> w !! a = Some i /\ (vss = true \/ exists n, i = Block n).
Proof.
  unfold bump_live. destruct (w !! a) as [[n|n]|]; [|destruct vss|]; split;
    (intros [? [?|(? & ?)]] || intros ?); simplify_eq; eauto.
Qed.

Lemma bump_keeps `{Arch} stack_base vss w k a i :
  w !! a = Some i -> (vss = true \/ exists n, i = Block n) -> released stack_base vss w k (bump w k).1 <> Some a ->
  (bump w k).2 !! a = Some i.
Proof.
  intros Ha Hi. destruct (next_address_fresh w) as [Hz Hf].
  assert (Hne : next_address w <> a) by (intros Heq; by rewrite Heq, Ha in Hf).
  assert (Hdel : forall p, p <> a -> delete p w !! a = Some i) by (intros p Hp; by rewrite lookup_delete_ne).
  assert (Hins : forall j w', w' !! a = Some i -> <[next_address w := j]> w' !! a = Some i)
    by (intros j w' Hw; by rewrite lookup_insert_ne).
  assert (Htn : truthy (next_address w) = true) by by apply negb_true_iff, Z.eqb_neq.
  destruct k as [| |p n| |p| | |p n|]; cbn; auto.
  - destruct (truthy p); cbn; [|auto]. destruct (n =? 0); cbn; rewrite ?Htn; intros Hp; [|apply Hins]; apply Hdel; congruence.
  - destruct (truthy p); [|done]. intros Hp. apply Hdel. congruence.
  - destruct (decide _) as [[Hp0 Hp]|]; cbn; [|done]. intros Hr. apply Hdel. intros ->.
    assert (Ht : truthy a = true) by by apply negb_true_iff, Z.eqb_neq. rewrite Ht in Hr.
    destruct Hi as [->|(m & ->)]; [done|congruence].
Qed.

Lemma bump_obtains `{Arch} vss w k a i :
  obtained vss k (bump w k).1 = Some (a, i) ->
  a = next_address w /\ (bump w k).2 !! a = Some i /\ (vss = true \/ exists n, i = Block n).
Proof.
  destruct (next_address_fresh w) as [Hz Hf].
  destruct k as [| |p n| | | | |p n|]; cbn; try destruct (truthy p && (n =? 0)); try destruct vss; cbn;
    repeat case_match; cbn; intros; simplify_eq/=; rewrite ?lookup_insert_eq; eauto.
Qed.

#[export] Instance bump_contract `{Arch} stack_base vss : HeapContract bump stack_base vss (bump_live vss).
Proof.
  split.
  - intros w k a i _ Ha Hr. apply bump_live_Some in Ha as [Ha Hi]. apply bump_live_Some. split; [|done].
    by eapply bump_keeps.
  - intros w k a i _ Ho. apply bump_obtains in Ho as (-> & Ho & Hi). rewrite bump_live_Some. split; [done|].
    intros [j Hj]. apply bump_live_Some in Hj as [Hj _]. by rewrite (proj2 (next_address_fresh w)) in Hj.
Qed.

Definition fixed_unwind {W} (w : W) (d : Z) : Backtrace :=
  {| bt_depth := Z.min (Z.max 0 d) 16; bt_trace := replicate 16 0x1234 |}.

Lemma fixed_unwind_ok {W} (w : W) d : 0 <= d <= Z.of_nat MAX_TRACE_DEPTH -> bt_ok (fixed_unwind w d).
Proof. intros Hd. split; [done|]. simpl. lia. Qed.

(** The state after [start] with the configuration of the README: limit 1024, depth
    15 and both modes. *)
Definition started : hook :=
  @update_configs MemoryCache (gmap Z item)
    (Some (reset (new_MemoryCache blank_node ∅ 0 None))) (pack_configs 1024 15 true true)
    {| cache := None; limit := 0; depth := 0; isPss := 0; isVss := 0; guard := 0; world := ∅ |}.

#[local] Existing Instance arm64.

Lemma started_facts :
  recording MemoryCache_ops true started /\ (forall a, cache_view MemoryCache_ops started a = []) /\
  cache_room MemoryCache_ops started = Z.to_nat ALLOC_CACHE_SIZE.
Proof.
  assert (Hm : mc_made (new_MemoryCache blank_node ∅ 0 None)).
  { apply made_new; [reflexivity|]. intros k _. apply lookup_empty. }
  destruct (@reset_ok arm64 _ Hm) as (Hwf & Hroom & Hv).
  split; [|split; [exact Hv|]].
  - split; [|split; reflexivity].
    split; [change (depth started) with 15; split; [discriminate|reflexivity]|].
    exists (reset (new_MemoryCache blank_node ∅ 0 None)). split; [reflexivity|exact Hwf].
  - change (mc_room (reset (new_MemoryCache blank_node ∅ 0 None)) = Z.to_nat ALLOC_CACHE_SIZE).
    transitivity (mc_capacity (new_MemoryCache blank_node ∅ 0 None)); [exact Hroom|].
    apply capacity_new.
Qed.

Lemma started_room n : (n <= 100)%nat -> (n <= cache_room MemoryCache_ops started)%nat.
Proof.
  intros Hn. destruct started_facts as (_ & _ & ->). apply (Nat.le_trans _ 100); [done|].
  apply Nat2Z.inj_le. rewrite Z2Nat.id; by vm_compute.
Qed.

Definition map_of (size : Z) : mmap_args :=
  {| m_ptr := 0; m_size := size; m_prot := 3; m_flags := 0x22; m_fd := -1; m_offset := 0 |}.

Definition sample_calls : list call :=
  [Malloc 2048; Malloc 100; Calloc 4 512; Mmap (map_of 65536); Mmap64 (map_of 512);
   Realloc 4096 4096; Free 6244; Munmap 8292 65536].

(** The reallocated block and the second mapping, which the limit does not concern. *)
Example sample_report :
  map_to_list (to_report 1024 1 (leaks bump (fun _ => None) true sample_calls ∅ ∅)) = [(74340, 4096); (73828, 512)].
Proof. vm_compute. reflexivity. Qed.

Lemma sample_legal : legal_run bump true (bump_live true) sample_calls ∅.
Proof.
  cbn [legal_run sample_calls legal]. repeat split; try (intros _; vm_compute; reflexivity).
  all: right; eexists; vm_compute; reflexivity.
Qed.

Lemma proxy_transparent_witness :
  exists st', proxy MemoryCache_ops bump fixed_unwind (fun _ => None) (Malloc 2048) started
      = Ok ((bump (world started) (Malloc 2048)).1, st') /\
    ready MemoryCache_ops st' /\ same_config started st' /\
    world st' = (bump (world started) (Malloc 2048)).2 /\
    (guard started = 0 -> guard st' = 0).
Proof.
  apply (proxy_transparent MemoryCache_ops bump fixed_unwind (fun _ => None) fixed_unwind_ok).
  apply started_facts.
Defined.

Lemma leak_report_exact_witness :
  exists st' c l,
    run_calls MemoryCache_ops bump fixed_unwind (fun _ => None) sample_calls started = Ok st' /\
    cache st' = Some c /\ c_print MemoryCache_ops c = Ok l /\
    shown <$> l ≡ₚ
      map_to_list (to_report (limit started) (isPss started)
        (leaks bump (fun _ => None) true sample_calls (world started) ∅)).
Proof.
  destruct started_facts as (Hrec & Hv & _).
  apply (leak_report_exact MemoryCache_ops bump fixed_unwind (fun _ => None) fixed_unwind_ok
    true (bump_live true)); [exact Hrec|exact Hv|exact sample_legal| |].
  - repeat (constructor; [by vm_compute; repeat split|]). constructor.
  - by apply started_room; simpl; lia.
Defined.

Lemma guarded_is_origin_witness :
  proxy MemoryCache_ops bump fixed_unwind (fun _ => None) (Malloc 2048) (set_guard 1 started)
  = Ok (call_origin bump (Malloc 2048) (set_guard 1 started)).
Proof. apply guarded_is_origin; [discriminate|intros v; discriminate]. Defined.

Lemma calloc_truncated_witness :
  calloc_proxy MemoryCache_ops bump fixed_unwind 65536 65536 started
  = Ok (call_origin bump (Calloc 65536 65536) started).
Proof. apply calloc_truncated. reflexivity. Defined.

Lemma update_configs_fields_witness :
  let st' := update_configs None (pack_configs 1024 15 true false .| (-1 .& 0xFF200000)) started in
  limit st' = 1024 /\ depth st' = 15 /\ isPss st' = 1 /\ isVss st' = 0 /\
  guard st' = 0 /\ world st' = ∅ /\ cache st' = cache started.
Proof. apply (update_configs_fields None 1024 15 true false (-1) started); done. Defined.
