(* ===== verification/Backtrace64.v ===== *)
(** unwind64/backtrace_64.{h,cpp}: the frame-pointer unwinder of arm64.  The
    thread's stack bounds come from pthread, the memory is that of Memory.v, and
    the caller's array is a list that a store may overrun ([Fault]). *)
From S2P Require Import Prelude Memory Cache.

Definition kFrameSize : Z := 2 * 8.

Definition isValid (fp st sb : Z) : bool := (sb <? fp) && (fp <? u64 (st - kFrameSize)).

(** The static variables, with the running thread's values of the two keys. *)
Record unwind_state := {
  fp_main_thread_stack_low : Z;
  fp_main_thread_stack_high : Z;
  thread_t_key : Z;
  thread_b_key : Z;
  use_thread_local : bool
}.

(** What pthread answers the running thread: its stack ([address], [size]) and
    whether it is the main thread. *)
Record thread_env := { stk_address : Z; stk_size : Z; is_main : bool }.

Definition GetStackRange (env : thread_env) : Z * Z :=
  (u64 (stk_address env + stk_size env), stk_address env).

(** The arguments say whether each [pthread_key_create] succeeds. *)
Definition init_arm64_unwind (created1 created2 : bool) (us : unwind_state) : unwind_state :=
  if negb created1 then us
  else if negb created2 then us
  else {| fp_main_thread_stack_low := fp_main_thread_stack_low us;
          fp_main_thread_stack_high := fp_main_thread_stack_high us;
          thread_t_key := 0; thread_b_key := 0; use_thread_local := true |}.

(** The first part of [unwind_backtrace]: the (cached) stack bounds [(st, sb)]. *)
Definition stack_bounds (env : thread_env) (us : unwind_state) : Z * Z * unwind_state :=
  if use_thread_local us then
    if (thread_t_key us =? 0) || (thread_b_key us =? 0) then
      let '(st, sb) := GetStackRange env in
      (st, sb,
       {| fp_main_thread_stack_low := fp_main_thread_stack_low us;
          fp_main_thread_stack_high := fp_main_thread_stack_high us;
          thread_t_key := st; thread_b_key := sb; use_thread_local := true |})
    else (thread_t_key us, thread_b_key us, us)
  else if is_main env then
    if (fp_main_thread_stack_low us =? 0) || (fp_main_thread_stack_high us =? 0) then
      let '(st, sb) := GetStackRange env in
      (st, sb,
       {| fp_main_thread_stack_low := sb; fp_main_thread_stack_high := st;
          thread_t_key := thread_t_key us; thread_b_key := thread_b_key us;
          use_thread_local := false |})
    else (fp_main_thread_stack_high us, fp_main_thread_stack_low us, us)
  else
    let '(st, sb) := GetStackRange env in (st, sb, us).

(** The [while] loop. *)
Fixpoint unwind_loop (fuel : nat) (m : mem) (st sb fp pc max_depth : Z)
    (depth : Z) (stack : list Z) : res (Z * list Z) :=
  match fuel with
  | O => NoFuel
  | S fuel' =>
    if isValid fp st sb && (depth <? max_depth) then
      let! ret := of_opt (load64 m (u64 (fp + 8))) in
      let! pre := of_opt (load64 m fp) in
      if truthy (pre .& 0xf) || (pre <? u64 (fp + kFrameSize)) then Ok (depth, stack)
      else if negb (ret =? pc) then
        let! stack' := of_opt (list_set (Z.to_nat depth) ret stack) in
        unwind_loop fuel' m st fp pre ret max_depth (depth + 1) stack'
      else unwind_loop fuel' m st fp pre ret max_depth depth stack
    else Ok (depth, stack)
  end.

(** Frames are [kFrameSize] bytes apart at least, so the stack's size bounds the
    iterations. *)
Definition unwind_fuel (st fp : Z) : nat := S (S (Z.to_nat ((st - fp) / kFrameSize))).

(** [fp]: the value of [__builtin_frame_address(0)]. *)
Definition unwind_backtrace (m : mem) (env : thread_env) (fp : Z) (stack : list Z)
    (max_depth : Z) (us : unwind_state) : res (Z * list Z * unwind_state) :=
  let '(st, sb, us') := stack_bounds env us in
  let! (depth, stack') := unwind_loop (unwind_fuel st fp) m st sb fp 0 max_depth 0 stack in
  Ok (depth, stack', us').

(** ** The reference: the chain of frame records *)

(** [frame_chain m st sb fp rets]: from frame pointer [fp], above [sb], the
    linked frame records return to [rets], innermost first. *)
Inductive frame_chain (m : mem) (st : Z) : Z -> Z -> list Z -> Prop :=
| chain_out sb fp : isValid fp st sb = false -> frame_chain m st sb fp []
| chain_broken sb fp ret pre :
    isValid fp st sb = true ->
    load64 m (fp + 8) = Some ret -> load64 m fp = Some pre ->
    pre mod 16 <> 0 \/ pre < fp + 16 ->
    frame_chain m st sb fp []
| chain_frame sb fp ret pre rets :
    isValid fp st sb = true ->
    load64 m (fp + 8) = Some ret -> load64 m fp = Some pre ->
    pre mod 16 = 0 -> fp + 16 <= pre ->
    frame_chain m st fp pre rets ->
    frame_chain m st sb fp (ret :: rets).

(** Runs of the same return address count once. *)
Fixpoint squash (pc : Z) (l : list Z) : list Z :=
  match l with
  | [] => []
  | t :: l' => if t =? pc then squash pc l' else t :: squash t l'
  end.

(** A stack [\[sb, st)] that exists. *)
Definition stack_ok (m : mem) (st sb : Z) : Prop :=
  16 <= st < 2 ^ 64 /\ 0 <= sb /\ mapped m sb (st - sb) /\ mem_ok m.

Lemma isValid_spec fp st sb :
  16 <= st < 2 ^ 64 -> isValid fp st sb = true <-> sb < fp /\ fp < st - 16.
Proof.
  intros Hst. unfold isValid, kFrameSize. rewrite uwrap_small by lia.
  rewrite andb_true_iff, !Z.ltb_lt. lia.
Qed.

Lemma stack_load m st sb fp k :
  stack_ok m st sb -> isValid fp st sb = true -> 0 <= k <= 8 ->
  exists v, load64 m (fp + k) = Some v /\ is_word 64 v.
Proof.
  intros (Hst & Hsb & Hm & Hok) Hv Hk. apply isValid_spec in Hv; [|done].
  destruct (load_mapped m 8 (fp + k)) as [v Hl].
  - intros i Hi. replace (fp + k + i) with (sb + (fp + k + i - sb)) by lia. apply Hm. lia.
  - exists v. split; [done|]. by apply (load_range m 8 (fp + k)).
Qed.

Lemma stack_ok_up m st sb sb' : stack_ok m st sb -> sb <= sb' -> stack_ok m st sb'.
Proof.
  intros (Hst & Hsb & Hm & Hok) Hle. split; [done|]. split; [lia|]. split; [|done].
  intros i Hi. replace (sb' + i) with (sb + (sb' + i - sb)) by lia. apply Hm. lia.
Qed.

Lemma align_test pre : truthy (pre .& 0xf) = negb (pre mod 16 =? 0).
Proof. unfold truthy. by change 0xf with (Z.ones 4); rewrite Z.land_ones. Qed.

(** Every stack has a chain, and only one. *)
Lemma frame_chain_exists m st sb fp : stack_ok m st sb -> exists rets, frame_chain m st sb fp rets.
Proof.
  remember (Z.to_nat (st - fp)) as n eqn:Hn. revert sb fp Hn.
  induction n as [n IH] using lt_wf_ind. intros sb fp -> Hs.
  destruct (isValid fp st sb) eqn:Hv; [|by exists []; apply chain_out].
  destruct (stack_load m st sb fp 8 Hs Hv ltac:(lia)) as (ret & Hret & _).
  destruct (stack_load m st sb fp 0 Hs Hv ltac:(lia)) as (pre & Hpre & _).
  rewrite Z.add_0_r in Hpre.
  destruct (decide (pre mod 16 <> 0 \/ pre < fp + 16)) as [Hb|Hb].
  { exists []. by eapply chain_broken. }
  pose proof Hv as Hv'. apply isValid_spec in Hv' as [Hsb Hst]; [|apply Hs].
  destruct (IH (Z.to_nat (st - pre)) ltac:(lia) fp pre eq_refl) as [rets Hr].
  { apply (stack_ok_up _ _ _ _ Hs). lia. }
  exists (ret :: rets). by eapply chain_frame; eauto; lia.
Qed.

Lemma frame_chain_fun m st sb fp l l' :
  frame_chain m st sb fp l -> frame_chain m st sb fp l' -> l = l'.
Proof.
  intros H. revert l'. induction H as [| |sb fp ret pre rets Hv Hret Hpre Hal Hle Hc IH];
    intros l' H'; inversion H'; simplify_eq; try congruence; try (exfalso; lia).
  f_equal. eauto.
Qed.

(** The loop terminates and computes the squashed chain, cut at [max_depth]. *)
Lemma unwind_loop_chain m st sb fp rets :
  frame_chain m st sb fp rets ->
  forall fuel pc max_depth depth stack,
  stack_ok m st sb -> 0 <= depth -> max_depth <= Z.of_nat (length stack) ->
  st - fp < 16 * Z.of_nat fuel -> (0 < fuel)%nat ->
  let out := take (Z.to_nat (max_depth - depth)) (squash pc rets) in
  unwind_loop fuel m st sb fp pc max_depth depth stack =
    Ok (depth + Z.of_nat (length out),
        take (Z.to_nat depth) stack ++ out ++ drop (Z.to_nat depth + length out) stack).
Proof.
  intros H. induction H as [sb fp Hv|sb fp ret pre Hv Hret Hpre Hb|
    sb fp ret pre rets Hv Hret Hpre Hal Hle Hc IH];
    intros [|fuel] pc max_depth depth stack Hs Hd Hmax Hfuel Hpos; try lia;
    cbn [unwind_loop]; rewrite Hv; simpl.
  - rewrite take_nil. simpl. by rewrite Z.add_0_r, Nat.add_0_r, take_drop.
  - rewrite take_nil. simpl. rewrite Z.add_0_r, Nat.add_0_r, take_drop.
    apply isValid_spec in Hv; [|apply Hs]. destruct Hs as (Hst & Hsb & _).
    destruct (depth <? max_depth); [|done]. rewrite uwrap_small by lia.
    rewrite Hret, Hpre. simpl. rewrite align_test, uwrap_small by (unfold kFrameSize; lia).
    unfold kFrameSize. destruct Hb as [Hb|Hb].
    + by destruct (Z.eqb_spec (pre mod 16) 0).
    + destruct (Z.ltb_spec pre (fp + 2 * 8)); [|lia]. by rewrite orb_true_r.
  - pose proof Hv as Hv'. apply isValid_spec in Hv' as [Hsb Hst]; [|apply Hs].
    assert (Hs' : stack_ok m st fp) by (apply (stack_ok_up _ _ _ _ Hs); lia).
    destruct Hs as (Hr & H0 & _).
    destruct (Z.ltb_spec depth max_depth) as [Hlt|Hge].
    2:{ replace (Z.to_nat (max_depth - depth)) with 0%nat by lia. simpl.
        by rewrite Z.add_0_r, Nat.add_0_r, take_drop. }
    rewrite uwrap_small, Hret, Hpre by lia. simpl.
    rewrite align_test, Hal. simpl. rewrite uwrap_small by (unfold kFrameSize; lia).
    destruct (Z.ltb_spec pre (fp + kFrameSize)); [unfold kFrameSize in *; lia|].
    destruct (Z.eqb_spec ret pc) as [->|Hne]; simpl; [apply IH; done || lia|].
    unfold list_set. rewrite decide_True by lia. simpl.
    rewrite IH by (rewrite ?length_insert; lia || done).
    replace (Z.to_nat (max_depth - depth)) with (S (Z.to_nat (max_depth - (depth + 1)))) by lia.
    simpl. set (out := take _ (squash ret rets)). f_equal. f_equal; [lia|].
    replace (Z.to_nat (depth + 1)) with (S (Z.to_nat depth)) by lia.
    rewrite (take_S_r _ _ ret) by (rewrite list_lookup_insert_eq; [done|lia]).
    rewrite take_insert_ge by lia. rewrite <- app_assoc. simpl. f_equal. f_equal. f_equal.
    rewrite drop_insert_lt by lia. f_equal. lia.
Qed.

(** With [max_depth] beyond the array, a chain longer than the array is written
    past its end. *)
Lemma unwind_loop_overflow m st sb fp rets :
  frame_chain m st sb fp rets ->
  forall fuel pc max_depth depth stack,
  stack_ok m st sb -> 0 <= depth <= Z.of_nat (length stack) ->
  Z.of_nat (length stack) < max_depth ->
  Z.of_nat (length stack) < depth + Z.of_nat (length (squash pc rets)) ->
  st - fp < 16 * Z.of_nat fuel -> (0 < fuel)%nat ->
  unwind_loop fuel m st sb fp pc max_depth depth stack = Fault.
Proof.
  intros H. induction H as [| |sb fp ret pre rets Hv Hret Hpre Hal Hle Hc IH];
    intros [|fuel] pc max_depth depth stack Hs Hd Hmax Hlen Hfuel Hpos; simpl in Hlen; try lia.
  cbn [unwind_loop]. rewrite Hv. simpl.
  pose proof Hv as Hv'. apply isValid_spec in Hv' as [Hsb Hst]; [|apply Hs].
  assert (Hs' : stack_ok m st fp) by (apply (stack_ok_up _ _ _ _ Hs); lia).
  destruct Hs as (Hr & H0 & _). destruct (Z.ltb_spec depth max_depth); [|lia].
  rewrite uwrap_small, Hret, Hpre by lia. simpl.
  rewrite align_test, Hal. simpl. rewrite uwrap_small by (unfold kFrameSize; lia).
  destruct (Z.ltb_spec pre (fp + kFrameSize)); [unfold kFrameSize in *; lia|].
  destruct (Z.eqb_spec ret pc) as [->|Hne]; simpl; [apply IH; done || lia|].
  unfold list_set. case_decide; [|done]. simpl in Hlen |- *.
  apply IH; rewrite ?length_insert; done || lia.
Qed.

Lemma unwind_fuel_enough st fp : st - fp < 16 * Z.of_nat (unwind_fuel st fp).
Proof.
  unfold unwind_fuel, kFrameSize. pose proof (Z.div_mod (st - fp) (2 * 8) ltac:(lia)).
  pose proof (Z.mod_pos_bound (st - fp) (2 * 8) ltac:(lia)). lia.
Qed.

Lemma squash_head pc l x l' : squash pc l = x :: l' -> x <> pc.
Proof.
  induction l as [|t l IH]; simpl; [done|]. destruct (Z.eqb_spec t pc); [done|].
  by intros [= -> _].
Qed.

(** C5: The arm64 unwinder terminates and is exact: on a mapped stack it stores
    the return addresses of the frame-pointer chain, innermost first, with runs
    of the same address collapsed, at most [max_depth] of them, into the front
    of the caller's array, and leaves the rest of the array alone. *)
Theorem unwind_backtrace_correct m env fp stack max_depth us st sb us' :
  stack_bounds env us = (st, sb, us') ->
  stack_ok m st sb -> 0 <= max_depth <= Z.of_nat (length stack) ->
  exists rets n stack',
    frame_chain m st sb fp rets /\
    unwind_backtrace m env fp stack max_depth us = Ok (Z.of_nat n, stack', us') /\
    take n stack' = take (Z.to_nat max_depth) (squash 0 rets) /\
    drop n stack' = drop n stack /\ Z.of_nat n <= max_depth.
Proof.
  intros Hb Hs Hmax. destruct (frame_chain_exists _ _ _ fp Hs) as [rets Hc].
  exists rets. unfold unwind_backtrace. rewrite Hb.
  rewrite (unwind_loop_chain _ _ _ _ _ Hc);
    [|done|lia|lia|apply unwind_fuel_enough|unfold unwind_fuel; lia].
  rewrite Z.sub_0_r. simpl. set (out := take _ _). exists (length out), (out ++ drop (length out) stack).
  split; [done|]. split; [done|]. split; [by rewrite take_app_length|].
  split; [by rewrite drop_app_length|]. unfold out. rewrite length_take. lia.
Qed.

(** The depth the configuration admits overruns the buffer: with
    [max_depth] beyond the array and a chain of more distinct frames than it
    holds, the unwinder writes outside it. *)
Theorem unwind_backtrace_overflow m env fp stack max_depth us st sb us' rets :
  stack_bounds env us = (st, sb, us') -> stack_ok m st sb ->
  frame_chain m st sb fp rets ->
  Z.of_nat (length stack) < max_depth -> (length stack < length (squash 0 rets))%nat ->
  unwind_backtrace m env fp stack max_depth us = Fault.
Proof.
  intros Hb Hs Hc Hmax Hlen. unfold unwind_backtrace. rewrite Hb.
  by rewrite (unwind_loop_overflow _ _ _ _ _ Hc);
    [|done|lia|lia|lia|apply unwind_fuel_enough|unfold unwind_fuel; lia].
Qed.

(** ** The unwinder as the proxies use it *)

(** [insert_memory_backtrace]'s [Backtrace], from an uninitialised one. *)
Definition backtrace64 (m : mem) (env : thread_env) (fp : Z) (raw : list Z)
    (us : unwind_state) (max_depth : Z) : Backtrace :=
  match unwind_backtrace m env fp raw max_depth us with
  | Ok (n, trace, _) => {| bt_depth := n; bt_trace := trace |}
  | _ => {| bt_depth := 0; bt_trace := raw |}
  end.

(** The hypothesis [unwind_ok] of HookProxy.v holds of it. *)
Lemma backtrace64_ok m env fp raw us st sb us' d :
  stack_bounds env us = (st, sb, us') -> stack_ok m st sb -> length raw = MAX_TRACE_DEPTH ->
  0 <= d <= Z.of_nat MAX_TRACE_DEPTH -> bt_ok (backtrace64 m env fp raw us d).
Proof.
  intros Hb Hs Hraw Hd. destruct (frame_chain_exists _ _ _ fp Hs) as [rets Hc].
  unfold backtrace64, unwind_backtrace. rewrite Hb, <- Hraw in *.
  rewrite (unwind_loop_chain _ _ _ _ _ Hc);
    [|done|lia|lia|apply unwind_fuel_enough|unfold unwind_fuel; lia].
  rewrite Z.sub_0_r. simpl. set (out := take _ _).
  assert (Hout : (length out <= length raw)%nat) by (unfold out; rewrite length_take; lia).
  split; simpl; [|unfold MAX_TRACE_DEPTH in *; lia].
  rewrite length_app, length_drop. lia.
Qed.

(** The stack bounds are asked of pthread at most once per thread when the
    TLS keys exist: after one unwind the cached bounds are the thread's stack,
    and every later unwind uses them and changes nothing. *)
Theorem stack_bounds_cached env us :
  use_thread_local us = true -> thread_t_key us = 0 ->
  0 < stk_address env -> 0 < stk_size env -> stk_address env + stk_size env < 2 ^ 64 ->
  exists us',
    stack_bounds env us = (stk_address env + stk_size env, stk_address env, us') /\
    forall env', stack_bounds env' us' = (stk_address env + stk_size env, stk_address env, us').
Proof.
  intros Htl Hk Ha Hsz Hw. unfold stack_bounds, GetStackRange.
  rewrite Htl, Hk. simpl. rewrite uwrap_small by lia. eexists. split; [done|]. intros env'. simpl.
  destruct (Z.eqb_spec (stk_address env + stk_size env) 0); [lia|].
  destruct (Z.eqb_spec (stk_address env) 0); [lia|]. done.
Qed.

(** ** Witnesses: a 128-byte stack with two frames *)

Definition demo_stack : mem :=
  mem_at 4096 (replicate 32 0 ++ le_bytes 8 4160 ++ le_bytes 8 0x7001 ++ replicate 16 0
    ++ le_bytes 8 0 ++ le_bytes 8 0x7002 ++ replicate 48 0) ∅.

Definition demo_env : thread_env := {| stk_address := 4096; stk_size := 128; is_main := true |}.
Definition demo_us : unwind_state :=
  {| fp_main_thread_stack_low := 0; fp_main_thread_stack_high := 0;
     thread_t_key := 0; thread_b_key := 0; use_thread_local := true |}.
Definition demo_us' : unwind_state := (stack_bounds demo_env demo_us).2.

(** 18 nested frames with 18 return addresses, deeper than [Backtrace.trace]. *)
Definition deep_stack : mem :=
  mem_at 4096 (replicate 16 0 ++
    mjoin ((fun k => le_bytes 8 (4128 + 16 * k) ++ le_bytes 8 (0x7000 + k)) <$> zrange 0 18) ++
    replicate 16 0) ∅.
Definition deep_env : thread_env := {| stk_address := 4096; stk_size := 320; is_main := true |}.

Lemma mem_at_stack_ok sb bs st :
  st = sb + Z.of_nat (length bs) -> 16 <= st < 2 ^ 64 -> 0 <= sb -> Forall byte_ok bs ->
  stack_ok (mem_at sb bs ∅) st sb.
Proof.
  intros -> Hst Hsb Hok. split; [done|]. split; [done|]. split.
  - intros i Hi. rewrite mem_at_lookup, decide_True by lia. apply lookup_lt_is_Some. lia.
  - intros a b. rewrite mem_at_lookup, lookup_empty. case_decide; [|done].
    by apply Forall_lookup_1.
Qed.

Lemma demo_stack_ok : stack_ok demo_stack 4224 4096.
Proof. apply mem_at_stack_ok; [done|lia|lia|]. apply (bool_decide_unpack _). by vm_compute. Qed.

Lemma deep_stack_ok : stack_ok deep_stack 4416 4096.
Proof. apply mem_at_stack_ok; [done|lia|lia|]. apply (bool_decide_unpack _). by vm_compute. Qed.

Lemma deep_chain : frame_chain deep_stack 4416 4096 4112 (zrange 0x7000 18).
Proof.
  cbn [zrange].
  do 18 (eapply chain_frame; [vm_compute; reflexivity..|vm_compute; discriminate|]).
  by apply chain_out.
Qed.

Lemma demo_chain : frame_chain demo_stack 4224 4096 4128 [0x7001].
Proof.
  eapply (chain_frame _ _ _ _ 0x7001 4160); [done..|lia|].
  eapply (chain_broken _ _ _ _ 0x7002 0); [done..|lia].
Qed.

Lemma unwind_backtrace_correct_witness :
  exists rets n stack',
    frame_chain demo_stack 4224 4096 4128 rets /\
    unwind_backtrace demo_stack demo_env 4128 (replicate 16 0) 8 demo_us
      = Ok (Z.of_nat n, stack', demo_us') /\
    take n stack' = take (Z.to_nat 8) (squash 0 rets) /\
    drop n stack' = drop n (replicate 16 0) /\ Z.of_nat n <= 8.
Proof.
  apply unwind_backtrace_correct; [reflexivity|apply demo_stack_ok|simpl; lia].
Defined.

Lemma unwind_backtrace_overflow_witness :
  unwind_backtrace deep_stack deep_env 4112 (replicate 16 0) 32 demo_us = Fault.
Proof.
  apply (unwind_backtrace_overflow _ _ _ _ _ _ 4416 4096
    (stack_bounds deep_env demo_us).2 (zrange 0x7000 18));
    [reflexivity|apply deep_stack_ok|apply deep_chain|simpl; lia|vm_compute; lia].
Defined.

Lemma stack_bounds_cached_witness :
  exists us',
    stack_bounds demo_env demo_us = (4096 + 128, 4096, us') /\
    forall env', stack_bounds env' us' = (4096 + 128, 4096, us').
Proof. apply (stack_bounds_cached demo_env demo_us); simpl; lia || done. Defined.
