(* ===== verification/StackRange32.v ===== *)
(** unwind32/ptrace.c, [ubrd_get_main_thread_stack] and [ubrd_get_stack]: the
    stack bounds of the running thread, for the main thread out of the text of
    [/proc/self/task/<pid>/maps] or [/proc/self/stat].  Files are lists of
    character codes; [line\[1024\]] is a list that a store may overrun. *)
From S2P Require Import Prelude CString.

(** ** The main thread's stack *)

(** The C string at [line + k]. *)
Definition c_string (k : nat) (line : list Z) : list Z := until_nul (drop k line).

Definition STACK : list Z := [91; 115; 116; 97; 99; 107; 93].   (* "[stack]" *)

Definition stack_at `{Arch} : nat * nat := if lp64 then (9, 21)%nat else (7, 17)%nat.

(** A line that ends in "[stack]": overwrite around its second address and parse
    it. *)
Definition parse_stack_line `{Arch} (line : list Z) : res Z :=
  let '(at_, end_) := stack_at in
  let! line := of_opt (list_set at_ 48 line) in          (* '0' *)
  let! line := of_opt (list_set (S at_) 120 line) in     (* 'x' *)
  let! line := of_opt (list_set end_ 0 line) in
  Ok (strtoul 16 (c_string at_ line)).

(** The loop over [/proc/self/task/<pid>/maps]: [Some start] at the stack's line,
    [None] at the end of the file. *)
Fixpoint scan_maps `{Arch} (file : list Z) (line : list Z) (i : nat) : res (option Z * list Z) :=
  match file with
  | [] => Ok (None, line)
  | c :: file' =>
      if c =? NL then
        let! line := of_opt (list_set i 0 line) in
        if (i <? 7)%nat then Fault                        (* line[i - 7] *)
        else if bool_decide (take 7 (drop (i - 7) line) = STACK) then
          let! start := parse_stack_line line in Ok (Some start, line)
        else scan_maps file' line 0
      else
        let! line := of_opt (list_set i c line) in
        scan_maps file' line (S i)
  end.

(** The loop over [/proc/self/stat]: copy the 28th field. *)
Fixpoint scan_stat (file : list Z) (line : list Z) (i : nat) (j : Z) : res (list Z) :=
  match file with
  | [] => Ok line
  | c :: file' =>
      if c =? SPACE then
        if j + 1 =? 28 then of_opt (list_set i 0 line)
        else scan_stat file' line i (j + 1)
      else if j =? 27 then
        let! line := of_opt (list_set i c line) in
        scan_stat file' line (S i) j
      else scan_stat file' line i j
  end.

(** What the process sees: whether libc gives [open] and [close], the two files
    ([None] when [open] fails), the ids, and pthread's answer for the thread. *)
Record stack_env := {
  libc_ok : bool;
  maps_file : option (list Z);
  stat_file : option (list Z);
  env_pid : Z;
  env_tid : Z;
  attr_stack_base : Z;
  attr_stack_size : Z
}.

(** The static variables. *)
Record stack_cache := {
  main_thread_stack_start : Z;
  main_thread_stack_size : Z;
  ubrd_pid : Z
}.

Definition set_main (start : Z) (c : stack_cache) : stack_cache :=
  {| main_thread_stack_start := start; main_thread_stack_size := 8 * 1024 * 1024;
     ubrd_pid := ubrd_pid c |}.

Section Stack.
Context `{Arch}.

(** Returns the error code ([0] or [-1]); [raw] is the uninitialised buffer. *)
Definition ubrd_get_main_thread_stack (env : stack_env) (raw : list Z) (c : stack_cache)
    : res (Z * stack_cache) :=
  if negb (libc_ok env) then Ok (-1, c)
  else match maps_file env with
  | None => Ok (-1, c)
  | Some maps =>
      let! (found, line) := scan_maps maps raw 0 in
      match found with
      | Some start => Ok (0, set_main start c)
      | None =>
          match stat_file env with
          | None => Ok (-1, c)
          | Some stat =>
              let! line := of_opt (list_set 0 0 line) in
              let! line := scan_stat stat line 0 0 in
              if negb (nth 0 line 0 =? 0)
              then Ok (0, set_main (strtoul 10 (c_string 0 line)) c) else Ok (-1, c)
          end
      end
  end.

(** [(result, start, end)]: the caller's variables are 0 when it fails. *)
Definition ubrd_get_stack (env : stack_env) (raw : list Z) (c : stack_cache)
    : res (Z * (Z * Z) * stack_cache) :=
  let c := if negb (env_pid env =? ubrd_pid c)
           then {| main_thread_stack_start := 0; main_thread_stack_size := 0;
                   ubrd_pid := env_pid env |} else c in
  if env_tid env =? env_pid env then
    let! (err, c) := (if main_thread_stack_start c =? 0
                      then ubrd_get_main_thread_stack env raw c else Ok (0, c)) in
    if negb (err =? 0) then Ok (-1, (0, 0), c)
    else Ok (0, (main_thread_stack_start c,
                 uwrap ptr_bits (main_thread_stack_start c - main_thread_stack_size c)), c)
  else Ok (0, (uwrap ptr_bits (attr_stack_base env + attr_stack_size env),
               attr_stack_base env), c).

End Stack.

(** ** Scanning the file *)

Definition line_ok (l : list Z) : Prop :=
  (7 <= length l < 1024)%nat /\ Forall (fun c => c <> NL) l.

(** The characters of a line go into the buffer one after the other. *)
Lemma scan_line `{Arch} l rest line i :
  Forall (fun c => c <> NL) l -> (i + length l <= length line)%nat ->
  scan_maps (l ++ rest) line i =
    scan_maps rest (take i line ++ l ++ drop (i + length l) line) (i + length l).
Proof.
  intros Hl. revert line i. induction Hl as [|c l Hc Hl IH]; intros line i Hlen.
  { simpl. by rewrite Nat.add_0_r, take_drop. }
  simpl in Hlen |- *. destruct (Z.eqb_spec c NL); [done|].
  unfold list_set. rewrite decide_True by lia. cbn [of_opt rbind].
  rewrite IH by (rewrite length_insert; lia). f_equal; [|lia].
  rewrite (take_S_r _ _ c) by (rewrite list_lookup_insert_eq; [done|lia]).
  rewrite take_insert_ge, drop_insert_lt by lia. rewrite <- app_assoc. simpl.
  by replace (i + S (length l))%nat with (S (i + length l)) by lia.
Qed.

Definition is_stack_line (l : list Z) : Prop := drop (length l - 7) l = STACK.

Lemma scan_newline `{Arch} l rest line :
  line_ok l -> length line = 1024%nat ->
  let line' := l ++ 0 :: drop (S (length l)) line in
  scan_maps (l ++ NL :: rest) line 0 =
    if bool_decide (is_stack_line l)
    then let! start := parse_stack_line line' in Ok (Some start, line')
    else scan_maps rest line' 0.
Proof.
  intros [Hlen Hl] Hline line'. rewrite scan_line by (done || lia). simpl.
  unfold list_set. rewrite decide_True by (rewrite length_app, length_drop; lia).
  cbn [of_opt rbind]. rewrite insert_app_r_alt, Nat.sub_diag by lia.
  destruct (drop (length l) line) as [|x d] eqn:Hd.
  { apply (f_equal length) in Hd. rewrite length_drop in Hd. simpl in Hd. lia. }
  simpl. assert (Hd' : d = drop (S (length l)) line)
    by (rewrite <- Nat.add_1_r, <- drop_drop, Hd; done).
  rewrite Hd'. fold line'. destruct (Nat.ltb_spec (length l) 7); [lia|].
  assert (Ht : take 7 (drop (length l - 7) line') = drop (length l - 7) l).
  { unfold line'. rewrite drop_app_le by lia. apply take_app_length'. rewrite length_drop. lia. }
  rewrite Ht. done.
Qed.

Lemma scan_lines `{Arch} ls rest line :
  Forall (fun l => line_ok l /\ ~ is_stack_line l) ls -> length line = 1024%nat ->
  exists line', length line' = 1024%nat /\
    scan_maps (mjoin ((fun l => l ++ [NL]) <$> ls) ++ rest) line 0 = scan_maps rest line' 0.
Proof.
  intros Hls. revert line. induction Hls as [|l ls [Hl Hs] Hls IH]; intros line Hline; [by exists line|].
  cbn [fmap list_fmap mjoin list_join]. rewrite <- !app_assoc. cbn [app].
  rewrite scan_newline, bool_decide_false by done. apply IH.
  destruct Hl as [Hlen _]. rewrite length_app. simpl. rewrite length_drop. lia.
Qed.

(** The kernel's line for a mapping [lo-hi], followed by [tail]. *)
Definition map_line (lo hi : Z) (tail : list Z) : list Z :=
  hex_of 8 lo ++ 45 :: hex_of 8 hi ++ tail.

Lemma list_insert_0 (x y : Z) l : <[0%nat:=x]> (y :: l) = x :: l.
Proof. done. Qed.
Lemma list_insert_S i (x y : Z) l : <[S i:=x]> (y :: l) = y :: <[i:=x]> l.
Proof. done. Qed.

Lemma parse_map_line lo hi tail t :
  0 <= hi < 2 ^ 32 -> tail ++ t <> [] ->
  @parse_stack_line arm32 (map_line lo hi tail ++ t) = Ok hi.
Proof.
  intros Hhi Ht. destruct (tail ++ t) as [|c rest] eqn:Htail; [done|].
  pose proof (hex_of_length 8 lo) as Hl1. pose proof (hex_of_length 8 hi) as Hl2.
  set (line := map_line lo hi tail ++ t).
  assert (Hline : drop 7 line = nth 7 (hex_of 8 lo) 0 :: 45 :: hex_of 8 hi ++ c :: rest).
  { unfold line, map_line. rewrite <- !app_assoc. cbn [app]. rewrite <- app_assoc, Htail.
    rewrite drop_app_le by lia. destruct (hex_of 8 lo) as [|x0 [|x1 [|x2 [|x3 [|x4 [|x5 [|x6 [|x7 [|]]]]]]]]];
      simpl in Hl1; try lia. done. }
  assert (Hlen : (18 <= length line)%nat).
  { apply (f_equal length) in Hline. rewrite length_drop in Hline. cbn [length] in Hline.
    rewrite length_app, Hl2 in Hline. cbn [length] in Hline. lia. }
  unfold parse_stack_line, stack_at. cbn [lp64 arm32]. unfold list_set.
  rewrite decide_True by lia. cbn [of_opt rbind].
  rewrite decide_True by (rewrite length_insert; lia). cbn [of_opt rbind].
  rewrite decide_True by (rewrite !length_insert; lia). cbn [of_opt rbind].
  f_equal. unfold c_string. rewrite !drop_insert_ge by lia. rewrite Hline.
  change (17 - 7)%nat with 10%nat. change (8 - 7)%nat with 1%nat. change (7 - 7)%nat with 0%nat.
  rewrite list_insert_0, !list_insert_S, list_insert_0, !list_insert_S.
  rewrite insert_app_r_alt, Hl2 by lia. change (8 - 8)%nat with 0%nat. rewrite list_insert_0.
  assert (Hs : Forall (fun c => c <> 0) (hex_of 8 hi))
    by (eapply Forall_impl; [apply hex_of_chars|]; by intros ? []).
  rewrite !app_comm_cons, until_nul_app by (repeat (constructor; [done|]); done).
  apply strtoul_hex; [lia|done|]. unfold ptr_bits. simpl. lia.
Qed.

Section Exact.
#[local] Existing Instance arm32.

(** C40: On 32-bit devices the main thread's stack is read off the maps file
    exactly: with any ordinary lines before the stack's, the stack starts at the
    end address of the [\[stack\]] line, and is taken to be 8 MiB long. *)
Theorem main_stack_of_maps env raw c ls lo hi tail rest :
  libc_ok env = true -> length raw = 1024%nat ->
  maps_file env = Some (mjoin ((fun l => l ++ [NL]) <$> ls) ++ map_line lo hi tail ++ NL :: rest) ->
  Forall (fun l => line_ok l /\ ~ is_stack_line l) ls ->
  line_ok (map_line lo hi tail) -> is_stack_line (map_line lo hi tail) ->
  0 <= hi < 2 ^ 32 -> env_pid env = env_tid env -> env_pid env <> ubrd_pid c ->
  exists c', ubrd_get_stack env raw c = Ok (0, (hi, u32 (hi - 8 * 1024 * 1024)), c') /\
    (hi <> 0 -> forall env' raw', env_pid env' = env_pid env -> env_tid env' = env_tid env ->
       ubrd_get_stack env' raw' c' = Ok (0, (hi, u32 (hi - 8 * 1024 * 1024)), c')).
Proof.
  intros Hlibc Hraw Hmaps Hls Hlok Hstk Hhi Hpid Hnew.
  set (c0 := {| main_thread_stack_start := 0; main_thread_stack_size := 0; ubrd_pid := env_pid env |}).
  exists (set_main hi c0). split.
  - unfold ubrd_get_stack. destruct (Z.eqb_spec (env_pid env) (ubrd_pid c)); [done|].
    cbn [negb]. fold c0. rewrite <- Hpid, Z.eqb_refl. cbn [main_thread_stack_start c0 Z.eqb].
    unfold ubrd_get_main_thread_stack. rewrite Hlibc, Hmaps. cbn [negb].
    destruct (scan_lines ls (map_line lo hi tail ++ NL :: rest) raw Hls Hraw) as (line' & Hline' & ->).
    rewrite scan_newline, bool_decide_true by done.
    rewrite parse_map_line by (done || by destruct tail). reflexivity.
  - intros Hhi0 env' raw' Hpid' Htid'. unfold ubrd_get_stack. cbn [set_main ubrd_pid c0].
    rewrite Hpid', Z.eqb_refl, Htid', <- Hpid, Z.eqb_refl. cbn [negb main_thread_stack_start].
    change (main_thread_stack_start (set_main hi c0)) with hi.
    destruct (Z.eqb_spec hi 0); [done|]. reflexivity.
Qed.

(** A line of the maps file that does not fit the 1024-byte buffer (paths
    there may have 4096) is written past its end. *)
Theorem maps_line_overflow l rest raw :
  Forall (fun c => c <> NL) l -> length raw = 1024%nat -> (1024 < length l)%nat ->
  scan_maps (l ++ rest) raw 0 = Fault.
Proof.
  intros Hl Hraw Hlen.
  rewrite <- (take_drop 1024 l), <- app_assoc. rewrite scan_line;
    [|by apply Forall_take|rewrite length_take; lia].
  destruct (drop 1024 l) as [|c d] eqn:Hd.
  { apply (f_equal length) in Hd. rewrite length_drop in Hd. simpl in Hd. lia. }
  assert (Hc : c <> NL).
  { apply (Forall_drop _ 1024) in Hl. rewrite Hd in Hl. by apply Forall_cons in Hl as [? _]. }
  cbn [app scan_maps]. destruct (Z.eqb_spec c NL); [done|].
  unfold list_set. rewrite decide_False; [done|].
  rewrite !length_app, length_drop, !length_take. lia.
Qed.

End Exact.

(** ** Witnesses *)

Definition demo_env : stack_env :=
  {| libc_ok := true;
     maps_file := Some (mjoin ((fun l => l ++ [NL]) <$> [map_line 0x8000 0x9000 [SPACE; 114]]) ++
       map_line 0xbecd7000 0xbecf8000 (SPACE :: STACK) ++ NL :: [1; 2]);
     stat_file := None; env_pid := 42; env_tid := 42;
     attr_stack_base := 0; attr_stack_size := 0 |}.
Definition demo_cache : stack_cache :=
  {| main_thread_stack_start := 0; main_thread_stack_size := 0; ubrd_pid := 0 |}.

Lemma main_stack_of_maps_witness :
  exists c', @ubrd_get_stack arm32 demo_env (replicate 1024 0) demo_cache
      = Ok (0, (0xbecf8000, u32 (0xbecf8000 - 8 * 1024 * 1024)), c') /\
    (0xbecf8000 <> 0 -> forall env' raw', env_pid env' = 42 -> env_tid env' = 42 ->
       @ubrd_get_stack arm32 env' raw' c' = Ok (0, (0xbecf8000, u32 (0xbecf8000 - 8 * 1024 * 1024)), c')).
Proof.
  apply (main_stack_of_maps demo_env (replicate 1024 0) demo_cache
    [map_line 0x8000 0x9000 [SPACE; 114]] 0xbecd7000 0xbecf8000 (SPACE :: STACK) [1; 2]);
    try reflexivity; try discriminate.
  - apply (bool_decide_unpack _). by vm_compute.
  - apply (bool_decide_unpack _). by vm_compute.
  - split; discriminate || reflexivity.
Defined.

Lemma maps_line_overflow_witness :
  @scan_maps arm32 (replicate 1025 47 ++ [NL]) (replicate 1024 0) 0 = Fault.
Proof.
  apply maps_line_overflow; [|reflexivity|].
  - apply Forall_replicate. discriminate.
  - rewrite length_replicate. lia.
Defined.
