(* ===== verification/Unwind32.v ===== *)
(** unwind32: the EHABI unwinder of 32-bit ARM: map_info.c, the word readers of
    ptrace.c, and the exception-index search, the interpreter of unwinding
    instructions and the frame loop of backtrace-arm.c.  Memory is that of
    Memory.v; a load of an unmapped word through [d15_get_word] is a [Fault]. *)
From S2P Require Import Prelude Memory Cache.

(** ** map_info.{h,c} *)

(** [map_info_t]; the list is the [next] chain; [data] is the user's
    [map_info_data_t] ([exidx_start], [exidx_size]). *)
Record map_info_t := {
  mi_start : Z;
  mi_end : Z;
  is_readable : bool;
  is_writable : bool;
  is_executable : bool;
  mi_data : option (Z * Z)
}.

Fixpoint find_map_info (milist : list map_info_t) (addr : Z) : option map_info_t :=
  match milist with
  | [] => None
  | mi :: next =>
      if (mi_start mi <=? addr) && (addr <? mi_end mi) then Some mi else find_map_info next addr
  end.

Definition is_readable_map (milist : list map_info_t) (addr : Z) : bool :=
  match find_map_info milist addr with Some mi => is_readable mi | None => false end.
Definition is_writable_map (milist : list map_info_t) (addr : Z) : bool :=
  match find_map_info milist addr with Some mi => is_writable mi | None => false end.
Definition is_executable_map (milist : list map_info_t) (addr : Z) : bool :=
  match find_map_info milist addr with Some mi => is_executable mi | None => false end.

Definition acquire_my_map_info_list : list map_info_t := [].

(** ** ptrace.c: reading words *)

(** [memory_t]; [tid < 0] is the own process. *)
Record memory_t := { tid : Z; mem_maps : list map_info_t }.

Definition init_memory (maps : list map_info_t) : memory_t := {| tid := -1; mem_maps := maps |}.
Definition init_memory_ptrace (t : Z) : memory_t := {| tid := t; mem_maps := [] |}.

Section Unwind.
(** The process's memory; [ptrace(PTRACE_PEEKTEXT, tid, ptr)]'s result and
    whether [errno] is set; [__gnu_Unwind_Find_exidx]; and the stack bounds
    [ubrd_get_stack] finds (StackRange32.v; the higher first), which stay the same
    during an unwind. *)
Context (m : mem) (peek : Z -> Z -> Z * bool) (gnu_Unwind_Find_exidx : Z -> Z * Z)
        (ubrd_stack : Z * Z).

Definition d15_get_word (addr : Z) : res Z := of_opt (load32 m addr).

Definition try_get_word (memory : memory_t) (ptr : Z) : res (option Z) :=
  if truthy (ptr .& 3) then Ok None
  else if tid memory <? 0 then
    let! out := d15_get_word ptr in
    Ok (if negb (out =? 0xdeadaee0) then Some out else None)
  else
    let '(v, errno) := peek (tid memory) ptr in
    Ok (if (v =? 0xffffffff) && errno then None else Some v).

Definition try_get_word_stack (ptr : Z) : res (option Z) :=
  let '(sstart, send) := ubrd_stack in
  if (send <=? ptr) && (ptr <=? sstart)
  then let! v := of_opt (load32 m ptr) in Ok (Some v)
  else Ok None.

(** ** backtrace-arm.c *)

Record unwind_state_t := { gregs : list Z }.

Definition R_SP : nat := 13.
Definition R_LR : nat := 14.
Definition R_PC : nat := 15.
Definition EXIDX_CANTUNWIND : Z := 1.

Definition reg (s : unwind_state_t) (r : nat) : Z := nth r (gregs s) 0.
Definition set_reg (s : unwind_state_t) (r : nat) (v : Z) : unwind_state_t :=
  {| gregs := <[r:=v]> (gregs s) |}.

Definition find_exidx (pc : Z) : Z * Z :=
  let '(start, count) := gnu_Unwind_Find_exidx pc in (start, u32 count).

Definition prel_to_absolute (place prel_offset : Z) : Z :=
  u32 (place + (s32 (prel_offset .<< 1) .>> 1)).

(** The handler word [h] of an entry: in-place data, an offset, or no handler. *)
Definition exidx_handler (entry_handler_ptr h : Z) : Z :=
  if truthy (h .& (1 .<< 31)) then entry_handler_ptr
  else if negb (h =? EXIDX_CANTUNWIND) then prel_to_absolute entry_handler_ptr h
  else 0.

(** The binary search of [get_exception_handler]: the [while] loop. *)
Fixpoint exidx_search (fuel : nat) (memory : memory_t) (exidx_start exidx_size pc low high : Z)
    : res Z :=
  match fuel with
  | O => NoFuel
  | S fuel' =>
    if low <? high then
      let index := u32 (low + high) / 2 in
      let entry := u32 (exidx_start + index * 8) in
      let! entry_prel_pc := try_get_word memory entry in
      match entry_prel_pc with
      | None => Ok 0
      | Some entry_prel_pc =>
        let entry_pc := prel_to_absolute entry entry_prel_pc in
        if pc <? entry_pc then exidx_search fuel' memory exidx_start exidx_size pc low index
        else
          let handle :=
            let entry_handler_ptr := u32 (entry + 4) in
            let! entry_handler := try_get_word memory entry_handler_ptr in
            Ok match entry_handler with
               | None => 0 | Some h => exidx_handler entry_handler_ptr h end in
          if u32 (index + 1) <? exidx_size then
            let next_entry := u32 (entry + 8) in
            let! next_entry_prel_pc := try_get_word memory next_entry in
            match next_entry_prel_pc with
            | None => Ok 0
            | Some next_prel =>
                if prel_to_absolute next_entry next_prel <=? pc
                then exidx_search fuel' memory exidx_start exidx_size pc (u32 (index + 1)) high
                else handle
            end
          else handle
      end
    else Ok 0
  end.

(** [high] is a [uint32_t], and the interval halves: 33 rounds are enough. *)
Definition exidx_fuel : nat := 33.

Definition get_exception_handler (memory : memory_t) (map_info_list : list map_info_t) (pc : Z)
    : res Z :=
  if pc =? 0 then Ok 0
  else
    let '(exidx_start, exidx_size) :=
      if tid memory <? 0 then find_exidx pc
      else match find_map_info map_info_list pc with
           | Some mi => match mi_data mi with Some data => data | None => (0, 0) end
           | None => (0, 0)
           end in
    if truthy exidx_start
    then exidx_search exidx_fuel memory exidx_start exidx_size pc 0 exidx_size
    else Ok 0.

(** *** The byte stream *)

Record byte_stream_t := { bs_ptr : Z; bs_word : Z }.

Definition try_next_byte (memory : memory_t) (stream : byte_stream_t)
    : res (option Z * byte_stream_t) :=
  let next w v := Ok (Some (u8 v), {| bs_ptr := u32 (bs_ptr stream + 1); bs_word := w |}) in
  match bs_ptr stream .& 3 with
  | 0 =>
      let! w := try_get_word memory (bs_ptr stream) in
      match w with
      | None => Ok (None, {| bs_ptr := bs_ptr stream; bs_word := 0xffffffff |})
      | Some w => next w (w .>> 24)
      end
  | 1 => next (bs_word stream) (bs_word stream .>> 16)
  | 2 => next (bs_word stream) (bs_word stream .>> 8)
  | _ => next (bs_word stream) (bs_word stream)
  end.

(** *** Register transfers *)

(** The loop of [try_pop_registers] over the registers [i .. i+n-1]; on failure
    the registers popped so far stay set. *)
Fixpoint pop_loop (n i : nat) (mask sp : Z) (sp_updated : bool) (s : unwind_state_t)
    : res (bool * Z * bool * unwind_state_t) :=
  match n with
  | O => Ok (true, sp, sp_updated, s)
  | S n' =>
      if Z.testbit mask (Z.of_nat i) then
        let! value := try_get_word_stack sp in
        match value with
        | None => Ok (false, sp, sp_updated, s)
        | Some v => pop_loop n' (S i) mask (u32 (sp + 4)) (sp_updated || (i =? R_SP)%nat)
                      (set_reg s i v)
        end
      else pop_loop n' (S i) mask sp sp_updated s
  end.

Definition try_pop_registers (s : unwind_state_t) (mask : Z) : res (bool * unwind_state_t) :=
  let! (ok, sp, sp_updated, s') := pop_loop 16 0 mask (reg s R_SP) false s in
  Ok (ok, if ok && negb sp_updated then set_reg s' R_SP sp else s').

(** Look for the return address in the next [n] words. *)
Fixpoint find_pc_loop (n : nat) (pc sp : Z) : res (bool * option Z) :=
  match n with
  | O => Ok (true, None)
  | S n' =>
      let! value := try_get_word_stack sp in
      match value with
      | None => Ok (false, None)
      | Some v => if v =? pc then Ok (true, Some sp) else find_pc_loop n' pc (u32 (sp + 4))
      end
  end.

Definition try_pop_Stack_ForNotSaveInASM (s : unwind_state_t) : res (bool * unwind_state_t) :=
  let! value := try_get_word_stack (u32 (reg s R_SP - 4)) in
  match value with
  | None => Ok (false, s)
  | Some v =>
      if v =? reg s R_PC then Ok (true, s)
      else
        let! (ok, found) := find_pc_loop 16 (reg s R_PC) (reg s R_SP) in
        Ok (ok, match found with Some sp => set_reg s R_SP (u32 (sp + 4)) | None => s end)
  end.

(** *** The unwinding instructions *)

(** How the loop goes on after an instruction: [return false], [break], or the
    next instruction; [size] is what is left of the instruction bytes. *)
Inductive verdict := Refuse | Finish | Next.

Record exec := {
  x_state : unwind_state_t;
  x_stream : byte_stream_t;
  x_size : nat;
  x_pc_set : bool
}.

Definition with_state (s : unwind_state_t) (x : exec) : exec :=
  {| x_state := s; x_stream := x_stream x; x_size := x_size x; x_pc_set := x_pc_set x |}.
Definition with_pc_set (b : bool) (x : exec) : exec :=
  {| x_state := x_state x; x_stream := x_stream x; x_size := x_size x;
     x_pc_set := x_pc_set x || b |}.

(** [if (!(size--) || !try_next_byte(..)) return false] *)
Definition next_operand (memory : memory_t) (x : exec) : res (option Z * exec) :=
  match x_size x with
  | O => Ok (None, x)
  | S size =>
      let! (op2, stream) := try_next_byte memory (x_stream x) in
      Ok (op2, {| x_state := x_state x; x_stream := stream; x_size := size;
                  x_pc_set := x_pc_set x |})
  end.

(** [set_reg(state, R_SP, state->gregs\[R_SP\] + d)] *)
Definition add_sp (d : Z) (x : exec) : exec :=
  with_state (set_reg (x_state x) R_SP (u32 (reg (x_state x) R_SP + d))) x.

Definition pop (mask : Z) (x : exec) : res (verdict * exec) :=
  let! (ok, s) := try_pop_registers (x_state x) mask in
  Ok (if ok then Next else Refuse, with_state s x).

(** The [do .. while] of the uleb128 operand; each round consumes a byte. *)
Fixpoint uleb_loop (fuel : nat) (memory : memory_t) (value shift : Z) (x : exec)
    : res (option Z * exec) :=
  match fuel with
  | O => NoFuel
  | S fuel' =>
      let! (op2, x) := next_operand memory x in
      match op2 with
      | None => Ok (None, x)
      | Some op2 =>
          let value := u32 (value .| u32 ((op2 .& 0x7f) .<< shift)) in
          if truthy (op2 .& 0x80) then uleb_loop fuel' memory value (shift + 7) x
          else Ok (Some value, x)
      end
  end.

Definition popcount8 (b : Z) : Z :=
  foldr (fun i n => b2z (Z.testbit b i) + n) 0 (zrange 0 8).

(** One round of the instruction loop, after [op] is read. *)
Definition exec_op (memory : memory_t) (op : Z) (x : exec) : res (verdict * exec) :=
  let with_operand (k : Z -> exec -> res (verdict * exec)) :=
    let! (op2, x) := next_operand memory x in
    match op2 with None => Ok (Refuse, x) | Some op2 => k op2 x end in
  if (op .& 0xc0) =? 0x00 then Ok (Next, add_sp (((op .& 0x3f) .<< 2) + 4) x)
  else if (op .& 0xc0) =? 0x40 then Ok (Next, add_sp (- ((op .& 0x3f) .<< 2) - 4) x)
  else if (op .& 0xf0) =? 0x80 then
    with_operand (fun op2 x =>
      let mask := ((op .& 0x0f) .<< 12) .| (op2 .<< 4) in
      if truthy mask then
        let! (v, x) := pop mask x in
        Ok (v, match v with
               | Next => with_pc_set (truthy (mask .& (1 .<< Z.of_nat R_PC))) x
               | _ => x end)
      else Ok (Refuse, x))
  else if (op .& 0xf0) =? 0x90 then
    if negb (op =? 0x9d) && negb (op =? 0x9f) then
      let r := if (op =? 0x97) && negb (truthy (reg (x_state x) (Z.to_nat (op .& 0xf)) .& 0xffff0000))
               then 12%nat else Z.to_nat (op .& 0x0f) in
      Ok (Next, with_state (set_reg (x_state x) R_SP (reg (x_state x) r)) x)
    else Ok (Refuse, x)
  else if (op .& 0xf8) =? 0xa0 then
    pop ((0x0ff0 .>> (7 - (op .& 0x07))) .& 0x0ff0) x
  else if (op .& 0xf8) =? 0xa8 then
    pop (((0x0ff0 .>> (7 - (op .& 0x07))) .& 0x0ff0) .| 0x4000) x
  else if op =? 0xb0 then Ok (Finish, x)
  else if op =? 0xb1 then
    with_operand (fun op2 x =>
      if negb (op2 =? 0) && ((op2 .& 0xf0) =? 0) then pop op2 x else Ok (Refuse, x))
  else if op =? 0xb2 then
    let! (value, x) := uleb_loop (S (x_size x)) memory 0 0 x in
    match value with
    | None => Ok (Refuse, x)
    | Some value => Ok (Next, add_sp ((value .<< 2) + 0x204) x)
    end
  else if op =? 0xb3 then
    with_operand (fun op2 x => Ok (Next, add_sp ((op2 .& 0x0f) * 8 + 12) x))
  else if (op .& 0xf8) =? 0xb8 then Ok (Next, add_sp ((op .& 0x07) * 8 + 12) x)
  else if (op .& 0xf8) =? 0xc0 then Ok (Next, add_sp ((op .& 0x07) * 8 + 8) x)
  else if op =? 0xc6 then
    with_operand (fun op2 x => Ok (Next, add_sp ((op2 .& 0x0f) * 8 + 8) x))
  else if op =? 0xc7 then
    with_operand (fun op2 x =>
      if negb (op2 =? 0) && ((op2 .& 0xf0) =? 0) then Ok (Next, add_sp (popcount8 op2 * 4) x)
      else Ok (Refuse, x))
  else if op =? 0xc8 then
    with_operand (fun op2 x => Ok (Next, add_sp ((op2 .& 0x0f) * 8 + 8) x))
  else if op =? 0xc9 then
    with_operand (fun op2 x => Ok (Next, add_sp ((op2 .& 0x0f) * 8 + 8) x))
  else if (op .& 0xf8) =? 0xd0 then Ok (Next, add_sp ((op .& 0x07) * 8 + 8) x)
  else Ok (Refuse, x).

(** [while (size--) ..]: [true] when the loop ends without [return false]. *)
Fixpoint exec_loop (fuel : nat) (memory : memory_t) (x : exec) : res (bool * exec) :=
  match fuel with
  | O => NoFuel
  | S fuel' =>
      match x_size x with
      | O => Ok (true, x)
      | S _ =>
          let! (op, x) := next_operand memory x in
          match op with
          | None => Ok (false, x)
          | Some op =>
              let! (v, x) := exec_op memory op x in
              match v with
              | Refuse => Ok (false, x)
              | Finish => Ok (true, x)
              | Next => exec_loop fuel' memory x
              end
          end
      end
  end.

(** The number of instruction bytes of personality routine [pr_index]. *)
Definition routine_size (memory : memory_t) (stream : byte_stream_t) (pr_index : Z)
    : res (option nat * byte_stream_t) :=
  if pr_index =? 0 then Ok (Some 3%nat, stream)
  else if (pr_index =? 1) || (pr_index =? 2) then
    let! (size_byte, stream) := try_next_byte memory stream in
    Ok (match size_byte with
        | Some b => Some (Z.to_nat (u32 (b * 4 + 2))) | None => None end, stream)
  else Ok (None, stream).

Definition execute_personality_routine (memory : memory_t) (s : unwind_state_t)
    (stream : byte_stream_t) (pr_index : Z) : res (bool * unwind_state_t) :=
  let! (size, stream) := routine_size memory stream pr_index in
  match size with
  | None => Ok (false, s)
  | Some size =>
      let! (ok, x) := exec_loop (S size) memory
        {| x_state := s; x_stream := stream; x_size := size; x_pc_set := false |} in
      Ok (ok, if ok && negb (x_pc_set x)
              then set_reg (x_state x) R_PC (reg (x_state x) R_LR) else x_state x)
  end.

(** *** Return addresses and the frame loop *)

Definition try_get_half_word (memory : memory_t) (pc : Z) : res (option Z) :=
  let! word := try_get_word memory (Z.ldiff pc 2) in
  Ok ((fun w => if truthy (pc .& 2) then u16 (w .>> 16) else w .& 0xffff) <$> word).

Definition rewind_pc_arch (memory : memory_t) (pc : Z) : res Z :=
  if truthy (pc .& 1) then
    let! prev1 := try_get_half_word memory (u32 (pc - 5)) in
    match prev1 with
    | Some prev1 =>
        if (prev1 .& 0xf000) =? 0xf000 then
          let! prev2 := try_get_half_word memory (u32 (pc - 3)) in
          match prev2 with
          | Some prev2 =>
              Ok (if (prev2 .& 0xe000) =? 0xe000 then u32 (pc - 4) else u32 (pc - 2))
          | None => Ok (u32 (pc - 2))
          end
        else Ok (u32 (pc - 2))
    | None => Ok (u32 (pc - 2))
    end
  else Ok (u32 (pc - 4)).

(** The frames recorded so far: the array, and the two counters. *)
Record frames := { f_backtrace : list Z; f_ignored : Z; f_returned : Z }.

Definition add_backtrace_entry (pc ignore_depth max_depth : Z) (f : frames) : res frames :=
  if f_ignored f <? ignore_depth then
    Ok {| f_backtrace := f_backtrace f; f_ignored := f_ignored f + 1;
          f_returned := f_returned f |}
  else if max_depth <=? f_returned f then Ok f
  else
    let! backtrace := of_opt (list_set (Z.to_nat (f_returned f)) pc (f_backtrace f)) in
    Ok {| f_backtrace := backtrace; f_ignored := f_ignored f; f_returned := f_returned f + 1 |}.

(** One frame after its entry is added: [true] to go on with the next one. *)
Definition unwind_frame (memory : memory_t) (map_info_list : list map_info_t) (first : bool)
    (pc : Z) (f : frames) (s : unwind_state_t) : res (bool * unwind_state_t) :=
  let! handler := get_exception_handler memory map_info_list pc in
  if handler =? 0 then
    if first && truthy (reg s R_LR) && negb (reg s R_LR =? reg s R_PC)
    then Ok (true, set_reg s R_PC (reg s R_LR)) else Ok (false, s)
  else
    let! (pr, stream) := try_next_byte memory {| bs_ptr := handler; bs_word := 0 |} in
    match pr with
    | None => Ok (false, s)
    | Some pr =>
        if negb ((pr .& 0xf0) =? 0x80) then Ok (false, s)
        else
          let! (ok, s) := execute_personality_routine memory s stream (pr .& 0x0f) in
          if negb ok then Ok (false, s)
          else
            let! s := (if f_returned f =? 1
                       then let! (_, s) := try_pop_Stack_ForNotSaveInASM s in Ok s
                       else Ok s) in
            Ok (truthy (reg s R_PC), s)
    end.

(** The [for] loop; [first] is [index == 0]. *)
Fixpoint frame_loop (fuel : nat) (memory : memory_t) (map_info_list : list map_info_t)
    (ignore_depth max_depth : Z) (first : bool) (s : unwind_state_t) (f : frames)
    : res (unwind_state_t * frames) :=
  match fuel with
  | O => NoFuel
  | S fuel' =>
      if f_returned f <? max_depth then
        if reg s R_PC <? 0x10000000 then Ok (s, f)
        else
          let! pc := if first then Ok (reg s R_PC) else rewind_pc_arch memory (reg s R_PC) in
          let! f := add_backtrace_entry pc ignore_depth max_depth f in
          let! (go_on, s) := unwind_frame memory map_info_list first pc f s in
          if go_on then frame_loop fuel' memory map_info_list ignore_depth max_depth false s f
          else Ok (s, f)
      else Ok (s, f)
  end.

(** Every round counts a frame, ignored or returned. *)
Definition frame_fuel (ignore_depth max_depth : Z) : nat :=
  S (Z.to_nat ignore_depth + Z.to_nat max_depth).

Definition unwind_backtrace_common (memory : memory_t) (map_info_list : list map_info_t)
    (s : unwind_state_t) (backtrace : list Z) (ignore_depth max_depth : Z) : res (Z * list Z) :=
  let! (s, f) := frame_loop (frame_fuel ignore_depth max_depth) memory map_info_list
    ignore_depth max_depth true s
    {| f_backtrace := backtrace; f_ignored := 0; f_returned := 0 |} in
  let! f :=
    (if (f_returned f <? max_depth) && truthy (reg s R_LR)
         && negb (reg s R_LR =? reg s R_PC) && is_executable_map map_info_list (reg s R_LR)
     then
       let! pc := rewind_pc_arch memory (reg s R_LR) in
       add_backtrace_entry pc ignore_depth max_depth f
     else Ok f) in
  Ok (f_returned f, f_backtrace f).

(** [unwind_backtrace_signal_arch_selfnogcc] from the registers the [asm]
    statements read, and its caller [libudf_unwind_backtrace]. *)
Definition unwind_backtrace_signal_arch_selfnogcc (map_info_list : list map_info_t)
    (registers backtrace : list Z) (ignore_depth max_depth : Z) : res (Z * list Z) :=
  unwind_backtrace_common (init_memory map_info_list) map_info_list {| gregs := registers |}
    backtrace ignore_depth max_depth.

(** The saved registers of [sigcontext] are [arm_r0 .. arm_pc], in that order. *)
Definition unwind_backtrace_signal_arch (map_info_list : list map_info_t)
    (sigcontext backtrace : list Z) (ignore_depth max_depth : Z) : res (Z * list Z) :=
  unwind_backtrace_common (init_memory map_info_list) map_info_list {| gregs := sigcontext |}
    backtrace ignore_depth max_depth.

(** [regs]: what [PTRACE_GETREGS] gives, [None] on failure. *)
Definition unwind_backtrace_ptrace_arch (t : Z) (map_info_list : list map_info_t)
    (regs : option (list Z)) (backtrace : list Z) (ignore_depth max_depth : Z)
    : res (Z * list Z) :=
  match regs with
  | None => Ok (-1, backtrace)
  | Some uregs =>
      unwind_backtrace_common (init_memory_ptrace t) map_info_list {| gregs := take 16 uregs |}
        backtrace ignore_depth max_depth
  end.

Definition libudf_unwind_backtrace (registers backtrace : list Z) (ignore_depth max_depth : Z)
    : res (Z * list Z) :=
  unwind_backtrace_signal_arch_selfnogcc acquire_my_map_info_list registers backtrace
    ignore_depth max_depth.

(** ** The exception index is searched correctly *)

(** A readable exception-index table of [n] entries at [start]: entry [i] covers
    the addresses from [pcs i] on and its handler word is [hs i]. *)
Record exidx_table (memory : memory_t) (start n : Z) (pcs hs : Z -> Z) : Prop := {
  xt_size : 0 < n < 2 ^ 31;
  xt_pc i : 0 <= i < n -> exists w,
    try_get_word memory (u32 (start + i * 8)) = Ok (Some w) /\
    prel_to_absolute (u32 (start + i * 8)) w = pcs i;
  xt_handler i : 0 <= i < n ->
    try_get_word memory (u32 (u32 (start + i * 8) + 4)) = Ok (Some (hs i));
  xt_sorted i : 0 <= i -> i + 1 < n -> pcs i <= pcs (i + 1)
}.

Lemma xt_mono memory start n pcs hs i j :
  exidx_table memory start n pcs hs -> 0 <= i <= j -> j < n -> pcs i <= pcs j.
Proof.
  intros Ht Hi. replace j with (i + Z.of_nat (Z.to_nat (j - i))) by lia.
  induction (Z.to_nat (j - i)) as [|d IH]; intros Hj; [by rewrite Z.add_0_r|].
  transitivity (pcs (i + Z.of_nat d)); [apply IH; lia|].
  pose proof (xt_sorted _ _ _ _ _ Ht (i + Z.of_nat d) ltac:(lia) ltac:(lia)) as H.
  by replace (i + Z.of_nat d + 1) with (i + Z.of_nat (S d)) in H by lia.
Qed.

(** Entry [k] is the one that covers [pc]. *)
Definition covers (n : Z) (pcs : Z -> Z) (pc k : Z) : Prop :=
  0 <= k < n /\ pcs k <= pc /\ (k + 1 < n -> pc < pcs (k + 1)).

(** One round on an entry. *)
Lemma exidx_round fuel memory start n pcs hs pc low high :
  exidx_table memory start n pcs hs -> 0 <= low < high -> high <= n ->
  let index := (low + high) / 2 in
  exidx_search (S fuel) memory start n pc low high =
    if pc <? pcs index then exidx_search fuel memory start n pc low index
    else if (index + 1 <? n) && (pcs (index + 1) <=? pc)
    then exidx_search fuel memory start n pc (index + 1) high
    else Ok (exidx_handler (u32 (u32 (start + index * 8) + 4)) (hs index)).
Proof.
  intros Ht Hlow Hhigh index. pose proof (xt_size _ _ _ _ _ Ht) as Hn.
  assert (Hidx : low <= index < high).
  { unfold index. split; [apply Z.div_le_lower_bound; lia|apply Z.div_lt_upper_bound; lia]. }
  cbn [exidx_search]. destruct (Z.ltb_spec low high); [|lia].
  rewrite (uwrap_small 32 (low + high)) by lia. fold index.
  destruct (xt_pc _ _ _ _ _ Ht index ltac:(lia)) as (w & -> & Hw). simpl. rewrite Hw.
  destruct (pc <? pcs index); [done|]. rewrite (uwrap_small 32 (index + 1)) by lia.
  rewrite (xt_handler _ _ _ _ _ Ht index) by lia.
  destruct (Z.ltb_spec (index + 1) n); [|done]. simpl.
  autorewrite with cword.
  replace (start + index * 8 + 8) with (start + (index + 1) * 8) by lia.
  destruct (xt_pc _ _ _ _ _ Ht (index + 1) ltac:(lia)) as (w' & -> & Hw'). simpl. rewrite Hw'.
  by destruct (pcs (index + 1) <=? pc).
Qed.

Lemma half_bound low high k :
  0 <= low < high -> high - low < 2 ^ (k + 1) -> 0 <= k ->
  let index := (low + high) / 2 in index - low < 2 ^ k /\ high - (index + 1) < 2 ^ k.
Proof.
  intros Hl Hb Hk index. rewrite Z.pow_add_r in Hb by lia. change (2 ^ 1) with 2 in Hb.
  pose proof (Z.div_mod (low + high) 2 ltac:(lia)).
  pose proof (Z.mod_pos_bound (low + high) 2 ltac:(lia)). unfold index. lia.
Qed.

Lemma exidx_search_covers fuel memory start n pcs hs pc k low high :
  exidx_table memory start n pcs hs -> covers n pcs pc k ->
  0 <= low <= k -> k < high <= n -> high - low < 2 ^ Z.of_nat fuel ->
  exidx_search (S fuel) memory start n pc low high =
    Ok (exidx_handler (u32 (u32 (start + k * 8) + 4)) (hs k)).
Proof.
  intros Ht (Hk & Hle & Hlt). revert low high.
  induction fuel as [|fuel IH]; intros low high Hlow Hhigh Hf; [simpl in Hf; lia|].
  rewrite (exidx_round (S fuel) _ _ _ _ _ _ _ _ Ht) by lia.
  replace (Z.of_nat (S fuel)) with (Z.of_nat fuel + 1) in Hf by lia.
  destruct (half_bound low high (Z.of_nat fuel) ltac:(lia) Hf ltac:(lia)) as [Hb1 Hb2].
  set (index := (low + high) / 2) in *.
  assert (Hidx : low <= index < high).
  { unfold index. split; [apply Z.div_le_lower_bound; lia|apply Z.div_lt_upper_bound; lia]. }
  destruct (Z.ltb_spec pc (pcs index)).
  { apply IH; [lia| |lia]. split; [|lia]. destruct (decide (index <= k)); [|lia].
    pose proof (xt_mono _ _ _ _ _ index k Ht). lia. }
  destruct (Z.ltb_spec (index + 1) n); simpl.
  - destruct (Z.leb_spec (pcs (index + 1)) pc).
    + apply IH; [|lia|lia]. split; [lia|]. destruct (decide (k < index + 1)); [|lia].
      pose proof (xt_mono _ _ _ _ _ (k + 1) (index + 1) Ht ltac:(lia) ltac:(lia)). lia.
    + replace index with k; [done|].
      destruct (decide (index < k)).
      { pose proof (xt_mono _ _ _ _ _ (index + 1) k Ht ltac:(lia) ltac:(lia)). lia. }
      destruct (decide (k < index)); [|lia].
      pose proof (xt_mono _ _ _ _ _ (k + 1) index Ht ltac:(lia) ltac:(lia)). lia.
  - replace index with k; [done|].
    destruct (decide (k < index)); [|lia].
    pose proof (xt_mono _ _ _ _ _ (k + 1) index Ht ltac:(lia) ltac:(lia)). lia.
Qed.

Lemma exidx_search_below fuel memory start n pcs hs pc low high :
  exidx_table memory start n pcs hs -> pc < pcs 0 ->
  0 <= low <= high -> high <= n -> high - low < 2 ^ Z.of_nat fuel ->
  exidx_search (S fuel) memory start n pc low high = Ok 0.
Proof.
  intros Ht Hpc. revert low high. induction fuel as [|fuel IH]; intros low high Hlow Hhigh Hf.
  { cbn [exidx_search]. destruct (Z.ltb_spec low high); [simpl in Hf; lia|done]. }
  destruct (decide (low = high)) as [->|].
  { cbn [exidx_search]. destruct (Z.ltb_spec high high); [lia|done]. }
  rewrite (exidx_round (S fuel) _ _ _ _ _ _ _ _ Ht) by lia.
  replace (Z.of_nat (S fuel)) with (Z.of_nat fuel + 1) in Hf by lia.
  destruct (half_bound low high (Z.of_nat fuel) ltac:(lia) Hf ltac:(lia)) as [Hb1 Hb2].
  set (index := (low + high) / 2) in *.
  assert (Hidx : low <= index < high).
  { unfold index. split; [apply Z.div_le_lower_bound; lia|apply Z.div_lt_upper_bound; lia]. }
  pose proof (xt_mono _ _ _ _ _ 0 index Ht).
  destruct (Z.ltb_spec pc (pcs index)); [apply IH; lia|lia].
Qed.

Lemma covers_exists memory start n pcs hs pc :
  exidx_table memory start n pcs hs -> pcs 0 <= pc -> exists k, covers n pcs pc k.
Proof.
  intros Ht H0. pose proof (xt_size _ _ _ _ _ Ht) as Hn.
  assert (H : forall d : nat, Z.of_nat d < n -> (exists k, covers n pcs pc k) \/ pcs (Z.of_nat d) <= pc).
  { induction d as [|d IH]; intros Hd; [by right|].
    destruct IH as [|Hle]; [lia|by left|].
    destruct (decide (pcs (Z.of_nat (S d)) <= pc)); [by right|left].
    exists (Z.of_nat d). split; [lia|]. split; [done|]. intros _.
    replace (Z.of_nat d + 1) with (Z.of_nat (S d)) by lia. lia. }
  destruct (H (Z.to_nat (n - 1)) ltac:(lia)) as [|Hle]; [done|].
  exists (n - 1). rewrite Z2Nat.id in Hle by lia. split; [lia|]. split; [done|lia].
Qed.

(** The search of the exception index terminates and is exact: in a readable
    table sorted by address it answers with the handler of the entry that covers
    [pc] (0 when that entry cannot be unwound), and with 0 below the table. *)
Theorem get_exception_handler_exact maps pc start n pcs hs :
  exidx_table (init_memory maps) start n pcs hs ->
  gnu_Unwind_Find_exidx pc = (start, n) -> start <> 0 -> 0 < pc ->
  (pcs 0 <= pc -> exists k, covers n pcs pc k /\
     get_exception_handler (init_memory maps) maps pc =
       Ok (exidx_handler (u32 (u32 (start + k * 8) + 4)) (hs k))) /\
  (pc < pcs 0 -> get_exception_handler (init_memory maps) maps pc = Ok 0).
Proof.
  intros Ht Hfind Hstart Hpc. pose proof (xt_size _ _ _ _ _ Ht) as Hn.
  unfold get_exception_handler. destruct (Z.eqb_spec pc 0); [lia|].
  unfold find_exidx. rewrite Hfind. cbn [init_memory tid Z.ltb Z.compare].
  rewrite uwrap_small by lia. unfold truthy. destruct (Z.eqb_spec start 0); [done|].
  simpl negb. cbv iota. unfold exidx_fuel. split.
  - intros H0. destruct (covers_exists _ _ _ _ _ _ Ht H0) as [k Hk]. exists k. split; [done|].
    apply (exidx_search_covers 32 _ _ _ pcs); [done|done|destruct Hk; lia..].
  - intros Hlt. apply (exidx_search_below 32 _ _ _ pcs hs); done || lia.
Qed.

(** ** The unwinder terminates within its bounds *)

(** Every read of [memory], and of the stack, succeeds or is refused; then the
    unwinder cannot fault. *)
Definition readable (memory : memory_t) : Prop :=
  (forall ptr, exists o, try_get_word memory ptr = Ok o) /\
  (forall ptr, exists o, try_get_word_stack ptr = Ok o).

Lemma wp_word memory ptr Q :
  (forall o, Q o) -> wp (readable memory) (try_get_word memory ptr) Q.
Proof.
  intros HQ. destruct (try_get_word memory ptr) eqn:He; simpl; [done| |].
  - intros [Hr _]. destruct (Hr ptr). congruence.
  - revert He. unfold try_get_word, d15_get_word. case_match; [done|].
    case_match; [|by destruct (peek _ _)]. by destruct (load m 4 ptr).
Qed.

Lemma wp_stack memory ptr Q :
  (forall o, Q o) -> wp (readable memory) (try_get_word_stack ptr) Q.
Proof.
  intros HQ. destruct (try_get_word_stack ptr) eqn:He; simpl; [done| |].
  - intros [_ Hr]. destruct (Hr ptr). congruence.
  - revert He. unfold try_get_word_stack. destruct ubrd_stack.
    case_match; [|done]. by destruct (load m 4 ptr).
Qed.

Lemma wp_byte memory stream Q :
  (forall o st, Q (o, st)) -> wp (readable memory) (try_next_byte memory stream) Q.
Proof.
  intros HQ. unfold try_next_byte. repeat case_match; try apply HQ.
  apply wp_bind, wp_word. intros [w|]; apply HQ.
Qed.

Lemma wp_pop_loop memory n i mask sp upd s Q :
  (forall ok sp upd s, Q (ok, sp, upd, s)) ->
  wp (readable memory) (pop_loop n i mask sp upd s) Q.
Proof.
  intros HQ. revert i sp upd s. induction n as [|n IH]; intros i sp upd s; simpl; [done|].
  case_match; [|apply IH]. apply wp_bind, wp_stack. intros [v|]; [apply IH|apply HQ].
Qed.

Lemma wp_pop memory s mask Q :
  (forall ok s, Q (ok, s)) -> wp (readable memory) (try_pop_registers s mask) Q.
Proof. intros HQ. unfold try_pop_registers. apply wp_bind, wp_pop_loop. intros. apply HQ. Qed.

Lemma wp_find_pc memory n pc sp Q :
  (forall ok o, Q (ok, o)) -> wp (readable memory) (find_pc_loop n pc sp) Q.
Proof.
  intros HQ. revert sp. induction n as [|n IH]; intros sp; simpl; [done|].
  apply wp_bind, wp_stack. intros [v|]; [|apply HQ]. case_match; [apply HQ|apply IH].
Qed.

Lemma wp_pop_asm memory s Q :
  (forall ok s, Q (ok, s)) -> wp (readable memory) (try_pop_Stack_ForNotSaveInASM s) Q.
Proof.
  intros HQ. unfold try_pop_Stack_ForNotSaveInASM. apply wp_bind, wp_stack.
  intros [v|]; [|apply HQ]. case_match; [apply HQ|]. apply wp_bind, wp_find_pc.
  intros. apply HQ.
Qed.

Lemma wp_operand memory x Q :
  (forall o x', (match o with Some _ => x_size x' < x_size x | None => x_size x' <= x_size x end)%nat ->
     Q (o, x')) ->
  wp (readable memory) (next_operand memory x) Q.
Proof.
  intros HQ. unfold next_operand. destruct (x_size x) eqn:Hx; [apply HQ; lia|].
  apply wp_bind, wp_byte. intros [b|] st; apply HQ; simpl; lia.
Qed.

Lemma wp_uleb memory fuel value shift x Q :
  (x_size x < fuel)%nat -> (forall o x', (x_size x' <= x_size x)%nat -> Q (o, x')) ->
  wp (readable memory) (uleb_loop fuel memory value shift x) Q.
Proof.
  revert value shift x. induction fuel as [|fuel IH]; intros value shift x Hf HQ; [lia|].
  cbn [uleb_loop]. apply wp_bind, wp_operand. intros [b|] x' Hx; [|by apply HQ].
  case_match; [|apply HQ; lia]. apply IH; [lia|]. intros. apply HQ. lia.
Qed.

Lemma wp_exec_op memory op x Q :
  (forall v x', (x_size x' <= x_size x)%nat -> Q (v, x')) ->
  wp (readable memory) (exec_op memory op x) Q.
Proof.
  intros HQ. unfold exec_op. unfold pop.
  repeat first
    [ apply HQ; simpl; lia
    | match goal with
      | |- wp _ (if ?b then _ else _) _ => destruct b
      | |- wp _ (rbind _ _) _ => apply wp_bind
      | |- wp _ (next_operand _ _) _ => apply wp_operand; intros [?|] ? ?
      | |- wp _ (try_pop_registers _ _) _ => apply wp_pop; intros [] ?
      | |- wp _ (uleb_loop _ _ _ _ _) _ => apply wp_uleb; [lia|intros [?|] ? ?]
      end
    | progress simpl ].
Qed.

Lemma wp_exec_loop memory fuel x Q :
  (x_size x < fuel)%nat -> (forall ok x', Q (ok, x')) ->
  wp (readable memory) (exec_loop fuel memory x) Q.
Proof.
  revert x. induction fuel as [|fuel IH]; intros x Hf HQ; [lia|].
  cbn [exec_loop]. destruct (x_size x) eqn:Hx; [apply HQ|].
  apply wp_bind, wp_operand. intros [op|] x1 Hx1; [|apply HQ].
  apply wp_bind, wp_exec_op. intros v x2 Hx2.
  destruct v; [apply HQ|apply HQ|]. apply IH; [lia|done].
Qed.

Lemma wp_routine memory s stream pr Q :
  (forall ok s, Q (ok, s)) ->
  wp (readable memory) (execute_personality_routine memory s stream pr) Q.
Proof.
  intros HQ. unfold execute_personality_routine, routine_size. apply wp_bind.
  assert (Hk : forall size stream', wp (readable memory)
    match size with
    | Some size =>
        let! (ok, x) := exec_loop (S size) memory
          {| x_state := s; x_stream := stream'; x_size := size; x_pc_set := false |} in
        Ok (ok, if ok && negb (x_pc_set x)
                then set_reg (x_state x) R_PC (reg (x_state x) R_LR) else x_state x)
    | None => Ok (false, s)
    end Q).
  { intros [size|] stream'; [|apply HQ]. apply wp_bind, wp_exec_loop; [simpl; lia|].
    intros. apply HQ. }
  case_match; [apply (Hk (Some 3%nat))|]. case_match; [|apply (Hk None stream)].
  apply wp_bind, wp_byte. intros [b|] st; simpl; [apply (Hk (Some _))|apply (Hk None stream)].
Qed.

Lemma wp_half memory pc Q :
  (forall o, Q o) -> wp (readable memory) (try_get_half_word memory pc) Q.
Proof. intros HQ. unfold try_get_half_word. apply wp_bind, wp_word. intros. apply HQ. Qed.

Lemma wp_rewind memory pc Q :
  (forall v, Q v) -> wp (readable memory) (rewind_pc_arch memory pc) Q.
Proof.
  intros HQ. unfold rewind_pc_arch. case_match; [|apply HQ].
  apply wp_bind, wp_half. intros [p1|]; [|apply HQ]. case_match; [|apply HQ].
  apply wp_bind, wp_half. intros [p2|]; apply HQ.
Qed.

Lemma wp_exidx memory fuel start size pc low high Q :
  0 <= low -> high <= size -> size < 2 ^ 31 -> high - low < 2 ^ Z.of_nat fuel ->
  (forall v, Q v) ->
  wp (readable memory) (exidx_search (S fuel) memory start size pc low high) Q.
Proof.
  intros Hlow Hhigh Hsize Hf HQ. revert low high Hlow Hhigh Hf.
  induction fuel as [|fuel IH]; intros low high Hlow Hhigh Hf; cbn [exidx_search];
    (destruct (Z.ltb_spec low high) as [Hlt|]; [|apply HQ]); [simpl in Hf; lia|].
  rewrite (uwrap_small 32 (low + high)) by lia.
  replace (Z.of_nat (S fuel)) with (Z.of_nat fuel + 1) in Hf by lia.
  destruct (half_bound low high (Z.of_nat fuel) ltac:(lia) Hf ltac:(lia)) as [Hb1 Hb2].
  set (index := (low + high) / 2) in *.
  assert (Hidx : low <= index < high).
  { unfold index. split; [apply Z.div_le_lower_bound; lia|apply Z.div_lt_upper_bound; lia]. }
  rewrite (uwrap_small 32 (index + 1)) by lia.
  apply wp_bind, wp_word. intros [w|]; [|apply HQ].
  case_match; [apply IH; lia|]. case_match.
  - apply wp_bind, wp_word. intros [w'|]; [|apply HQ].
    case_match; [apply IH; lia|]. apply wp_bind, wp_word. intros. apply HQ.
  - apply wp_bind, wp_word. intros. apply HQ.
Qed.

(** The tables [dl_unwind_find_exidx] and the map list give have an [int]
    number of entries. *)
Definition tables_ok (maps : list map_info_t) : Prop :=
  (forall pc, 0 <= (gnu_Unwind_Find_exidx pc).2 < 2 ^ 31) /\
  (forall mi start size, mi ∈ maps -> mi_data mi = Some (start, size) -> size < 2 ^ 31).

Lemma find_map_info_elem maps a mi : find_map_info maps a = Some mi -> mi ∈ maps.
Proof.
  induction maps as [|mi' maps IH]; simpl; [done|]. case_match; [|set_solver].
  intros [= ->]. set_solver.
Qed.

Lemma wp_handler memory maps pc Q :
  tables_ok maps -> (forall v, Q v) -> wp (readable memory) (get_exception_handler memory maps pc) Q.
Proof.
  intros [Hfind Hmaps] HQ. unfold get_exception_handler. case_match; [apply HQ|].
  match goal with |- wp _ (let '(_, _) := ?t in _) _ => assert (Ht : t.2 < 2 ^ 31) end.
  { unfold find_exidx. case_match.
    - destruct (gnu_Unwind_Find_exidx pc) as [st n] eqn:Hg. specialize (Hfind pc).
      rewrite Hg in Hfind. simpl in *. rewrite uwrap_small; lia.
    - destruct (find_map_info maps pc) as [mi|] eqn:Hm; [|simpl; lia].
      destruct (mi_data mi) as [[st n]|] eqn:Hd; [|simpl; lia].
      simpl. apply (Hmaps mi st n); [by eapply find_map_info_elem|done]. }
  destruct (if tid memory <? 0 then _ else _) as [start size]. simpl in Ht.
  case_match; [|apply HQ]. apply wp_exidx; [lia|lia|done|lia|done].
Qed.

Lemma wp_frame memory maps first pc f s Q :
  tables_ok maps -> (forall go s, Q (go, s)) ->
  wp (readable memory) (unwind_frame memory maps first pc f s) Q.
Proof.
  intros Ht HQ. unfold unwind_frame. apply wp_bind, wp_handler; [done|]. intros h.
  case_match; [case_match; apply HQ|]. apply wp_bind, wp_byte. intros [pr|] st; [|apply HQ].
  case_match; [apply HQ|]. apply wp_bind, wp_routine. intros ok s'.
  destruct ok; [|apply HQ]. simpl. apply wp_bind. case_match; [|apply HQ].
  apply wp_bind, wp_pop_asm. intros. apply HQ.
Qed.

(** What the frame loop keeps of its array. *)
Definition frames_inv (array : list Z) (ignore_depth max_depth : Z) (f : frames) : Prop :=
  0 <= f_ignored f <= ignore_depth /\ 0 <= f_returned f <= max_depth /\
  length (f_backtrace f) = length array /\
  drop (Z.to_nat (f_returned f)) (f_backtrace f) = drop (Z.to_nat (f_returned f)) array.

Lemma add_entry_inv array ignore_depth max_depth pc f :
  frames_inv array ignore_depth max_depth f -> f_returned f < max_depth ->
  max_depth <= Z.of_nat (length array) ->
  exists f', add_backtrace_entry pc ignore_depth max_depth f = Ok f' /\
    frames_inv array ignore_depth max_depth f' /\
    f_ignored f' + f_returned f' = f_ignored f + f_returned f + 1.
Proof.
  intros (Hi & Hr & Hl & Hd) Hlt Hmax. unfold add_backtrace_entry.
  destruct (Z.ltb_spec (f_ignored f) ignore_depth).
  { eexists. split; [done|]. unfold frames_inv. simpl. split; [|lia]. split; [lia|done]. }
  destruct (Z.leb_spec max_depth (f_returned f)); [lia|].
  unfold list_set. rewrite decide_True by lia. simpl. eexists. split; [done|].
  unfold frames_inv. simpl. split; [|lia].
  split; [done|]. split; [lia|]. split; [by rewrite length_insert|].
  replace (Z.to_nat (f_returned f + 1)) with (S (Z.to_nat (f_returned f))) by lia.
  rewrite drop_insert_lt by lia.
  rewrite <- (Nat.add_1_r (Z.to_nat (f_returned f))), <- !drop_drop. by rewrite Hd.
Qed.

Lemma wp_frame_loop memory maps array ignore_depth max_depth fuel first s f Q :
  tables_ok maps -> max_depth <= Z.of_nat (length array) ->
  frames_inv array ignore_depth max_depth f ->
  ignore_depth + max_depth - (f_ignored f + f_returned f) < Z.of_nat fuel ->
  (forall s f, frames_inv array ignore_depth max_depth f -> Q (s, f)) ->
  wp (readable memory) (frame_loop fuel memory maps ignore_depth max_depth first s f) Q.
Proof.
  intros Ht Hmax Hinv Hf HQ. revert first s f Hinv Hf.
  induction fuel as [|fuel IH]; intros first s f Hinv Hf.
  { destruct Hinv as (? & ? & _). lia. }
  cbn [frame_loop]. destruct (Z.ltb_spec (f_returned f) max_depth); [|by apply HQ].
  case_match; [by apply HQ|]. apply wp_bind.
  assert (Hrest : forall pc, wp (readable memory)
    (let! f := add_backtrace_entry pc ignore_depth max_depth f in
     let! (go_on, s) := unwind_frame memory maps first pc f s in
     if go_on then frame_loop fuel memory maps ignore_depth max_depth false s f
     else Ok (s, f)) Q).
  { intros pc. destruct (add_entry_inv _ _ _ pc f Hinv) as (f' & -> & Hinv' & Hc); [done..|].
    simpl. apply wp_bind, wp_frame; [done|]. intros [] s'; [apply IH; [done|lia]|by apply HQ]. }
  destruct first; [apply Hrest|]. apply wp_rewind. apply Hrest.
Qed.


(** ** The interpreter implements the EHABI's instructions *)

(** The virtual machine of the EHABI, section 9.3; offsets are in bytes, [W] is
    the stack.  [FstmX] to [Vfp8] pop coprocessor registers, which only moves
    the stack pointer here. *)
Inductive ehabi :=
| VspAdd (n : Z)               (* 00nnnnnn *)
| VspSub (n : Z)               (* 01nnnnnn *)
| PopHigh (mask : Z)           (* 1000iiii iiiiiiii, the mask of {r15-r4} *)
| VspFrom (r : Z)              (* 1001rrrr *)
| PopR4 (n : Z) (lr : bool)    (* 1010lnnn *)
| End_of_unwind                (* 10110000 *)
| PopLow (mask : Z)            (* 10110001 0000iiii, the mask of {r3-r0} *)
| VspAddBig (v : Z)            (* 10110010 uleb128 *)
| FstmX (start count : Z)      (* 10110011 sssscccc *)
| FstmX8 (n : Z)               (* 10111nnn *)
| Wmmx10 (n : Z)               (* 11000nnn, n <= 5 *)
| Wmmx (start count : Z)       (* 11000110 sssscccc *)
| Wcgr (mask : Z)              (* 11000111 0000iiii *)
| Vfp16 (start count : Z)      (* 11001000 sssscccc *)
| Vfp (start count : Z)        (* 11001001 sssscccc *)
| Vfp8 (n : Z).                (* 11010nnn *)

(** Well-formed instructions, less the two the code does not decode
    ([wmmx_operand_ignored]). *)
Definition ehabi_ok (o : ehabi) : Prop :=
  match o with
  | VspAdd n | VspSub n => 0 <= n < 64
  | PopHigh mask => 0 < mask < 4096
  | VspFrom r => 0 <= r < 16 /\ r <> 13 /\ r <> 15
  | PopR4 n _ | FstmX8 n | Vfp8 n => 0 <= n < 8
  | End_of_unwind => True
  | PopLow mask => 0 < mask < 16
  | VspAddBig v => is_word 32 v
  | Wmmx10 n => 0 <= n < 6
  | Wmmx _ _ | Wcgr _ => False
  | FstmX s c | Vfp16 s c | Vfp s c => 0 <= s < 16 /\ 0 <= c < 16
  end.

#[local] Instance ehabi_ok_dec o : Decision (ehabi_ok o).
Proof. destruct o; simpl; apply _. Defined.

Fixpoint uleb128 (fuel : nat) (v : Z) : list Z :=
  match fuel with
  | O => []
  | S fuel' => if v <? 128 then [v] else (v mod 128 + 128) :: uleb128 fuel' (v / 128)
  end.

Definition encode (o : ehabi) : list Z :=
  match o with
  | VspAdd n => [n]
  | VspSub n => [0x40 + n]
  | PopHigh mask => [0x80 + mask / 256; mask mod 256]
  | VspFrom r => [0x90 + r]
  | PopR4 n lr => [0xa0 + (if lr then 8 else 0) + n]
  | End_of_unwind => [0xb0]
  | PopLow mask => [0xb1; mask]
  | VspAddBig v => 0xb2 :: uleb128 5 v
  | FstmX s c => [0xb3; 16 * s + c]
  | FstmX8 n => [0xb8 + n]
  | Wmmx10 n => [0xc0 + n]
  | Wmmx s c => [0xc6; 16 * s + c]
  | Wcgr mask => [0xc7; mask]
  | Vfp16 s c => [0xc8; 16 * s + c]
  | Vfp s c => [0xc9; 16 * s + c]
  | Vfp8 n => [0xd0 + n]
  end.

(** The number of registers of [mask] below [r]. *)
Definition rank (mask : Z) (r : nat) : Z :=
  Z.of_nat (length (filter (fun i => Z.testbit mask (Z.of_nat i)) (seq 0 r))).

(** Pop the registers of [mask] from ascending addresses: the stack pointer moves
    past them unless it is popped itself. *)
Definition pop_state (W : Z -> option Z) (mask : Z) (s : unwind_state_t)
    : option unwind_state_t :=
  let slot r := W (u32 (reg s R_SP + 4 * rank mask r)) in
  if forallb (fun r => implb (Z.testbit mask (Z.of_nat r)) (bool_decide (is_Some (slot r))))
       (seq 0 16)
  then Some {| gregs := (fun r =>
         if Z.testbit mask (Z.of_nat r) then default 0 (slot r)
         else if (r =? R_SP)%nat then u32 (reg s R_SP + 4 * rank mask 16) else reg s r)
         <$> seq 0 16 |}
  else None.

Definition vsp_add (d : Z) (s : unwind_state_t) : unwind_state_t :=
  set_reg s R_SP (u32 (reg s R_SP + d)).

(** The effect of an instruction, with whether it sets the program counter. *)
Definition sem (W : Z -> option Z) (o : ehabi) (s : unwind_state_t)
    : option (unwind_state_t * bool) :=
  match o with
  | VspAdd n => Some (vsp_add (4 * n + 4) s, false)
  | VspSub n => Some (vsp_add (- (4 * n + 4)) s, false)
  | PopHigh mask => (fun s' => (s', Z.testbit mask 11)) <$> pop_state W (16 * mask) s
  | VspFrom r => Some (set_reg s R_SP (reg s (Z.to_nat r)), false)
  | PopR4 n lr =>
      (fun s' => (s', false)) <$>
        pop_state W (16 * (2 ^ (n + 1) - 1) + if lr then 2 ^ 14 else 0) s
  | End_of_unwind => Some (s, false)
  | PopLow mask => (fun s' => (s', false)) <$> pop_state W mask s
  | VspAddBig v => Some (vsp_add (0x204 + 4 * v) s, false)
  | FstmX _ n | FstmX8 n => Some (vsp_add (8 * (n + 1) + 4) s, false)
  | Wmmx10 n | Wmmx _ n | Vfp16 _ n | Vfp _ n | Vfp8 n => Some (vsp_add (8 * (n + 1)) s, false)
  | Wcgr mask => Some (vsp_add (4 * rank mask 4) s, false)
  end.

(** The one deviation from the EHABI the code makes on purpose: the system calls of bionic
    describe their frame by r7 while the stack pointer is in r12, so [VspFrom 7] is
    [VspFrom 12] when r7 is too small to be a stack pointer. *)
Definition bionic (s : unwind_state_t) (o : ehabi) : ehabi :=
  match o with VspFrom r => VspFrom (if (r =? 7) && (reg s 7 <? 0x10000) then 12 else r) | _ => o end.

Fixpoint run_ehabi (W : Z -> option Z) (ol : list ehabi) (s : unwind_state_t)
    : option (unwind_state_t * bool) :=
  match ol with
  | [] => Some (s, false)
  | End_of_unwind :: _ => Some (s, false)
  | o :: ol' =>
      match sem W (bionic s o) s with
      | Some (s1, b1) =>
          match run_ehabi W ol' s1 with Some (s2, b2) => Some (s2, b1 || b2) | None => None end
      | None => None
      end
  end.

(** The stream yields these bytes. *)
Fixpoint delivers (memory : memory_t) (stream : byte_stream_t) (bs : list Z) : Prop :=
  match bs with
  | [] => True
  | b :: bs' => exists stream',
      try_next_byte memory stream = Ok (Some b, stream') /\ delivers memory stream' bs'
  end.

Lemma operand_delivers memory x b bs n :
  delivers memory (x_stream x) (b :: bs) -> x_size x = S n ->
  exists stream, next_operand memory x =
    Ok (Some b, {| x_state := x_state x; x_stream := stream; x_size := n; x_pc_set := x_pc_set x |})
    /\ delivers memory stream bs.
Proof.
  intros (st & Hb & Hd) Hn. unfold next_operand. rewrite Hn, Hb. simpl. by eexists.
Qed.

(** *** Popping registers *)

Lemma rank_S mask r : rank mask (S r) = rank mask r + b2z (Z.testbit mask (Z.of_nat r)).
Proof.
  unfold rank. rewrite seq_S, filter_app, length_app. simpl. rewrite filter_cons.
  destruct (Z.testbit mask (Z.of_nat r)); simpl; lia.
Qed.

Lemma reg_set s r v r' :
  (r < length (gregs s))%nat -> reg (set_reg s r v) r' = if (r' =? r)%nat then v else reg s r'.
Proof.
  intros Hr. unfold reg, set_reg. simpl. rewrite !nth_lookup.
  destruct (Nat.eqb_spec r' r) as [->|]; [by rewrite list_lookup_insert_eq|].
  by rewrite list_lookup_insert_ne.
Qed.

Lemma set_reg_length s r v : length (gregs (set_reg s r v)) = length (gregs s).
Proof. apply length_insert. Qed.

(** [W] answers as [try_get_word_stack] does. *)
Definition stack_is (W : Z -> option Z) : Prop :=
  forall a v, W a = Some v -> try_get_word_stack a = Ok (Some v) /\ is_word 32 v.

Definition state_ok (s : unwind_state_t) : Prop :=
  length (gregs s) = 16%nat /\ forall r, (r < 16)%nat -> is_word 32 (reg s r).

Section Pop.
Context (W : Z -> option Z) (HW : stack_is W) (mask : Z) (s0 : unwind_state_t).

Let slot (r : nat) : Z := u32 (reg s0 R_SP + 4 * rank mask r).

Lemma pop_loop_ok n i s :
  (i + n = 16)%nat -> length (gregs s) = 16%nat ->
  (forall r, (r < 16)%nat -> Z.testbit mask (Z.of_nat r) = true -> is_Some (W (slot r))) ->
  (forall r, (r < 16)%nat -> reg s r =
     if (r <? i)%nat && Z.testbit mask (Z.of_nat r) then default 0 (W (slot r)) else reg s0 r) ->
  exists s', pop_loop n i mask (slot i) ((R_SP <? i)%nat && Z.testbit mask 13) s =
      Ok (true, slot 16, Z.testbit mask 13, s') /\ length (gregs s') = 16%nat /\
    forall r, (r < 16)%nat -> reg s' r =
      if Z.testbit mask (Z.of_nat r) then default 0 (W (slot r)) else reg s0 r.
Proof.
  intros Hn Hlen Hslots Hregs. revert i s Hn Hlen Hregs.
  induction n as [|n IH]; intros i s Hn Hlen Hregs; cbn [pop_loop].
  { replace i with 16%nat by lia. eexists. split; [done|]. split; [done|].
    intros r Hr. rewrite Hregs by done. by destruct (Nat.ltb_spec r i); [|lia]. }
  assert (Hslot : slot (S i) = if Z.testbit mask (Z.of_nat i) then u32 (slot i + 4) else slot i).
  { unfold slot. rewrite rank_S. destruct (Z.testbit mask (Z.of_nat i)); simpl b2z.
    - rewrite uwrap_add_l. f_equal. lia.
    - f_equal. lia. }
  assert (Hupd : ((R_SP <? S i)%nat && Z.testbit mask 13) =
    ((R_SP <? i)%nat && Z.testbit mask 13) || (i =? R_SP)%nat && Z.testbit mask (Z.of_nat i)).
  { unfold R_SP. destruct (Nat.ltb_spec 13 (S i)), (Nat.ltb_spec 13 i), (Nat.eqb_spec i 13);
      try lia; subst; simpl; by rewrite ?orb_false_r. }
  destruct (Z.testbit mask (Z.of_nat i)) eqn:Hbit.
  - destruct (Hslots i ltac:(lia) Hbit) as [v Hv]. destruct (HW _ _ Hv) as [-> _]. cbn [rbind].
    rewrite <- Hslot. rewrite andb_true_r in Hupd. rewrite <- Hupd.
    apply IH; [lia|by rewrite set_reg_length|]. intros r Hr.
    rewrite reg_set, Hregs by lia. destruct (Nat.eqb_spec r i) as [->|].
    + destruct (Nat.ltb_spec i (S i)); [|lia]. by rewrite Hbit, Hv.
    + destruct (Nat.ltb_spec r i), (Nat.ltb_spec r (S i)); done || lia.
  - rewrite andb_false_r, orb_false_r in Hupd. rewrite <- Hslot, <- Hupd.
    apply IH; [lia|done|]. intros r Hr. rewrite Hregs by done.
    destruct (Nat.ltb_spec r i), (Nat.ltb_spec r (S i)); try done || lia.
    replace r with i by lia. by rewrite Hbit.
Qed.
End Pop.

Lemma state_eq s (g : nat -> Z) :
  length (gregs s) = 16%nat -> (forall r, (r < 16)%nat -> reg s r = g r) ->
  s = {| gregs := g <$> seq 0 16 |}.
Proof.
  intros Hl Hr. destruct s as [l]. f_equal. simpl in Hl.
  apply list_eq_same_length with 16%nat; [by rewrite ?length_fmap, ?length_seq..|].
  intros i x y Hi Hx Hy. specialize (Hr i Hi). unfold reg in Hr. simpl in Hr.
  rewrite nth_lookup, Hx in Hr. simpl in Hr.
  rewrite list_lookup_fmap, lookup_seq_lt in Hy by done. simpl in Hy. by simplify_eq.
Qed.

Lemma reg_map (g : nat -> Z) r :
  (r < 16)%nat -> reg {| gregs := g <$> seq 0 16 |} r = g r.
Proof.
  intros Hr. unfold reg. cbn [gregs].
  by rewrite nth_lookup, list_lookup_fmap, lookup_seq_lt.
Qed.

Lemma try_pop_registers_ok W mask s s' :
  stack_is W -> state_ok s -> pop_state W mask s = Some s' ->
  try_pop_registers s mask = Ok (true, s') /\ state_ok s'.
Proof.
  intros HW [Hlen Hok]. unfold pop_state. case_match eqn:Hall; [|done].
  intros H. apply (inj Some) in H as <-. rewrite forallb_forall in Hall.
  assert (Hslots : forall r, (r < 16)%nat -> Z.testbit mask (Z.of_nat r) = true ->
    is_Some (W (u32 (reg s R_SP + 4 * rank mask r)))).
  { intros r Hr Hb. specialize (Hall r). rewrite Hb in Hall. cbn [implb] in Hall.
    eapply bool_decide_eq_true_1, Hall, in_seq. lia. }
  split.
  - unfold try_pop_registers.
    destruct (pop_loop_ok W HW mask s 16 0 s) as (s1 & Hpop & Hl1 & Hr1);
      [done|done|exact Hslots|by intros|].
    replace (u32 (reg s R_SP + 4 * rank mask 0)) with (reg s R_SP) in Hpop.
    2:{ unfold rank. cbn [seq]. rewrite filter_nil. cbn [length Z.of_nat].
        rewrite Z.mul_0_r, Z.add_0_r, uwrap_small; [done|]. apply Hok. unfold R_SP. lia. }
    change ((R_SP <? 0)%nat && Z.testbit mask 13) with false in Hpop. rewrite Hpop.
    cbn [rbind andb]. f_equal. f_equal. apply state_eq; [case_match; by rewrite ?set_reg_length|].
    intros r Hr. destruct (Z.testbit mask 13) eqn:H13; cbn [negb].
    + rewrite Hr1 by done. destruct (Nat.eqb_spec r R_SP) as [->|]; [|done].
      change (Z.of_nat R_SP) with 13. by rewrite H13.
    + rewrite reg_set, Hr1 by (rewrite ?Hl1; unfold R_SP; lia).
      destruct (Nat.eqb_spec r R_SP) as [->|]; [|done].
      change (Z.of_nat R_SP) with 13. by rewrite H13.
  - split; [by cbn [gregs]; rewrite length_fmap, length_seq|].
    intros r Hr. rewrite reg_map by done.
    destruct (Z.testbit mask (Z.of_nat r)) eqn:Hb.
    + destruct (Hslots r Hr Hb) as [v Hv]. rewrite Hv. by destruct (HW _ _ Hv).
    + case_match; [by apply uwrap_word|by apply Hok].
Qed.

(** *** Decoding, instruction by instruction *)

Section Decode.
Context (memory : memory_t) (x : exec).

Lemma dec_add n : 0 <= n < 64 -> exec_op memory n x = Ok (Next, add_sp (4 * n + 4) x).
Proof.
  intros Hn. unfold exec_op. cbv zeta. range_test n 64%nat.
  replace ((n .& 0x3f) .<< 2) with (4 * n); [done|].
  apply Z.eqb_eq. by_range n 64%nat.
Qed.

Lemma dec_sub n : 0 <= n < 64 -> exec_op memory (0x40 + n) x = Ok (Next, add_sp (- (4 * n + 4)) x).
Proof.
  intros Hn. unfold exec_op. cbv zeta. repeat range_test n 64%nat.
  replace (- (((0x40 + n) .& 0x3f) .<< 2) - 4) with (- (4 * n + 4)); [done|].
  apply Z.eqb_eq. by_range n 64%nat.
Qed.

Lemma dec_pop_high mask :
  0 < mask < 4096 -> exec_op memory (0x80 + mask / 256) x =
    let! (op2, x) := next_operand memory x in
    match op2 with
    | None => Ok (Refuse, x)
    | Some op2 =>
        let mask' := ((((0x80 + mask / 256) .& 0x0f) .<< 12) .| (op2 .<< 4)) in
        if truthy mask' then
          let! (v, x) := pop mask' x in
          Ok (v, match v with
                 | Next => with_pc_set (truthy (mask' .& (1 .<< Z.of_nat R_PC))) x
                 | _ => x end)
        else Ok (Refuse, x)
    end.
Proof.
  intros Hm. assert (H : 0 <= mask < 4096) by lia. unfold exec_op. cbv zeta. clear Hm.
  by repeat range_test mask 4096%nat.
Qed.

Lemma high_mask mask :
  0 <= mask < 4096 ->
  (((0x80 + mask / 256) .& 0x0f) .<< 12) .| ((mask mod 256) .<< 4) = 16 * mask.
Proof. intros H. apply Z.eqb_eq. by_range mask 4096%nat. Qed.

Lemma high_mask_pc mask :
  0 <= mask < 4096 -> truthy ((16 * mask) .& (1 .<< Z.of_nat R_PC)) = Z.testbit mask 11.
Proof. intros H. apply eqb_prop. by_range mask 4096%nat. Qed.

Lemma dec_from r :
  0 <= r < 16 -> r <> 13 -> r <> 15 -> is_word 32 (reg (x_state x) 7) ->
  exec_op memory (0x90 + r) x =
    Ok (Next, with_state (set_reg (x_state x) R_SP (reg (x_state x)
      (Z.to_nat (if (r =? 7) && (reg (x_state x) 7 <? 0x10000) then 12 else r)))) x).
Proof.
  intros Hr H13 H15 Hw. unfold exec_op. cbv zeta.
  assert (Hreg : (0x90 + r) .& 0xf = r) by (apply Z.eqb_eq; clear - Hr; by_range r 16%nat).
  assert (Htests : (((0x90 + r) .& 0xc0) =? 0) = false /\ (((0x90 + r) .& 0xc0) =? 0x40) = false /\
    (((0x90 + r) .& 0xf0) =? 0x80) = false /\ (((0x90 + r) .& 0xf0) =? 0x90) = true).
  { clear - Hr. split; [|split; [|split]]; [apply negb_true_iff..|]; by_range r 16%nat. }
  destruct Htests as (-> & -> & -> & ->). rewrite Hreg.
  destruct (Z.eqb_spec (0x90 + r) 0x9d); [lia|]. destruct (Z.eqb_spec (0x90 + r) 0x9f); [lia|].
  cbn [negb andb]. do 5 f_equal. clear Hreg.
  destruct (Z.eqb_spec (0x90 + r) 0x97), (Z.eqb_spec r 7); try lia; [|done]. subst r. cbn [andb].
  replace (negb (truthy (reg (x_state x) (Z.to_nat 7) .& 0xffff0000)))
    with (reg (x_state x) 7 <? 0x10000); [by case_match|].
  change (Z.to_nat 7) with 7%nat. generalize dependent (reg (x_state x) 7). intros v Hv.
  change 0xffff0000 with (2 ^ 32 - 2 ^ 16). rewrite land_high by (done || lia).
  unfold truthy. rewrite negb_involutive.
  pose proof (Z.div_mod v (2 ^ 16) ltac:(lia)). pose proof (Z.mod_pos_bound v (2 ^ 16) ltac:(lia)).
  destruct Hv. apply eq_true_iff_eq. rewrite Z.ltb_lt, Z.eqb_eq. lia.
Qed.

Lemma dec_pop_r4 n (lr : bool) :
  0 <= n < 8 -> exec_op memory (0xa0 + (if lr then 8 else 0) + n) x =
    pop (16 * (2 ^ (n + 1) - 1) + if lr then 2 ^ 14 else 0) x.
Proof.
  intros Hn. unfold exec_op. cbv zeta. destruct lr.
  - repeat range_test n 8%nat. f_equal. apply Z.eqb_eq. by_range n 8%nat.
  - repeat range_test n 8%nat. f_equal. apply Z.eqb_eq. by_range n 8%nat.
Qed.

Lemma dec_fstmx8 n : 0 <= n < 8 -> exec_op memory (0xb8 + n) x = Ok (Next, add_sp (8 * (n + 1) + 4) x).
Proof.
  intros Hn. unfold exec_op. cbv zeta. repeat range_test n 8%nat.
  replace (((0xb8 + n) .& 0x07) * 8 + 12) with (8 * (n + 1) + 4); [done|].
  apply Z.eqb_eq. by_range n 8%nat.
Qed.

Lemma dec_wmmx10 n : 0 <= n < 6 -> exec_op memory (0xc0 + n) x = Ok (Next, add_sp (8 * (n + 1)) x).
Proof.
  intros Hn. unfold exec_op. cbv zeta. repeat range_test n 6%nat.
  replace (((0xc0 + n) .& 0x07) * 8 + 8) with (8 * (n + 1)); [done|].
  apply Z.eqb_eq. by_range n 6%nat.
Qed.

Lemma dec_vfp8 n : 0 <= n < 8 -> exec_op memory (0xd0 + n) x = Ok (Next, add_sp (8 * (n + 1)) x).
Proof.
  intros Hn. unfold exec_op. cbv zeta. repeat range_test n 8%nat.
  replace (((0xd0 + n) .& 0x07) * 8 + 8) with (8 * (n + 1)); [done|].
  apply Z.eqb_eq. by_range n 8%nat.
Qed.

End Decode.

(** *** The whole instruction *)

(** [x'] is [x] after [k] more bytes, with the state [s'] and the flag raised by
    [pc]; [rest] is still to come. *)
Definition advanced (memory : memory_t) (x x' : exec) (k : nat) (s' : unwind_state_t)
    (pc : bool) (rest : list Z) : Prop :=
  x_state x' = s' /\ x_pc_set x' = x_pc_set x || pc /\ x_size x' = (x_size x - k)%nat /\
  delivers memory (x_stream x') rest.

Lemma advanced_state memory x s rest :
  delivers memory (x_stream x) rest -> advanced memory x (with_state s x) 0 s false rest.
Proof. intros Hd. split; [done|]. simpl. by rewrite orb_false_r, Nat.sub_0_r. Qed.

Lemma advanced_sp memory x d rest :
  delivers memory (x_stream x) rest ->
  advanced memory x (add_sp d x) 0 (vsp_add d (x_state x)) false rest.
Proof. intros. by apply advanced_state. Qed.

Lemma operand_ok memory x b rest :
  delivers memory (x_stream x) (b :: rest) -> (0 < x_size x)%nat ->
  exists x', next_operand memory x = Ok (Some b, x') /\
    advanced memory x x' 1 (x_state x) false rest.
Proof.
  intros Hd Hs. destruct (operand_delivers memory x b rest (x_size x - 1) Hd ltac:(lia))
    as (st & -> & Hd'). eexists. split; [done|]. unfold advanced. simpl.
  by rewrite orb_false_r.
Qed.

Lemma advanced_trans memory x x1 x2 k1 k2 s1 s2 pc1 pc2 r1 r2 :
  advanced memory x x1 k1 s1 pc1 r1 -> advanced memory x1 x2 k2 s2 pc2 r2 ->
  advanced memory x x2 (k1 + k2) s2 (pc1 || pc2) r2.
Proof.
  intros (H1 & H2 & H3 & H4) (K1 & K2 & K3 & K4). split; [done|].
  rewrite K2, H2, K3, H3, orb_assoc. split; [done|]. split; [lia|done].
Qed.

Lemma pop_ok W memory mask x s' rest :
  stack_is W -> state_ok (x_state x) -> pop_state W mask (x_state x) = Some s' ->
  delivers memory (x_stream x) rest ->
  pop mask x = Ok (Next, with_state s' x) /\ state_ok s'.
Proof.
  intros HW Hok Hp Hd. destruct (try_pop_registers_ok W mask _ _ HW Hok Hp) as [Ht Hs].
  unfold pop. by rewrite Ht.
Qed.

Lemma vsp_add_ok d s : state_ok s -> state_ok (vsp_add d s).
Proof.
  intros [Hl Hr]. unfold vsp_add. split; [by rewrite set_reg_length|]. intros r Hlt.
  rewrite reg_set by (rewrite Hl; unfold R_SP; lia). case_match; [by apply uwrap_word|by apply Hr].
Qed.

Lemma low_nibble s c : 0 <= c < 16 -> (16 * s + c) .& 0x0f = c.
Proof.
  intros Hc. change 0x0f with (Z.ones 4). rewrite Z.land_ones by lia. change (2 ^ 4) with 16.
  rewrite Z.add_comm, Z.mul_comm, Z_mod_plus_full. by apply Z.mod_small.
Qed.

Lemma uleb_ok memory k fuel v acc shift x rest :
  0 <= v < 2 ^ (7 * Z.of_nat k) -> (0 < k)%nat -> (length (uleb128 k v) <= fuel)%nat -> 0 <= shift -> 0 <= acc < 2 ^ shift ->
  acc + v * 2 ^ shift < 2 ^ 32 -> (length (uleb128 k v) <= x_size x)%nat ->
  delivers memory (x_stream x) (uleb128 k v ++ rest) ->
  exists x', uleb_loop fuel memory acc shift x = Ok (Some (acc + v * 2 ^ shift), x') /\
    advanced memory x x' (length (uleb128 k v)) (x_state x) false rest.
Proof.
  revert fuel v acc shift x. induction k as [|k IH]; intros fuel v acc shift x Hv Hk Hf Hs Ha Hlt Hsz Hd;
    [lia|]. destruct fuel as [|fuel]; [simpl in Hf; case_match; simpl in Hf; lia|].
  cbn [uleb128 uleb_loop] in *.
  pose proof (Z.pow_pos_nonneg 2 shift ltac:(lia) Hs) as Hp.
  destruct (Z.ltb_spec v 128) as [Hsmall|Hbig].
  - simpl in Hsz. destruct (operand_ok memory x v rest Hd ltac:(lia)) as (x1 & -> & Hx1).
    exists x1. cbn [rbind]. change 0x7f with (Z.ones 7). change 0x80 with (2 ^ 7).
    rewrite Z.land_ones, Z.mod_small, truthy_flag, (testbit_above 7) by (unfold is_word; lia).
    split; [|done]. rewrite (uwrap_small 32 (v .<< shift)) by (rewrite Z.shiftl_mul_pow2; nia).
    rewrite lor_add_disjoint, uwrap_small by (done || nia). done.
  - simpl in Hsz, Hd, Hf. set (b := v mod 128 + 128) in *.
    pose proof (Z.div_mod v 128 ltac:(lia)). pose proof (Z.mod_pos_bound v 128 ltac:(lia)).
    destruct (operand_ok memory x b _ Hd ltac:(lia)) as (x1 & -> & Hx1). cbn [rbind].
    assert (Hlow : b .& 0x7f = v mod 128).
    { change 0x7f with (Z.ones 7). rewrite Z.land_ones by lia. unfold b. change (2 ^ 7) with 128.
      rewrite <- Zplus_mod_idemp_r, Z_mod_same_full, Z.add_0_r. by apply Z.mod_small. }
    assert (Hbit : truthy (b .& 0x80) = true).
    { change 0x80 with (2 ^ 7). rewrite truthy_flag by lia. unfold b.
      rewrite Z.testbit_odd, Z.shiftr_div_pow2 by lia. change (2 ^ 7) with 128.
      replace ((v mod 128 + 128) / 128) with 1; [done|].
      apply Z.div_unique with (v mod 128); lia. }
    rewrite Hlow, Hbit.
    replace (2 ^ (7 * Z.of_nat (S k))) with (2 ^ (7 * Z.of_nat k) * 128) in Hv
      by (replace (7 * Z.of_nat (S k)) with (7 * Z.of_nat k + 7) by lia;
          rewrite Z.pow_add_r by lia; done).
    assert (Hq : 0 <= v / 128) by (apply Z.div_pos; lia).
    assert (Hshift : 2 ^ (shift + 7) = 2 ^ shift * 128) by (rewrite Z.pow_add_r by lia; done).
    set (P := 2 ^ shift) in *. set (lo := v mod 128) in *. set (q := v / 128) in *.
    assert (Hsum : acc + lo * P + q * (P * 128) = acc + v * P)
      by (replace v with (128 * q + lo) by lia; ring).
    assert (HqP : 0 <= q * (P * 128)) by (apply Z.mul_nonneg_nonneg; lia).
    assert (HloP : 0 <= lo * P <= 127 * P) by (split; [apply Z.mul_nonneg_nonneg; lia|
      apply Z.mul_le_mono_nonneg_r; lia]).
    rewrite (uwrap_small 32 (lo .<< shift)) by (rewrite Z.shiftl_mul_pow2 by done; fold P; lia).
    rewrite lor_add_disjoint by done. fold P. rewrite uwrap_small by lia.
    destruct (IH fuel q (acc + lo * P) (shift + 7) x1) as (x2 & -> & Hx2).
    + split; [done|]. apply Z.div_lt_upper_bound; lia.
    + destruct k; [simpl in Hv; lia|lia].
    + lia.
    + lia.
    + rewrite Hshift. lia.
    + rewrite Hshift. lia.
    + destruct Hx1 as (_ & _ & -> & _). lia.
    + apply Hx1.
    + exists x2. split; [by rewrite Hshift, Hsum|].
      pose proof (advanced_trans _ _ _ _ _ _ _ _ _ _ _ _ Hx1 Hx2) as Hx.
      destruct Hx1 as (-> & _) in Hx. done.
Qed.

Definition verdict_of (o : ehabi) : verdict :=
  match o with End_of_unwind => Finish | _ => Next end.

(** One operand, then a move of the stack pointer. *)
Lemma operand_sp_ok memory x c s n d rest :
  0 <= n < 16 -> c = 16 * s + n -> (1 <= x_size x)%nat ->
  delivers memory (x_stream x) (c :: rest) ->
  exists x', (let! (op2, x) := next_operand memory x in
      match op2 with
      | None => Ok (Refuse, x)
      | Some op2 => Ok (Next, add_sp ((op2 .& 0x0f) * 8 + d) x)
      end) = Ok (Next, x') /\
    advanced memory x x' 1 (vsp_add (n * 8 + d) (x_state x)) false rest.
Proof.
  intros Hn -> Hsz Hd.
  destruct (operand_ok memory x _ rest Hd ltac:(lia)) as (x1 & -> & Hx1). cbn [rbind].
  rewrite low_nibble by done. eexists. split; [done|].
  pose proof (advanced_sp memory x1 (n * 8 + d) rest) as H2.
  pose proof (advanced_trans _ _ _ _ _ _ _ _ _ _ _ _ Hx1 (H2 ltac:(apply Hx1))) as H.
  destruct Hx1 as (-> & _) in H. done.
Qed.

Lemma encode_cons o : exists b bs, encode o = b :: bs.
Proof. destruct o; simpl; eauto. Qed.

(** [exec_op] on [b], with the operands [bs] to come, does what [o] means. *)
Definition op_correct (memory : memory_t) (o : ehabi) (x : exec) (b : Z) (k : nat)
    (rest : list Z) (s' : unwind_state_t) (pc : bool) : Prop :=
  state_ok s' /\ exists x', exec_op memory b x = Ok (verdict_of o, x') /\
    advanced memory x x' k s' pc rest.

Section Sem.
Context (W : Z -> option Z) (memory : memory_t) (x : exec) (rest : list Z)
        (s' : unwind_state_t) (pc : bool).
Hypothesis HW : stack_is W.
Hypothesis Hok : state_ok (x_state x).

(** A pop whose mask is an operand. *)
Lemma operand_pop_ok b mask s1 flag :
  pop_state W mask (x_state x) = Some s1 -> (1 <= x_size x)%nat ->
  delivers memory (x_stream x) (b :: rest) ->
  exists x1, next_operand memory x = Ok (Some b, x1) /\ state_ok s1 /\
    pop mask x1 = Ok (Next, with_state s1 x1) /\
    advanced memory x (with_pc_set flag (with_state s1 x1)) 1 s1 flag rest.
Proof.
  intros Hp Hsz Hd. destruct (operand_ok memory x _ rest Hd ltac:(lia)) as (x1 & Hop & Hx1).
  exists x1. split; [done|]. pose proof Hx1 as (Hst & Hpc & Hsz1 & Hd1).
  rewrite <- Hst in Hp, Hok.
  destruct (pop_ok W memory _ _ _ rest HW Hok Hp Hd1) as [Hpop Hs1]. split; [done|].
  split; [done|]. split; [done|]. simpl. by rewrite Hpc, orb_false_r.
Qed.

Lemma sem_pop_high mask :
  0 < mask < 4096 -> (1 <= x_size x)%nat ->
  delivers memory (x_stream x) (mask mod 256 :: rest) ->
  sem W (PopHigh mask) (x_state x) = Some (s', pc) ->
  op_correct memory (PopHigh mask) x (0x80 + mask / 256) 1 rest s' pc.
Proof.
  intros Hm Hsz Hd Hs. cbn [sem] in Hs.
  destruct (pop_state W (16 * mask) (x_state x)) as [s1|] eqn:Hp; [|done]. injection Hs as <- <-.
  destruct (operand_pop_ok _ _ _ (Z.testbit mask 11) Hp Hsz Hd) as (x1 & Hop & Hs1 & Hpop & Hadv).
  split; [done|]. rewrite dec_pop_high, Hop by done. cbn [rbind].
  rewrite high_mask, high_mask_pc by lia. cbv zeta. rewrite Hpop.
  unfold truthy at 1. destruct (Z.eqb_spec (16 * mask) 0); [lia|]. cbn [negb rbind].
  by eexists.
Qed.

Lemma sem_pop_low mask :
  0 < mask < 16 -> (1 <= x_size x)%nat ->
  delivers memory (x_stream x) (mask :: rest) ->
  sem W (PopLow mask) (x_state x) = Some (s', pc) ->
  op_correct memory (PopLow mask) x 0xb1 1 rest s' pc.
Proof.
  intros Hm Hsz Hd Hs. cbn [sem] in Hs.
  destruct (pop_state W mask (x_state x)) as [s1|] eqn:Hp; [|done]. injection Hs as <- <-.
  destruct (operand_pop_ok _ _ _ false Hp Hsz Hd) as (x1 & Hop & Hs1 & Hpop & Hadv).
  split; [done|]. change (exec_op memory 0xb1 x) with (let! (op2, x) := next_operand memory x in
    match op2 with
    | None => Ok (Refuse, x)
    | Some op2 => if negb (op2 =? 0) && ((op2 .& 0xf0) =? 0) then pop op2 x else Ok (Refuse, x)
    end).
  rewrite Hop. cbn [rbind]. destruct (Z.eqb_spec mask 0); [lia|].
  assert (Hm' : 0 <= mask < 16) by lia.
  replace ((mask .& 0xf0) =? 0) with true by (symmetry; clear - Hm'; by_range mask 16%nat).
  cbn [negb andb]. rewrite Hpop. eexists. split; [done|].
  destruct Hadv as (? & Hpc & ? & ?). split; [done|]. split; [|done].
  simpl in Hpc |- *. by rewrite orb_false_r in Hpc.
Qed.

Lemma sem_from r :
  0 <= r < 16 -> r <> 13 -> r <> 15 -> delivers memory (x_stream x) rest ->
  sem W (bionic (x_state x) (VspFrom r)) (x_state x) = Some (s', pc) ->
  op_correct memory (VspFrom r) x (0x90 + r) 0 rest s' pc.
Proof.
  intros Hr H13 H15 Hd Hs. cbn [sem bionic] in Hs. injection Hs as <- <-. split.
  - destruct Hok as [Hl Hw]. split; [by rewrite set_reg_length|]. intros q Hq.
    rewrite reg_set by (rewrite Hl; unfold R_SP; lia). case_match; [|by apply Hw].
    apply Hw. case_match; lia.
  - rewrite dec_from by (done || (apply Hok; lia)). eexists. split; [done|]. by apply advanced_state.
Qed.

Lemma sem_pop_r4 n lr :
  0 <= n < 8 -> delivers memory (x_stream x) rest ->
  sem W (PopR4 n lr) (x_state x) = Some (s', pc) ->
  op_correct memory (PopR4 n lr) x (0xa0 + (if lr then 8 else 0) + n) 0 rest s' pc.
Proof.
  intros Hn Hd Hs. cbn [sem] in Hs.
  destruct (pop_state W _ (x_state x)) as [s1|] eqn:Hp; [|done]. injection Hs as <- <-.
  destruct (pop_ok W memory _ _ _ rest HW Hok Hp Hd) as [Hpop Hs1]. split; [done|].
  rewrite dec_pop_r4, Hpop by done. eexists. split; [done|]. by apply advanced_state.
Qed.

Lemma sem_big v :
  is_word 32 v -> (length (uleb128 5 v) <= x_size x)%nat ->
  delivers memory (x_stream x) (uleb128 5 v ++ rest) ->
  sem W (VspAddBig v) (x_state x) = Some (s', pc) ->
  op_correct memory (VspAddBig v) x 0xb2 (length (uleb128 5 v)) rest s' pc.
Proof.
  intros Hv Hsz Hd Hs. cbn [sem] in Hs. injection Hs as <- <-. split; [by apply vsp_add_ok|].
  change (exec_op memory 0xb2 x) with (let! (value, x) := uleb_loop (S (x_size x)) memory 0 0 x in
    match value with
    | None => Ok (Refuse, x)
    | Some value => Ok (Next, add_sp ((value .<< 2) + 0x204) x)
    end).
  unfold is_word in Hv.
  destruct (uleb_ok memory 5 (S (x_size x)) v 0 0 x rest) as (x1 & -> & Hx1);
    [simpl; lia|lia|lia|lia|simpl; lia|simpl; lia|done|done|].
  cbn [rbind]. eexists. split; [done|].
  change (2 ^ 0) with 1. rewrite Z.add_0_l, Z.mul_1_r, Z.shiftl_mul_pow2 by lia.
  replace (v * 2 ^ 2 + 0x204) with (0x204 + 4 * v) by lia.
  pose proof (advanced_sp memory x1 (0x204 + 4 * v) rest ltac:(apply Hx1)) as H2.
  pose proof (advanced_trans _ _ _ _ _ _ _ _ _ _ _ _ Hx1 H2) as H.
  destruct Hx1 as (-> & _) in H. by rewrite Nat.add_0_r in H.
Qed.

Lemma exec_op_sem o b bs :
  ehabi_ok o -> encode o = b :: bs -> (length bs <= x_size x)%nat ->
  delivers memory (x_stream x) (bs ++ rest) -> sem W (bionic (x_state x) o) (x_state x) = Some (s', pc) ->
  op_correct memory o x b (length bs) rest s' pc.
Proof.
  intros Ho He Hsz Hd Hs.
  destruct o as [n|n|mask|r|n lr| |mask|v|st n|n|n|? ?|?|st n|st n|n];
    cbn [encode] in He; injection He as <- <-; cbn [ehabi_ok length app bionic] in *; try done.
  3: by apply sem_pop_high.
  3: by apply sem_from; destruct Ho as (? & ? & ?).
  3: by apply sem_pop_r4.
  4: by apply sem_pop_low.
  4: by apply sem_big.
  1,2,5,6,9: cbn [sem] in Hs; injection Hs as <- <-; split; [by apply vsp_add_ok|];
    rewrite ?dec_add, ?dec_sub, ?dec_fstmx8, ?dec_wmmx10, ?dec_vfp8 by done;
    eexists; (split; [done|]); by apply advanced_sp.
  - cbn [sem] in Hs. injection Hs as <- <-. split; [done|]. exists x. split; [done|].
    split; [done|]. by rewrite orb_false_r, Nat.sub_0_r.
  - cbn [sem] in Hs. injection Hs as <- <-. split; [by apply vsp_add_ok|]. destruct Ho as [_ Hn].
    destruct (operand_sp_ok memory x _ st n 12 rest Hn eq_refl Hsz Hd) as (x1 & He & Hx1).
    exists x1. split; [exact He|]. by replace (8 * (n + 1) + 4) with (n * 8 + 12) by lia.
  - cbn [sem] in Hs. injection Hs as <- <-. split; [by apply vsp_add_ok|]. destruct Ho as [_ Hn].
    destruct (operand_sp_ok memory x _ st n 8 rest Hn eq_refl Hsz Hd) as (x1 & He & Hx1).
    exists x1. split; [exact He|]. by replace (8 * (n + 1)) with (n * 8 + 8) by lia.
  - cbn [sem] in Hs. injection Hs as <- <-. split; [by apply vsp_add_ok|]. destruct Ho as [_ Hn].
    destruct (operand_sp_ok memory x _ st n 8 rest Hn eq_refl Hsz Hd) as (x1 & He & Hx1).
    exists x1. split; [exact He|]. by replace (8 * (n + 1)) with (n * 8 + 8) by lia.
Qed.
End Sem.

Definition encode_all (ol : list ehabi) : list Z := mjoin (encode <$> ol).

Lemma exec_loop_sem W memory ol x fuel s' pc :
  stack_is W -> state_ok (x_state x) -> Forall ehabi_ok ol ->
  x_size x = length (encode_all ol) -> (x_size x < fuel)%nat ->
  delivers memory (x_stream x) (encode_all ol) -> run_ehabi W ol (x_state x) = Some (s', pc) ->
  exists x', exec_loop fuel memory x = Ok (true, x') /\ x_state x' = s' /\
    x_pc_set x' = x_pc_set x || pc /\ state_ok s'.
Proof.
  intros HW. revert x fuel s' pc. induction ol as [|o ol IH]; intros x fuel s' pc Hok Hol Hsz Hf Hd Hrun;
    (destruct fuel as [|fuel]; [lia|]); cbn [exec_loop].
  { simpl in Hrun. injection Hrun as <- <-. rewrite Hsz. simpl. exists x. by rewrite orb_false_r. }
  apply Forall_cons in Hol as [Ho Hol]. destruct (encode_cons o) as (b & bs & He).
  unfold encode_all in Hsz, Hd. cbn [fmap list_fmap mjoin list_join] in Hsz, Hd.
  rewrite He in Hsz, Hd. fold (encode_all ol) in Hsz, Hd. simpl in Hsz.
  rewrite length_app in Hsz. change (mjoin (encode <$> ol)) with (encode_all ol) in Hsz. rewrite Hsz.
  destruct (operand_ok memory x b (bs ++ encode_all ol) Hd ltac:(lia)) as (x1 & -> & Hst1 & Hpc1 & Hsz1 & Hd1).
  cbn [rbind]. rewrite <- Hst1 in Hok, Hrun. rewrite orb_false_r in Hpc1.
  assert (Hstep : exists s1 b1, sem W (bionic (x_state x1) o) (x_state x1) = Some (s1, b1) /\
    (verdict_of o = Finish /\ s' = s1 /\ pc = b1 \/
     verdict_of o = Next /\ exists b2, run_ehabi W ol s1 = Some (s', b2) /\ pc = b1 || b2)).
  { destruct o; cbn [run_ehabi] in Hrun;
      try (destruct (sem W _ (x_state x1)) as [[s1 b1]|]; [|done];
           destruct (run_ehabi W ol s1) as [[s2 b2]|] eqn:Hr; [|done];
           injection Hrun as <- <-; exists s1, b1; split; [done|]; right; eauto).
    injection Hrun as <- <-. eexists _, _. split; [done|]. by left. }
  destruct Hstep as (s1 & b1 & Hsem & Hcase).
  destruct (exec_op_sem W memory x1 (encode_all ol) s1 b1 HW Hok o b bs Ho He ltac:(lia) Hd1 Hsem)
    as (Hs1 & x2 & -> & Hst2 & Hpc2 & Hsz2 & Hd2).
  cbn [rbind]. destruct Hcase as [(-> & -> & ->)|(-> & b2 & Hr & ->)].
  - exists x2. rewrite Hpc2, Hpc1. by split_and!.
  - destruct (IH x2 fuel s' b2) as (x3 & -> & Hst3 & Hpc3 & Hok3); [by rewrite Hst2|done|lia|lia|done| |].
    + by rewrite Hst2.
    + exists x3. rewrite Hpc3, Hpc2, Hpc1, orb_assoc. by split_and!.
Qed.

(** The bytes of a built-in personality routine: three instruction bytes for
    routine 0, a count of extra words and the instruction bytes for 1 and 2. *)
Definition routine_bytes (pr : Z) (ol : list ehabi) (bs : list Z) : Prop :=
  (pr = 0 /\ length (encode_all ol) = 3%nat /\ bs = encode_all ol) \/
  ((pr = 1 \/ pr = 2) /\ exists n, 0 <= n < 256 /\
     Z.of_nat (length (encode_all ol)) = 4 * n + 2 /\ bs = n :: encode_all ol).

(** A routine run from its size on. *)
Lemma routine_runs W memory s stream ol s' pc :
  stack_is W -> state_ok s -> Forall ehabi_ok ol -> delivers memory stream (encode_all ol) ->
  run_ehabi W ol s = Some (s', pc) ->
  exists x, exec_loop (S (length (encode_all ol))) memory
      {| x_state := s; x_stream := stream; x_size := length (encode_all ol); x_pc_set := false |} = Ok (true, x) /\
    x_state x = s' /\ x_pc_set x = pc /\ state_ok s'.
Proof.
  intros HW Hok Hol Hd Hrun.
  apply (exec_loop_sem W memory ol {| x_state := s; x_stream := stream; x_size := length (encode_all ol); x_pc_set := false |}
    (S (length (encode_all ol))) s' pc HW Hok Hol eq_refl); [cbn; lia|done..].
Qed.

Lemma routine_size_ok memory stream pr ol bs :
  routine_bytes pr ol bs -> delivers memory stream bs ->
  exists stream', routine_size memory stream pr = Ok (Some (length (encode_all ol)), stream') /\
    delivers memory stream' (encode_all ol).
Proof.
  unfold routine_size. intros [(-> & Hlen & ->)|(Hpr & n & Hn & Hlen & ->)] Hd.
  - exists stream. by rewrite Hlen.
  - destruct Hd as (st & Hb & Hd). exists st. destruct (Z.eqb_spec pr 0); [lia|].
    assert (Hpr' : (pr =? 1) || (pr =? 2) = true) by (destruct Hpr; subst; done).
    rewrite Hpr', Hb. cbn [rbind]. split; [|done]. rewrite uwrap_small by lia.
    do 3 f_equal. lia.
Qed.

(** C8: The interpreter refines the EHABI: on the encoding of any sequence of
    well-formed instructions other than the two iWMMXt ones with an operand (0xc6 and
    0xc7, which the code decodes wrongly), short or long, with the words it pops in the stack's
    bounds, it ends in the state the specification gives, with the return address in [pc] ([lr]
    when no instruction popped [pc]).  The specification is that of the EHABI but for
    one rule, which the code adds for the system calls of bionic: "vsp = r7" takes r12 when r7
    is below 0x10000. *)
Theorem personality_refines_ehabi W memory s stream pr ol bs s' pc :
  stack_is W -> state_ok s -> Forall ehabi_ok ol -> routine_bytes pr ol bs ->
  delivers memory stream bs -> run_ehabi W ol s = Some (s', pc) ->
  execute_personality_routine memory s stream pr =
    Ok (true, if pc then s' else set_reg s' R_PC (reg s' R_LR)).
Proof.
  intros HW Hok Hol Hbs Hd Hrun. unfold execute_personality_routine.
  destruct (routine_size_ok memory stream pr ol bs Hbs Hd) as (stream' & -> & Hd'). cbn [rbind].
  destruct (routine_runs W memory s stream' ol s' pc HW Hok Hol Hd' Hrun) as (x & -> & <- & <- & _). cbn [rbind].
  by destruct (x_pc_set x).
Qed.

(** *** Where the bytes come from *)

Definition be_bytes (w : Z) : list Z := [u8 (w .>> 24); u8 (w .>> 16); u8 (w .>> 8); u8 w].

(** A word-aligned stream yields the bytes of its words, the high one first. *)
Lemma words_deliver memory ws ptr w0 :
  ptr mod 4 = 0 -> 0 <= ptr -> ptr + 4 * Z.of_nat (length ws) < 2 ^ 32 ->
  (forall i w, ws !! i = Some w -> try_get_word memory (ptr + 4 * Z.of_nat i) = Ok (Some w)) ->
  delivers memory {| bs_ptr := ptr; bs_word := w0 |} (mjoin (be_bytes <$> ws)).
Proof.
  revert ptr w0. induction ws as [|w ws IH]; intros ptr w0 Hal H0 Hlt Hws; [done|].
  cbn [fmap list_fmap mjoin list_join be_bytes app delivers length] in *.
  assert (Hland : forall k, 0 <= k < 4 -> (ptr + k) .& 3 = k).
  { intros k Hk. change 3 with (Z.ones 2). rewrite Z.land_ones by lia. change (2 ^ 2) with 4.
    rewrite <- Zplus_mod_idemp_l, Hal. by apply Z.mod_small. }
  pose proof (Hws 0%nat w eq_refl) as Hw. rewrite Z.mul_0_r, Z.add_0_r in Hw.
  unfold try_next_byte at 1. cbn [bs_ptr bs_word].
  rewrite <- (Z.add_0_r ptr), Hland, Z.add_0_r, Hw by lia. cbn [rbind].
  eexists. split; [done|]. unfold try_next_byte at 1. cbn [bs_ptr bs_word].
  rewrite (uwrap_small 32 (ptr + 1)), Hland by lia.
  eexists. split; [done|]. unfold try_next_byte at 1. cbn [bs_ptr bs_word].
  replace (ptr + 1 + 1) with (ptr + 2) by lia. rewrite (uwrap_small 32 (ptr + 2)), Hland by lia.
  eexists. split; [done|]. unfold try_next_byte at 1. cbn [bs_ptr bs_word].
  replace (ptr + 2 + 1) with (ptr + 3) by lia. rewrite (uwrap_small 32 (ptr + 3)), Hland by lia.
  eexists. split; [done|]. replace (ptr + 3 + 1) with (ptr + 4) by lia.
  rewrite uwrap_small by lia. apply IH; [|lia|lia|].
  - rewrite <- Zplus_mod_idemp_l, Hal. done.
  - intros i w' Hi. replace (ptr + 4 + 4 * Z.of_nat i) with (ptr + 4 * Z.of_nat (S i)) by lia.
    by apply Hws.
Qed.

(** The iWMMXt instructions with an operand are never decoded: [0xc6] and
    [0xc7] satisfy the test [(op & 0xf8) == 0xc0] above theirs, so they move the
    stack pointer as "pop wR10-wR16/17" would, and their operand byte is then
    run as an instruction. *)
Theorem wmmx_operand_ignored memory x :
  exec_op memory 0xc6 x = Ok (Next, add_sp 56 x) /\
  exec_op memory 0xc7 x = Ok (Next, add_sp 64 x).
Proof. done. Qed.

End Unwind.

(** ** Witnesses: a table of two entries, and a frame that pops r4 and lr *)

Definition demo_mem : mem :=
  mem_at 0x8000 (le_bytes 4 0x1000 ++ le_bytes 4 0x8003a8b0 ++ le_bytes 4 0x10f8 ++ le_bytes 4 1)
    (mem_at 0x5010 (le_bytes 4 44 ++ le_bytes 4 0x9001) ∅).
Definition demo_find (pc : Z) : Z * Z := (0x8000, 2).
Definition demo_peek (t a : Z) : Z * bool := (0, true).
Definition demo_bounds : Z * Z := (0x6000, 0x5000).
Definition demo_pcs (i : Z) : Z := if i =? 0 then 0x9000 else 0x9100.
Definition demo_hs (i : Z) : Z := if i =? 0 then 0x8003a8b0 else 1.

Lemma demo_table : exidx_table demo_mem demo_peek (init_memory []) 0x8000 2 demo_pcs demo_hs.
Proof.
  split; [lia| | |].
  - intros i Hi. assert (Hc : i = 0 \/ i = 1) by lia. destruct Hc as [-> | ->].
    + exists 0x1000. by split; vm_compute.
    + exists 0x10f8. by split; vm_compute.
  - intros i Hi. assert (Hc : i = 0 \/ i = 1) by lia. by destruct Hc as [-> | ->]; vm_compute.
  - intros i H0 H1. replace i with 0 by lia. by vm_compute.
Qed.

Lemma get_exception_handler_exact_witness :
  (demo_pcs 0 <= 0x9050 -> exists k, covers 2 demo_pcs 0x9050 k /\
     get_exception_handler demo_mem demo_peek demo_find (init_memory []) [] 0x9050 =
       Ok (exidx_handler (u32 (u32 (0x8000 + k * 8) + 4)) (demo_hs k))) /\
  (0x9050 < demo_pcs 0 ->
     get_exception_handler demo_mem demo_peek demo_find (init_memory []) [] 0x9050 = Ok 0).
Proof.
  apply (get_exception_handler_exact demo_mem demo_peek demo_find);
    [apply demo_table|reflexivity|lia|lia].
Defined.

Definition demo_regs : unwind_state_t :=
  {| gregs := [0; 1; 2; 3; 4; 5; 6; 7; 8; 9; 10; 11; 12; 0x5000; 0x9101; 0x10009050] |}.


Definition demo_stack_word (a : Z) : option Z :=
  if a =? 0x5010 then Some 44 else if a =? 0x5014 then Some 0x9001 else None.

Lemma personality_refines_ehabi_witness :
  exists s', run_ehabi demo_stack_word [VspAdd 3; PopR4 0 true; End_of_unwind] demo_regs
      = Some (s', false) /\
  execute_personality_routine demo_mem demo_peek demo_bounds (init_memory []) demo_regs
    {| bs_ptr := 0x8005; bs_word := 0x8003a8b0 |} 0 =
    Ok (true, set_reg s' R_PC (reg s' R_LR)).
Proof.
  eexists. split; [vm_compute; reflexivity|].
  apply (personality_refines_ehabi demo_mem demo_peek demo_bounds demo_stack_word
    (init_memory []) demo_regs {| bs_ptr := 0x8005; bs_word := 0x8003a8b0 |} 0
    [VspAdd 3; PopR4 0 true; End_of_unwind] [3; 0xa8; 0xb0] _ false).
  - intros a v. unfold demo_stack_word.
    destruct (Z.eqb_spec a 0x5010) as [->|]; [intros [= <-]; split; [reflexivity|by vm_compute]|].
    destruct (Z.eqb_spec a 0x5014) as [->|]; [intros [= <-]; split; [reflexivity|by vm_compute]|done].
  - split; [reflexivity|]. intros r Hr. unfold is_word.
    do 16 (destruct r as [|r]; [vm_compute; split; [discriminate|reflexivity]|]). lia.
  - repeat (constructor; [simpl; lia|]). constructor.
  - left. done.
  - do 3 (eexists; split; [vm_compute; reflexivity|]). exact I.
  - vm_compute. reflexivity.
Defined.
