(* ===== verification/Unwind32Chain.v ===== *)
(** unwind32: what the arm unwinder returns for a chain of calls whose frames the unwinding
    tables describe - the composition of the parts of Unwind32.v. *)
From S2P Require Import Prelude Memory Cache Unwind32.

#[local] Arguments rbind {_ _} !_ _ /.

Section Chain.
Context (m : mem) (peek : Z -> Z -> Z * bool) (gnu_Unwind_Find_exidx : Z -> Z * Z) (ubrd_stack : Z * Z).
(** The words of the stack. *)
Context (W : Z -> option Z) (HW : stack_is m ubrd_stack W).

(** The proxies' unwinder reads its own process and has no list of mappings. *)
Definition self : memory_t := init_memory [].

(** ** Call sites

    The address an instruction before the return address [pc] has: the ARM branches, and Thumb's
    [BL]/[BLX label] (with J1 set: the target is near) and [BLX register]. *)
Definition half_at (a h : Z) : Prop := try_get_half_word m peek self (u32 a) = Ok (Some h).
Inductive call_site (pc : Z) : Z -> Prop :=
| call_arm : pc .& 1 = 0 -> call_site pc (u32 (pc - 4))
| call_thumb_bl h1 h2 : pc .& 1 = 1 -> half_at (pc - 5) h1 -> half_at (pc - 3) h2 ->
    h1 .& 0xf800 = 0xf000 -> h2 .& 0xe000 = 0xe000 -> call_site pc (u32 (pc - 4))
| call_thumb_blx h1 h2 : pc .& 1 = 1 -> half_at (pc - 5) h1 -> half_at (pc - 3) h2 ->
    h2 .& 0xff87 = 0x4780 -> call_site pc (u32 (pc - 2)).

Lemma land_sub x a b c d : x .& a = b -> a .& c = c -> b .& c = d -> x .& c = d.
Proof. intros <- <- <-. rewrite Z.land_assoc, <- !Z.land_assoc. by rewrite (Z.land_assoc a a), Z.land_diag. Qed.

Lemma rewind_call_site pc site : call_site pc site -> rewind_pc_arch m peek self pc = Ok site.
Proof.
  unfold rewind_pc_arch, truthy. intros [Hpc|h1 h2 Hpc H1 H2 B1 B2|h1 h2 Hpc H1 H2 B]; rewrite Hpc; cbn [Z.eqb negb].
  - done.
  - rewrite H1. cbn [rbind]. rewrite (land_sub h1 0xf800 0xf000 0xf000 0xf000 B1) by done.
    rewrite Z.eqb_refl, H2. cbn [rbind]. by rewrite B2.
  - rewrite H1. cbn [rbind]. destruct (_ =? 0xf000); [|done]. rewrite H2. cbn [rbind].
    by rewrite (land_sub h2 0xff87 0x4780 0xe000 0x4000 B).
Qed.

(** A [BL] with J1 clear, whose target is far, is not recognised: the address in its middle
    is recorded. *)
Lemma far_call_rewound_half pc h1 h2 :
  pc .& 1 = 1 -> half_at (pc - 5) h1 -> half_at (pc - 3) h2 -> h1 .& 0xf800 = 0xf000 -> h2 .& 0xf000 = 0xd000 ->
  rewind_pc_arch m peek self pc = Ok (u32 (pc - 2)).
Proof.
  intros Hpc H1 H2 B1 B2. unfold rewind_pc_arch, truthy. rewrite Hpc. cbn [Z.eqb negb]. rewrite H1. cbn [rbind].
  destruct (_ =? 0xf000); [|done]. rewrite H2. cbn [rbind]. by rewrite (land_sub h2 0xf000 0xd000 0xe000 0xc000 B2).
Qed.

(** ** The tables *)

(** The word that describes the function around [pc]; 0: it cannot be unwound. *)
Inductive handler_of (pc : Z) : Z -> Prop :=
| handler_no_table n : gnu_Unwind_Find_exidx pc = (0, n) -> handler_of pc 0
| handler_below start n pcs hs : gnu_Unwind_Find_exidx pc = (start, n) -> start <> 0 ->
    exidx_table m peek self start n pcs hs -> pc < pcs 0 -> handler_of pc 0
| handler_entry start n pcs hs k : gnu_Unwind_Find_exidx pc = (start, n) -> start <> 0 ->
    exidx_table m peek self start n pcs hs -> covers n pcs pc k ->
    handler_of pc (exidx_handler (u32 (u32 (start + k * 8) + 4)) (hs k)).

Lemma covers_unique n pcs pc k k' :
  (forall i j, 0 <= i <= j -> j < n -> pcs i <= pcs j) -> covers n pcs pc k -> covers n pcs pc k' -> k = k'.
Proof.
  intros Hmono (Hk & Hle & Hlt) (Hk' & Hle' & Hlt'). destruct (Z.lt_trichotomy k k') as [Hc|[Hc|Hc]]; [|done|].
  - specialize (Hmono (k + 1) k'). lia.
  - specialize (Hmono (k' + 1) k). lia.
Qed.

Lemma handler_found pc h :
  0 < pc -> handler_of pc h -> get_exception_handler m peek gnu_Unwind_Find_exidx self [] pc = Ok h.
Proof.
  intros Hpc Hh. unfold self. destruct Hh as [n Hf|start n pcs hs Hf Hs Ht Hb|start n pcs hs k Hf Hs Ht Hk].
  - unfold get_exception_handler. destruct (Z.eqb_spec pc 0); [lia|]. unfold find_exidx. by rewrite Hf.
  - by apply (get_exception_handler_exact m peek gnu_Unwind_Find_exidx [] pc start n pcs hs).
  - destruct (get_exception_handler_exact m peek gnu_Unwind_Find_exidx [] pc start n pcs hs Ht Hf Hs Hpc) as [Hc _].
    destruct Hc as (k' & Hk' & ->).
    { destruct Hk as (Hk & Hle & _). transitivity (pcs k); [|done]. eapply xt_mono; [exact Ht|lia..]. }
    by rewrite (covers_unique n pcs pc k' k) by (done || (intros i j; by eapply xt_mono)).
Qed.

(** *** A caller

    [s'] is the state of the caller of the function around [pc]: the instructions the function's
    entry holds, run on [s]. *)
Definition caller (pc : Z) (s s' : unwind_state_t) : Prop :=
  exists h first stream pr ol bs s1 b,
    handler_of pc h /\ h <> 0 /\
    try_next_byte m peek self {| bs_ptr := h; bs_word := 0 |} = Ok (Some first, stream) /\
    first .& 0xf0 = 0x80 /\ first .& 0x0f = pr /\
    routine_bytes pr ol bs /\ delivers m peek self stream bs /\ Forall ehabi_ok ol /\
    run_ehabi W ol s = Some (s1, b) /\ s' = if b then s1 else set_reg s1 R_PC (reg s1 R_LR).

Lemma set_reg_ok s r v : state_ok s -> (r < 16)%nat -> is_word 32 v -> state_ok (set_reg s r v).
Proof.
  intros [Hl Hs] Hr Hv. split; [by rewrite set_reg_length|]. intros r' Hr'. rewrite reg_set by lia.
  destruct (r' =? r)%nat; [done|by apply Hs].
Qed.

(** The word below the caller's stack pointer is the return address: the function saved it
    first. *)
Definition saved_first (s' : unwind_state_t) : Prop := W (u32 (reg s' R_SP - 4)) = Some (reg s' R_PC).

Lemma frame_of_caller pc s s' first f :
  0 < pc -> state_ok s -> caller pc s s' -> (f_returned f = 1 -> saved_first s') ->
  unwind_frame m peek gnu_Unwind_Find_exidx ubrd_stack self [] first pc f s = Ok (truthy (reg s' R_PC), s') /\ state_ok s'.
Proof.
  intros Hpc Hok (h & fb & stream & pr & ol & bs & s1 & b & Hh & Hh0 & Hb & Hhi & Hlo & Hbs & Hd & Hol & Hrun & ->) Hsaved.
  destruct (routine_size_ok m peek self stream pr ol bs Hbs Hd) as (stream' & Hsize & Hd').
  destruct (routine_runs m peek ubrd_stack W self s stream' ol s1 b HW Hok Hol Hd' Hrun) as (x & Hx & Hxs & Hxb & Hok1).
  assert (Hs' : state_ok (if b then s1 else set_reg s1 R_PC (reg s1 R_LR))).
  { destruct b; [done|]. apply set_reg_ok; [done|unfold R_PC; lia|apply Hok1; unfold R_LR; lia]. }
  split; [|done]. unfold unwind_frame. rewrite (handler_found pc h) by done. cbn [rbind].
  destruct (Z.eqb_spec h 0); [done|]. rewrite Hb. cbn [rbind]. rewrite Hhi. cbn [Z.eqb Pos.eqb negb].
  unfold execute_personality_routine. rewrite Hlo, Hsize. cbn [rbind]. rewrite Hx. cbn [rbind]. rewrite Hxs, Hxb.
  assert (He : (if true && negb b then set_reg s1 R_PC (reg s1 R_LR) else s1) = if b then s1 else set_reg s1 R_PC (reg s1 R_LR))
    by by destruct b.
  rewrite He. cbn [negb]. revert Hsaved. generalize (if b then s1 else set_reg s1 R_PC (reg s1 R_LR)). intros s' Hsaved.
  destruct (Z.eqb_spec (f_returned f) 1) as [Hr|]; [|done]. unfold try_pop_Stack_ForNotSaveInASM.
  destruct (HW _ _ (Hsaved Hr)) as [-> _]. cbn [rbind]. by rewrite Z.eqb_refl.
Qed.

(** ** Chains of calls *)

(** What a chain of [frame_loop] records for a state: the pc of the innermost function, and the
    call sites of the others. *)
Definition frame_pc (first : bool) (s : unwind_state_t) (pc : Z) : Prop :=
  if first then pc = reg s R_PC else call_site (reg s R_PC) pc.

(** [calls k first s l]: from [s] on, the functions that are being executed are at the addresses
    [l], innermost first.  The walk ends below 0x10000000, or at a function without an entry; the
    innermost function may have none, when its return address is still in [lr].  [k] more frames
    are passed before the one whose caller's stack pointer the unwinder checks. *)
Inductive calls : Z -> bool -> unwind_state_t -> list Z -> Prop :=
| calls_end k first s : reg s R_PC < 0x10000000 -> calls k first s []
| calls_last k first s pc : 0x10000000 <= reg s R_PC -> frame_pc first s pc -> 0 < pc -> handler_of pc 0 ->
    (first = true -> reg s R_LR = 0 \/ reg s R_LR = reg s R_PC) -> calls k first s [pc]
| calls_leaf k s l : 0x10000000 <= reg s R_PC -> handler_of (reg s R_PC) 0 ->
    reg s R_LR <> 0 -> reg s R_LR <> reg s R_PC ->
    calls (k - 1) false (set_reg s R_PC (reg s R_LR)) l -> calls k true s (reg s R_PC :: l)
| calls_caller k first s s' pc l : 0x10000000 <= reg s R_PC -> frame_pc first s pc -> 0 < pc ->
    caller pc s s' -> (k = 0 -> saved_first s') -> calls (k - 1) false s' l -> calls k first s (pc :: l).

(** What the array and the counters hold when [seen] frames have been passed. *)
Definition stored (ignore_depth max_depth : Z) (seen : list Z) : list Z :=
  take (Z.to_nat max_depth) (drop (Z.to_nat ignore_depth) seen).
Definition recorded (array : list Z) (ignore_depth max_depth : Z) (seen : list Z) : frames :=
  {| f_backtrace := stored ignore_depth max_depth seen ++ drop (length (stored ignore_depth max_depth seen)) array;
     f_ignored := Z.min (Z.of_nat (length seen)) ignore_depth;
     f_returned := Z.of_nat (length (stored ignore_depth max_depth seen)) |}.

Section Walk.
Context (array : list Z) (ignore_depth max_depth : Z).
Hypothesis Hig : 0 <= ignore_depth.
Hypothesis Hmax : 0 <= max_depth <= Z.of_nat (length array).

Abbreviation record := (recorded array ignore_depth max_depth).

Lemma stored_full seen l : max_depth <= f_returned (record seen) ->
  stored ignore_depth max_depth (seen ++ l) = stored ignore_depth max_depth seen.
Proof.
  unfold recorded, stored. cbn [f_returned]. rewrite length_take, length_drop. intros Hf.
  destruct (Z.eq_dec max_depth 0) as [->|Hne]; [done|].
  rewrite drop_app_le by lia. rewrite take_app_le; [done|]. rewrite length_drop. lia.
Qed.

Lemma recorded_count seen : f_returned (record seen) < max_depth ->
  f_returned (record seen) = Z.of_nat (length seen) - f_ignored (record seen) /\
  Z.of_nat (length seen) < ignore_depth + max_depth.
Proof. unfold recorded, stored. cbn. rewrite length_take, length_drop. lia. Qed.

Lemma add_recorded seen pc : f_returned (record seen) < max_depth ->
  add_backtrace_entry pc ignore_depth max_depth (record seen) = Ok (record (seen ++ [pc])).
Proof.
  intros Hlt. pose proof (recorded_count seen Hlt) as [Hc Hb]. unfold add_backtrace_entry.
  unfold recorded, stored in *. cbn [f_ignored f_returned f_backtrace] in *.
  rewrite length_take, length_drop in Hlt, Hc. rewrite length_app. cbn [length].
  destruct (Z.ltb_spec (Z.min (Z.of_nat (length seen)) ignore_depth) ignore_depth) as [Hi|Hi].
  - rewrite (drop_ge seen), (drop_ge (seen ++ [pc])) by (rewrite ?length_app; cbn [length]; lia). rewrite !take_nil. cbn. do 2 f_equal; lia.
  - rewrite (drop_app_le seen) by lia. set (d := drop (Z.to_nat ignore_depth) seen) in *.
    assert (Hd : length d = (length seen - Z.to_nat ignore_depth)%nat) by apply length_drop.
    rewrite (take_ge d) by lia. rewrite (take_ge (d ++ [pc])) by (rewrite length_app; cbn [length]; lia).
    rewrite length_app. cbn [length]. rewrite Nat2Z.id.
    destruct (Z.leb_spec max_depth (Z.of_nat (length d))); [lia|].
    unfold list_set. rewrite decide_True by (rewrite length_app, length_drop; lia). cbn [of_opt rbind].
    rewrite insert_app_r_alt, Nat.sub_diag by lia.
    destruct (drop (length d) array) as [|x r] eqn:Er; [apply (f_equal length) in Er; rewrite length_drop in Er; cbn in Er; lia|].
    assert (Hr : drop (length d + 1) array = r) by (rewrite <- drop_drop, Er; done).
    rewrite Hr. cbn. rewrite <- app_assoc. cbn. do 2 f_equal; lia.
Qed.

Lemma frame_pc_ok first s pc : frame_pc first s pc ->
  (if first then Ok (reg s R_PC) else rewind_pc_arch m peek self (reg s R_PC)) = Ok pc.
Proof. unfold frame_pc. destruct first; [by intros ->|apply rewind_call_site]. Qed.

Lemma calls_low k first s l : reg s R_PC < 0x10000000 -> calls k first s l -> l = [].
Proof. intros Hlow Hc. inversion Hc; subst; done || lia. Qed.

Lemma frame_no_handler pc first s f : 0 < pc -> handler_of pc 0 ->
  unwind_frame m peek gnu_Unwind_Find_exidx ubrd_stack self [] first pc f s =
    if first && truthy (reg s R_LR) && negb (reg s R_LR =? reg s R_PC) then Ok (true, set_reg s R_PC (reg s R_LR)) else Ok (false, s).
Proof. intros Hpc Hh. unfold unwind_frame. by rewrite (handler_found pc 0). Qed.

(** The frame whose caller is checked is the first one returned. *)
Lemma first_returned seen pc : f_returned (record seen) < max_depth ->
  f_returned (record (seen ++ [pc])) = 1 -> ignore_depth - Z.of_nat (length seen) = 0.
Proof.
  unfold recorded, stored. cbn. rewrite !length_take, !length_drop, length_app. cbn. lia.
Qed.

Lemma frame_loop_calls fuel k first s l seen :
  calls k first s l -> state_ok s -> k = ignore_depth - Z.of_nat (length seen) ->
  (0 < fuel)%nat -> ignore_depth + max_depth - Z.of_nat (length seen) < Z.of_nat fuel ->
  exists s' f, frame_loop m peek gnu_Unwind_Find_exidx ubrd_stack fuel self [] ignore_depth max_depth first s (record seen) = Ok (s', f) /\
    f_returned f = f_returned (record (seen ++ l)) /\ f_backtrace f = f_backtrace (record (seen ++ l)).
Proof.
  intros Hc. revert fuel seen. induction Hc as [k first s Hlow|k first s pc Hpc Hf H0 Hh Hlr|k s l Hpc Hh Hlr Hne Hc IH|
    k first s s' pc l Hpc Hf H0 Hcaller Hsaved Hc IH]; intros fuel seen Hok Hk Hfuel Hbound;
    (destruct fuel as [|fuel]; [lia|]); cbn [frame_loop];
    (destruct (Z.ltb_spec (f_returned (record seen)) max_depth) as [Hlt|Hge];
      [pose proof (recorded_count seen Hlt) as [_ Hroom]|
       exists s, (record seen); split; [done|]; unfold recorded; cbn [f_returned f_backtrace]; by rewrite stored_full]);
    (destruct (Z.ltb_spec (reg s R_PC) 0x10000000); [try lia|try lia]).
  - exists s, (record seen). by rewrite app_nil_r.
  - rewrite (frame_pc_ok first s pc Hf). cbn [rbind]. rewrite add_recorded by done. cbn [rbind].
    rewrite frame_no_handler by done. exists s, (record (seen ++ [pc])).
    assert (Hcond : first && truthy (reg s R_LR) && negb (reg s R_LR =? reg s R_PC) = false).
    { destruct first; [|done]. unfold truthy. destruct (Hlr eq_refl) as [-> | ->]; [done|].
      rewrite Z.eqb_refl. apply andb_false_r. }
    by rewrite Hcond.
  - cbn [rbind]. rewrite add_recorded by done. cbn [rbind]. rewrite frame_no_handler by (done || lia).
    unfold truthy. destruct (Z.eqb_spec (reg s R_LR) 0); [done|]. destruct (Z.eqb_spec (reg s R_LR) (reg s R_PC)); [done|].
    cbn [negb andb rbind].
    destruct (IH fuel (seen ++ [reg s R_PC])) as (s2 & f & -> & Hr & Hb); try (rewrite length_app; cbn [length]); try lia.
    + apply set_reg_ok; [done|unfold R_PC; lia|apply Hok; unfold R_LR; lia].
    + exists s2, f. rewrite <- app_assoc in Hr, Hb. done.
  - rewrite (frame_pc_ok first s pc Hf). cbn [rbind]. rewrite add_recorded by done. cbn [rbind].
    destruct (frame_of_caller pc s s' first (record (seen ++ [pc])) H0 Hok Hcaller) as [-> Hok'].
    { intros Hr. apply Hsaved. rewrite Hk. by apply first_returned in Hr. }
    cbn [rbind]. unfold truthy. destruct (Z.eqb_spec (reg s' R_PC) 0) as [Hz|]; cbn [negb].
    + rewrite (calls_low (k - 1) false s' l) by (done || lia). by exists s', (record (seen ++ [pc])).
    + destruct (IH fuel (seen ++ [pc])) as (s2 & f & -> & Hr & Hb); try (rewrite length_app; cbn [length]); try lia; [done|].
      exists s2, f. rewrite <- app_assoc in Hr, Hb. done.
Qed.
End Walk.

(** C6: the 32-bit unwinder is exact on the stacks [calls] describes.  There every function that is being
    executed has a compact entry in the unwinding tables, whose instructions (those of [personality_refines_ehabi]), run on the
    registers, give the state of the caller (the innermost may have none, with its return address still in lr); every return address is behind an ARM call, a Thumb BL or BLX with J1 set (a
    near target) or a Thumb BLX of a register; the first function returned has saved its return address at the word
    below its caller's stack pointer; and the walk ends at an address below 0x10000000 or at a function without an
    entry.  The unwinder that the proxies call then stores the address of the innermost function and the addresses of
    the call instructions of the others, innermost first, without the first [ignore_depth] ones and up to [max_depth],
    into the front of the caller's array, and leaves the rest of it alone.  (Of a far Thumb BL, with J1 clear,
    it would store an address in the middle: [far_call_rewound_half].) *)
Theorem unwind_calls_exact registers l array ignore_depth max_depth :
  state_ok {| gregs := registers |} -> calls ignore_depth true {| gregs := registers |} l ->
  0 <= ignore_depth -> 0 <= max_depth <= Z.of_nat (length array) ->
  let out := take (Z.to_nat max_depth) (drop (Z.to_nat ignore_depth) l) in
  libudf_unwind_backtrace m peek gnu_Unwind_Find_exidx ubrd_stack registers array ignore_depth max_depth =
    Ok (Z.of_nat (length out), out ++ drop (length out) array).
Proof.
  intros Hok Hc Hig Hmax out.
  unfold libudf_unwind_backtrace, unwind_backtrace_signal_arch_selfnogcc, unwind_backtrace_common, acquire_my_map_info_list.
  fold self. assert (Hnil : {| f_backtrace := array; f_ignored := 0; f_returned := 0 |} = recorded array ignore_depth max_depth []).
  { unfold recorded, stored. rewrite drop_nil, take_nil. cbn. f_equal. lia. }
  rewrite Hnil. destruct (frame_loop_calls array ignore_depth max_depth Hig Hmax (frame_fuel ignore_depth max_depth)
    ignore_depth true {| gregs := registers |} l []) as (s' & f & -> & Hr & Hb);
    [done|done|cbn; lia|unfold frame_fuel; lia|unfold frame_fuel; cbn [length]; lia|].
  cbn [rbind]. assert (Hx : is_executable_map [] (reg s' R_LR) = false) by done. rewrite Hx, andb_false_r. cbn [rbind].
  rewrite Hr, Hb. done.
Qed.
End Chain.

(** ** Witness: three functions, the one in the middle Thumb code *)

Definition chain_stack : list (Z * Z) := [ (0x5000, 44); (0x5004, 0x10009151); (0x5018, 45); (0x501c, 0x10009260) ].
Definition chain_word (a : Z) : option Z := snd <$> List.find (fun w => fst w =? a) chain_stack.
Definition chain_mem : mem :=
  mem_at 0x10008000 (mjoin (le_bytes 4 <$> [0x1000; 0x80a8b0b0; 0x10f8; 0x8003a8b0; 0x11f0; EXIDX_CANTUNWIND]))
 (mem_at 0x1000914c (le_bytes 2 0xf000 ++ le_bytes 2 0xf800)
 (foldr (fun w m => mem_at (fst w) (le_bytes 4 (snd w)) m) ∅ chain_stack)).
Definition chain_find (pc : Z) : Z * Z := (0x10008000, 3).
Definition chain_peek (t a : Z) : Z * bool := (0, true).
Definition chain_bounds : Z * Z := (0x6000, 0x5000).
Definition chain_pcs (i : Z) : Z := 0x10009000 + 0x100 * i.
Definition chain_hs (i : Z) : Z := nth (Z.to_nat i) [0x80a8b0b0; 0x8003a8b0; EXIDX_CANTUNWIND] 0.
(** r4 is 4, lr 14. *)
Definition chain_regs (r4 sp lr pc : Z) : unwind_state_t := {| gregs := [0; 1; 2; 3; r4; 5; 6; 7; 8; 9; 10; 11; 12; sp; lr; pc] |}.

Lemma chain_table : exidx_table chain_mem chain_peek self 0x10008000 3 chain_pcs chain_hs.
Proof.
  assert (Hcase : forall i, 0 <= i < 3 -> i = 0 \/ i = 1 \/ i = 2) by lia.
  split; [lia| | |].
  - intros i Hi. destruct (Hcase i Hi) as [-> |[-> | ->]]; [exists 0x1000|exists 0x10f8|exists 0x11f0]; split; vm_compute; reflexivity.
  - intros i Hi. destruct (Hcase i Hi) as [-> |[-> | ->]]; vm_compute; reflexivity.
  - intros i H0 H1. unfold chain_pcs. lia.
Qed.

Lemma chain_handler pc k h :
  0 <= k < 3 -> chain_pcs k <= pc -> (k + 1 < 3 -> pc < chain_pcs (k + 1)) ->
  exidx_handler (u32 (u32 (0x10008000 + k * 8) + 4)) (chain_hs k) = h -> handler_of chain_mem chain_peek chain_find pc h.
Proof.
  intros Hk Hle Hlt <-. apply (handler_entry chain_mem chain_peek chain_find pc 0x10008000 3 chain_pcs chain_hs k);
    [done|done|exact chain_table|done].
Qed.

Lemma chain_stack_is : stack_is chain_mem chain_bounds chain_word.
Proof.
  intros a v Hv. assert (Hin : In (a, v) chain_stack).
  { unfold chain_word in Hv. destruct (List.find _ chain_stack) as [[a' v']|] eqn:E; [|done]. injection Hv as ->.
    pose proof (List.find_some _ _ E) as [Hin Ha]. apply Z.eqb_eq in Ha. cbn in Ha. by subst a'. }
  cbn in Hin. destruct Hin as [[= <- <-]|[[= <- <-]|[[= <- <-]|[[= <- <-]|[]]]]]; by split; vm_compute.
Qed.

Lemma chain_calls :
  calls chain_mem chain_peek chain_find chain_word 1 true (chain_regs 4 0x5000 14 0x10009050) [0x10009050; 0x1000914d; 0x1000925c].
Proof.
  apply (calls_caller _ _ _ _ _ _ _ (chain_regs 44 0x5008 0x10009151 0x10009151)); [vm_compute; discriminate|done|lia| |done|].
  { exists 0x10008004, 0x80, {| bs_ptr := 0x10008005; bs_word := 0x80a8b0b0 |}, 0,
      [PopR4 0 true; End_of_unwind; End_of_unwind], [0xa8; 0xb0; 0xb0]. eexists. exists false.
    split; [apply (chain_handler 0x10009050 0); [lia|unfold chain_pcs; lia|unfold chain_pcs; lia|vm_compute; reflexivity]|].
    split; [done|]. split; [vm_compute; reflexivity|]. split; [done|]. split; [done|].
    split; [left; split; [done|split; [done|reflexivity]]|].
    split; [cbn [delivers]; exists {| bs_ptr := 0x10008006; bs_word := 0x80a8b0b0 |}; split; [vm_compute; reflexivity|]; exists {| bs_ptr := 0x10008007; bs_word := 0x80a8b0b0 |}; split; [vm_compute; reflexivity|]; exists {| bs_ptr := 0x10008008; bs_word := 0x80a8b0b0 |}; split; [vm_compute; reflexivity|]; done|].
    split; [repeat constructor; lia|]. split; vm_compute; reflexivity. }
  apply (calls_caller _ _ _ _ _ _ _ (chain_regs 45 0x5020 0x10009260 0x10009260)); [vm_compute; discriminate| |lia| |done|].
  { apply (call_thumb_bl _ _ 0x10009151 0xf000 0xf800); vm_compute; reflexivity. }
  { exists 0x1000800c, 0x80, {| bs_ptr := 0x1000800d; bs_word := 0x8003a8b0 |}, 0,
      [VspAdd 3; PopR4 0 true; End_of_unwind], [3; 0xa8; 0xb0]. eexists. exists false.
    split; [apply (chain_handler 0x1000914d 1); [lia|unfold chain_pcs; lia|unfold chain_pcs; lia|vm_compute; reflexivity]|].
    split; [done|]. split; [vm_compute; reflexivity|]. split; [done|]. split; [done|].
    split; [left; split; [done|split; [done|reflexivity]]|].
    split; [cbn [delivers]; exists {| bs_ptr := 0x1000800e; bs_word := 0x8003a8b0 |}; split; [vm_compute; reflexivity|]; exists {| bs_ptr := 0x1000800f; bs_word := 0x8003a8b0 |}; split; [vm_compute; reflexivity|]; exists {| bs_ptr := 0x10008010; bs_word := 0x8003a8b0 |}; split; [vm_compute; reflexivity|]; done|].
    split; [repeat constructor; lia|]. split; vm_compute; reflexivity. }
  apply calls_last; [vm_compute; discriminate| |lia| |done].
  - by apply call_arm.
  - apply (chain_handler 0x1000925c 2); [lia|unfold chain_pcs; lia|unfold chain_pcs; lia|vm_compute; reflexivity].
Qed.

Lemma unwind_calls_exact_witness :
  libudf_unwind_backtrace chain_mem chain_peek chain_find chain_bounds (gregs (chain_regs 4 0x5000 14 0x10009050)) (replicate 4 7) 1 3 =
    Ok (2, [0x1000914d; 0x1000925c; 7; 7]).
Proof.
  apply (unwind_calls_exact chain_mem chain_peek chain_find chain_bounds chain_word chain_stack_is
    (gregs (chain_regs 4 0x5000 14 0x10009050)) [0x10009050; 0x1000914d; 0x1000925c] (replicate 4 7) 1 3).
  - split; [done|]. intros r Hr. do 16 (destruct r as [|r]; [by vm_compute|]). lia.
  - exact chain_calls.
  - lia.
  - cbn. lia.
Defined.
