(* ===== verification/Relocate32.v ===== *)
(** inline32/relocate.c: moving the first instructions of a hooked ARM or Thumb
    function to a trampoline.  Instruction words are [Z]; the trampoline is the
    list of half-words (Thumb) or words (ARM) the code stores. *)
From S2P Require Import Prelude Memory.

Definition ALIGN_PC (pc : Z) : Z := pc .& 0xFFFFFFFC.

Inductive INSTRUCTION_TYPE :=
| B1_THUMB16 | B2_THUMB16 | BX_THUMB16 | ADD_THUMB16 | MOV_THUMB16 | ADR_THUMB16 | LDR_THUMB16
| CB_THUMB16
| BLX_THUMB32 | BL_THUMB32 | B1_THUMB32 | B2_THUMB32 | ADR1_THUMB32 | ADR2_THUMB32 | LDR_THUMB32
| TBB_THUMB32 | TBH_THUMB32
| BLX_ARM | BL_ARM | B_ARM | BX_ARM | ADD_ARM | ADR1_ARM | ADR2_ARM | MOV_ARM | LDR_ARM
| UNDEFINE.

#[export] Instance INSTRUCTION_TYPE_eq_dec : EqDecision INSTRUCTION_TYPE.
Proof. solve_decision. Defined.

Definition getTypeInThumb16 (instruction : Z) : INSTRUCTION_TYPE :=
  if (instruction .& 0xF000) =? 0xD000 then B1_THUMB16
  else if (instruction .& 0xF800) =? 0xE000 then B2_THUMB16
  else if (instruction .& 0xFFF8) =? 0x4778 then BX_THUMB16
  else if (instruction .& 0xFF78) =? 0x4478 then ADD_THUMB16
  else if (instruction .& 0xFF78) =? 0x4678 then MOV_THUMB16
  else if (instruction .& 0xF800) =? 0xA000 then ADR_THUMB16
  else if (instruction .& 0xF800) =? 0x4800 then LDR_THUMB16
  else if (instruction .& 0xF500) =? 0xB100 then CB_THUMB16
  else UNDEFINE.

Definition getTypeInThumb32 (instruction : Z) : INSTRUCTION_TYPE :=
  if (instruction .& 0xFFF0D000) =? 0xF3B08000 then UNDEFINE
  else if (instruction .& 0xF800D000) =? 0xF000C000 then BLX_THUMB32
  else if (instruction .& 0xF800D000) =? 0xF000D000 then BL_THUMB32
  else if (instruction .& 0xF800D000) =? 0xF0008000 then B1_THUMB32
  else if (instruction .& 0xF800D000) =? 0xF0009000 then B2_THUMB32
  else if (instruction .& 0xFBFF8000) =? 0xF2AF0000 then ADR1_THUMB32
  else if (instruction .& 0xFBFF8000) =? 0xF20F0000 then ADR2_THUMB32
  else if (instruction .& 0xFF7F0000) =? 0xF85F0000 then LDR_THUMB32
  else if (instruction .& 0xFFFF00F0) =? 0xE8DF0000 then TBB_THUMB32
  else if (instruction .& 0xFFFF00F0) =? 0xE8DF0010 then TBH_THUMB32
  else UNDEFINE.

Definition getTypeInArm (instruction : Z) : INSTRUCTION_TYPE :=
  if (instruction .& 0xFE000000) =? 0xFA000000 then BLX_ARM
  else if (instruction .& 0xF000000) =? 0xB000000 then BL_ARM
  else if (instruction .& 0xF000000) =? 0xA000000 then B_ARM
  else if (instruction .& 0xFF000FF) =? 0x120001F then BX_ARM
  else if (instruction .& 0xFEF0010) =? 0x8F0000 then ADD_ARM
  else if (instruction .& 0xFFF0000) =? 0x28F0000 then ADR1_ARM
  else if (instruction .& 0xFFF0000) =? 0x24F0000 then ADR2_ARM
  else if (instruction .& 0xE5F0000) =? 0x41F0000 then LDR_ARM
  else if (instruction .& 0xFE00FFF) =? 0x1A0000F then MOV_ARM
  else UNDEFINE.

(** [for (r = hi; ; --r) if (r is none of bad) break;]: [bad] has at most two
    elements, so one of three registers is free. *)
Definition pick_reg (hi : Z) (bad : list Z) : Z :=
  if decide (hi ∈ bad) then if decide (hi - 1 ∈ bad) then hi - 2 else hi - 1 else hi.

(** [top_bit ? (x | (0xFFFFFFFF << n)) : x] on [uint32_t]. *)
Definition sign_bits (top_bit x n : Z) : Z :=
  if truthy top_bit then x .| u32 (0xFFFFFFFF .<< n) else x.

(** A 32-bit constant as two half-words, the low one first. *)
Definition halves (value : Z) : list Z := [value .& 0xFFFF; value .>> 16].

(** The half-words stored for a 16-bit Thumb instruction; [m] is read for
    [LDR Rt, <label>]. *)
Definition relocateInstructionInThumb16 (m : mem) (pc instruction : Z) : res (list Z) :=
  match getTypeInThumb16 instruction with
  | B1_THUMB16 =>
      let x := (instruction .& 0xFF) .<< 1 in
      let imm32 := sign_bits (x .>> 8) x 8 in
      let value := u32 (pc + imm32) .| 1 in
      Ok ([instruction .& 0xFF00; 0xE003; 0xF8DF; 0xF000] ++ halves value)
  | B2_THUMB16 =>
      let x := (instruction .& 0x7FF) .<< 1 in
      let imm32 := sign_bits (x .>> 11) x 11 in
      let value := u32 (pc + imm32) .| 1 in
      Ok ([0xF8DF; 0xF000] ++ halves value)
  | BX_THUMB16 => Ok ([0xF8DF; 0xF000] ++ halves (pc .| 1))
  | ADD_THUMB16 =>
      let rdn := ((instruction .& 0x80) .>> 4) .| (instruction .& 0x7) in
      let r := pick_reg 7 [rdn] in
      Ok ([0xB400 .| (1 .<< r); 0x4802 .| (r .<< 8); (instruction .& 0xFF87) .| (r .<< 3);
           0xBC00 .| (1 .<< r); 0xE002; 0xBF00] ++ halves pc)
  | MOV_THUMB16 =>
      Ok ([0x4800 .| ((instruction .& 0x7) .<< 8); 0xE001] ++ halves pc)
  | ADR_THUMB16 =>
      let r := (instruction .& 0x700) .>> 8 in
      (* + binds tighter than << *)
      let value := u32 (u32 (ALIGN_PC pc + (instruction .& 0xFF)) .<< 2) in
      Ok ([0x4800 .| (r .<< 8); 0xE001] ++ halves value)
  | LDR_THUMB16 =>
      let r := (instruction .& 0x700) .>> 8 in
      let! value := of_opt (load32 m (u32 (ALIGN_PC pc + ((instruction .& 0xFF) .<< 2)))) in
      Ok ([0x4800 .| (r .<< 8); 0xE001] ++ halves value)
  | CB_THUMB16 =>
      let imm32 := ((instruction .& 0x200) .>> 3) .| ((instruction .& 0xF8) .>> 2) in
      let value := u32 (pc + imm32 + 1) in
      Ok ([instruction .& 0xFD07; 0xE003; 0xF8DF; 0xF000] ++ halves value)
  | _ => Ok [instruction; 0xBF00]
  end.

(** C's [!x] of a one-bit value. *)
Definition lnot (x : Z) : Z := b2z (x =? 0).

Definition relocateInstructionInThumb32 (m : mem) (pc high_instruction low_instruction : Z)
    : res (list Z) :=
  let instruction := (high_instruction .<< 16) .| low_instruction in
  let j1 := (low_instruction .& 0x2000) .>> 13 in
  let j2 := (low_instruction .& 0x800) .>> 11 in
  let s := (high_instruction .& 0x400) .>> 10 in
  let i1 := lnot (j1 .^ s) in
  let i2 := lnot (j2 .^ s) in
  let x_of low := (s .<< 24) .| (i1 .<< 23) .| (i2 .<< 22) .| ((high_instruction .& 0x3FF) .<< 12)
                  .| low in
  let add_lr := [0xF20F; 0x0E09] in
  let ldr_pc := [0xF8DF; 0xF000] in
  match getTypeInThumb32 instruction with
  | BLX_THUMB32 =>
      let imm32 := sign_bits s (x_of ((low_instruction .& 0x7FE) .<< 1)) 25 in
      Ok (add_lr ++ ldr_pc ++ halves (u32 (ALIGN_PC pc + imm32)))
  | BL_THUMB32 =>
      let imm32 := sign_bits s (x_of ((low_instruction .& 0x7FF) .<< 1)) 25 in
      Ok (add_lr ++ ldr_pc ++ halves (u32 (ALIGN_PC pc + imm32 + 1)))
  | B1_THUMB32 =>
      let x := (s .<< 20) .| (j2 .<< 19) .| (j1 .<< 18) .| ((high_instruction .& 0x3F) .<< 12)
               .| ((low_instruction .& 0x7FF) .<< 1) in
      let imm32 := sign_bits s x 21 in
      Ok ([0xD000 .| ((high_instruction .& 0x3C0) .<< 2); 0xE003] ++ ldr_pc ++
          halves (u32 (ALIGN_PC pc + imm32 + 1)))
  | B2_THUMB32 =>
      let imm32 := sign_bits s (x_of ((low_instruction .& 0x7FF) .<< 1)) 25 in
      Ok (ldr_pc ++ halves (u32 (ALIGN_PC pc + imm32 + 1)))
  | (ADR1_THUMB32 | ADR2_THUMB32) as type =>
      let r := (low_instruction .& 0xF00) .>> 8 in
      let i := (high_instruction .& 0x400) .>> 10 in
      let imm3 := (low_instruction .& 0x7000) .>> 12 in
      let imm8 := instruction .& 0xFF in
      let imm32 := u32 (i .<< 31) .| u32 (imm3 .<< 30) .| u32 (imm8 .<< 27) in
      let value := match type with
                   | ADR1_THUMB32 => u32 (ALIGN_PC pc + imm32)
                   | _ => u32 (ALIGN_PC pc - imm32) end in
      Ok ([0xF8DF; (r .<< 12) .| 4; 0xBF00; 0xE001] ++ halves value)
  | LDR_THUMB32 =>
      let is_add := (high_instruction .& 0x80) .>> 7 in
      let r := low_instruction .>> 12 in
      let imm32 := low_instruction .& 0xFFF in
      let addr := if truthy is_add then u32 (ALIGN_PC pc + imm32) else u32 (ALIGN_PC pc - imm32) in
      let! value := of_opt (load32 m addr) in
      Ok ([0xF8DF; (r .<< 12) .| 4; 0xBF00; 0xE001] ++ halves value)
  | (TBB_THUMB32 | TBH_THUMB32) as type =>
      let rm := low_instruction .& 0xF in
      let r := pick_reg 7 [rm] in
      let rx := pick_reg 7 [rm; r] in
      Ok ([0xB400 .| (1 .<< rx); 0x4805 .| (r .<< 8); 0x4600 .| (rm .<< 3) .| rx] ++
          match type with
          | TBB_THUMB32 => [0xEB00 .| r; 0x0000 .| (rx .<< 8) .| rx; 0x7800 .| (rx .<< 3) .| rx]
          | _ => [0xEB00 .| r; 0x0040 .| (rx .<< 8) .| rx; 0x8800 .| (rx .<< 3) .| rx]
          end ++
          [0xEB00 .| r; 0x0040 .| (r .<< 8) .| rx; 0x3001 .| (r .<< 8); 0xBC00 .| (1 .<< rx);
           0x4700 .| (r .<< 3); 0xBF00] ++ halves pc)
  | _ => Ok [high_instruction; low_instruction]
  end.

(** [int orig_boundaries\[4\]], [int trampoline_boundaries\[20\]] and [count] of
    the hook item. *)
Record boundaries := { orig_b : list Z; tramp_b : list Z; count : Z }.

Definition add_boundary (o t : Z) (b : boundaries) : res boundaries :=
  let! ob := of_opt (list_set (Z.to_nat (count b)) o (orig_b b)) in
  let! tb := of_opt (list_set (Z.to_nat (count b)) t (tramp_b b)) in
  Ok {| orig_b := ob; tramp_b := tb; count := count b + 1 |}.

(** The first half-word of a 32-bit Thumb instruction. *)
Definition is_thumb32 (h : Z) : bool := (0x1D <=? (h .>> 11)) && ((h .>> 11) <=? 0x1F).

(** The [while (1)] loop; [orig] are the half-words of the function. *)
Fixpoint thumb_loop (fuel : nat) (m : mem) (orig : list Z) (length : Z) (pc orig_pos : Z)
    (tramp : list Z) (b : boundaries) : res (Z * list Z * boundaries) :=
  match fuel with
  | O => NoFuel
  | S fuel' =>
      let! b := add_boundary (orig_pos * 2) (Z.of_nat (List.length tramp) * 2) b in
      let! h := of_opt (orig !! Z.to_nat orig_pos) in
      if is_thumb32 h then
        if length / 2 <? orig_pos + 2 then Ok (orig_pos, tramp, b)
        else
          let! l := of_opt (orig !! Z.to_nat (orig_pos + 1)) in
          let! out := relocateInstructionInThumb32 m pc h l in
          if length / 2 <=? orig_pos + 2 then Ok (orig_pos + 2, tramp ++ out, b)
          else thumb_loop fuel' m orig length (u32 (pc + 4)) (orig_pos + 2) (tramp ++ out) b
      else
        let! out := relocateInstructionInThumb16 m pc h in
        if length / 2 <=? orig_pos + 1 then Ok (orig_pos + 1, tramp ++ out, b)
        else thumb_loop fuel' m orig length (u32 (pc + 2)) (orig_pos + 1) (tramp ++ out) b
  end.

Definition relocateInstructionInThumb (m : mem) (target_addr : Z) (orig : list Z) (length : Z)
    (b : boundaries) : res (list Z * boundaries) :=
  let! (orig_pos, tramp, b) :=
    thumb_loop (S (Z.to_nat (length / 2))) m orig length (u32 (target_addr + 4)) 0 [] b in
  let lr := u32 (target_addr + orig_pos * 2 + 1) in
  Ok (tramp ++ [0xF8DF; 0xF000] ++ halves lr, b).

(** The words stored for one ARM instruction at [pc - 8]. *)
Definition relocate_arm (m : mem) (pc instruction : Z) : res (list Z) :=
  match getTypeInArm instruction with
  | (BLX_ARM | BL_ARM | B_ARM | BX_ARM) as type =>
      let x := match type with
               | BLX_ARM => ((instruction .& 0xFFFFFF) .<< 2) .| ((instruction .& 0x1000000) .>> 23)
               | BL_ARM | B_ARM => (instruction .& 0xFFFFFF) .<< 2
               | _ => 0
               end in
      let imm32 := sign_bits (x .>> 25) x 26 in
      let value := match type with BLX_ARM => u32 (pc + imm32 + 1) | _ => u32 (pc + imm32) end in
      Ok (match type with BLX_ARM | BL_ARM => [0xE28FE004] | _ => [] end ++ [0xE51FF004; value])
  | ADD_ARM =>
      let rd := (instruction .& 0xF000) .>> 12 in
      let rm := instruction .& 0xF in
      let r := pick_reg 12 [rd; rm] in
      Ok [0xE52D0004 .| (r .<< 12); 0xE59F0008 .| (r .<< 12);
          (instruction .& 0xFFF0FFFF) .| (r .<< 16); 0xE49D0004 .| (r .<< 12); 0xE28FF000; pc]
  | (ADR1_ARM | ADR2_ARM | LDR_ARM | MOV_ARM) as type =>
      let r := (instruction .& 0xF000) .>> 12 in
      let imm32 := instruction .& 0xFFF in
      let! value :=
        match type with
        | ADR1_ARM => Ok (u32 (pc + imm32))
        | ADR2_ARM => Ok (u32 (pc - imm32))
        | LDR_ARM =>
            if truthy ((instruction .& 0x800000) .>> 23)
            then of_opt (load32 m (u32 (pc + imm32)))
            else of_opt (load32 m (u32 (pc - imm32)))
        | _ => Ok pc
        end in
      Ok [0xE51F0000 .| (r .<< 12); 0xE28FF000; value]
  | _ => Ok [instruction]
  end.

(** The [for] loop over the words of the function. *)
Fixpoint arm_loop (m : mem) (orig : list Z) (pc orig_pos : Z) (tramp : list Z) (b : boundaries)
    : res (list Z * boundaries) :=
  match orig with
  | [] => Ok (tramp, b)
  | instruction :: orig' =>
      let! b := add_boundary (orig_pos * 4) (Z.of_nat (length tramp) * 4) b in
      let! out := relocate_arm m pc instruction in
      arm_loop m orig' (u32 (pc + 4)) (orig_pos + 1) (tramp ++ out) b
  end.

Definition relocateInstructionInArm (m : mem) (target_addr : Z) (orig : list Z) (length : Z)
    (b : boundaries) : res (list Z * boundaries) :=
  let! (tramp, b) := arm_loop m (take (Z.to_nat (length / 4)) orig) (u32 (target_addr + 8)) 0 [] b in
  Ok (tramp ++ [0xe51ff004; u32 (target_addr + length)], b).

(** The bytes of the trampoline.  [orig] are the copied bytes of the function. *)
Fixpoint words_of (n : nat) (bytes : list Z) (fuel : nat) : list Z :=
  match fuel with
  | O => []
  | S fuel' => if decide (n <= length bytes)%nat
               then le_val (take n bytes) :: words_of n (drop n bytes) fuel' else []
  end.

Definition relocateInstruction (m : mem) (target_addr : Z) (orig : list Z) (len : Z)
    (b : boundaries) : res (list Z * boundaries) :=
  if truthy (target_addr .& 1) then
    let! (tramp, b) :=
      relocateInstructionInThumb m (u32 (target_addr - 1)) (words_of 2 orig (length orig)) len b in
    Ok (mjoin (le_bytes 2 <$> tramp), b)
  else
    let! (tramp, b) := relocateInstructionInArm m target_addr (words_of 4 orig (length orig)) len b in
    Ok (mjoin (le_bytes 4 <$> tramp), b).

(** ** Where the relocated branches go

    The destinations of the Arm architecture manual, in terms of the signed
    displacement [d] of an instruction at [addr] ([PC] is [addr + 8] in ARM and
    [addr + 4] in Thumb). *)


(** Executing the words a relocated ARM branch stores, at address [t]: [ADD LR,
    PC, #4] and [LDR PC, [PC, #-4]]; the result is the address jumped to and the
    value put in [LR]. *)
Fixpoint arm_run (t : Z) (lr : option Z) (words : list Z) : option (Z * option Z) :=
  match words with
  | [] => None
  | w :: words' =>
      if w =? 0xE28FE004 then arm_run (u32 (t + 4)) (Some (u32 (t + 8 + 4))) words'
      else if w =? 0xE51FF004 then
        match words' with v :: _ => Some (v, lr) | [] => None end
      else None
  end.

(** The condition field of an ARM instruction, of the architecture's flags. *)
Record arm_flags := { flag_n : bool; flag_z : bool; flag_c : bool; flag_v : bool }.
Definition condition_passed (f : arm_flags) (cond : Z) : bool :=
  let b :=
    match cond / 2 with
    | 0 => flag_z f
    | 1 => flag_c f
    | 2 => flag_n f
    | 3 => flag_v f
    | 4 => flag_c f && negb (flag_z f)
    | 5 => Bool.eqb (flag_n f) (flag_v f)
    | 6 => Bool.eqb (flag_n f) (flag_v f) && negb (flag_z f)
    | _ => true
    end in
  if Z.odd cond && negb (cond =? 15) then negb b else b.

(** The displacement of [B], [BL] (24 bits, in words) and of [BLX] (with the
    half-word bit H); bit 0 of the destination selects Thumb. *)
Definition arm_dest (type : INSTRUCTION_TYPE) (addr i : Z) : Z :=
  let d := swrap 24 (i mod 2 ^ 24) in
  match type with
  | BLX_ARM => addr + 8 + 4 * d + 2 * b2z (Z.testbit i 24) + 1
  | _ => addr + 8 + 4 * d
  end.

(** Where the processor goes from the instruction at [addr]: a branch whose condition fails
    falls through. *)
Definition arm_next (f : arm_flags) (type : INSTRUCTION_TYPE) (addr i : Z) : Z :=
  if condition_passed f (i / 2 ^ 28) then arm_dest type addr i else addr + 4.

Lemma swrap_split w k x r :
  0 <= k < w -> 0 <= r < 2 ^ k -> x mod 2 ^ k = 0 -> swrap w (x + r) = swrap w x + r.
Proof.
  intros Hk Hr Hx. unfold swrap.
  replace (x + r + 2 ^ (w - 1)) with (x + 2 ^ (w - 1) + r) by ring.
  assert (Hm : (x + 2 ^ (w - 1)) mod 2 ^ k = 0).
  { replace (2 ^ (w - 1)) with (2 ^ (w - 1 - k) * 2 ^ k)
      by (rewrite <- Z.pow_add_r by lia; f_equal; lia).
    by rewrite Z_mod_plus_full. }
  set (y := x + 2 ^ (w - 1)) in *.
  assert (Hw : 2 ^ w = 2 ^ k * 2 ^ (w - k)) by (rewrite <- Z.pow_add_r by lia; f_equal; lia).
  pose proof (Z.pow_pos_nonneg 2 k ltac:(lia) ltac:(lia)).
  pose proof (Z.pow_pos_nonneg 2 (w - k) ltac:(lia) ltac:(lia)).
  replace ((y + r) mod 2 ^ w) with (y mod 2 ^ w + r); [ring|].
  apply Z.mod_unique with (y / 2 ^ w); [|pose proof (Z.div_mod y (2 ^ w)); lia].
  left. rewrite Hw, Z.rem_mul_r, Hm by lia.
  pose proof (Z.mod_pos_bound (y / 2 ^ k) (2 ^ (w - k)) ltac:(lia)). nia.
Qed.

Lemma bit_at x n : 0 <= n -> (x .& 2 ^ n) .>> n = b2z (Z.testbit x n).
Proof.
  intros Hn. rewrite land_pow2_testbit by done.
  destruct (Z.testbit x n); [|by rewrite Z.shiftr_0_l].
  rewrite Z.shiftr_div_pow2, Z.div_same; [done|apply Z.pow_nonzero; lia|done].
Qed.

Lemma arm_x i : (i .& 0xFFFFFF) .<< 2 = 2 ^ 2 * (i mod 2 ^ 24).
Proof.
  change 0xFFFFFF with (Z.ones 24). rewrite land_ones_mod, Z.shiftl_mul_pow2 by lia. ring.
Qed.

Lemma arm_x_blx i :
  ((i .& 0xFFFFFF) .<< 2) .| ((i .& 0x1000000) .>> 23) = 2 ^ 2 * (i mod 2 ^ 24) + 2 * b2z (Z.testbit i 24).
Proof.
  rewrite arm_x. change 0x1000000 with (2 ^ 24). change 23 with (24 - 1).
  assert (Hb : (i .& 2 ^ 24) .>> (24 - 1) = 2 * b2z (Z.testbit i 24)).
  { rewrite land_pow2_testbit by lia. by destruct (Z.testbit i 24). }
  rewrite Hb, Z.lor_comm, (Z.mul_comm (2 ^ 2)), <- Z.shiftl_mul_pow2 by lia.
  rewrite lor_add_disjoint by (destruct (Z.testbit i 24); simpl; unfold is_word; lia).
  rewrite Z.shiftl_mul_pow2 by lia. ring.
Qed.

(** The stored words jump to the destination of the branch whatever its condition, and a call
    returns behind them. *)
Lemma arm_branch_jumps m addr t i type :
  is_word 32 i -> getTypeInArm i = type -> type = B_ARM \/ type = BL_ARM \/ type = BLX_ARM ->
  exists words, relocate_arm m (u32 (addr + 8)) i = Ok words /\
    arm_run t None words = Some (u32 (arm_dest type addr i),
      if decide (type = B_ARM) then None
      else Some (u32 (t + 4 * Z.of_nat (length words)))).
Proof.
  intros Hi Ht Hty. unfold relocate_arm. rewrite Ht.
  assert (Hmod : 0 <= i mod 2 ^ 24 < 2 ^ 24) by (apply Z.mod_pos_bound; lia).
  assert (Hsign : forall x, is_word 26 x ->
    u32 (u32 (addr + 8) + sign_bits (x .>> 25) x 26) = u32 (addr + 8 + swrap 26 x)).
  { intros x Hx. rewrite uwrap_add_l, <- uwrap_add_r, <- (uwrap_add_r _ _ (swrap 26 x)).
    do 2 f_equal. apply (sign_extend 26 26); [lia|by left|done]. }
  destruct Hty as [-> | [-> | ->]]; cbv iota zeta.
  - rewrite arm_x, Hsign by (unfold is_word; lia).
    rewrite (swrap_scale 2 24) by lia. eexists. by split.
  - rewrite arm_x, Hsign by (unfold is_word; lia).
    rewrite (swrap_scale 2 24) by lia. eexists. split; [done|]. cbn [arm_run app Z.eqb Pos.eqb].
    rewrite decide_False by done. do 3 f_equal. simpl. f_equal. lia.
  - rewrite arm_x_blx. set (h := b2z _).
    assert (Hh : 0 <= 2 * h < 2 ^ 2) by (unfold h; destruct (Z.testbit i 24); simpl; lia).
    rewrite <- uwrap_add_l, Hsign, uwrap_add_l by (unfold is_word; lia).
    rewrite (swrap_split 26 2) by (lia || (rewrite Z.mul_comm; apply Z_mod_mult)).
    rewrite (swrap_scale 2 24) by lia. eexists. split; [done|].
    cbn [arm_run app Z.eqb Pos.eqb]. rewrite decide_False by done. f_equal. f_equal.
    + f_equal. unfold arm_dest. fold h. lia.
    + do 2 f_equal. simpl. lia.
Qed.

(** C34: A relocated ARM branch that is taken goes where the original went: for [B], [BL] and
    [BLX] at any address, when the flags pass the instruction's condition (always for [BLX] and for the
    condition "always"), the stored words jump to the destination the architecture gives, and a call returns behind the
    stored words.  (A conditional branch that is not taken should fall through; the stored words branch all
    the same: [arm_condition_dropped], [arm_not_taken_jumps].) *)
Theorem arm_branch_exact m addr t i type flags :
  is_word 32 i -> getTypeInArm i = type -> type = B_ARM \/ type = BL_ARM \/ type = BLX_ARM ->
  condition_passed flags (i / 2 ^ 28) = true ->
  exists words, relocate_arm m (u32 (addr + 8)) i = Ok words /\
    arm_run t None words = Some (u32 (arm_next flags type addr i),
      if decide (type = B_ARM) then None
      else Some (u32 (t + 4 * Z.of_nat (length words)))).
Proof. intros Hi Ht Hty Hc. unfold arm_next. rewrite Hc. by apply arm_branch_jumps. Qed.

(** Relocation drops the condition of an ARM branch: the stored words do not
    depend on the condition field, so [BEQ] is relocated as an unconditional
    [B]. *)
Theorem arm_condition_dropped m pc i i' :
  i mod 2 ^ 28 = i' mod 2 ^ 28 -> getTypeInArm i = B_ARM -> getTypeInArm i' = B_ARM ->
  relocate_arm m pc i = relocate_arm m pc i'.
Proof.
  intros Hi Ht Ht'. unfold relocate_arm. rewrite Ht, Ht'. cbv iota zeta. rewrite !arm_x.
  replace (i mod 2 ^ 24) with (i' mod 2 ^ 24); [done|].
  assert (H : forall x, x mod 2 ^ 24 = (x mod 2 ^ 28) mod 2 ^ 24).
  { intros x. change (2 ^ 28) with (2 ^ 24 * 2 ^ 4). rewrite Z.rem_mul_r by lia.
    rewrite Z.mul_comm, Z_mod_plus_full. symmetry. apply Zmod_mod. }
  by rewrite (H i), (H i'), Hi.
Qed.

(** [BEQ] to 0x8048 at 0x8000, with Z clear: the processor goes on at 0x8004, the stored words
    to 0x8048. *)
Lemma arm_not_taken_jumps :
  let flags := {| flag_n := false; flag_z := false; flag_c := false; flag_v := false |} in
  arm_next flags B_ARM 0x8000 0x0A000010 = 0x8004 /\
  exists words, relocate_arm ∅ (u32 (0x8000 + 8)) 0x0A000010 = Ok words /\ arm_run 0x9000 None words = Some (0x8048, None).
Proof. split; [reflexivity|]. exists [0xE51FF004; 0x8048]. split; vm_compute; reflexivity. Qed.

(** *** Thumb *)

(** Executing the half-words a relocated Thumb branch stores, at address [t]: a
    conditional branch with displacement 0 (to [t + 4]), [B] to [PC + 6],
    [ADD.W LR, PC, #9] and [LDR.W PC, [PC]]; the literal of the latter is at the
    aligned PC. *)
Inductive thumb_outcome := Jump (dest : Z) (lr : option Z) | Fall (next : Z).

Definition is_cond (h : Z) : bool :=
  ((h .& 0xF0FF) =? 0xD000) || ((h .& 0xF5F8) =? 0xB100).

Fixpoint thumb_run (taken : bool) (t : Z) (lr : option Z) (hs : list Z) : option thumb_outcome :=
  match hs with
  | [] => None
  | h :: hs1 =>
      if h =? 0xF20F then
        match hs1 with
        | h2 :: hs2 => if h2 =? 0x0E09
                       then thumb_run taken (t + 4) (Some (ALIGN_PC (t + 4) + 9)) hs2 else None
        | [] => None
        end
      else if h =? 0xF8DF then
        match hs1 with
        | h2 :: lo :: hi :: _ =>
            if (h2 =? 0xF000) && (t mod 4 =? 0) then Some (Jump (lo + 2 ^ 16 * hi) lr) else None
        | _ => None
        end
      else if h =? 0xE003 then Some (Fall (t + 4 + 6))
      else if is_cond h then
        if taken then match hs1 with _ :: hs2 => thumb_run taken (t + 4) lr hs2 | [] => None end
        else thumb_run taken (t + 2) lr hs1
      else None
  end.

Lemma halves_sum v : (v .& 0xFFFF) + 2 ^ 16 * (v .>> 16) = v.
Proof.
  change 0xFFFF with (Z.ones 16). rewrite land_ones_mod, Z.shiftr_div_pow2 by lia.
  pose proof (Z.div_mod v (2 ^ 16) ltac:(lia)). lia.
Qed.

(** Destinations: [B<c>] (8 bits), [B] (11 bits) and [CB{N}Z] (6 bits, forward). *)
Definition thumb16_dest (type : INSTRUCTION_TYPE) (addr i : Z) : Z :=
  match type with
  | B1_THUMB16 => addr + 4 + 2 * swrap 8 (i mod 2 ^ 8)
  | B2_THUMB16 => addr + 4 + 2 * swrap 11 (i mod 2 ^ 11)
  | _ => addr + 4 + 2 * (32 * b2z (Z.testbit i 9) + i / 8 mod 32)
  end.

(** The stored branch is a conditional branch with displacement 0. *)
Definition plain_cond (h : Z) : bool :=
  is_cond h && negb (h =? 0xF20F) && negb (h =? 0xF8DF) && negb (h =? 0xE003).

(** Facts about every 16-bit branch, by computation. *)
Definition check16 (i : Z) : bool :=
  match getTypeInThumb16 i with
  | B1_THUMB16 =>
      let x := (i .& 0xFF) .<< 1 in
      plain_cond (i .& 0xFF00) &&
      (u32 (sign_bits (x .>> 8) x 8) =? u32 (2 * swrap 8 (i mod 2 ^ 8)))
  | B2_THUMB16 =>
      let x := (i .& 0x7FF) .<< 1 in
      u32 (sign_bits (x .>> 11) x 11) =? u32 (2 * swrap 11 (i mod 2 ^ 11))
  | CB_THUMB16 =>
      plain_cond (i .& 0xFD07) &&
      ((((i .& 0x200) .>> 3) .| ((i .& 0xF8) .>> 2)) =?
         2 * (32 * b2z (Z.testbit i 9) + i / 8 mod 32))
  | _ => true
  end.

Lemma check16_ok i : is_word 16 i -> check16 i = true.
Proof. revert i. apply (range_check_Z _ 65536). vm_compute. reflexivity. Qed.

Lemma plain_cond_run taken t lr h hs :
  plain_cond h = true ->
  thumb_run taken t lr (h :: hs) =
    if taken then match hs with _ :: hs2 => thumb_run taken (t + 4) lr hs2 | [] => None end
    else thumb_run taken (t + 2) lr hs.
Proof.
  unfold plain_cond. rewrite !andb_true_iff, !negb_true_iff. intros (((Hc & H1) & H2) & H3).
  cbn [thumb_run]. by rewrite H1, H2, H3, Hc.
Qed.

(** The four half-words of a jump, at an aligned address. *)
Lemma thumb_jump_run taken t lr v :
  t mod 4 = 0 -> thumb_run taken t lr ([0xF8DF; 0xF000] ++ halves v) = Some (Jump v lr).
Proof.
  intros Ht. cbn [thumb_run app halves Z.eqb Pos.eqb]. rewrite Ht. cbn [andb Z.eqb].
  by rewrite halves_sum.
Qed.

Lemma lor_1 v : v mod 2 = 0 -> v .| 1 = v + 1.
Proof.
  intros Hv. rewrite Z.lor_comm. replace v with ((v / 2) .<< 1) at 1.
  - rewrite lor_add_disjoint by (unfold is_word; lia).
    pose proof (Z.div_mod v 2 ltac:(lia)). lia.
  - rewrite Z.shiftl_mul_pow2 by lia. pose proof (Z.div_mod v 2 ltac:(lia)). lia.
Qed.

Lemma u32_even v : v mod 2 = 0 -> u32 v mod 2 = 0.
Proof.
  intros Hv. unfold uwrap. change (2 ^ 32) with (2 * 2 ^ 31).
  rewrite Z.rem_mul_r, Hv by lia. rewrite Z.add_0_l, Z.mul_comm. apply Z_mod_mult.
Qed.

Lemma mod4_up t k : t mod 4 = 0 -> k mod 4 = 0 -> (t + k) mod 4 = 0.
Proof. intros Ht Hk. rewrite Z.add_mod, Ht, Hk by lia. done. Qed.

(** The literal [value | 1] of a displacement [2 * d]. *)
Lemma thumb_value addr x d :
  addr mod 2 = 0 -> u32 x = u32 (2 * d) ->
  u32 (u32 (addr + 4) + x) .| 1 = u32 (u32 (addr + 4 + 2 * d) + 1).
Proof.
  intros Ha Hx. rewrite uwrap_add_l, <- uwrap_add_r, Hx, uwrap_add_r.
  assert (Heven : u32 (addr + 4 + 2 * d) mod 2 = 0).
  { apply u32_even. replace (addr + 4 + 2 * d) with (addr + (2 + d) * 2) by lia.
    by rewrite Z_mod_plus_full. }
  rewrite lor_1 by done. pose proof (uwrap_range 32 (addr + 4 + 2 * d) ltac:(lia)) as Hr.
  set (v := u32 (addr + 4 + 2 * d)) in *. symmetry. apply uwrap_small.
  assert (v <> 2 ^ 32 - 1) by (intros ->; done). lia.
Qed.


(** The 32-bit branches: 25-bit displacements [S:I1:I2:imm10:imm11:0] of [BL],
    [B] (T4) and [BLX], 21-bit ones [S:J2:J1:imm6:imm11:0] of [B<c>] (T3). *)
Definition disp25 (hi lo imm : Z) : Z :=
  let s := Z.testbit hi 10 in
  swrap 25 (2 ^ 24 * b2z s + 2 ^ 23 * b2z (eqb (Z.testbit lo 13) s)
            + 2 ^ 22 * b2z (eqb (Z.testbit lo 11) s) + 2 ^ 12 * (hi mod 2 ^ 10) + imm).
Definition disp21 (hi lo : Z) : Z :=
  swrap 21 (2 ^ 20 * b2z (Z.testbit hi 10) + 2 ^ 19 * b2z (Z.testbit lo 11)
            + 2 ^ 18 * b2z (Z.testbit lo 13) + 2 ^ 12 * (hi mod 2 ^ 6) + 2 * (lo mod 2 ^ 11)).

Definition thumb32_dest (type : INSTRUCTION_TYPE) (addr hi lo : Z) : Z :=
  match type with
  | BLX_THUMB32 => addr + 4 - (addr + 4) mod 4 + disp25 hi lo (4 * (lo / 2 mod 2 ^ 10))
  | B1_THUMB32 => addr + 4 + disp21 hi lo + 1
  | _ => addr + 4 + disp25 hi lo (2 * (lo mod 2 ^ 11)) + 1
  end.

Lemma ALIGN_PC_spec x : is_word 32 x -> ALIGN_PC x = x - x mod 4.
Proof. intros Hx. unfold ALIGN_PC. change 0xFFFFFFFC with (2 ^ 32 - 2 ^ 2). apply (land_high 32 2); [lia|done]. Qed.

Lemma field_sum a b n : is_word n a -> 0 <= n -> (b .<< n) .| a = a + 2 ^ n * b.
Proof. intros Ha Hn. rewrite Z.lor_comm, lor_add_disjoint by done. ring. Qed.

(** A displacement put together from bit fields is their sum. *)
Lemma fields_sum s a b h l k :
  0 <= s < 2 -> 0 <= a < 2 -> 0 <= b < 2 -> is_word (k - 12) h -> 12 <= k -> is_word 12 l ->
  let x := (s .<< (k + 2)) .| (a .<< (k + 1)) .| (b .<< k) .| (h .<< 12) .| l in
  x = 2 ^ (k + 2) * s + 2 ^ (k + 1) * a + 2 ^ k * b + 2 ^ 12 * h + l /\ is_word (k + 3) x.
Proof.
  intros Hs Ha Hb Hh Hk Hl x. unfold is_word in *.
  assert (Hpk : 2 ^ k = 2 ^ 12 * 2 ^ (k - 12)) by (rewrite <- Z.pow_add_r by lia; f_equal; lia).
  assert (H1 : 2 ^ (k + 1) = 2 ^ k * 2) by (rewrite Z.pow_add_r by lia; done).
  assert (H2 : 2 ^ (k + 2) = 2 ^ k * 4) by (rewrite Z.pow_add_r by lia; done).
  assert (H3 : 2 ^ (k + 3) = 2 ^ k * 8) by (rewrite Z.pow_add_r by lia; done).
  assert (Hx : x = 2 ^ (k + 2) * s + 2 ^ (k + 1) * a + 2 ^ k * b + 2 ^ 12 * h + l).
  { unfold x. rewrite <- !Z.lor_assoc, (field_sum l h) by (done || lia).
    rewrite (field_sum _ b k) by (unfold is_word; lia).
    rewrite (field_sum _ a) by (unfold is_word; nia).
    rewrite (field_sum _ s) by (unfold is_word; nia). ring. }
  split; [done|]. rewrite Hx, H1, H2, H3, Hpk. nia.
Qed.

Lemma sign_field k s x :
  0 < k + 3 < 32 -> 0 <= s < 2 -> is_word (k + 2) (x - 2 ^ (k + 2) * s) -> is_word (k + 3) x ->
  u32 (sign_bits s x (k + 3)) = u32 (swrap (k + 3) x).
Proof.
  intros Hk Hs Hr Hx. unfold sign_bits, is_word in *.
  rewrite <- (sign_extend (k + 3) (k + 3)) by (done || by left).
  replace (k + 3 - 1) with (k + 2) by lia. rewrite (Z.shiftr_div_pow2 x) by lia.
  replace (x / 2 ^ (k + 2)) with s; [done|].
  apply Z.div_unique with (x - 2 ^ (k + 2) * s); lia.
Qed.

Lemma lnot_xor a b : lnot (b2z a .^ b2z b) = b2z (eqb a b).
Proof. by destruct a, b. Qed.

Definition check_hi (i : Z) : bool :=
  (((i .& 0x3FF) .<< 12) =? ((i mod 2 ^ 10) .<< 12)) && (((i .& 0x3F) .<< 12) =? ((i mod 2 ^ 6) .<< 12))
  && plain_cond (0xD000 .| ((i .& 0x3C0) .<< 2)).
Definition check_lo (i : Z) : bool :=
  (((i .& 0x7FE) .<< 1) =? 4 * (i / 2 mod 2 ^ 10)) && (((i .& 0x7FF) .<< 1) =? 2 * (i mod 2 ^ 11)).

Lemma check_hi_ok i : is_word 16 i -> check_hi i = true.
Proof. revert i. apply (range_check_Z _ 65536). vm_compute. reflexivity. Qed.
Lemma check_lo_ok i : is_word 16 i -> check_lo i = true.
Proof. revert i. apply (range_check_Z _ 65536). vm_compute. reflexivity. Qed.

(** The code's sign-extended displacement is the manual's. *)
Lemma disp_field k s h a b l :
  12 <= k -> k + 3 < 32 -> is_word (k - 12) h -> is_word 12 l ->
  u32 (sign_bits (b2z s)
        ((b2z s .<< (k + 2)) .| (b2z a .<< (k + 1)) .| (b2z b .<< k) .| (h .<< 12) .| l) (k + 3)) =
  u32 (swrap (k + 3) (2 ^ (k + 2) * b2z s + 2 ^ (k + 1) * b2z a + 2 ^ k * b2z b + 2 ^ 12 * h + l)).
Proof.
  intros Hk Hk32 Hh Hl.
  assert (Hb : forall c, 0 <= b2z c < 2) by (intros []; simpl; lia).
  destruct (fields_sum (b2z s) (b2z a) (b2z b) h l k) as [Hx Hw]; try (done || apply Hb).
  rewrite sign_field; [by rewrite Hx|lia|apply Hb| |done].
  rewrite Hx. pose proof (Hb a). pose proof (Hb b). unfold is_word in *.
  assert (Hpk : 2 ^ k = 2 ^ 12 * 2 ^ (k - 12)) by (rewrite <- Z.pow_add_r by lia; f_equal; lia).
  assert (H1 : 2 ^ (k + 1) = 2 ^ k * 2) by (rewrite Z.pow_add_r by lia; done).
  assert (H2 : 2 ^ (k + 2) = 2 ^ k * 4) by (rewrite Z.pow_add_r by lia; done).
  rewrite H1, H2, Hpk. nia.
Qed.

(** The literal of a 32-bit branch: [ALIGN_PC(pc)] plus the displacement. *)
Lemma align_value addr imm d k :
  addr mod 2 = 0 -> u32 imm = u32 d ->
  u32 (ALIGN_PC (u32 (addr + 4)) + imm + k) = u32 (addr + 4 - (addr + 4) mod 4 + d + k).
Proof.
  intros Ha Hd. rewrite ALIGN_PC_spec by (apply uwrap_range; lia).
  assert (Hm : u32 (addr + 4) mod 4 = (addr + 4) mod 4).
  { unfold uwrap. change (2 ^ 32) with (4 * 2 ^ 30). rewrite Z.rem_mul_r by lia.
    rewrite Z.mul_comm, Z_mod_plus_full. apply Zmod_mod. }
  rewrite Hm. set (q := (addr + 4) mod 4).
  replace (u32 (addr + 4) - q + imm + k) with (imm + (u32 (addr + 4) - q + k)) by ring.
  rewrite <- uwrap_add_l, Hd, uwrap_add_l.
  replace (d + (u32 (addr + 4) - q + k)) with (u32 (addr + 4) + (d - q + k)) by ring.
  rewrite uwrap_add_l. f_equal. ring.
Qed.

Ltac compute_decide :=
  repeat match goal with
  | |- context [bool_decide ?P] =>
      let b := eval vm_compute in (bool_decide P) in change (bool_decide P) with b
  end.

(** What the stored half-words do in general: [ALIGN_PC] is applied to the PC of
    every 32-bit branch. *)
Lemma thumb32_branch m addr t hi lo type taken :
  is_word 16 hi -> is_word 16 lo -> addr mod 2 = 0 -> t mod 4 = 0 -> 0 <= t < 2 ^ 32 - 4 ->
  getTypeInThumb32 ((hi .<< 16) .| lo) = type ->
  type ∈ [BLX_THUMB32; BL_THUMB32; B1_THUMB32; B2_THUMB32] ->
  exists hs, relocateInstructionInThumb32 m (u32 (addr + 4)) hi lo = Ok hs /\
    thumb_run taken t None hs =
      Some (if taken || negb (bool_decide (type = B1_THUMB32))
            then Jump (u32 (thumb32_dest type addr hi lo -
                            if bool_decide (type = BLX_THUMB32) then 0 else (addr + 4) mod 4))
                   (if bool_decide (type = BLX_THUMB32 \/ type = BL_THUMB32)
                    then Some (t + 2 * Z.of_nat (length hs) + 1) else None)
            else Fall (t + 2 * Z.of_nat (length hs))).
Proof.
  intros Hhi Hlo Ha Ht Ht32 Hty Hcase.
  pose proof (check_hi_ok hi Hhi) as Hch. pose proof (check_lo_ok lo Hlo) as Hcl.
  unfold check_hi in Hch. unfold check_lo in Hcl.
  apply andb_true_iff in Hch as [[H10%Z.eqb_eq H6%Z.eqb_eq]%andb_true_iff Hcond].
  apply andb_true_iff in Hcl as [Hl10%Z.eqb_eq Hl11%Z.eqb_eq].
  pose proof (Z.mod_pos_bound hi (2 ^ 10) ltac:(lia)) as Hm10.
  pose proof (Z.mod_pos_bound hi (2 ^ 6) ltac:(lia)) as Hm6.
  pose proof (Z.mod_pos_bound lo (2 ^ 11) ltac:(lia)) as Hm11.
  pose proof (Z.mod_pos_bound (lo / 2) (2 ^ 10) ltac:(lia)) as Hm10'.
  assert (Hlr : ALIGN_PC (t + 4) + 9 = t + 13).
  { rewrite ALIGN_PC_spec by (unfold is_word; lia). rewrite (mod4_up t 4) by done. lia. }
  assert (Ht4 : (t + 4) mod 4 = 0) by by apply mod4_up.
  unfold relocateInstructionInThumb32. rewrite Hty. cbv zeta.
  change 0x2000 with (2 ^ 13). change 0x800 with (2 ^ 11). change 0x400 with (2 ^ 10).
  rewrite !bit_at by lia. rewrite ?lnot_xor, H10, H6, Hl10, Hl11.
  assert (H25 : forall l, is_word 12 l ->
    u32 (sign_bits (b2z (Z.testbit hi 10))
      ((b2z (Z.testbit hi 10) .<< 24) .| (b2z (eqb (Z.testbit lo 13) (Z.testbit hi 10)) .<< 23)
       .| (b2z (eqb (Z.testbit lo 11) (Z.testbit hi 10)) .<< 22) .| ((hi mod 2 ^ 10) .<< 12) .| l) 25)
    = u32 (disp25 hi lo l)).
  { intros l Hl. apply (disp_field 22); (lia || done). }
  rewrite !elem_of_cons, elem_of_nil in Hcase.
  destruct Hcase as [-> | [-> | [-> | [-> | []]]]]; cbv iota; eexists; (split; [done|]).
  - change (?a ++ ?b ++ ?c) with (0xF20F :: 0x0E09 :: b ++ c). cbn [thumb_run Z.eqb Pos.eqb].
    rewrite thumb_jump_run, Hlr by done. compute_decide. rewrite orb_true_r.
    do 2 f_equal; [|f_equal; unfold halves; simpl length; lia].
    pose proof (align_value _ _ _ 0 Ha (H25 (4 * (lo / 2 mod 2 ^ 10)) ltac:(unfold is_word; lia))) as Hv.
    rewrite !Z.add_0_r in Hv. rewrite Hv.
    f_equal. unfold thumb32_dest. lia.
  - change (?a ++ ?b ++ ?c) with (0xF20F :: 0x0E09 :: b ++ c). cbn [thumb_run Z.eqb Pos.eqb].
    rewrite thumb_jump_run, Hlr by done. compute_decide. rewrite orb_true_r.
    do 2 f_equal; [|f_equal; unfold halves; simpl length; lia].
    rewrite (align_value _ _ _ _ Ha (H25 (2 * (lo mod 2 ^ 11)) ltac:(unfold is_word; lia))).
    f_equal. unfold thumb32_dest. lia.
  - change ([?a; ?b] ++ ?c) with (a :: b :: c). rewrite plain_cond_run by done.
    compute_decide.
    destruct taken; cbn [orb negb].
    + rewrite thumb_jump_run by done. do 2 f_equal.
      rewrite (align_value _ _ (disp21 hi lo) _ Ha).
      * f_equal. unfold thumb32_dest. lia.
      * apply (disp_field 18); (lia || (unfold is_word; lia)).
    + cbn. do 2 f_equal. lia.
  - rewrite thumb_jump_run by done. compute_decide. rewrite orb_true_r.
    do 2 f_equal. rewrite (align_value _ _ _ _ Ha (H25 (2 * (lo mod 2 ^ 11)) ltac:(unfold is_word; lia))).
    f_equal. unfold thumb32_dest. lia.
Qed.

(** C36: A relocated 32-bit Thumb branch goes where the original went when the
    original is word-aligned, and [BLX] always does; a call returns behind the
    stored half-words, in Thumb state. *)
Theorem thumb32_branch_exact m addr t hi lo type taken :
  is_word 16 hi -> is_word 16 lo -> addr mod 2 = 0 -> t mod 4 = 0 -> 0 <= t < 2 ^ 32 - 4 ->
  getTypeInThumb32 ((hi .<< 16) .| lo) = type ->
  type ∈ [BLX_THUMB32; BL_THUMB32; B1_THUMB32; B2_THUMB32] ->
  type = BLX_THUMB32 \/ addr mod 4 = 0 ->
  exists hs, relocateInstructionInThumb32 m (u32 (addr + 4)) hi lo = Ok hs /\
    thumb_run taken t None hs =
      Some (if taken || negb (bool_decide (type = B1_THUMB32))
            then Jump (u32 (thumb32_dest type addr hi lo))
                   (if bool_decide (type = BLX_THUMB32 \/ type = BL_THUMB32)
                    then Some (t + 2 * Z.of_nat (length hs) + 1) else None)
            else Fall (t + 2 * Z.of_nat (length hs))).
Proof.
  intros Hhi Hlo Ha Ht Ht32 Hty Hcase Hal.
  destruct (thumb32_branch m addr t hi lo type taken Hhi Hlo Ha Ht Ht32 Hty Hcase)
    as (hs & Hr & Hrun).
  exists hs. split; [done|]. rewrite Hrun.
  replace (if bool_decide (type = BLX_THUMB32) then 0 else (addr + 4) mod 4) with 0.
  - by rewrite Z.sub_0_r.
  - destruct Hal as [-> | Hal]; [done|]. rewrite (mod4_up addr 4) by done. by destruct (bool_decide (type = BLX_THUMB32)).
Qed.

(** [BL] and [B.W] at an address that is not word-aligned are relocated two
    bytes short: the code rounds PC down for them as it must for [BLX] only. *)
Theorem thumb32_branch_misaligned m addr t hi lo type :
  is_word 16 hi -> is_word 16 lo -> addr mod 4 = 2 -> t mod 4 = 0 -> 0 <= t < 2 ^ 32 - 4 ->
  getTypeInThumb32 ((hi .<< 16) .| lo) = type -> type ∈ [BL_THUMB32; B2_THUMB32] ->
  exists hs lr, relocateInstructionInThumb32 m (u32 (addr + 4)) hi lo = Ok hs /\
    thumb_run true t None hs = Some (Jump (u32 (thumb32_dest type addr hi lo - 2)) lr).
Proof.
  intros Hhi Hlo Ha Ht Ht32 Hty Hcase.
  assert (Ha2 : addr mod 2 = 0).
  { rewrite (Z.div_mod addr 4), Ha by lia.
    replace (4 * (addr / 4) + 2) with ((2 * (addr / 4) + 1) * 2) by ring. apply Z_mod_mult. }
  destruct (thumb32_branch m addr t hi lo type true Hhi Hlo Ha2 Ht Ht32 Hty) as (hs & Hr & Hrun).
  { set_solver. }
  eexists hs, _. split; [done|]. rewrite Hrun. cbn [orb].
  assert (Hm : (addr + 4) mod 4 = 2) by (rewrite Z.add_mod, Ha by lia; done).
  rewrite Hm, (bool_decide_false (type = BLX_THUMB32)); [done|]. intros ->. set_solver.
Qed.

(** ** The shape of a relocated Thumb function *)

(** The positions (in half-words) at which instructions start, and where the
    relocated part ends: a 32-bit instruction cut off at the end is left out. *)
Fixpoint layout (hs : list Z) (pos : Z) : list Z * Z :=
  match hs with
  | [] => ([], pos)
  | h :: hs' =>
      if is_thumb32 h then
        match hs' with
        | [] => ([pos], pos)
        | _ :: hs'' => let '(s, e) := layout hs'' (pos + 2) in (pos :: s, e)
        end
      else let '(s, e) := layout hs' (pos + 1) in (pos :: s, e)
  end.

(** Every instruction can be relocated: no literal load is out of memory. *)
Definition relocatable (m : mem) (hs : list Z) : Prop :=
  (forall pc h, h ∈ hs -> exists out, relocateInstructionInThumb16 m pc h = Ok out) /\
  (forall pc h l, h ∈ hs -> l ∈ hs -> exists out, relocateInstructionInThumb32 m pc h l = Ok out).

Lemma relocatable_tail m h hs : relocatable m (h :: hs) -> relocatable m hs.
Proof.
  intros [H1 H2]. split; intros; [apply H1|apply H2]; set_solver.
Qed.

Lemma layout_end hs pos : Z.of_nat (length hs) - 1 <= (layout hs pos).2 - pos <= Z.of_nat (length hs).
Proof.
  revert pos. induction hs as [hs IH] using (induction_ltof1 _ (@length Z)). intros pos.
  destruct hs as [|h [|l hs]]; simpl.
  - lia.
  - destruct (is_thumb32 h); simpl; lia.
  - destruct (is_thumb32 h).
    + pose proof (IH hs ltac:(unfold ltof; simpl; lia) (pos + 2)) as H.
      destruct (layout hs (pos + 2)). simpl in *. lia.
    + pose proof (IH (l :: hs) ltac:(unfold ltof; simpl; lia) (pos + 1)) as H. simpl in H.
      destruct (is_thumb32 l); [destruct hs as [|l2 hs]; [|destruct (layout hs _)]|destruct (layout hs _)];
        simpl in *; lia.
Qed.

(** The boundaries recorded so far, and the [n] slots for more. *)
Definition room_for (n : Z) (b : boundaries) : Prop :=
  0 <= count b /\ count b + n <= Z.of_nat (length (orig_b b)) /\
  count b + n <= Z.of_nat (length (tramp_b b)).

Lemma add_boundary_ok o t b :
  room_for 1 b -> exists b', add_boundary o t b = Ok b' /\ count b' = count b + 1 /\
    length (orig_b b') = length (orig_b b) /\ length (tramp_b b') = length (tramp_b b) /\
    take (Z.to_nat (count b')) (orig_b b') = take (Z.to_nat (count b)) (orig_b b) ++ [o].
Proof.
  intros (H0 & Ho & Ht). unfold add_boundary, list_set.
  rewrite !decide_True by lia. eexists. split; [done|]. cbn [count orig_b tramp_b].
  split; [done|]. split; [apply length_insert|]. split; [apply length_insert|].
  replace (Z.to_nat (count b + 1)) with (S (Z.to_nat (count b))) by lia.
  rewrite (take_S_r _ _ o) by (rewrite list_lookup_insert_eq; [done|lia]).
  by rewrite take_insert_ge by lia.
Qed.

Lemma add_boundary_full o t b :
  0 <= count b -> Z.of_nat (length (orig_b b)) <= count b -> add_boundary o t b = Fault.
Proof. intros H0 Hf. unfold add_boundary, list_set. by rewrite decide_False by lia. Qed.

(** The loop over the half-words [orig] from position [pos] on. *)
Lemma thumb_loop_layout m orig fuel pos pc tramp b :
  relocatable m orig -> 0 <= pos < Z.of_nat (length orig) ->
  Z.of_nat (length orig) - pos <= Z.of_nat fuel -> 0 <= count b ->
  (length (tramp_b b) >= length (orig_b b))%nat ->
  let '(starts, end_) := layout (drop (Z.to_nat pos) orig) pos in
  if decide (count b + Z.of_nat (length starts) <= Z.of_nat (length (orig_b b)))
  then exists tramp' b', thumb_loop fuel m orig (2 * Z.of_nat (length orig)) pc pos tramp b =
         Ok (end_, tramp', b') /\ count b' = count b + Z.of_nat (length starts) /\
         take (Z.to_nat (count b')) (orig_b b') =
           take (Z.to_nat (count b)) (orig_b b) ++ (Z.mul 2 <$> starts)
  else thumb_loop fuel m orig (2 * Z.of_nat (length orig)) pc pos tramp b = Fault.
Proof.
  intros Hrel. revert pos pc tramp b.
  induction fuel as [|fuel IH]; intros pos pc tramp b Hpos Hf Hc Hlen; [lia|].
  destruct (drop (Z.to_nat pos) orig) as [|h rest] eqn:Hd.
  { apply (f_equal length) in Hd. rewrite length_drop in Hd. simpl in Hd. lia. }
  assert (Hh : orig !! Z.to_nat pos = Some h).
  { rewrite <- (Nat.add_0_r (Z.to_nat pos)), <- lookup_drop, Hd. done. }
  assert (Hrest : rest = drop (Z.to_nat (pos + 1)) orig).
  { replace (Z.to_nat (pos + 1)) with (Z.to_nat pos + 1)%nat by lia.
    by rewrite <- drop_drop, Hd. }
  assert (Hlr : Z.of_nat (length rest) = Z.of_nat (length orig) - pos - 1).
  { rewrite Hrest, length_drop. lia. }
  assert (Hhin : h ∈ orig) by (by eapply list_elem_of_lookup_2).
  cbn [thumb_loop]. replace (2 * Z.of_nat (length orig) / 2) with (Z.of_nat (length orig))
    by (rewrite Z.mul_comm, Z.div_mul; lia).
  destruct (decide (count b < Z.of_nat (length (orig_b b)))) as [Hroom|Hroom].
  2:{ rewrite add_boundary_full by lia. cbn [rbind layout].
      destruct (is_thumb32 h); [destruct rest as [|l rest']|]; try destruct (layout _ _);
        cbn [length]; by rewrite decide_False by lia. }
  destruct (add_boundary_ok (pos * 2) (Z.of_nat (length tramp) * 2) b)
    as (b1 & -> & Hc1 & Ho1 & Ht1 & Htk1); [unfold room_for; lia|].
  cbn [rbind]. rewrite Hh. cbn [of_opt rbind layout].
  destruct (is_thumb32 h).
  - destruct rest as [|l rest'].
    + simpl in Hlr. rewrite decide_True by (simpl; lia). destruct (Z.ltb_spec (Z.of_nat (length orig)) (pos + 2)); [|lia].
      eexists _, _. split; [done|]. split; [simpl; lia|]. rewrite Htk1. simpl. by rewrite Z.mul_comm.
    + simpl in Hlr. destruct (Z.ltb_spec (Z.of_nat (length orig)) (pos + 2)); [lia|].
      assert (Hl : orig !! Z.to_nat (pos + 1) = Some l).
      { rewrite <- (Nat.add_0_r (Z.to_nat (pos + 1))), <- lookup_drop, <- Hrest. done. }
      rewrite Hl. cbn [of_opt rbind].
      destruct (proj2 Hrel pc h l Hhin) as [out ->]; [by eapply list_elem_of_lookup_2|]. cbn [rbind].
      assert (Hrest' : rest' = drop (Z.to_nat (pos + 2)) orig).
      { replace (Z.to_nat (pos + 2)) with (Z.to_nat (pos + 1) + 1)%nat by lia.
        by rewrite <- drop_drop, <- Hrest. }
      destruct (Z.leb_spec (Z.of_nat (length orig)) (pos + 2)).
      * destruct rest'; [|simpl in Hlr; lia]. cbn [layout length].
        rewrite decide_True by lia. eexists _, _. split; [done|]. split; [lia|].
        rewrite Htk1. simpl. by rewrite Z.mul_comm.
      * specialize (IH (pos + 2) (u32 (pc + 4)) (tramp ++ out) b1). rewrite <- Hrest' in IH.
        destruct (layout rest' (pos + 2)) as [s e]. cbn [length] in *.
        specialize (IH ltac:(lia) ltac:(lia) ltac:(lia) ltac:(lia)). rewrite Ho1, Hc1 in IH.
        destruct (decide (count b + 1 + Z.of_nat (length s) <= _)).
        -- rewrite decide_True by lia. destruct IH as (tr & b' & -> & Hc' & Htk').
           exists tr, b'. split; [done|]. split; [lia|]. rewrite Htk', <- Hc1, Htk1, <- app_assoc. simpl.
           by rewrite Z.mul_comm.
        -- rewrite decide_False by lia. done.
  - destruct (proj1 Hrel pc h Hhin) as [out ->]. cbn [rbind].
    destruct (Z.leb_spec (Z.of_nat (length orig)) (pos + 1)).
    + destruct rest; [|simpl in Hlr; lia]. cbn [layout length].
      rewrite decide_True by lia. eexists _, _. split; [done|]. split; [lia|].
      rewrite Htk1. simpl. by rewrite Z.mul_comm.
    + specialize (IH (pos + 1) (u32 (pc + 2)) (tramp ++ out) b1). rewrite <- Hrest in IH.
      destruct (layout rest (pos + 1)) as [s e]. cbn [length] in *.
      specialize (IH ltac:(lia) ltac:(lia) ltac:(lia) ltac:(lia)). rewrite Ho1, Hc1 in IH.
      destruct (decide (count b + 1 + Z.of_nat (length s) <= _)).
      * rewrite decide_True by lia. destruct IH as (tr & b' & -> & Hc' & Htk').
        exists tr, b'. split; [done|]. split; [lia|]. rewrite Htk', <- Hc1, Htk1, <- app_assoc. simpl.
        by rewrite Z.mul_comm.
      * rewrite decide_False by lia. done.
Qed.

(** A hook item that has no boundaries yet. *)
Definition fresh_boundaries (b : boundaries) : Prop :=
  count b = 0 /\ length (orig_b b) = 4%nat /\ length (tramp_b b) = 20%nat.


(** A Thumb function whose first 12 bytes hold five or six instructions
    overruns [orig_boundaries\[4\]]. *)
Theorem thumb_boundaries_overflow m target orig b :
  relocatable m orig -> length orig = 6%nat -> fresh_boundaries b ->
  (4 < length (layout orig 0).1)%nat ->
  relocateInstructionInThumb m target orig 12 b = Fault.
Proof.
  intros Hrel Hlen (Hc & Ho & Ht) Hl.
  pose proof (thumb_loop_layout m orig 7 0 (u32 (target + 4)) [] b Hrel) as Hloop.
  unfold relocateInstructionInThumb. change (S (Z.to_nat (12 / 2))) with 7%nat.
  rewrite Hlen, Ho, Ht, Hc in *. change (2 * Z.of_nat 6) with 12 in Hloop.
  specialize (Hloop ltac:(lia) ltac:(lia) ltac:(lia) ltac:(lia)).
  change (drop (Z.to_nat 0) orig) with orig in Hloop.
  destruct (layout orig 0) as [s e]. cbn [fst snd] in *.
  rewrite decide_False in Hloop by lia. by rewrite Hloop.
Qed.

(** ** Witnesses *)

Lemma relocatable_plain m hs :
  forallb (fun h => negb (bool_decide (getTypeInThumb16 h = LDR_THUMB16))) hs = true ->
  forallb (fun h => forallb (fun l =>
    negb (bool_decide (getTypeInThumb32 ((h .<< 16) .| l) = LDR_THUMB32))) hs) hs = true ->
  relocatable m hs.
Proof.
  rewrite !forallb_forall. intros H1 H2. split.
  - intros pc h Hh%list_elem_of_In. specialize (H1 h Hh).
    unfold relocateInstructionInThumb16. revert H1. destruct (getTypeInThumb16 h); intros H1; first [discriminate H1 | by eexists].
  - intros pc h l Hh%list_elem_of_In Hl%list_elem_of_In. specialize (H2 h Hh).
    rewrite forallb_forall in H2. specialize (H2 l Hl).
    unfold relocateInstructionInThumb32.
    revert H2. destruct (getTypeInThumb32 ((h .<< 16) .| l)); intros H2; first [discriminate H2 | by eexists].
Qed.

Definition new_boundaries : boundaries :=
  {| orig_b := replicate 4 0; tramp_b := replicate 20 0; count := 0 |}.

(** PUSH.W; MOV; SUB.W; MOV, in six half-words; and six 16-bit instructions. *)
Definition demo_thumb : list Z := [0xE92D; 0x41F0; 0x4604; 0xF1A0; 0x0001; 0x460D].
Definition demo_thumb16 : list Z := [0xB510; 0x4604; 0x460D; 0x3001; 0x3102; 0x4410].

(** [BLNE] with Z clear. *)
Lemma arm_branch_exact_witness :
  let flags := {| flag_n := false; flag_z := false; flag_c := false; flag_v := false |} in
  exists words, relocate_arm ∅ (u32 (0x8000 + 8)) 0x1BFFFFFE = Ok words /\
    arm_run 0x9000 None words = Some (u32 (arm_next flags BL_ARM 0x8000 0x1BFFFFFE),
      if decide (BL_ARM = B_ARM) then None
      else Some (u32 (0x9000 + 4 * Z.of_nat (length words)))).
Proof. apply arm_branch_exact; [by vm_compute|reflexivity|by right; left|reflexivity]. Defined.

Lemma arm_condition_dropped_witness :
  relocate_arm ∅ 0x8008 0x0A000010 = relocate_arm ∅ 0x8008 0xEA000010.
Proof. apply arm_condition_dropped; reflexivity. Defined.


Lemma thumb32_branch_exact_witness :
  exists hs, relocateInstructionInThumb32 ∅ (u32 (0x8000 + 4)) 0xF7FF 0xFFFE = Ok hs /\
    thumb_run true 0x9000 None hs =
      Some (if true || negb (bool_decide (BL_THUMB32 = B1_THUMB32))
            then Jump (u32 (thumb32_dest BL_THUMB32 0x8000 0xF7FF 0xFFFE))
                   (if bool_decide (BL_THUMB32 = BLX_THUMB32 \/ BL_THUMB32 = BL_THUMB32)
                    then Some (0x9000 + 2 * Z.of_nat (length hs) + 1) else None)
            else Fall (0x9000 + 2 * Z.of_nat (length hs))).
Proof.
  apply thumb32_branch_exact; try reflexivity; try by vm_compute.
  - apply elem_of_cons. right. apply elem_of_cons. by left.
  - by right.
Defined.

Lemma thumb32_branch_misaligned_witness :
  exists hs lr, relocateInstructionInThumb32 ∅ (u32 (0x8002 + 4)) 0xF7FF 0xFFFE = Ok hs /\
    thumb_run true 0x9000 None hs =
      Some (Jump (u32 (thumb32_dest BL_THUMB32 0x8002 0xF7FF 0xFFFE - 2)) lr).
Proof.
  apply thumb32_branch_misaligned; try reflexivity; try by vm_compute.
  - apply elem_of_cons. by left.
Defined.


Lemma thumb_boundaries_overflow_witness :
  relocateInstructionInThumb ∅ 0x8000 demo_thumb16 12 new_boundaries = Fault.
Proof.
  apply thumb_boundaries_overflow; [by apply relocatable_plain; vm_compute|reflexivity|done|].
  vm_compute. lia.
Defined.
