(* ===== verification/InlineHook32.v ===== *)
(** inline32/inlineHook.c: the registry of inline hooks of 32-bit processes, and
    the patching of a function's first instructions.  Memory is that of
    Memory.v; [mprotect] is taken to succeed, [mmap] is a parameter.  The thread
    stopping code is compiled but its calls are commented out in the source;
    only [doProcessThreadPC] of it is modelled. *)
From S2P Require Import Prelude Memory CString StackRange32 Relocate32.

Definition PAGE_SIZE : Z := 4096.
Definition CLEAR_BIT0 (addr : Z) : Z := addr .& 0xFFFFFFFE.
Definition SET_BIT0 (addr : Z) : Z := addr .| 1.
Definition TEST_BIT0 (addr : Z) : bool := truthy (addr .& 1).

Inductive ele7en_status :=
| ELE7EN_ERROR_UNKNOWN | ELE7EN_OK | ELE7EN_ERROR_NOT_INITIALIZED | ELE7EN_ERROR_NOT_EXECUTABLE
| ELE7EN_ERROR_NOT_REGISTERED | ELE7EN_ERROR_NOT_HOOKED | ELE7EN_ERROR_ALREADY_REGISTERED
| ELE7EN_ERROR_ALREADY_HOOKED | ELE7EN_ERROR_SO_NOT_FOUND | ELE7EN_ERROR_FUNCTION_NOT_FOUND.

Inductive hook_status := REGISTERED | HOOKED.

#[export] Instance hook_status_eq_dec : EqDecision hook_status.
Proof. solve_decision. Defined.

(** [struct inlineHookItem]; the boundary arrays and [count] are those of
    Relocate32.v, [orig_instructions] the bytes copied. *)
Record inlineHookItem := {
  target_addr : Z;
  new_addr : Z;
  proto_addr : Z;
  orig_instructions : list Z;
  bounds : boundaries;
  trampoline_instructions : Z;
  length_ : Z;
  status : hook_status
}.

(** [static struct inlineHookInfo info]: all 1024 slots, those past [size] with
    whatever an earlier item left in them; the process's memory; and the ranges
    [cacheflush] was called on. *)
Record state := {
  item : list inlineHookItem;
  size : Z;
  memory : mem;
  flushed : list (Z * Z)
}.

Definition set_item (pos : nat) (it : inlineHookItem) (st : state) : state :=
  {| item := <[pos:=it]> (item st); size := size st; memory := memory st; flushed := flushed st |}.
Definition set_memory (m : mem) (st : state) : state :=
  {| item := item st; size := size st; memory := m; flushed := flushed st |}.
Definition set_size (n : Z) (st : state) : state :=
  {| item := item st; size := n; memory := memory st; flushed := flushed st |}.
Definition cacheflush (from to : Z) (st : state) : state :=
  {| item := item st; size := size st; memory := memory st; flushed := (from, to) :: flushed st |}.

(** ** isExecutableAddr: the text of /proc/self/maps *)

(** [fgets(line, n + 1, fp)] until the end of the file. *)
Fixpoint fgets_lines (n k : nat) (acc : list Z) (file : list Z) : list (list Z) :=
  match file with
  | [] => match acc with [] => [] | _ => [acc] end
  | c :: file' =>
      let acc' := acc ++ [c] in
      if c =? NL then acc' :: fgets_lines n n [] file'
      else match k with
           | O | 1%nat => acc' :: fgets_lines n n [] file'
           | S k' => fgets_lines n k' acc' file'
           end
  end.

Fixpoint strstr (line s : list Z) : bool :=
  bool_decide (take (length s) line = s) ||
  match line with [] => false | _ :: line' => strstr line' s end.

(** [strtok] with a one-character delimiter: the token and what follows it. *)
Fixpoint skip_delim (d : Z) (s : list Z) : list Z :=
  match s with [] => [] | c :: s' => if c =? d then skip_delim d s' else s end.
Fixpoint take_token (d : Z) (s : list Z) : list Z * list Z :=
  match s with
  | [] => ([], [])
  | c :: s' => if c =? d then ([], s')
               else let '(t, r) := take_token d s' in (c :: t, r)
  end.
Definition strtok (d : Z) (s : list Z) : list Z * list Z := take_token d (skip_delim d s).

Definition RX : list Z := [114; 45; 120; 112].    (* "r-xp" *)
Definition RWX : list Z := [114; 119; 120; 112].  (* "rwxp" *)

Definition line_executable (line : list Z) (addr : Z) : bool :=
  if strstr line RX || strstr line RWX then
    let '(first, rest) := strtok 45 line in
    let '(second, _) := strtok SPACE rest in
    let start := @strtoul arm32 16 first in
    let end_ := @strtoul arm32 16 second in
    (start <=? addr) && (addr <=? end_)
  else false.

(** [maps]: the file, [None] when [fopen] fails. *)
Definition isExecutableAddr (maps : option (list Z)) (addr : Z) : bool :=
  match maps with
  | None => false
  | Some file => existsb (fun line => line_executable line addr) (fgets_lines 1023 1023 [] file)
  end.

(** ** The registry *)

Section Hook.
(** The maps file, and the page [mmap] gives next ([None]: [MAP_FAILED]). *)
Context (maps : option (list Z)) (mmap_page : mem -> option Z).

Definition active (st : state) : list inlineHookItem := take (Z.to_nat (size st)) (item st).

Fixpoint find_index (target : Z) (l : list inlineHookItem) (i : nat) : option nat :=
  match l with
  | [] => None
  | it :: l' => if target_addr it =? target then Some i else find_index target l' (S i)
  end.

(** A pointer to an item is its position. *)
Definition findInlineHookItem (target : Z) (st : state) : option nat :=
  find_index target (active st) 0.

Definition addInlineHookItem (st : state) : option nat * state :=
  if 1024 <=? size st then (None, st)
  else (Some (Z.to_nat (size st)), set_size (size st + 1) st).

Definition deleteInlineHookItem (pos : nat) (st : state) : res state :=
  let! last := of_opt (item st !! Z.to_nat (size st - 1)) in
  Ok (set_size (size st - 1) (set_item pos last st)).

Definition registerInlineHook (target new proto : Z) (st : state) : res (ele7en_status * state) :=
  if negb (isExecutableAddr maps target) || negb (isExecutableAddr maps new)
  then Ok (ELE7EN_ERROR_NOT_EXECUTABLE, st)
  else match findInlineHookItem target st with
  | Some pos =>
      let! it := of_opt (item st !! pos) in
      Ok (match status it with
          | REGISTERED => ELE7EN_ERROR_ALREADY_REGISTERED
          | HOOKED => ELE7EN_ERROR_ALREADY_HOOKED
          end, st)
  | None =>
      match addInlineHookItem st with
      | (None, _) => Fault                          (* item is NULL *)
      | (Some pos, st) =>
          let! old := of_opt (item st !! pos) in
          let len := if TEST_BIT0 target then 12 else 8 in
          let! orig := of_opt (load_bytes (memory st) (CLEAR_BIT0 target) (Z.to_nat len)) in
          let! page := of_opt (mmap_page (memory st)) in
          let m := mem_at page (replicate (Z.to_nat PAGE_SIZE) 0) (memory st) in
          let! (tramp, b) := relocateInstruction m target orig len (bounds old) in
          let! m := of_opt (store_bytes m page tramp) in
          Ok (ELE7EN_OK, set_memory m (set_item pos
            {| target_addr := target; new_addr := new; proto_addr := proto;
               orig_instructions := orig; bounds := b; trampoline_instructions := page;
               length_ := len; status := REGISTERED |} st))
      end
  end.

(** [munmap(page, PAGE_SIZE)] *)
Definition unmap_page (page : Z) (m : mem) : mem :=
  foldr (fun i m => delete (page + i) m) m (zrange 0 (Z.to_nat PAGE_SIZE)).

(** [item] points into the array: after the deletion it is the item moved there. *)
Definition doInlineUnHook (pos : nat) (st : state) : res state :=
  let! it := of_opt (item st !! pos) in
  let! m := of_opt (store_bytes (memory st) (CLEAR_BIT0 (target_addr it)) (orig_instructions it)) in
  let st := set_memory (unmap_page (trampoline_instructions it) m) st in
  let! st := deleteInlineHookItem pos st in
  let! it := of_opt (item st !! pos) in
  Ok (cacheflush (CLEAR_BIT0 (target_addr it)) (u32 (CLEAR_BIT0 (target_addr it) + length_ it)) st).

Fixpoint find_hooked (target : Z) (l : list inlineHookItem) (i : nat) : option nat :=
  match l with
  | [] => None
  | it :: l' => if (target_addr it =? target) && bool_decide (status it = HOOKED) then Some i
                else find_hooked target l' (S i)
  end.

Definition inlineUnHook (target : Z) (st : state) : res (ele7en_status * state) :=
  match find_hooked target (active st) 0 with
  | Some i => let! st := doInlineUnHook i st in Ok (ELE7EN_OK, st)
  | None => Ok (ELE7EN_ERROR_NOT_HOOKED, st)
  end.

(** The loop of [inlineUnHookAll] from position [i]; each round shortens what is
    left by one. *)
Fixpoint unhook_loop (fuel : nat) (i : Z) (st : state) : res state :=
  match fuel with
  | O => NoFuel
  | S fuel' =>
      if i <? size st then
        let! it := of_opt (item st !! Z.to_nat i) in
        match status it with
        | HOOKED => let! st := doInlineUnHook (Z.to_nat i) st in unhook_loop fuel' i st
        | REGISTERED => unhook_loop fuel' (i + 1) st
        end
      else Ok st
  end.

Definition inlineUnHookAll (st : state) : res state :=
  unhook_loop (S (Z.to_nat (size st))) 0 st.

(** Store half-words one after the other. *)
Fixpoint store_halves (m : mem) (a : Z) (hs : list Z) : option mem :=
  match hs with
  | [] => Some m
  | h :: hs' => match store16 m a h with Some m' => store_halves m' (a + 2) hs' | None => None end
  end.

(** The half-words of a Thumb hook at [addr]. *)
Definition thumb_patch (addr new : Z) : list Z :=
  (if negb (addr mod 4 =? 0) then [0xBF00] else []) ++ [0xF8DF; 0xF000] ++ halves new.

(** [item->status = HOOKED] *)
Definition set_hooked (it : inlineHookItem) : inlineHookItem :=
  {| target_addr := target_addr it; new_addr := new_addr it; proto_addr := proto_addr it;
     orig_instructions := orig_instructions it; bounds := bounds it;
     trampoline_instructions := trampoline_instructions it; length_ := length_ it;
     status := HOOKED |}.

Definition doInlineHook (pos : nat) (st : state) : res state :=
  let! it := of_opt (item st !! pos) in
  let target := target_addr it in
  let! m := (if negb (proto_addr it =? 0)
             then of_opt (store32 (memory st) (proto_addr it)
                    (if TEST_BIT0 target then SET_BIT0 (trampoline_instructions it)
                     else trampoline_instructions it))
             else Ok (memory st)) in
  let! m := (if TEST_BIT0 target
             then of_opt (store_halves m (CLEAR_BIT0 target) (thumb_patch (CLEAR_BIT0 target) (new_addr it)))
             else let! m := of_opt (store32 m target 0xe51ff004) in
                  of_opt (store32 m (target + 4) (new_addr it))) in
  Ok (cacheflush (CLEAR_BIT0 target) (u32 (CLEAR_BIT0 target + length_ it))
        (set_item pos (set_hooked it) (set_memory m st))).

Definition inlineHook (target : Z) (st : state) : res (ele7en_status * state) :=
  match find_index target (active st) 0 with
  | None => Ok (ELE7EN_ERROR_NOT_REGISTERED, st)
  | Some pos =>
      let! it := of_opt (item st !! pos) in
      match status it with
      | REGISTERED => let! st := doInlineHook pos st in Ok (ELE7EN_OK, st)
      | HOOKED => Ok (ELE7EN_ERROR_ALREADY_HOOKED, st)
      end
  end.

(** The [n] rounds of [inlineHookAll] from position [i]. *)
Fixpoint hook_loop (n : nat) (i : nat) (st : state) : res state :=
  match n with
  | O => Ok st
  | S n' =>
      let! it := of_opt (item st !! i) in
      let! st := (match status it with REGISTERED => doInlineHook i st | HOOKED => Ok st end) in
      hook_loop n' (S i) st
  end.

Definition inlineHookAll (st : state) : res state := hook_loop (Z.to_nat (size st)) 0 st.

End Hook.

(** [doProcessThreadPC]: move a thread's pc between function and trampoline. *)
Inductive action := ACTION_ENABLE | ACTION_DISABLE.

Fixpoint find_boundary (offset : Z) (from to : list Z) (n : nat) {struct n} : option Z :=
  match n, from, to with
  | S n', f :: from', t :: to' => if offset =? f then Some t else find_boundary offset from' to' n'
  | _, _, _ => None
  end.

Definition doProcessThreadPC (it : inlineHookItem) (pc : Z) (a : action) : bool * Z :=
  let n := Z.to_nat (count (bounds it)) in
  let target := CLEAR_BIT0 (target_addr it) in
  match a with
  | ACTION_ENABLE =>
      match find_boundary (s32 (pc - target)) (orig_b (bounds it)) (tramp_b (bounds it)) n with
      | Some t => (true, u32 (trampoline_instructions it + t))
      | None => (false, pc)
      end
  | ACTION_DISABLE =>
      match find_boundary (s32 (pc - trampoline_instructions it))
              (tramp_b (bounds it)) (orig_b (bounds it)) n with
      | Some o => (true, u32 (target + o))
      | None => (false, pc)
      end
  end.

(** ** What the trampolines hold *)

Ltac out_length :=
  repeat match goal with
  | H : context [match ?x with _ => _ end] |- _ => destruct x
  | H : context [if ?x then _ else _] |- _ => destruct x
  end; inv_res; subst; cbn; lia.

Lemma thumb16_length m pc h out : relocateInstructionInThumb16 m pc h = Ok out -> (length out <= 14)%nat.
Proof. unfold relocateInstructionInThumb16, halves. cbv zeta. intros H. out_length. Qed.

Lemma thumb32_length m pc h l out :
  relocateInstructionInThumb32 m pc h l = Ok out -> (length out <= 14)%nat.
Proof. unfold relocateInstructionInThumb32, halves. cbv zeta. intros H. out_length. Qed.

Lemma arm_length m pc i out : relocate_arm m pc i = Ok out -> (length out <= 14)%nat.
Proof. unfold relocate_arm. cbv zeta. intros H. out_length. Qed.

Lemma thumb_loop_length fuel m orig len pc pos tramp b r :
  thumb_loop fuel m orig len pc pos tramp b = Ok r ->
  (length r.1.2 <= length tramp + 14 * fuel)%nat.
Proof.
  revert pc pos tramp b. induction fuel as [|fuel IH]; intros pc pos tramp b; [done|].
  cbn [thumb_loop]. intros H. inv_res.
  destruct (is_thumb32 _).
  - destruct (_ <? _); inv_res; subst; [cbn; lia|].
    destruct (_ <=? _); inv_res; subst;
      [|match goal with H : thumb_loop _ _ _ _ _ _ _ _ = _ |- _ => apply IH in H end];
      match goal with H : relocateInstructionInThumb32 _ _ _ _ = _ |- _ => apply thumb32_length in H end;
      cbn [fst snd] in *; rewrite ?length_app in *; lia.
  - inv_res. destruct (_ <=? _); inv_res; subst;
      [|match goal with H : thumb_loop _ _ _ _ _ _ _ _ = _ |- _ => apply IH in H end];
      match goal with H : relocateInstructionInThumb16 _ _ _ = _ |- _ => apply thumb16_length in H end;
      cbn [fst snd] in *; rewrite ?length_app in *; lia.
Qed.

Lemma arm_loop_length m orig pc pos tramp b r :
  arm_loop m orig pc pos tramp b = Ok r -> (length r.1 <= length tramp + 14 * length orig)%nat.
Proof.
  revert pc pos tramp b. induction orig as [|i orig IH]; intros pc pos tramp b; cbn [arm_loop].
  - intros [= <-]. cbn. lia.
  - intros H. inv_res. apply IH in H1.
    match goal with H : relocate_arm _ _ _ = _ |- _ => apply arm_length in H end.
    rewrite length_app in H1. cbn [length]. lia.
Qed.

(** A trampoline fits in its page. *)
Lemma trampoline_fits m target orig len b tramp b' :
  len = 8 \/ len = 12 -> relocateInstruction m target orig len b = Ok (tramp, b') ->
  (length tramp <= 4096)%nat.
Proof.
  intros Hl. unfold relocateInstruction. destruct (truthy _); intros H; inv_res; destruct x as [tr bb];
    apply (inj Ok), pair_equal_spec in H0 as [<- _]; rewrite bytes_length.
  - unfold relocateInstructionInThumb in H. inv_res. destruct x as [[pos tr'] bb'].
    apply (inj Ok), pair_equal_spec in H0 as [<- _].
    apply thumb_loop_length in H. cbn [fst snd length] in H.
    rewrite !length_app. unfold halves. cbn [length].
    destruct Hl as [-> | ->]; [change (8 / 2) with 4 in H|change (12 / 2) with 6 in H]; lia.
  - unfold relocateInstructionInArm in H. inv_res. destruct x as [tr' bb'].
    apply (inj Ok), pair_equal_spec in H0 as [<- _].
    apply arm_loop_length in H. cbn [fst length] in H. rewrite length_take in H.
    rewrite length_app. cbn [length].
    destruct Hl as [-> | ->]; [change (8 / 4) with 2 in H|change (12 / 4) with 3 in H]; lia.
Qed.

(** ** The invariant of the registry and the patched code

    [m0] is the memory before any hook; [P] the set of the addresses of the
    callers' [proto_addr] words, which hooking writes. *)

Definition code_addr (it : inlineHookItem) : Z := CLEAR_BIT0 (target_addr it).
Definition in_code (it : inlineHookItem) (a : Z) : Prop := code_addr it <= a < code_addr it + length_ it.
Definition in_page (it : inlineHookItem) (a : Z) : Prop :=
  trampoline_instructions it <= a < trampoline_instructions it + PAGE_SIZE.

(** The bytes [doInlineHook] writes over the function. *)
Definition patch (it : inlineHookItem) : list Z :=
  if TEST_BIT0 (target_addr it)
  then mjoin (le_bytes 2 <$> thumb_patch (code_addr it) (new_addr it))
  else le_bytes 4 0xe51ff004 ++ le_bytes 4 (new_addr it).

Record item_ok (m0 : mem) (P : Z -> Prop) (it : inlineHookItem) : Prop := {
  ok_target : is_word 32 (target_addr it);
  ok_new : is_word 32 (new_addr it);
  ok_length : length_ it = if TEST_BIT0 (target_addr it) then 12 else 8;
  ok_orig : load_bytes m0 (code_addr it) (Z.to_nat (length_ it)) = Some (orig_instructions it);
  ok_code : forall a, in_code it a -> ~ P a;
  ok_page : forall a, in_page it a -> m0 !! a = None;
  ok_proto : proto_addr it = 0 \/ forall i, 0 <= i < 4 -> P (proto_addr it + i)
}.

Record inv (m0 : mem) (P : Z -> Prop) (st : state) : Prop := {
  inv_slots : length (item st) = 1024%nat;
  inv_size : 0 <= size st <= 1024;
  inv_nodup : NoDup (target_addr <$> active st);
  inv_items : Forall (item_ok m0 P) (active st);
  inv_disjoint : forall i j, i ∈ active st -> j ∈ active st -> target_addr i <> target_addr j ->
    forall a, ~ (in_code i a /\ in_code j a) /\ ~ (in_page i a /\ in_page j a);
  inv_dom : forall a, is_Some (memory st !! a) <->
    is_Some (m0 !! a) \/ exists it, it ∈ active st /\ in_page it a;
  inv_mem : forall a, ~ P a -> (forall it, it ∈ active st -> ~ in_page it a) ->
    (forall it, it ∈ active st -> status it = HOOKED -> ~ in_code it a) -> memory st !! a = m0 !! a;
  inv_hooked : forall it, it ∈ active st -> status it = HOOKED ->
    load_bytes (memory st) (code_addr it) (length (patch it)) = Some (patch it)
}.

Lemma patch_length it :
  length (patch it) = if TEST_BIT0 (target_addr it)
                      then if code_addr it mod 4 =? 0 then 8%nat else 10%nat else 8%nat.
Proof.
  unfold patch. destruct (TEST_BIT0 _).
  - rewrite bytes_length. unfold thumb_patch. by destruct (_ =? 0).
  - by rewrite length_app, !le_bytes_length.
Qed.

(** The patch stays within the bytes that are saved. *)
Lemma patch_fits m0 P it : item_ok m0 P it -> Z.of_nat (length (patch it)) <= length_ it.
Proof. intros [_ _ -> _ _ _ _]. rewrite patch_length. destruct (TEST_BIT0 _); [destruct (_ =? 0)|]; lia. Qed.

Lemma code_mapped m0 P it a : item_ok m0 P it -> in_code it a -> is_Some (m0 !! a).
Proof.
  intros [_ _ Hlen Ho _ _ _] Ha. unfold in_code in Ha.
  replace a with (code_addr it + (a - code_addr it)) by lia.
  apply (proj2 (load_bytes_mapped m0 (code_addr it) (Z.to_nat (length_ it)))).
  - rewrite Ho. by eexists.
  - rewrite Z2Nat.id; [lia|]. rewrite Hlen. destruct (TEST_BIT0 _); lia.
Qed.

Lemma code_not_page m0 P i j a : item_ok m0 P i -> item_ok m0 P j -> in_code i a -> ~ in_page j a.
Proof.
  intros Hi Hj Ha Hp. destruct (code_mapped m0 P i a Hi Ha) as [x Hx].
  by rewrite (ok_page _ _ _ Hj a Hp) in Hx.
Qed.

Lemma unmap_lookup page m a :
  unmap_page page m !! a = if decide (page <= a < page + PAGE_SIZE) then None else m !! a.
Proof.
  unfold unmap_page. change PAGE_SIZE with (Z.of_nat 4096).
  rewrite (Nat2Z.id 4096). generalize 4096%nat as n. intros n.
  assert (H : forall k, foldr (fun i m => delete (page + i) m) m (zrange k n) !! a =
    if decide (page + k <= a < page + k + Z.of_nat n) then None else m !! a).
  { induction n as [|n IH]; intros k; cbn [zrange foldr]; [by rewrite decide_False by lia|].
    destruct (decide (a = page + k)) as [->|].
    - by rewrite lookup_delete_eq, decide_True by lia.
    - rewrite lookup_delete_ne, IH by done. case_decide; case_decide; done || lia. }
  rewrite (H 0), Z.add_0_r. done.
Qed.

Lemma store_halves_bytes m a hs : store_halves m a hs = store_bytes m a (mjoin (le_bytes 2 <$> hs)).
Proof.
  revert m a. induction hs as [|h hs IH]; intros m a; [done|]. cbn [store_halves].
  change (mjoin (le_bytes 2 <$> (h :: hs))) with (le_bytes 2 h ++ mjoin (le_bytes 2 <$> hs)).
  unfold store. cbn [le_bytes store_bytes app].
  destruct (m !! a); [|done].
  destruct (<[a:=h mod 256]> m !! (a + 1)); [|done]. rewrite IH. f_equal. lia.
Qed.

Lemma CLEAR_even t : is_word 32 t -> TEST_BIT0 t = false -> CLEAR_BIT0 t = t.
Proof.
  intros Ht Hb. unfold CLEAR_BIT0. change 0xFFFFFFFE with (2 ^ 32 - 2 ^ 1).
  rewrite (land_high 32 1) by (done || lia). unfold TEST_BIT0, truthy in Hb.
  apply negb_false_iff, Z.eqb_eq in Hb. change 1 with (Z.ones 1) in Hb.
  rewrite Z.land_ones in Hb by lia. lia.
Qed.

Lemma patch_stored it m :
  is_word 32 (target_addr it) ->
  (if TEST_BIT0 (target_addr it)
   then of_opt (store_halves m (CLEAR_BIT0 (target_addr it))
          (thumb_patch (CLEAR_BIT0 (target_addr it)) (new_addr it)))
   else let! m := of_opt (store32 m (target_addr it) 0xe51ff004) in
        of_opt (store32 m (target_addr it + 4) (new_addr it)))
  = of_opt (store_bytes m (code_addr it) (patch it)).
Proof.
  intros Ht. unfold patch, code_addr. destruct (TEST_BIT0 _) eqn:Hb.
  - by rewrite store_halves_bytes.
  - rewrite CLEAR_even by done. rewrite store_bytes_app, le_bytes_length. unfold store.
    by destruct (store_bytes m (target_addr it) _).
Qed.

Lemma in_insert_key {A} (f : A -> Z) (l : list A) pos x y i :
  l !! pos = Some y -> NoDup (f <$> l) -> i ∈ <[pos:=x]> l -> i = x \/ i ∈ l /\ f i <> f y.
Proof.
  intros Hy Hnd [k Hk]%list_elem_of_lookup. destruct (decide (k = pos)) as [->|Hne].
  - left. rewrite list_lookup_insert_eq in Hk by (by eapply lookup_lt_Some). by simplify_eq.
  - right. rewrite list_lookup_insert_ne in Hk by done. split; [by eapply list_elem_of_lookup_2|].
    intros He. apply Hne. eapply (NoDup_lookup (f <$> l)); [done| |].
    + by rewrite list_lookup_fmap, Hk.
    + by rewrite list_lookup_fmap, Hy, He.
Qed.

Lemma active_lookup st pos it :
  active st !! pos = Some it -> item st !! pos = Some it /\ Z.of_nat pos < size st.
Proof.
  unfold active. intros H. pose proof (lookup_lt_Some _ _ _ H) as Hl. rewrite length_take in Hl.
  rewrite lookup_take in H. case_decide; [|done]. split; [done|lia].
Qed.

Lemma active_insert st pos it m :
  Z.of_nat pos < size st -> active (set_item pos it (set_memory m st)) = <[pos:=it]> (active st).
Proof. intros H. unfold active. cbn. by rewrite take_insert_lt by lia. Qed.

Definition updates (m m' : mem) (it : inlineHookItem) (P : Z -> Prop) : Prop :=
  (forall a, is_Some (m' !! a) <-> is_Some (m !! a)) /\
  (forall a, ~ P a -> ~ (code_addr it <= a < code_addr it + Z.of_nat (length (patch it))) ->
     m' !! a = m !! a) /\
  load_bytes m' (code_addr it) (length (patch it)) = Some (patch it).

Section Preservation.
Context (maps : option (list Z)) (mmap_page : mem -> option Z).
Context (m0 : mem) (P : Z -> Prop) (P_mapped : forall a, P a -> is_Some (m0 !! a)).

(** What the stores of [doInlineHook] do to the memory. *)
Lemma hook_stores st it :
  inv m0 P st -> it ∈ active st ->
  exists m, (let! m := (if negb (proto_addr it =? 0)
             then of_opt (store32 (memory st) (proto_addr it)
                    (if TEST_BIT0 (target_addr it) then SET_BIT0 (trampoline_instructions it)
                     else trampoline_instructions it))
             else Ok (memory st)) in of_opt (store_bytes m (code_addr it) (patch it))) = Ok m /\
    updates (memory st) m it P.
Proof.
  intros Hi Hit. assert (Hok : item_ok m0 P it) by (by eapply Forall_forall, Hit; apply Hi).
  assert (H1 : exists m1, (if negb (proto_addr it =? 0)
             then of_opt (store32 (memory st) (proto_addr it)
                    (if TEST_BIT0 (target_addr it) then SET_BIT0 (trampoline_instructions it)
                     else trampoline_instructions it))
             else Ok (memory st)) = Ok m1 /\
     (forall a, is_Some (m1 !! a) <-> is_Some (memory st !! a)) /\
     (forall a, ~ P a -> m1 !! a = memory st !! a)).
  { destruct (Z.eqb_spec (proto_addr it) 0) as [H0|H0]; [by eexists|]. cbn [negb].
    destruct (ok_proto _ _ _ Hok) as [|Hp]; [done|].
    destruct (store_mapped (memory st) 4 (proto_addr it)
      (if TEST_BIT0 (target_addr it) then SET_BIT0 (trampoline_instructions it)
       else trampoline_instructions it)) as [m1 Hm1].
    { intros i Hr. apply (inv_dom _ _ _ Hi). left. by apply P_mapped, Hp. }
    exists m1. rewrite Hm1. split; [done|]. split.
    - intros a. by apply store_bytes_dom with (1 := Hm1).
    - intros a Ha. apply (store_lookup_ne _ _ _ _ _ _ Hm1). intros Hr. apply Ha.
      replace a with (proto_addr it + (a - proto_addr it)) by lia. apply Hp. lia. }
  destruct H1 as (m1 & -> & Hd1 & He1). cbn [rbind].
  destruct (store_bytes_mapped m1 (code_addr it) (patch it)) as [m2 Hm2].
  { intros i Hr. apply Hd1, (inv_dom _ _ _ Hi). left. apply (code_mapped m0 P it); [done|].
    pose proof (patch_fits m0 P it Hok). unfold in_code. lia. }
  exists m2. rewrite Hm2. split; [done|]. split; [|split].
  - intros a. by rewrite (store_bytes_dom _ _ _ _ a Hm2), Hd1.
  - intros a Ha Hr. rewrite (store_bytes_lookup _ _ _ _ Hm2), decide_False by done. by apply He1.
  - by eapply store_bytes_load.
Qed.

Lemma item_ok_hooked it : item_ok m0 P it -> item_ok m0 P (set_hooked it).
Proof. by intros []. Qed.

Lemma doInlineHook_inv st pos it :
  inv m0 P st -> active st !! pos = Some it -> status it = REGISTERED ->
  exists st', doInlineHook pos st = Ok st' /\ inv m0 P st' /\
    active st' = <[pos:=set_hooked it]> (active st) /\ size st' = size st.
Proof.
  intros Hi Hpos Hreg. destruct (active_lookup _ _ _ Hpos) as [Hit Hlt].
  assert (Hin : it ∈ active st) by by eapply list_elem_of_lookup_2.
  assert (Hok : item_ok m0 P it) by (by eapply Forall_forall, Hin; apply Hi).
  destruct (hook_stores st it Hi Hin) as (m & Hm & Hdom & Hne & Hpatch).
  unfold doInlineHook. rewrite Hit. cbn [of_opt rbind].
  apply rbind_Ok in Hm as (m1 & -> & Hm). cbn [rbind].
  rewrite patch_stored by apply Hok. rewrite Hm. cbn [rbind].
  eexists. split; [done|].
  assert (Hact : active (set_item pos (set_hooked it) (set_memory m st)) =
    <[pos:=set_hooked it]> (active st)) by by apply active_insert.
  assert (Hkey : forall i, i ∈ <[pos:=set_hooked it]> (active st) ->
    i = set_hooked it \/ i ∈ active st /\ target_addr i <> target_addr it).
  { intros i. eapply (in_insert_key target_addr); [done|]. apply Hi. }
  assert (Hback : forall i, i ∈ active st -> i = it \/ i ∈ <[pos:=set_hooked it]> (active st)).
  { intros i [k Hk]%list_elem_of_lookup. destruct (decide (k = pos)) as [->|]; [left; by simplify_eq|].
    right. apply (list_elem_of_lookup_2 _ k). by rewrite list_lookup_insert_ne. }
  assert (Hself : set_hooked it ∈ <[pos:=set_hooked it]> (active st)).
  { apply (list_elem_of_lookup_2 _ pos). apply list_lookup_insert_eq. by eapply lookup_lt_Some. }
  assert (Hpage : forall a, (exists i, i ∈ active st /\ in_page i a) <->
    exists i, i ∈ <[pos:=set_hooked it]> (active st) /\ in_page i a).
  { intros a. split; intros (i & Hi' & Ha).
    - destruct (Hback i Hi') as [-> |]; [by exists (set_hooked it)|by exists i].
    - destruct (Hkey i Hi') as [-> |[]]; [by exists it|by exists i]. }
  split; [|done]. split; unfold cacheflush; cbn [item size memory active] in *;
    try change (active _) with (active (set_item pos (set_hooked it) (set_memory m st)));
    rewrite ?Hact.
  - cbn. rewrite length_insert. apply Hi.
  - apply Hi.
  - rewrite list_fmap_insert. change (target_addr (set_hooked it)) with (target_addr it).
    rewrite list_insert_id; [apply Hi|]. by rewrite list_lookup_fmap, Hpos.
  - apply Forall_insert; [apply Hi|by apply item_ok_hooked].
  - intros i j Hi' Hj'. destruct (Hkey i Hi') as [-> |[Hi'' ?]], (Hkey j Hj') as [-> |[Hj'' ?]].
    + done.
    + by apply (inv_disjoint _ _ _ Hi it j).
    + by apply (inv_disjoint _ _ _ Hi i it).
    + by apply (inv_disjoint _ _ _ Hi i j).
  - intros a. rewrite <- Hpage. cbn. rewrite Hdom. apply Hi.
  - intros a Ha Hpg Hcd. cbn. rewrite Hne; [|done|].
    + apply Hi; [done| |].
      * intros i Hi' Hp. destruct (proj1 (Hpage a) ltac:(by exists i)) as (j & Hj & Hjp).
        by apply (Hpg j).
      * intros i Hi' Hs Hc. destruct (Hback i Hi') as [-> |Hi'']; [congruence|]. by apply (Hcd i).
    + pose proof (patch_fits m0 P it Hok). specialize (Hcd _ Hself eq_refl).
      change (~ in_code it a) in Hcd. unfold in_code in Hcd. lia.
  - intros i Hi' Hs. destruct (Hkey i Hi') as [-> |[Hi'' Hne']]; [exact Hpatch|].
    assert (Hoki : item_ok m0 P i) by (by eapply Forall_forall, Hi''; apply Hi).
    rewrite <- (inv_hooked _ _ _ Hi i Hi'' Hs). cbn. apply load_bytes_ext. intros k Hk.
    pose proof (patch_fits m0 P i Hoki). pose proof (patch_fits m0 P it Hok).
    assert (Hci : in_code i (code_addr i + k)) by (unfold in_code; lia).
    apply Hne; [by apply (ok_code _ _ _ Hoki)|]. intros Hr.
    destruct (inv_disjoint _ _ _ Hi i it Hi'' Hin Hne' (code_addr i + k)) as [Hd _].
    apply Hd. split; [done|]. unfold in_code. lia.
Qed.

(** Deleting at [pos] by moving the last element there. *)
Lemma delete_swap {A} (l : list A) n pos x y :
  l !! pos = Some x -> l !! n = Some y -> length l = S n ->
  l ≡ₚ x :: take n (<[pos:=y]> l).
Proof.
  intros Hx Hy Hl. rewrite <- (Permutation_insert_swap l pos n x y Hx Hy) at 1.
  rewrite (insert_take_drop _ n) by (rewrite length_insert; lia).
  rewrite (drop_ge _ (S n)) by (rewrite length_insert; lia).
  symmetry. apply Permutation_cons_append.
Qed.

Lemma deleteInlineHookItem_active st pos it :
  length (item st) = 1024%nat -> size st <= 1024 -> active st !! pos = Some it ->
  exists st', deleteInlineHookItem pos st = Ok st' /\ active st ≡ₚ it :: active st' /\
    size st' = size st - 1 /\ memory st' = memory st /\ length (item st') = 1024%nat /\
    take pos (active st') = take pos (active st).
Proof.
  intros Hlen Hsz Hp. destruct (active_lookup _ _ _ Hp) as [_ Hlt].
  destruct (lookup_lt_is_Some_2 (item st) (Z.to_nat (size st - 1))) as [last Hlast]; [lia|].
  unfold deleteInlineHookItem. rewrite Hlast. cbn [of_opt rbind]. eexists. split; [done|].
  cbn. rewrite length_insert. split.
  2:{ split_and!; [done..|]. unfold active. cbn. rewrite !take_take.
      rewrite !Nat.min_l by lia. by rewrite take_insert_ge by lia. }
  unfold active at 2. cbn. replace (take _ (<[pos:=last]> (item st))) with
    (take (Z.to_nat (size st - 1)) (<[pos:=last]> (active st))).
  - apply delete_swap; [done| |].
    + unfold active. rewrite lookup_take_lt by lia. done.
    + unfold active. rewrite length_take. lia.
  - unfold active. rewrite <- take_insert_lt by lia. rewrite take_take. f_equal. lia.
Qed.

Lemma doInlineUnHook_inv st pos it :
  inv m0 P st -> active st !! pos = Some it ->
  exists st', doInlineUnHook pos st = Ok st' /\ inv m0 P st' /\
    active st ≡ₚ it :: active st' /\ size st' = size st - 1 /\
    take pos (active st') = take pos (active st).
Proof.
  intros Hi Hpos. destruct (active_lookup _ _ _ Hpos) as [Hit Hlt].
  assert (Hin : it ∈ active st) by by eapply list_elem_of_lookup_2.
  assert (Hok : item_ok m0 P it) by (by eapply Forall_forall, Hin; apply Hi).
  pose proof (ok_orig _ _ _ Hok) as Horig. pose proof (load_bytes_length _ _ _ _ Horig) as Holen.
  assert (Hlen : 0 <= length_ it) by (rewrite (ok_length _ _ _ Hok); destruct (TEST_BIT0 _); lia).
  destruct (store_bytes_mapped (memory st) (code_addr it) (orig_instructions it)) as [m Hm].
  { intros i Hr. apply (inv_dom _ _ _ Hi). left. apply (code_mapped m0 P it); [done|].
    unfold in_code. lia. }
  unfold doInlineUnHook. rewrite Hit. cbn [of_opt rbind].
  change (CLEAR_BIT0 (target_addr it)) with (code_addr it). rewrite Hm. cbn [of_opt rbind].
  set (st1 := set_memory _ st).
  destruct (deleteInlineHookItem_active st1 pos it) as (st2 & Hd & Hperm & Hsz & Hmem & Hlen2 & Htk);
    [apply Hi|apply Hi|done|].
  rewrite Hd. cbn [rbind].
  destruct (lookup_lt_is_Some_2 (item st2) pos) as [it2 Hit2]; [pose proof (inv_size _ _ _ Hi); lia|].
  rewrite Hit2. cbn [of_opt rbind]. eexists. split; [done|]. change (active st1) with (active st) in Hperm.
  assert (Hsub : forall i, i ∈ active st2 -> i ∈ active st) by (intros i ?; rewrite Hperm; by right).
  assert (Hother : forall i, i ∈ active st2 -> target_addr i <> target_addr it).
  { intros i Hi2 He. pose proof (inv_nodup _ _ _ Hi) as Hnd. rewrite Hperm in Hnd.
    apply NoDup_cons in Hnd as [Hnd _]. apply Hnd. rewrite <- He. by apply list_elem_of_fmap_2. }
  assert (Hlk : forall a, memory st2 !! a = if decide (in_page it a) then None else
     if decide (in_code it a) then m0 !! a else memory st !! a).
  { intros a. rewrite Hmem. cbn [memory st1 set_memory]. rewrite unmap_lookup.
    change (trampoline_instructions it <= a < trampoline_instructions it + PAGE_SIZE) with (in_page it a).
    destruct (decide (in_page it a)); [done|]. rewrite (store_bytes_lookup _ _ _ _ Hm), Holen.
    rewrite Z2Nat.id by done. change (code_addr it <= a < code_addr it + length_ it) with (in_code it a).
    destruct (decide (in_code it a)) as [Ha|]; [|done]. unfold in_code in Ha.
    rewrite <- (load_bytes_lookup _ _ _ _ _ Horig) by lia. f_equal. lia. }
  split; [|split; [exact Hperm|split; [exact Hsz|exact Htk]]].
  split; cbn [cacheflush item size memory]; try change (active _) with (active st2); [done| | | | | | |].
  - rewrite Hsz. pose proof (inv_size _ _ _ Hi). cbn. lia.
  - pose proof (inv_nodup _ _ _ Hi) as Hnd. rewrite Hperm in Hnd. by apply NoDup_cons in Hnd as [_ ?].
  - apply Forall_forall. intros i Hi2. by eapply Forall_forall, Hsub, Hi2; apply Hi.
  - intros i j Hi2 Hj2. apply (inv_disjoint _ _ _ Hi); by apply Hsub.
  - intros a. rewrite Hlk. case_decide as Hpa; [|case_decide as Hca].
    + split; [by intros []|]. intros [Ha|(i & Hi2 & Hpi)].
      * rewrite (ok_page _ _ _ Hok a Hpa) in Ha. by destruct Ha.
      * destruct (inv_disjoint _ _ _ Hi i it (Hsub i Hi2) Hin (Hother i Hi2) a) as [_ Hdis].
        by destruct Hdis.
    + split; [by left|]. intros _. by apply (code_mapped m0 P it).
    + rewrite (inv_dom _ _ _ Hi a). split; (intros [|(i & Hi2 & Hpi)]; [by left|right]).
      * rewrite Hperm in Hi2. apply elem_of_cons in Hi2 as [-> |]; [done|by exists i].
      * exists i. by split; [apply Hsub|].
  - intros a Ha Hpg Hcd. rewrite Hlk. case_decide as Hpa.
    { symmetry. by apply (ok_page _ _ _ Hok). }
    case_decide as Hca; [done|]. apply Hi; [done| |]; intros i Hi2; rewrite Hperm in Hi2;
      apply elem_of_cons in Hi2 as [-> |]; auto.
  - intros i Hi2 Hs. assert (Hoki : item_ok m0 P i) by (by eapply Forall_forall, Hsub, Hi2; apply Hi).
    rewrite <- (inv_hooked _ _ _ Hi i (Hsub i Hi2) Hs). apply load_bytes_ext. intros k Hk.
    pose proof (patch_fits m0 P i Hoki).
    assert (Hci : in_code i (code_addr i + k)) by (unfold in_code; lia).
    rewrite Hlk, decide_False by (by apply (code_not_page m0 P i)).
    rewrite decide_False; [done|]. intros Hc.
    destruct (inv_disjoint _ _ _ Hi i it (Hsub i Hi2) Hin (Hother i Hi2) (code_addr i + k)) as [Hdis _].
    by destruct Hdis.
Qed.

(** [mmap] gives a page that was not mapped. *)
Context (mmap_fresh : forall m page, mmap_page m = Some page ->
  forall a, page <= a < page + PAGE_SIZE -> m !! a = None).

(** The first bytes of the function do not overlap those of another registered
    function, a trampoline or a proto word. *)
Definition separate (target proto : Z) (st : state) : Prop :=
  is_word 32 target /\
  (proto = 0 \/ forall i, 0 <= i < 4 -> P (proto + i)) /\
  forall a, CLEAR_BIT0 target <= a < CLEAR_BIT0 target + (if TEST_BIT0 target then 12 else 8) ->
    ~ P a /\ forall it, it ∈ active st -> ~ in_code it a /\ ~ in_page it a.

Lemma find_index_spec target l k :
  match find_index target l k with
  | Some i => exists it, (k <= i)%nat /\ l !! (i - k)%nat = Some it /\ target_addr it = target
  | None => target ∉ target_addr <$> l
  end.
Proof.
  revert k. induction l as [|it l IH]; intros k; cbn [find_index]; [by apply not_elem_of_nil|].
  destruct (Z.eqb_spec (target_addr it) target) as [He|He].
  - exists it. rewrite Nat.sub_diag. done.
  - specialize (IH (S k)). destruct (find_index target l (S k)) as [i|].
    + destruct IH as (it' & Hk & Hl & Ht). exists it'. split; [lia|].
      replace (i - k)%nat with (S (i - S k)) by lia. done.
    + rewrite fmap_cons, not_elem_of_cons. split; [congruence|done].
Qed.

Lemma fill_page page tramp m1 m2 m a :
  (length tramp <= 4096)%nat ->
  m1 = mem_at page (replicate (Z.to_nat PAGE_SIZE) 0) m -> store_bytes m1 page tramp = Some m2 ->
  (page <= a < page + PAGE_SIZE -> is_Some (m2 !! a)) /\
  (~ page <= a < page + PAGE_SIZE -> m2 !! a = m !! a).
Proof.
  intros Hl -> Hs. unfold PAGE_SIZE. split; intros Ha.
  - rewrite (store_bytes_dom _ _ _ _ a Hs), mem_at_lookup, length_replicate. change (Z.to_nat PAGE_SIZE) with 4096%nat.
    rewrite decide_True by lia. rewrite lookup_replicate_2 by lia. by eexists.
  - rewrite (store_bytes_lookup _ _ _ _ Hs), decide_False by lia.
    rewrite mem_at_lookup, length_replicate, decide_False; [done|].
    change (Z.to_nat PAGE_SIZE) with 4096%nat. lia.
Qed.

(** A registration that succeeds adds one item at the end; its page is new and
    nothing else of the memory changes. *)
Lemma registerInlineHook_ok target new proto st c st' :
  registerInlineHook maps mmap_page target new proto st = Ok (c, st') ->
  c <> ELE7EN_OK /\ st' = st \/
  c = ELE7EN_OK /\ size st < 1024 /\ target ∉ target_addr <$> active st /\
  exists old orig page m b,
    item st !! Z.to_nat (size st) = Some old /\
    load_bytes (memory st) (CLEAR_BIT0 target) (if TEST_BIT0 target then 12 else 8)%nat = Some orig /\
    mmap_page (memory st) = Some page /\
    (forall a, (page <= a < page + PAGE_SIZE -> is_Some (m !! a)) /\
               (~ page <= a < page + PAGE_SIZE -> m !! a = memory st !! a)) /\
    st' = set_memory m (set_item (Z.to_nat (size st))
            {| target_addr := target; new_addr := new; proto_addr := proto;
               orig_instructions := orig; bounds := b; trampoline_instructions := page;
               length_ := if TEST_BIT0 target then 12 else 8; status := REGISTERED |}
            (set_size (size st + 1) st)).
Proof.
  unfold registerInlineHook.
  destruct (negb _ || negb _); [intros H; apply (inj Ok), pair_equal_spec in H as [<- <-]; by left|].
  pose proof (find_index_spec target (active st) 0) as Hf. unfold findInlineHookItem.
  destruct (find_index target (active st) 0) as [pos|].
  { intros H. apply rbind_Ok in H as (it & _ & H). apply (inj Ok), pair_equal_spec in H as [<- <-].
    left. by destruct (status _). }
  unfold addInlineHookItem. destruct (Z.leb_spec 1024 (size st)); [done|].
  intros H1. apply rbind_Ok in H1 as (old & Hold%of_opt_Ok & H1).
  apply rbind_Ok in H1 as (orig & Horig%of_opt_Ok & H1).
  apply rbind_Ok in H1 as (page & Hpage%of_opt_Ok & H1).
  apply rbind_Ok in H1 as ([tramp b] & Hrel & H1).
  apply rbind_Ok in H1 as (m & Hm%of_opt_Ok & H1).
  apply (inj Ok), pair_equal_spec in H1 as [<- <-].
  right. split; [done|]. split; [done|]. split; [done|].
  exists old, orig, page, m, b. split; [done|]. split; [by destruct (TEST_BIT0 target)|].
  split; [done|]. split; [|done]. intros a. eapply fill_page; [|reflexivity|exact Hm].
  eapply trampoline_fits; [|exact Hrel]. destruct (TEST_BIT0 target); auto.
Qed.

Lemma registerInlineHook_inv target new proto st c st' :
  inv m0 P st -> separate target proto st -> is_word 32 new ->
  registerInlineHook maps mmap_page target new proto st = Ok (c, st') -> inv m0 P st'.
Proof.
  intros Hi (Ht & Hproto & Hsep) Hnew Hr.
  destruct (registerInlineHook_ok _ _ _ _ _ _ Hr) as [[_ ->]|(_ & Hsz & Hnin & old & orig & page & m & b &
    Hold & Horig & Hpage & Hm & ->)]; [done|].
  set (it := {| target_addr := target |}). set (st' := set_memory _ _).
  assert (Hact : active st' = active st ++ [it]).
  { unfold active, st'. cbn. replace (Z.to_nat (size st + 1)) with (S (Z.to_nat (size st)))
      by (pose proof (inv_size _ _ _ Hi); lia).
    rewrite (take_S_r _ _ it).
    - by rewrite take_insert_ge by lia.
    - apply list_lookup_insert_eq. by eapply lookup_lt_Some. }
  assert (Hnew' : forall i, i ∈ active st' -> i ∈ active st \/ i = it).
  { intros i. rewrite Hact, elem_of_app, list_elem_of_singleton. done. }
  assert (Hold' : forall i, i ∈ active st -> i ∈ active st').
  { intros i. rewrite Hact, elem_of_app. by left. }
  assert (Hself : it ∈ active st') by (rewrite Hact, elem_of_app, list_elem_of_singleton; by right).
  assert (Hfresh : forall a, in_page it a -> memory st !! a = None) by (apply mmap_fresh, Hpage).
  assert (Hpages : forall i a, i ∈ active st -> in_page i a -> ~ in_page it a).
  { intros i a Hia Hpa Hpi. apply Hfresh in Hpi.
    assert (is_Some (memory st !! a)) as [x Hx] by (apply (inv_dom _ _ _ Hi); right; by exists i).
    congruence. }
  assert (Hcode : forall a, in_code it a -> ~ P a /\ memory st !! a = m0 !! a).
  { intros a Ha. destruct (Hsep a Ha) as [HPa Hall]. split; [done|].
    apply Hi; [done| |]; intros i Hia; intros; by apply Hall. }
  assert (Hok : item_ok m0 P it).
  { split; [done|done|done| | | |done].
    - change (load_bytes m0 (CLEAR_BIT0 target) (Z.to_nat (if TEST_BIT0 target then 12 else 8)) = Some orig).
      rewrite <- Horig. replace (Z.to_nat _) with (if TEST_BIT0 target then 12 else 8)%nat
        by by destruct (TEST_BIT0 target).
      symmetry. apply load_bytes_ext. intros i Hr'. apply Hcode. unfold in_code, code_addr. cbn.
      destruct (TEST_BIT0 target); lia.
    - intros a Ha. by apply Hcode.
    - intros a Ha. apply eq_None_not_Some. intros Hs. specialize (Hfresh a Ha).
      assert (is_Some (memory st !! a)) as [x Hx] by (apply (inv_dom _ _ _ Hi); by left). congruence. }
  split.
  - cbn. rewrite length_insert. apply Hi.
  - cbn. pose proof (inv_size _ _ _ Hi). lia.
  - rewrite Hact, fmap_app. cbn. apply NoDup_app. split; [apply Hi|]. split.
    + intros x Hx Hx'%list_elem_of_singleton. by subst x.
    + apply NoDup_singleton.
  - rewrite Hact. apply Forall_app. split; [apply Hi|by constructor].
  - intros i j Hi' Hj' Hne a. destruct (Hnew' i Hi') as [Hia| ->], (Hnew' j Hj') as [Hja| ->].
    + by apply (inv_disjoint _ _ _ Hi).
    + split; [|intros []; by apply (Hpages i a)].
      intros [Ha1 Ha2]. by destruct (proj2 (Hsep a Ha2) i Hia) as [[] _].
    + split; [|intros []; by apply (Hpages j a)].
      intros [Ha1 Ha2]. by destruct (proj2 (Hsep a Ha1) j Hja) as [[] _].
    + done.
  - intros a. cbn. destruct (decide (page <= a < page + PAGE_SIZE)) as [Ha|Ha].
    + split; [intros _; right; by exists it|intros _]. by apply Hm.
    + destruct (Hm a) as [_ ->]; [|done]. rewrite (inv_dom _ _ _ Hi a).
      split; (intros [|(i & Hia & Hpi)]; [by left|right]).
      * exists i. auto.
      * destruct (Hnew' i Hia) as [| ->]; [by exists i|done].
  - intros a Ha Hpg Hcd. cbn. destruct (Hm a) as [_ ->]; [|by apply (Hpg it)].
    apply Hi; [done| |]; auto.
  - intros i Hi' Hs. destruct (Hnew' i Hi') as [Hia| ->]; [|done].
    assert (Hoki : item_ok m0 P i) by (by eapply Forall_forall, Hia; apply Hi).
    rewrite <- (inv_hooked _ _ _ Hi i Hia Hs). apply load_bytes_ext. intros k Hk. cbn.
    apply Hm. intros Hpa. pose proof (patch_fits m0 P i Hoki).
    apply (code_not_page m0 P i it (code_addr i + k)); [done|done|unfold in_code; lia|exact Hpa].
Qed.

Lemma active_item st pos : 0 <= size st <= 1024 -> length (item st) = 1024%nat ->
  Z.of_nat pos < size st -> exists it, active st !! pos = Some it /\ item st !! pos = Some it.
Proof.
  intros Hs Hl Hp. destruct (lookup_lt_is_Some_2 (item st) pos) as [it Hit]; [lia|].
  exists it. split; [|done]. unfold active. rewrite lookup_take_lt by lia. done.
Qed.

Lemma inlineHook_total target st :
  inv m0 P st -> exists c st', inlineHook target st = Ok (c, st') /\ inv m0 P st'.
Proof.
  intros Hi. unfold inlineHook. pose proof (find_index_spec target (active st) 0) as Hf.
  destruct (find_index target (active st) 0) as [pos|]; [|by exists ELE7EN_ERROR_NOT_REGISTERED, st].
  destruct Hf as (it & _ & Hl & _). rewrite Nat.sub_0_r in Hl.
  destruct (active_lookup _ _ _ Hl) as [-> _]. cbn [of_opt rbind].
  destruct (status it) eqn:Hs; [|by exists ELE7EN_ERROR_ALREADY_HOOKED, st].
  destruct (doInlineHook_inv st pos it Hi Hl Hs) as (st' & -> & Hi' & _). cbn. by eexists _, _.
Qed.

Lemma find_hooked_spec target l k :
  match find_hooked target l k with
  | Some i => exists it, (k <= i)%nat /\ l !! (i - k)%nat = Some it /\ target_addr it = target /\
                         status it = HOOKED
  | None => forall it, it ∈ l -> target_addr it = target -> status it = REGISTERED
  end.
Proof.
  revert k. induction l as [|it l IH]; intros k; cbn [find_hooked].
  - intros it Hin. by apply elem_of_nil in Hin.
  - destruct (Z.eqb_spec (target_addr it) target) as [He|He]; cbn [andb];
      [case_bool_decide as Hs; cbv iota|].
    + exists it. by rewrite Nat.sub_diag.
    + specialize (IH (S k)). destruct (find_hooked target l (S k)) as [i|].
      * destruct IH as (it' & Hk & Hl & Ht). exists it'. split; [lia|].
        by replace (i - k)%nat with (S (i - S k)) by lia.
      * intros j [-> |Hj]%elem_of_cons; [by destruct (status it)|by apply IH].
    + specialize (IH (S k)). destruct (find_hooked target l (S k)) as [i|].
      * destruct IH as (it' & Hk & Hl & Ht). exists it'. split; [lia|].
        by replace (i - k)%nat with (S (i - S k)) by lia.
      * intros j [-> |Hj]%elem_of_cons; [done|by apply IH].
Qed.

Lemma inlineUnHook_total target st :
  inv m0 P st -> exists c st', inlineUnHook target st = Ok (c, st') /\ inv m0 P st'.
Proof.
  intros Hi. unfold inlineUnHook. pose proof (find_hooked_spec target (active st) 0) as Hf.
  destruct (find_hooked target (active st) 0) as [pos|]; [|by exists ELE7EN_ERROR_NOT_HOOKED, st].
  destruct Hf as (it & _ & Hl & _). rewrite Nat.sub_0_r in Hl.
  destruct (doInlineUnHook_inv st pos it Hi Hl) as (st' & -> & Hi' & _). cbn. by eexists _, _.
Qed.

Lemma hook_loop_inv n i st :
  inv m0 P st -> Z.of_nat i + Z.of_nat n = size st ->
  Forall (fun it => status it = HOOKED) (take i (active st)) ->
  exists st', hook_loop n i st = Ok st' /\ inv m0 P st' /\ size st' = size st /\
    Forall (fun it => status it = HOOKED) (active st') /\
    set_hooked <$> active st' = set_hooked <$> active st.
Proof.
  revert i st. induction n as [|n IH]; intros i st Hi Hn Hall; cbn [hook_loop].
  - exists st. split_and!; try done.
    rewrite take_ge in Hall; [done|]. unfold active. rewrite length_take. lia.
  - destruct (active_item st i) as (it & Hact & ->); [apply Hi|apply Hi|lia|]. cbn [of_opt rbind].
    destruct (status it) eqn:Hs.
    + destruct (doInlineHook_inv st i it Hi Hact Hs) as (st' & -> & Hi' & Ha' & Hsz). cbn [rbind].
      destruct (IH (S i) st') as (st2 & Hl2 & Hi2 & Hs2 & Hall2 & Heq2); [done|lia| |].
      2:{ exists st2. split_and!; [done..|lia|done|]. rewrite Heq2, Ha', list_fmap_insert.
          apply list_insert_id. by rewrite list_lookup_fmap, Hact. }
      rewrite Ha'.
      rewrite (take_S_r _ _ (set_hooked it))
        by (apply list_lookup_insert_eq; by eapply lookup_lt_Some).
      apply Forall_app. split; [|by constructor]. by rewrite take_insert_ge by lia.
    + cbn [rbind]. apply IH; [done|lia|]. rewrite (take_S_r _ _ it) by done.
      apply Forall_app. split; [done|by constructor].
Qed.

Lemma inlineHookAll_total st :
  inv m0 P st -> exists st', inlineHookAll st = Ok st' /\ inv m0 P st' /\ size st' = size st /\
    Forall (fun it => status it = HOOKED) (active st') /\
    set_hooked <$> active st' = set_hooked <$> active st.
Proof.
  intros Hi. apply hook_loop_inv; [done| |constructor]. pose proof (inv_size _ _ _ Hi). lia.
Qed.

(** What is left to visit shrinks: [size - i] is less than the fuel. *)
Lemma unhook_loop_inv fuel i st :
  inv m0 P st -> 0 <= i <= size st -> size st - i < Z.of_nat fuel ->
  Forall (fun it => status it = REGISTERED) (take (Z.to_nat i) (active st)) ->
  exists st', unhook_loop fuel i st = Ok st' /\ inv m0 P st' /\
    active st' ≡ₚ filter (fun it => status it = REGISTERED) (active st).
Proof.
  revert i st. induction fuel as [|fuel IH]; intros i st Hi Hr Hf Hall; [lia|]. cbn [unhook_loop].
  destruct (Z.ltb_spec i (size st)).
  - destruct (active_item st (Z.to_nat i)) as (it & Hact & ->); [apply Hi|apply Hi|lia|].
    cbn [of_opt rbind]. destruct (status it) eqn:Hs.
    + apply IH; [done|lia|lia|]. replace (Z.to_nat (i + 1)) with (S (Z.to_nat i)) by lia.
      rewrite (take_S_r _ _ it) by done. apply Forall_app. split; [done|by constructor].
    + destruct (doInlineUnHook_inv st (Z.to_nat i) it Hi Hact) as (st1 & -> & Hi1 & Hp & Hsz & Htk).
      cbn [rbind]. destruct (IH i st1) as (st' & Hl & Hi' & Hp'); [done|lia|lia|by rewrite Htk|].
      exists st'. split; [done|]. split; [done|]. rewrite Hp', Hp, filter_cons_False; [done|congruence].
  - exists st. split; [done|]. split; [done|]. rewrite take_ge in Hall
      by (unfold active; rewrite length_take; lia).
    clear - Hall. induction Hall as [|it l Hs _ IH]; [done|].
    by rewrite filter_cons_True, <- IH.
Qed.
End Preservation.

(** ** Histories of calls *)

Inductive step maps mmap_page (P : Z -> Prop) : state -> state -> Prop :=
| step_register target new proto st c st' :
    separate P target proto st -> is_word 32 new ->
    registerInlineHook maps mmap_page target new proto st = Ok (c, st') ->
    step maps mmap_page P st st'
| step_hook target st c st' : inlineHook target st = Ok (c, st') -> step maps mmap_page P st st'
| step_unhook target st c st' : inlineUnHook target st = Ok (c, st') -> step maps mmap_page P st st'
| step_hook_all st st' : inlineHookAll st = Ok st' -> step maps mmap_page P st st'
| step_unhook_all st st' : inlineUnHookAll st = Ok st' -> step maps mmap_page P st st'.

Definition mmap_contract (mmap_page : mem -> option Z) : Prop :=
  forall m page, mmap_page m = Some page -> forall a, page <= a < page + PAGE_SIZE -> m !! a = None.

(** The empty registry over the memory [m0]. *)
Definition initial (m0 : mem) (st : state) : Prop :=
  length (item st) = 1024%nat /\ size st = 0 /\ memory st = m0.

Lemma initial_inv m0 P st : initial m0 st -> inv m0 P st.
Proof.
  intros (Hl & Hs & Hm). assert (Ha : active st = []) by (unfold active; by rewrite Hs).
  split; rewrite ?Ha.
  - done.
  - lia.
  - constructor.
  - constructor.
  - intros i j Hi. by apply elem_of_nil in Hi.
  - intros a. rewrite Hm. split; [by left|]. intros [|(i & Hi & _)]; [done|by apply elem_of_nil in Hi].
  - intros a _ _ _. by rewrite Hm.
  - intros i Hi. by apply elem_of_nil in Hi.
Qed.

Lemma unhook_all_total m0 P st :
  (forall a, P a -> is_Some (m0 !! a)) -> inv m0 P st ->
  exists st', inlineUnHookAll st = Ok st' /\ inv m0 P st' /\
    active st' ≡ₚ filter (fun it => status it = REGISTERED) (active st).
Proof.
  intros HP Hi. pose proof (inv_size _ _ _ Hi). apply unhook_loop_inv; [done|lia|lia|constructor].
Qed.

Lemma step_inv maps mmap_page m0 P st st' :
  (forall a, P a -> is_Some (m0 !! a)) -> mmap_contract mmap_page ->
  inv m0 P st -> step maps mmap_page P st st' -> inv m0 P st'.
Proof.
  intros HP Hmmap Hi Hstep. destruct Hstep as [??????? Hr|?? c st' Hr|?? c st' Hr|? st' Hr|? st' Hr].
  - by eapply registerInlineHook_inv in Hr.
  - destruct (inlineHook_total m0 P HP target st Hi) as (? & ? & Hh & ?). congruence.
  - destruct (inlineUnHook_total m0 P target st Hi) as (? & ? & Hh & ?). congruence.
  - destruct (inlineHookAll_total m0 P HP st Hi) as (? & Hh & ? & _). congruence.
  - destruct (unhook_all_total m0 P st HP Hi) as (? & Hh & ? & _). congruence.
Qed.

Lemma reachable_inv maps mmap_page m0 P st0 st :
  (forall a, P a -> is_Some (m0 !! a)) -> mmap_contract mmap_page ->
  initial m0 st0 -> star (step maps mmap_page P) st0 st -> inv m0 P st.
Proof.
  intros HP Hmmap H0 Hstar. eapply (star_invariant _ (inv m0 P)); [|done|by apply initial_inv].
  intros s s' Hs Hst. by eapply step_inv.
Qed.

(** What the processor does at the address of a function: [LDR PC, [PC, #-4]] in
    ARM state, an optional NOP and [LDR.W PC, [PC]] (the aligned PC) in Thumb
    state; the result is the address it goes to. *)
Definition fetch_jump (m : mem) (target : Z) : option Z :=
  if TEST_BIT0 target then
    match load16 m (CLEAR_BIT0 target) with
    | Some h =>
        let a := CLEAR_BIT0 target + (if h =? 0xBF00 then 2 else 0) in
        match load16 m a, load16 m (a + 2) with
        | Some h1, Some h2 =>
            if (h1 =? 0xF8DF) && (h2 =? 0xF000) then load32 m (a + 4 - (a + 4) mod 4) else None
        | _, _ => None
        end
    | None => None
    end
  else match load32 m target with
       | Some w => if w =? 0xe51ff004 then load32 m (target + 8 - 4) else None
       | None => None
       end.

Lemma clear_bit0_mod4 t : is_word 32 t -> CLEAR_BIT0 t mod 4 = 0 \/ CLEAR_BIT0 t mod 4 = 2.
Proof.
  intros Ht. unfold CLEAR_BIT0. change 0xFFFFFFFE with (2 ^ 32 - 2 ^ 1).
  rewrite (land_high 32 1) by (done || lia). change (2 ^ 1) with 2.
  pose proof (Z.div_mod t 2 ltac:(lia)). pose proof (Z.mod_pos_bound t 2 ltac:(lia)).
  replace (t - t mod 2) with (2 * (t / 2)) by lia.
  change 4 with (2 * 2). rewrite Zmult_mod_distr_l.
  pose proof (Z.mod_pos_bound (t / 2) 2 ltac:(lia)). lia.
Qed.

Lemma le_bytes_halves v : le_bytes 2 (v .& 0xFFFF) ++ le_bytes 2 (v .>> 16) = le_bytes 4 v.
Proof.
  change 0xFFFF with (Z.ones 16). rewrite Z.land_ones, Z.shiftr_div_pow2 by lia.
  change (2 ^ 16) with 65536. cbn [le_bytes app]. rewrite !Z.div_div by lia.
  repeat apply (f_equal2 cons); try reflexivity; Z.to_euclidean_division_equations; lia.
Qed.

(** The patch of a Thumb function: [nop] is empty or one NOP. *)
Lemma thumb_patch_bytes it :
  TEST_BIT0 (target_addr it) = true ->
  patch it = (if code_addr it mod 4 =? 0 then [] else le_bytes 2 0xBF00) ++
    le_bytes 2 0xF8DF ++ le_bytes 2 0xF000 ++ le_bytes 4 (new_addr it).
Proof.
  intros Hb. unfold patch. rewrite Hb, <- le_bytes_halves. unfold thumb_patch.
  by destruct (_ =? 0).
Qed.

Lemma patch_jumps m0 P m it :
  item_ok m0 P it -> load_bytes m (code_addr it) (length (patch it)) = Some (patch it) ->
  fetch_jump m (target_addr it) = Some (new_addr it).
Proof.
  intros Hok Hl. pose proof (ok_target _ _ _ Hok) as Ht. pose proof (ok_new _ _ _ Hok) as Hn.
  unfold fetch_jump. destruct (TEST_BIT0 (target_addr it)) eqn:Hb.
  - change (CLEAR_BIT0 (target_addr it)) with (code_addr it).
    pose proof (thumb_patch_bytes it Hb) as Hp.
    destruct (clear_bit0_mod4 _ Ht) as [Hm|Hm]; change (CLEAR_BIT0 (target_addr it)) with (code_addr it) in Hm;
      rewrite Hm in Hp; cbn [Z.eqb] in Hp; rewrite Hp in Hl; set (a := code_addr it) in *.
    + pose proof (load_at _ _ _ 2 0xF8DF 0 (le_bytes 2 0xF000 ++ le_bytes 4 (new_addr it)) Hl eq_refl
        ltac:(cbn; lia)) as H1.
      pose proof (load_at _ _ _ 2 0xF000 2 (le_bytes 4 (new_addr it)) Hl eq_refl ltac:(cbn; lia)) as H2.
      pose proof (load_at _ _ _ 4 (new_addr it) 4 [] Hl eq_refl ltac:(cbn; lia)) as H4.
      rewrite Z.add_0_r in H1. rewrite H1. change (0xF8DF mod _ =? 0xBF00) with false. cbv iota.
      rewrite Z.add_0_r, H1. change (a + 2) with (a + Z.of_nat 2). rewrite H2. cbv iota.
      change (_ && _) with true. cbv iota. replace ((a + 4) mod 4) with 0 by (Z.to_euclidean_division_equations; lia).
      rewrite Z.sub_0_r. change (a + 4) with (a + Z.of_nat 4). rewrite H4. f_equal. by apply Z.mod_small.
    + pose proof (load_at _ _ _ 2 0xBF00 0 (le_bytes 2 0xF8DF ++ le_bytes 2 0xF000 ++ le_bytes 4 (new_addr it)) Hl
        eq_refl ltac:(cbn; lia)) as H0.
      pose proof (load_at _ _ _ 2 0xF8DF 2 (le_bytes 2 0xF000 ++ le_bytes 4 (new_addr it)) Hl eq_refl
        ltac:(cbn; lia)) as H1.
      pose proof (load_at _ _ _ 2 0xF000 4 (le_bytes 4 (new_addr it)) Hl eq_refl ltac:(cbn; lia)) as H2.
      pose proof (load_at _ _ _ 4 (new_addr it) 6 [] Hl eq_refl ltac:(cbn; lia)) as H4.
      rewrite Z.add_0_r in H0. rewrite H0. change (0xBF00 mod _ =? 0xBF00) with true. cbv iota.
      change (a + 2) with (a + Z.of_nat 2). rewrite H1.
      replace (a + Z.of_nat 2 + 2) with (a + Z.of_nat 4) by lia. rewrite H2. cbv iota.
      change (_ && _) with true. cbv iota.
      replace (a + Z.of_nat 2 + 4 - (a + Z.of_nat 2 + 4) mod 4) with (a + Z.of_nat 6)
        by (Z.to_euclidean_division_equations; lia).
      rewrite H4. f_equal. by apply Z.mod_small.
  - assert (Hc : code_addr it = target_addr it) by by apply CLEAR_even.
    unfold patch in Hl. rewrite Hb, Hc in Hl.
    pose proof (load_at _ _ _ 4 0xe51ff004 0 (le_bytes 4 (new_addr it)) Hl) as H1.
    pose proof (load_at _ _ _ 4 (new_addr it) 4 [] Hl) as H2.
    rewrite Z.add_0_r in H1. rewrite H1 by (done || (cbn; lia)).
    change (0xe51ff004 mod _ =? 0xe51ff004) with true. cbv iota.
    replace (target_addr it + 8 - 4) with (target_addr it + Z.of_nat 4) by lia.
    rewrite H2 by (done || (cbn; lia)). f_equal. by apply Z.mod_small.
Qed.

(** ** Properties *)

Lemma set_hooked_id it : status it = HOOKED -> set_hooked it = it.
Proof. destruct it. cbn. by intros ->. Qed.

Section Reachable.
Context (maps : option (list Z)) (mmap_page : mem -> option Z) (m0 : mem) (P : Z -> Prop).
Context (st0 : state) (P_mapped : forall a, P a -> is_Some (m0 !! a)).
Context (mmap_ok : mmap_contract mmap_page) (Hinit : initial m0 st0).

(** C9: In every state reached by registering, hooking and unhooking functions
    that do not overlap, the processor goes from each hooked function to its
    replacement; [inlineHookAll] hooks every function that is registered. *)
Theorem hooks_redirect st :
  star (step maps mmap_page P) st0 st ->
  (forall it, it ∈ active st -> status it = HOOKED ->
     fetch_jump (memory st) (target_addr it) = Some (new_addr it)) /\
  exists st', inlineHookAll st = Ok st' /\ active st' = set_hooked <$> active st /\
    forall it, it ∈ active st' -> fetch_jump (memory st') (target_addr it) = Some (new_addr it).
Proof.
  intros Hstar. pose proof (reachable_inv _ _ _ _ _ _ P_mapped mmap_ok Hinit Hstar) as Hi.
  assert (Hjump : forall s it, inv m0 P s -> it ∈ active s -> status it = HOOKED ->
    fetch_jump (memory s) (target_addr it) = Some (new_addr it)).
  { intros s it Hs Hit Hst. eapply patch_jumps; [by eapply Forall_forall, Hit; apply Hs|].
    by apply (inv_hooked _ _ _ Hs). }
  split; [by auto|].
  destruct (inlineHookAll_total m0 P P_mapped st Hi) as (st' & Hr & Hi' & _ & Hall & Heq).
  exists st'. split; [done|]. split.
  - rewrite <- Heq. clear - Hall. induction Hall as [|it l Hs _ IH]; [done|].
    by rewrite fmap_cons, <- IH, set_hooked_id.
  - intros it Hit. apply Hjump; [done|done|]. by eapply Forall_forall in Hall.
Qed.

(** C10: Unhooking any hooked function succeeds and puts back the bytes the
    function had before any hook; the other items stay.  [inlineUnHookAll]
    terminates, leaves the items that are only registered, and restores all
    memory outside their trampolines and the callers' proto words. *)
Theorem unhook_restores st :
  star (step maps mmap_page P) st0 st ->
  (forall it, it ∈ active st -> status it = HOOKED ->
     exists st', inlineUnHook (target_addr it) st = Ok (ELE7EN_OK, st') /\
       active st ≡ₚ it :: active st' /\ forall a, in_code it a -> memory st' !! a = m0 !! a) /\
  exists st', inlineUnHookAll st = Ok st' /\
    active st' ≡ₚ filter (fun it => status it = REGISTERED) (active st) /\
    forall a, ~ P a -> (forall it, it ∈ active st' -> ~ in_page it a) -> memory st' !! a = m0 !! a.
Proof.
  intros Hstar. pose proof (reachable_inv _ _ _ _ _ _ P_mapped mmap_ok Hinit Hstar) as Hi. split.
  - intros it Hit Hs. assert (Hok : item_ok m0 P it) by (by eapply Forall_forall, Hit; apply Hi).
    unfold inlineUnHook. pose proof (find_hooked_spec (target_addr it) (active st) 0) as Hf.
    destruct (find_hooked _ _ 0) as [pos|]; [|specialize (Hf it Hit eq_refl); congruence].
    destruct Hf as (it' & _ & Hl & Ht & _). rewrite Nat.sub_0_r in Hl.
    assert (it' = it) as ->.
    { apply list_elem_of_lookup in Hit as [k Hk]. assert (k = pos) as ->; [|congruence].
      apply (NoDup_lookup (target_addr <$> active st) _ _ (target_addr it)); [apply Hi| |];
        rewrite list_lookup_fmap, ?Hk, ?Hl; cbn; congruence. }
    destruct (doInlineUnHook_inv m0 P st pos it Hi Hl) as (st' & -> & Hi' & Hp & _). cbn [rbind].
    exists st'. split; [done|]. split; [done|]. intros a Ha.
    assert (Hsub : forall i, i ∈ active st' -> i ∈ active st /\ target_addr i <> target_addr it).
    { intros i Hi2. split; [rewrite Hp; by right|]. intros He.
      pose proof (inv_nodup _ _ _ Hi) as Hnd. rewrite Hp in Hnd. apply NoDup_cons in Hnd as [Hnd _].
      apply Hnd. rewrite <- He. by apply list_elem_of_fmap_2. }
    apply Hi'; [by apply (ok_code _ _ _ Hok)| |].
    + intros i Hi2. apply (code_not_page m0 P it i); [done| |done].
      eapply Forall_forall, Hsub, Hi2. apply Hi.
    + intros i Hi2 _ Hc. destruct (Hsub i Hi2) as [Hi3 Hne].
      by destruct (inv_disjoint _ _ _ Hi i it Hi3 Hit Hne a) as [[] _].
  - destruct (unhook_all_total m0 P st P_mapped Hi) as (st' & Hr & Hi' & Hp).
    exists st'. split; [done|]. split; [done|]. intros a Ha Hpg. apply Hi'; [done|done|].
    intros it Hit Hs. rewrite Hp in Hit. apply list_elem_of_filter in Hit as [Hs' _]. congruence.
Qed.

(** [doInlineUnHook] flushes the instruction cache after [deleteInlineHookItem]
    has overwritten the item it reads the address from: unhooking an item that is
    not the last flushes the range of the last one and not the restored one. *)
Theorem unhook_flushes_last st pos it last :
  star (step maps mmap_page P) st0 st ->
  active st !! pos = Some it -> Z.of_nat pos <> size st - 1 ->
  active st !! Z.to_nat (size st - 1) = Some last ->
  exists st', doInlineUnHook pos st = Ok st' /\
    flushed st' = (code_addr last, u32 (code_addr last + length_ last)) :: flushed st /\
    code_addr last <> code_addr it.
Proof.
  intros Hstar Hpos Hne Hlast.
  pose proof (reachable_inv _ _ _ _ _ _ P_mapped mmap_ok Hinit Hstar) as Hi.
  destruct (doInlineUnHook_inv m0 P st pos it Hi Hpos) as (st' & Hu & _).
  exists st'. split; [done|]. destruct (active_lookup _ _ _ Hlast) as [Hl Hlt].
  destruct (active_lookup _ _ _ Hpos) as [Hp Hplt].
  assert (Hin : it ∈ active st) by by eapply list_elem_of_lookup_2.
  assert (Hinl : last ∈ active st) by by eapply list_elem_of_lookup_2.
  split.
  - unfold doInlineUnHook in Hu. rewrite Hp in Hu. cbn [of_opt rbind] in Hu.
    destruct (store_bytes _ _ _) as [m|]; [|done]. cbn [of_opt rbind] in Hu.
    unfold deleteInlineHookItem in Hu. cbn [item size set_memory] in Hu. rewrite Hl in Hu.
    cbn [of_opt rbind] in Hu. unfold set_size, set_item in Hu. cbn [item] in Hu.
    rewrite list_lookup_insert_eq in Hu by (by eapply lookup_lt_Some). cbn [of_opt rbind] in Hu.
    apply (inj Ok) in Hu as <-. done.
  - intros Hc. assert (Hne' : target_addr last <> target_addr it).
    { intros He. assert (Z.to_nat (size st - 1) = pos) by
        (apply (NoDup_lookup (target_addr <$> active st) _ _ (target_addr it)); [apply Hi| |];
         rewrite list_lookup_fmap, ?Hlast, ?Hpos; cbn; congruence). lia. }
    assert (Hokl : item_ok m0 P last) by (by eapply Forall_forall, Hinl; apply Hi).
    assert (Hok : item_ok m0 P it) by (by eapply Forall_forall, Hin; apply Hi).
    destruct (inv_disjoint _ _ _ Hi last it Hinl Hin Hne' (code_addr it)) as [Hd _]. apply Hd.
    unfold in_code. rewrite Hc, (ok_length _ _ _ Hokl), (ok_length _ _ _ Hok).
    destruct (TEST_BIT0 (target_addr last)), (TEST_BIT0 (target_addr it)); lia.
Qed.

End Reachable.

(** The 1025th registration of an executable function dereferences NULL. *)
Lemma register_full_faults maps mmap_page st target new proto :
  size st = 1024 -> isExecutableAddr maps target = true -> isExecutableAddr maps new = true ->
  target ∉ target_addr <$> active st ->
  registerInlineHook maps mmap_page target new proto st = Fault.
Proof.
  intros Hs Ht Hn Hnin. unfold registerInlineHook. rewrite Ht, Hn. cbn [negb orb].
  unfold findInlineHookItem. pose proof (find_index_spec target (active st) 0) as Hf.
  destruct (find_index target (active st) 0) as [pos|].
  - destruct Hf as (it & _ & Hl & <-). rewrite Nat.sub_0_r in Hl. destruct Hnin.
    apply list_elem_of_fmap_2. by eapply list_elem_of_lookup_2.
  - unfold addInlineHookItem. by rewrite Hs.
Qed.

Lemma find_boundary_inverse o t from to n :
  find_boundary o from to n = Some t -> NoDup (take n to) -> find_boundary t to from n = Some o.
Proof.
  revert from to. induction n as [|n IH]; intros from to; [done|].
  destruct from as [|f from], to as [|t' to]; try done. cbn [find_boundary take].
  intros Hf [Hnin Hnd]%NoDup_cons. destruct (Z.eqb_spec o f) as [-> |].
  - injection Hf as ->. by rewrite Z.eqb_refl.
  - destruct (Z.eqb_spec t t') as [-> |]; [|by apply IH]. destruct Hnin. clear - Hf.
    revert from to Hf. induction n as [|n IH]; intros from to; [done|].
    destruct from as [|f from], to as [|u to]; try done. cbn [find_boundary take].
    destruct (o =? f); [intros [= ->]; by left|]. intros. right. by eapply IH.
Qed.

Lemma find_boundary_in o t from to n :
  find_boundary o from to n = Some t -> o ∈ from /\ t ∈ to.
Proof.
  revert from to. induction n as [|n IH]; intros from to; [done|].
  destruct from as [|f from], to as [|u to]; try done. cbn [find_boundary].
  destruct (Z.eqb_spec o f) as [-> |]; [intros [= ->]; split; by left|].
  intros H. destruct (IH _ _ H). split; by right.
Qed.

(** A thread stopped at an instruction start of the function is moved to the
    trampoline when the hook is enabled, and moved back to the same instruction
    when it is disabled, as long as the recorded trampoline offsets differ. *)
Theorem thread_pc_roundtrip it pc pc' :
  is_word 32 pc -> NoDup (take (Z.to_nat (count (bounds it))) (tramp_b (bounds it))) ->
  Forall (fun o => 0 <= o < PAGE_SIZE) (orig_b (bounds it) ++ tramp_b (bounds it)) ->
  doProcessThreadPC it pc ACTION_ENABLE = (true, pc') ->
  doProcessThreadPC it pc' ACTION_DISABLE = (true, pc).
Proof.
  intros Hpc Hnd [Ho Ht]%Forall_app. unfold doProcessThreadPC. cbv zeta.
  destruct (find_boundary _ (orig_b _) _ _) as [t|] eqn:Hf; [|done].
  intros H. apply pair_equal_spec in H as [_ <-].
  destruct (find_boundary_in _ _ _ _ _ Hf) as [Hoin Htin].
  eapply Forall_forall in Htin; [|exact Ht]. eapply Forall_forall in Hoin; [|exact Ho].
  unfold PAGE_SIZE in *. cbv beta in *.
  assert (Hs : s32 (u32 (trampoline_instructions it + t) - trampoline_instructions it) = t).
  { rewrite <- swrap_uwrap, uwrap_sub_l, swrap_uwrap.
    replace (trampoline_instructions it + t - trampoline_instructions it) with t by ring.
    apply swrap_small; lia. }
  rewrite Hs, (find_boundary_inverse _ _ _ _ _ Hf Hnd). f_equal.
  rewrite <- uwrap_add_r, uwrap_swrap, uwrap_add_r.
  replace (CLEAR_BIT0 (target_addr it) + (pc - CLEAR_BIT0 (target_addr it))) with pc by ring.
  by apply uwrap_small.
Qed.

(** ** Witnesses: an ARM function at 0x8000 and a Thumb function at 0x8010 *)

(** "8000-a000 r-xp\n" *)
Definition demo_maps : option (list Z) :=
  Some [56; 48; 48; 48; 45; 97; 48; 48; 48; 32; 114; 45; 120; 112; 10].
Definition demo_memory : mem :=
  mem_at 0x8000 (le_bytes 4 0xE92D4010 ++ le_bytes 4 0xE1A04000 ++ replicate 8 0 ++
                 mjoin (le_bytes 2 <$> demo_thumb)) (mem_at 0x9000 [0; 0; 0; 0] ∅).
Definition demo_P (a : Z) : Prop := 0x9000 <= a < 0x9004.
Definition page_free (m : mem) (page : Z) : bool :=
  forallb (fun i => bool_decide (m !! (page + i) = None)) (zrange 0 4096).
Definition demo_mmap (m : mem) : option Z :=
  if page_free m 0x700000 then Some 0x700000
  else if page_free m 0x701000 then Some 0x701000 else None.

Definition demo_item : inlineHookItem :=
  {| target_addr := 0; new_addr := 0; proto_addr := 0; orig_instructions := [];
     bounds := new_boundaries; trampoline_instructions := 0; length_ := 0; status := REGISTERED |}.
Definition demo0 : state :=
  {| item := replicate 1024 demo_item; size := 0; memory := demo_memory; flushed := [] |}.

Definition after (r : res (ele7en_status * state)) : state :=
  match r with Ok (_, st) => st | _ => demo0 end.
Definition succeeded (r : res (ele7en_status * state)) : bool :=
  match r with Ok (ELE7EN_OK, _) => true | _ => false end.
Definition demo1 : state := after (registerInlineHook demo_maps demo_mmap 0x8000 0x8100 0x9000 demo0).
Definition demo2 : state := after (registerInlineHook demo_maps demo_mmap 0x8011 0x8201 0 demo1).
Definition demo3 : state := after (inlineHook 0x8000 demo2).

Definition place (it : inlineHookItem) : Z * Z * Z :=
  (code_addr it, length_ it, trampoline_instructions it).

Lemma demo_mmap_contract : mmap_contract demo_mmap.
Proof.
  assert (H : forall m page, page_free m page = true ->
    forall a, page <= a < page + PAGE_SIZE -> m !! a = None).
  { intros m page Hp a Ha. unfold page_free in Hp. rewrite forallb_forall in Hp.
    specialize (Hp (a - page)). rewrite bool_decide_eq_true in Hp. rewrite <- Hp; [f_equal; lia|].
    apply list_elem_of_In, elem_of_zrange. unfold PAGE_SIZE in Ha. lia. }
  intros m page. unfold demo_mmap. destruct (page_free m 0x700000) eqn:H0.
  { intros Hs. apply (inj Some) in Hs as <-. by apply H. }
  destruct (page_free m 0x701000) eqn:H1; [|done]. intros Hs. apply (inj Some) in Hs as <-. by apply H.
Qed.

Lemma demo_P_mapped a : demo_P a -> is_Some (demo_memory !! a).
Proof.
  unfold demo_P, demo_memory. intros Ha. rewrite !mem_at_lookup.
  case_decide; [apply lookup_lt_is_Some; lia|].
  rewrite decide_True by (cbn; lia). apply lookup_lt_is_Some. cbn. lia.
Qed.

Lemma separate_by_place P target proto st (l : list (Z * Z * Z)) :
  place <$> active st = l -> is_word 32 target ->
  (proto = 0 \/ forall i, 0 <= i < 4 -> P (proto + i)) ->
  (forall a, CLEAR_BIT0 target <= a < CLEAR_BIT0 target + (if TEST_BIT0 target then 12 else 8) ->
    ~ P a /\ Forall (fun '(c, n, p) => ~ (c <= a < c + n) /\ ~ (p <= a < p + PAGE_SIZE)) l) ->
  separate P target proto st.
Proof.
  intros <- Ht Hp Ha. split; [done|]. split; [done|]. intros a Hr. destruct (Ha a Hr) as [HPa Hall].
  split; [done|]. intros it Hit. rewrite Forall_fmap, Forall_forall in Hall. exact (Hall it Hit).
Qed.

Lemma succeeded_after r : succeeded r = true -> r = Ok (ELE7EN_OK, after r).
Proof. by destruct r as [[[] st]| |]. Qed.

Lemma demo_reachable : star (step demo_maps demo_mmap demo_P) demo0 demo3.
Proof.
  eapply star_cons; [|eapply star_cons; [|eapply star_cons; [|apply star_nil]]].
  - eapply (step_register _ _ _ 0x8000 0x8100 0x9000 _ ELE7EN_OK demo1);
      [|by vm_compute|apply succeeded_after; vm_compute; reflexivity].
    apply (separate_by_place _ _ _ _ []); [vm_compute; reflexivity|by vm_compute| |].
    + right. unfold demo_P. lia.
    + change (CLEAR_BIT0 0x8000) with 0x8000. change (TEST_BIT0 0x8000) with false. unfold demo_P.
      intros a Ha. split; [lia|constructor].
  - eapply (step_register _ _ _ 0x8011 0x8201 0 _ ELE7EN_OK demo2);
      [|by vm_compute|apply succeeded_after; vm_compute; reflexivity].
    apply (separate_by_place _ _ _ _ [(0x8000, 8, 0x700000)]); [vm_compute; reflexivity|by vm_compute|by left|].
    change (CLEAR_BIT0 0x8011) with 0x8010. change (TEST_BIT0 0x8011) with true. unfold demo_P.
    intros a Ha. split; [lia|]. constructor; [|constructor]. unfold PAGE_SIZE. lia.
  - eapply (step_hook _ _ _ 0x8000 _ ELE7EN_OK demo3). apply succeeded_after. vm_compute. reflexivity.
Qed.

Lemma demo0_initial : initial demo_memory demo0.
Proof. split; [apply length_replicate|done]. Qed.

Lemma hooks_redirect_witness :
  star (step demo_maps demo_mmap demo_P) demo0 demo3 /\
  (forall it, it ∈ active demo3 -> status it = HOOKED ->
     fetch_jump (memory demo3) (target_addr it) = Some (new_addr it)) /\
  exists st', inlineHookAll demo3 = Ok st' /\ active st' = set_hooked <$> active demo3 /\
    forall it, it ∈ active st' -> fetch_jump (memory st') (target_addr it) = Some (new_addr it).
Proof.
  split; [apply demo_reachable|].
  apply (hooks_redirect demo_maps demo_mmap demo_memory demo_P demo0 demo_P_mapped
    demo_mmap_contract demo0_initial demo3 demo_reachable).
Defined.

Lemma unhook_restores_witness :
  star (step demo_maps demo_mmap demo_P) demo0 demo3 /\
  (forall it, it ∈ active demo3 -> status it = HOOKED ->
     exists st', inlineUnHook (target_addr it) demo3 = Ok (ELE7EN_OK, st') /\
       active demo3 ≡ₚ it :: active st' /\
       forall a, in_code it a -> memory st' !! a = demo_memory !! a) /\
  exists st', inlineUnHookAll demo3 = Ok st' /\
    active st' ≡ₚ filter (fun it => status it = REGISTERED) (active demo3) /\
    forall a, ~ demo_P a -> (forall it, it ∈ active st' -> ~ in_page it a) ->
      memory st' !! a = demo_memory !! a.
Proof.
  split; [apply demo_reachable|].
  apply (unhook_restores demo_maps demo_mmap demo_memory demo_P demo0 demo_P_mapped
    demo_mmap_contract demo0_initial demo3 demo_reachable).
Defined.

Lemma demo3_items : exists it last, active demo3 !! 0%nat = Some it /\
  active demo3 !! Z.to_nat (size demo3 - 1) = Some last /\ 0 <> size demo3 - 1.
Proof.
  assert (Hs : size demo3 = 2) by (vm_compute; reflexivity).
  assert (Hl : length (item demo3) = 1024%nat) by (vm_compute; reflexivity).
  rewrite Hs. destruct (active_item demo3 0) as (it & H1 & _); [lia|done|lia|].
  destruct (active_item demo3 (Z.to_nat (2 - 1))) as (last & H2 & _); [lia|done|lia|].
  exists it, last. split; [exact H1|]. split; [exact H2|lia].
Qed.

Lemma unhook_flushes_last_witness :
  exists it last, active demo3 !! 0%nat = Some it /\ exists st', doInlineUnHook 0 demo3 = Ok st' /\
    flushed st' = (code_addr last, u32 (code_addr last + length_ last)) :: flushed demo3 /\
    code_addr last <> code_addr it.
Proof.
  destruct demo3_items as (it & last & H1 & H2 & H3). exists it, last. split; [exact H1|].
  apply (unhook_flushes_last demo_maps demo_mmap demo_memory demo_P demo0 demo_P_mapped
    demo_mmap_contract demo0_initial demo3 0 it last demo_reachable H1 H3 H2).
Defined.

Definition demo_threads : inlineHookItem :=
  {| target_addr := 0x8001; new_addr := 0x8100; proto_addr := 0; orig_instructions := [];
     bounds := {| orig_b := [0; 4; 6; 10]; tramp_b := [0; 4; 8; 12] ++ replicate 16 0; count := 4 |};
     trampoline_instructions := 0x700000; length_ := 12; status := REGISTERED |}.

Lemma thread_pc_roundtrip_witness : doProcessThreadPC demo_threads 0x700008 ACTION_DISABLE = (true, 0x8006).
Proof.
  apply (thread_pc_roundtrip demo_threads 0x8006); [by vm_compute| | |vm_compute; reflexivity];
    apply (bool_decide_unpack _); vm_compute; exact I.
Defined.
