(* ===== verification/A64Hook.v ===== *)
(** inline64/And64InlineHook.cpp: the inline hooks of 64-bit processes.  The
    instructions a hook overwrites are copied to a trampoline; those with a
    PC-relative operand are rewritten on the way.  Pointers are user-space
    addresses: below 2^63, so [int64_t] arithmetic on them does not overflow.
    [mprotect] is a parameter; cache flushes are not modelled. *)
From S2P Require Import Prelude Memory.

Definition A64_MAX_INSTRUCTIONS : nat := 5.
Definition A64_MAX_REFERENCES : nat := 10.
Definition A64_NOP : Z := 0xd503201f.
Definition A64_MAX_BACKUPS : Z := 256.

(** ** The context: where each instruction went, and what waits for it *)

Record fix_info := { bp : Z; ls : Z; ad : Z }.
Record insns_info := { ins : Z; fmap_ : list fix_info }.
Record context := { basep : Z; endp : Z; dat : list insns_info }.

(** The arguments the fix functions advance, and the memory they write. *)
Record cursor := { inp : Z; outp : Z; cmem : mem; ctx : context }.

Definition set_dat (d : list insns_info) (c : cursor) : cursor :=
  {| inp := inp c; outp := outp c; cmem := cmem c;
     ctx := {| basep := basep (ctx c); endp := endp (ctx c); dat := d |} |}.
Definition set_out (o : Z) (m : mem) (c : cursor) : cursor :=
  {| inp := inp c; outp := o; cmem := m; ctx := ctx c |}.
Definition advance (c : cursor) : cursor :=
  {| inp := inp c + 4; outp := outp c; cmem := cmem c; ctx := ctx c |}.

Definition is_in_fixing_range (x : context) (absolute_addr : Z) : bool :=
  (basep x <=? absolute_addr) && (absolute_addr <? endp x).

(** [sizeof] makes the division unsigned. *)
Definition get_ref_ins_index (x : context) (absolute_addr : Z) : Z := u64 (absolute_addr - basep x) / 4.

Definition reset_current_ins (idx p : Z) (c : cursor) : res cursor :=
  let! d := of_opt (dat (ctx c) !! Z.to_nat idx) in
  Ok (set_dat (<[Z.to_nat idx := {| ins := p; fmap_ := fmap_ d |}]> (dat (ctx c))) c).

Definition get_and_set_current_index (c : cursor) : res (Z * cursor) :=
  let idx := get_ref_ins_index (ctx c) (inp c) in
  let! c := reset_current_ins idx (outp c) c in
  Ok (idx, c).

(** The first free entry of [fmap]; nothing when all ten are taken. *)
Fixpoint insert_fix (f : fix_info) (l : list fix_info) : list fix_info :=
  match l with
  | [] => []
  | g :: l' => if bp g =? 0 then f :: l' else g :: insert_fix f l'
  end.

Definition insert_fix_map (idx p sh mask : Z) (c : cursor) : res cursor :=
  let! d := of_opt (dat (ctx c) !! Z.to_nat idx) in
  Ok (set_dat (<[Z.to_nat idx :=
    {| ins := ins d; fmap_ := insert_fix {| bp := p; ls := sh; ad := mask |} (fmap_ d) |}]>
    (dat (ctx c))) c).

(** [*bp |= ((int32_t(ins - bp) >> 2) << ls) & ad] for the entries before the
    first free one, which become free. *)
Fixpoint process_fixes (target : Z) (l : list fix_info) (m : mem) : res (list fix_info * mem) :=
  match l with
  | [] => Ok ([], m)
  | f :: l' =>
      if bp f =? 0 then Ok (l, m)
      else
        let! w := of_opt (load32 m (bp f)) in
        let! m := of_opt (store32 m (bp f)
          (w .| (u32 ((s32 (target - bp f) .>> 2) .<< ls f) .& ad f))) in
        let! (l', m) := process_fixes target l' m in
        Ok ({| bp := 0; ls := ls f; ad := ad f |} :: l', m)
  end.

Definition process_fix_map (idx : Z) (c : cursor) : res cursor :=
  let! d := of_opt (dat (ctx c) !! Z.to_nat idx) in
  let! (l, m) := process_fixes (ins d) (fmap_ d) (cmem c) in
  Ok (set_out (outp c) m (set_dat (<[Z.to_nat idx := {| ins := ins d; fmap_ := l |}]> (dat (ctx c))) c)).

(** Stores at [*outpp], which they advance: instructions, [memcpy] of a 64-bit
    value, [memcpy] of bytes. *)
Definition emit_bytes (bs : list Z) (c : cursor) : res cursor :=
  let! m := of_opt (store_bytes (cmem c) (outp c) bs) in
  Ok (set_out (outp c + Z.of_nat (length bs)) m c).
Definition emit (w : Z) (c : cursor) : res cursor := emit_bytes (le_bytes 4 w) c.
Definition emit64 (v : Z) (c : cursor) : res cursor := emit_bytes (le_bytes 8 v) c.

Fixpoint emits (ws : list Z) (c : cursor) : res cursor :=
  match ws with
  | [] => Ok c
  | w :: ws' => let! c := emit w c in emits ws' c
  end.

(** A NOP first, to align a literal, when [b]. *)
Definition align_nop (b : bool) (idx : Z) (c : cursor) : res cursor :=
  if b then let! c := emit A64_NOP c in reset_current_ins idx (outp c) c else Ok c.

Definition misaligned (p mask : Z) : bool := truthy (p .& mask).

(** The offset to put in an instruction whose target is among those being moved:
    backward references are resolved, forward ones recorded; [unit_shift] is 2
    where the offset counts instructions. *)
Definition special_offset (idx ref_idx unit_shift sh mask : Z) (c : cursor) : res (Z * cursor) :=
  if ref_idx <=? idx then
    let! d := of_opt (dat (ctx c) !! Z.to_nat ref_idx) in
    Ok ((ins d - outp c) .>> unit_shift, c)
  else
    let! c := insert_fix_map ref_idx (outp c) sh mask c in
    Ok (0, c).

(** ** The four classes of PC-relative instructions

    [None]: the function returns false and has changed nothing. *)

Definition fix_branch_imm (c : cursor) : res (option cursor) :=
  let! i := of_opt (load32 (cmem c) (inp c)) in
  let mask := 0xfc000000 in
  let rmask := 0x03ffffff in
  let op_b := 0x14000000 in
  let op_bl := 0x94000000 in
  let opc := i .& mask in
  if (opc =? op_b) || (opc =? op_bl) then
    let! (current_idx, c) := get_and_set_current_index c in
    let absolute_addr := inp c + (s32 (u32 (i .<< 6)) .>> 4) in
    let new_pc_offset := (absolute_addr - outp c) .>> 2 in
    let special_fix_type := is_in_fixing_range (ctx c) absolute_addr in
    let! c :=
      if negb special_fix_type && ((rmask .>> 1) <=? Z.abs new_pc_offset) then
        let b_aligned := (outp c + 8) .& 7 =? 0 in
        if opc =? op_b then
          let! c := align_nop (negb b_aligned) current_idx c in
          let! c := emits [0x58000051; 0xd61f0220] c in
          emit64 absolute_addr c
        else
          let! c := align_nop b_aligned current_idx c in
          let! c := emits [0x58000071; 0x1000009e; 0xd61f0220] c in
          emit64 absolute_addr c
      else
        let! (new_pc_offset, c) :=
          if special_fix_type
          then special_offset current_idx (get_ref_ins_index (ctx c) absolute_addr) 2 0 rmask c
          else Ok (new_pc_offset, c) in
        emit (opc .| (new_pc_offset .& rmask)) c
    in
    let! c := process_fix_map current_idx (advance c) in
    Ok (Some c)
  else Ok None.

(** The bits that are not the immediate: of [B.cond], [CBZ], [CBNZ], or of [TBZ],
    [TBNZ]; [None] for other instructions. *)
Definition cond_lmask (i : Z) : option Z :=
  if (i .& 0xff000010) =? 0x54000000 then Some 0xff00001f
  else if ((i .& 0x7f000000) =? 0x34000000) || ((i .& 0x7f000000) =? 0x35000000) then Some 0xff00001f
  else if ((i .& 0x7f000000) =? 0x36000000) || ((i .& 0x7f000000) =? 0x37000000) then Some 0xfff8001f
  else None.

(** C's [~x] of a [uint32_t]. *)
Definition not32 (x : Z) : Z := 0xffffffff .^ x.

Definition fix_cond_comp_test_branch (c : cursor) : res (option cursor) :=
  let! i := of_opt (load32 (cmem c) (inp c)) in
  match cond_lmask i with
  | None => Ok None
  | Some lmask =>
      let lsb := 5 in
      let! (current_idx, c) := get_and_set_current_index c in
      let absolute_addr := inp c + ((i .& not32 lmask) .>> (lsb - 2)) in
      let new_pc_offset := (absolute_addr - outp c) .>> 2 in
      let special_fix_type := is_in_fixing_range (ctx c) absolute_addr in
      let! c :=
        if negb special_fix_type && ((not32 lmask .>> (lsb + 1)) <=? Z.abs new_pc_offset) then
          let! c := align_nop (misaligned (outp c + 16) 7) current_idx c in
          let! c := emits [(((8 .>> 2) .<< lsb) .& not32 lmask) .| (i .& lmask);
                           0x14000005; 0x58000051; 0xd61f0220] c in
          emit64 absolute_addr c
        else
          let! (new_pc_offset, c) :=
            if special_fix_type
            then special_offset current_idx (get_ref_ins_index (ctx c) absolute_addr) 2 lsb (not32 lmask) c
            else Ok (new_pc_offset, c) in
          emit ((u32 (new_pc_offset .<< lsb) .& not32 lmask) .| (i .& lmask)) c
      in
      let! c := process_fix_map current_idx (advance c) in
      Ok (Some c)
  end.

(** [while (cond) { emit NOP; }], at most [fuel] times. *)
Fixpoint nop_while (fuel : nat) (cond : Z -> bool) (c : cursor) : res cursor :=
  match fuel with
  | O => NoFuel
  | S fuel' => if cond (outp c) then let! c := emit A64_NOP c in nop_while fuel' cond c else Ok c
  end.

(** The mask of the literal load and the size of the literal minus one. *)
Definition loadlit_class (i : Z) : option (Z * Z) :=
  let faligned := if truthy (i .& 0x40000000) then 7 else 3 in
  if (i .& 0xbf000000) =? 0x18000000 then Some (0xbf000000, faligned)
  else
    let faligned := if faligned =? 7 then 7 else if truthy (i .& 0x80000000) then 15 else 3 in
    if (i .& 0x3f000000) =? 0x1c000000 then Some (0x3f000000, faligned)
    else if (i .& 0xff000000) =? 0x98000000 then Some (0xff000000, 7)
    else None.

(** [& ~3u] makes the signed offset a [uint32_t]: it is zero-extended in the sum. *)
Definition imm19_offset (i : Z) : Z := u32 (s32 (u32 (i .<< 8)) .>> 11) .& not32 3.

Definition fix_loadlit (c : cursor) : res (option cursor) :=
  let! i := of_opt (load32 (cmem c) (inp c)) in
  if (i .& 0xff000000) =? 0xd8000000 then
    let! (idx, c) := get_and_set_current_index c in
    let! c := process_fix_map idx c in
    Ok (Some (advance c))
  else
  match loadlit_class i with
  | None => Ok None
  | Some (mask, faligned) =>
      let lsb := 5 in
      let lmask := 0xff00001f in
      let! (current_idx, c) := get_and_set_current_index c in
      let absolute_addr := inp c + imm19_offset i in
      let new_pc_offset := (absolute_addr - outp c) .>> 2 in
      let special_fix_type := is_in_fixing_range (ctx c) absolute_addr in
      let! c :=
        if special_fix_type ||
           ((not32 lmask .>> (lsb + 1)) <=? Z.abs new_pc_offset + (faligned + 1 - 4) / 4) then
          let! c := nop_while 4 (fun o => misaligned (o + 8) faligned) c in
          let! c := reset_current_ins current_idx (outp c) c in
          let ns := (faligned + 1) / 4 in
          let! c := emits [(((8 .>> 2) .<< lsb) .& not32 mask) .| (i .& lmask); 0x14000001 + ns] c in
          let! lit := of_opt (load_bytes (cmem c) absolute_addr (Z.to_nat (faligned + 1))) in
          emit_bytes lit c
        else
          let! c := nop_while 4 (fun o => misaligned ((absolute_addr - o) .>> 2) (faligned .>> 2)) c in
          let new_pc_offset := (absolute_addr - outp c) .>> 2 in
          let! c := reset_current_ins current_idx (outp c) c in
          emit ((u32 (new_pc_offset .<< lsb) .& not32 mask) .| (i .& lmask)) c
      in
      let! c := process_fix_map current_idx (advance c) in
      Ok (Some c)
  end.

(** [LDR Xd, #8; B #12] and the 64-bit address. *)
Definition emit_address (i absolute_addr : Z) (c : cursor) : res cursor :=
  let! c := emits [0x58000000 .| (((8 .>> 2) .<< 5) .& not32 0x9f000000) .| (i .& 0x1f); 0x14000003] c in
  emit64 absolute_addr c.

Definition fix_pcreladdr (c : cursor) : res (option cursor) :=
  let! i := of_opt (load32 (cmem c) (inp c)) in
  let lsb := 5 in
  let mask := 0x9f000000 in
  let lmask := 0xff00001f in
  let fmask := 0x00ffffff in
  let max_val := 0x001fffff in
  let lsb_bytes := u32 (i .<< 1) .>> 30 in
  if (i .& mask) =? 0x10000000 then
    let! (current_idx, c) := get_and_set_current_index c in
    let absolute_addr := inp c + (imm19_offset i .| lsb_bytes) in
    let new_pc_offset := absolute_addr - outp c in
    let special_fix_type := is_in_fixing_range (ctx c) absolute_addr in
    let! c :=
      if negb special_fix_type && ((max_val .>> 1) <=? Z.abs new_pc_offset) then
        let! c := align_nop (misaligned (outp c + 8) 7) current_idx c in
        emit_address i absolute_addr c
      else
        let! (new_pc_offset, c) :=
          if special_fix_type
          then special_offset current_idx
                 (get_ref_ins_index (ctx c) (absolute_addr - absolute_addr mod 4)) 0 lsb fmask c
          else Ok (new_pc_offset, c) in
        emit ((u32 (new_pc_offset .<< (lsb - 2)) .& fmask) .| (i .& lmask)) c
    in
    let! c := process_fix_map current_idx c in
    Ok (Some (advance c))
  else if (i .& mask) =? 0x90000000 then
    let! (current_idx, c) := get_and_set_current_index c in
    (* the shift is one of a uint32_t *)
    let absolute_addr := (inp c - inp c mod 4096) + u32 ((imm19_offset i .| lsb_bytes) .<< 12) in
    let! c :=
      if is_in_fixing_range (ctx c) absolute_addr then emit i c
      else
        let! c := align_nop (misaligned (outp c + 8) 7) current_idx c in
        emit_address i absolute_addr c
    in
    let! c := process_fix_map current_idx c in
    Ok (Some (advance c))
  else Ok None.

(** ** Moving instructions to the trampoline *)

(** One round of the loop of [__fix_instructions]. *)
Definition fix_one (c : cursor) : res cursor :=
  let! r := fix_branch_imm c in
  match r with Some c => Ok c | None =>
  let! r := fix_cond_comp_test_branch c in
  match r with Some c => Ok c | None =>
  let! r := fix_loadlit c in
  match r with Some c => Ok c | None =>
  let! r := fix_pcreladdr c in
  match r with Some c => Ok c | None =>
    let! (idx, c) := get_and_set_current_index c in
    let! c := process_fix_map idx c in
    let! i := of_opt (load32 (cmem c) (inp c)) in
    let! c := emit i c in
    Ok (advance c)
  end end end end.

Fixpoint fix_loop (count : nat) (c : cursor) : res cursor :=
  match count with
  | O => Ok c
  | S count' => let! c := fix_one c in fix_loop count' c
  end.

(** A branch to [target] from [outp]: direct within 128 MB, through X17 beyond. *)
Definition emit_jump (target : Z) (c : cursor) : res cursor :=
  let mask := 0x03ffffff in
  let pc_offset := (target - outp c) .>> 2 in
  if (mask .>> 1) <=? Z.abs pc_offset then
    let! c := if misaligned (outp c + 8) 7 then emit A64_NOP c else Ok c in
    let! c := emits [0x58000051; 0xd61f0220] c in
    emit64 target c
  else emit (0x14000000 .| (pc_offset .& mask)) c.

Definition new_context (base count : Z) : context :=
  {| basep := base; endp := base + 4 * count;
     dat := replicate A64_MAX_INSTRUCTIONS
       {| ins := 0; fmap_ := replicate A64_MAX_REFERENCES {| bp := 0; ls := 0; ad := 0 |} |} |}.

(** The cursor after it; [outp - outp_base] bytes were written. *)
Definition fix_instructions (inp_ : Z) (count : nat) (outp_ : Z) (m : mem) : res cursor :=
  let! c := fix_loop count {| inp := inp_; outp := outp_; cmem := m;
                              ctx := new_context inp_ (Z.of_nat count) |} in
  emit_jump (inp c) c.

Section Hook.
(** Whether [mprotect] succeeds on the page of the address, for so many bytes. *)
Context (make_rwx : Z -> Z -> bool).
(** The address of [__insns_pool]. *)
Context (insns_pool : Z).

(** [rwx = 0] is NULL; the result is the trampoline, NULL on failure. *)
Definition A64HookFunctionV (symbol replace rwx rwx_size : Z) (m : mem) : res (Z * mem) :=
  let mask := 0x03ffffff in
  let pc_offset := (replace - symbol) .>> 2 in
  if (mask .>> 1) <=? Z.abs pc_offset then
    let count := if misaligned (symbol + 8) 7 then 5 else 4 in
    if truthy rwx && (rwx_size <? count * 10) then Ok (0, m)
    else
      let! m := if truthy rwx
                then let! c := fix_instructions symbol (Z.to_nat count) rwx m in Ok (cmem c)
                else Ok m in
      if make_rwx symbol (5 * 4) then
        let! m := if count =? 5 then of_opt (store32 m symbol A64_NOP) else Ok m in
        let original := if count =? 5 then symbol + 4 else symbol in
        let! m := of_opt (store32 m original 0x58000051) in
        let! m := of_opt (store32 m (original + 4) 0xd61f0220) in
        let! m := of_opt (store64 m (original + 8) replace) in
        Ok (rwx, m)
      else Ok (0, m)
  else
    if truthy rwx && (rwx_size <? 1 * 10) then Ok (0, m)
    else
      let! m := if truthy rwx
                then let! c := fix_instructions symbol 1 rwx m in Ok (cmem c)
                else Ok m in
      if make_rwx symbol (1 * 4) then
        let! m := of_opt (store32 m symbol (0x14000000 .| (pc_offset .& mask))) in
        Ok (rwx, m)
      else Ok (0, m).

(** [__index] is incremented first, as an [int32_t]. *)
Definition FastAllocateTrampoline (index : Z) : Z * Z :=
  let i := s32 (index + 1) in
  if (0 <=? i) && (i <? A64_MAX_BACKUPS)
  then (insns_pool + i * (Z.of_nat A64_MAX_INSTRUCTIONS * 10 * 4), i) else (0, i).

(** [result]: where the caller keeps its pointer to the trampoline, 0 for NULL. *)
Definition A64HookFunction (symbol replace result index : Z) (m : mem) : res (Z * mem) :=
  if truthy result then
    let '(trampoline, index) := FastAllocateTrampoline index in
    let! m := of_opt (store64 m result trampoline) in
    if trampoline =? 0 then Ok (index, m)
    else
      let! (t, m) := A64HookFunctionV symbol replace trampoline (Z.of_nat A64_MAX_INSTRUCTIONS * 10) m in
      let! m := if t =? 0 then of_opt (store64 m result 0) else Ok m in
      Ok (index, m)
  else
    let! (_, m) := A64HookFunctionV symbol replace 0 (Z.of_nat A64_MAX_INSTRUCTIONS * 10) m in
    Ok (index, m).

End Hook.

(** ** The room a trampoline needs

    Every round of the loop stays within 36 bytes, the final jump within 20. *)

Lemma misaligned_mod p n k : 0 <= n -> k = 2 ^ n - 1 -> misaligned p k = negb (p mod 2 ^ n =? 0).
Proof.
  intros Hn ->. unfold misaligned, truthy. replace (2 ^ n - 1) with (Z.ones n) by (rewrite Z.ones_equiv; lia).
  by rewrite Z.land_ones by done.
Qed.

Lemma nop_while_stops fuel (cond : Z -> bool) c (k : nat) :
  (k < fuel)%nat -> cond (outp c + 4 * Z.of_nat k) = false ->
  exists n, (n <= k)%nat /\ nop_while fuel cond c = emits (replicate n A64_NOP) c.
Proof.
  revert fuel c. induction k as [|k IH]; intros [|fuel] c Hk Hc; try lia; cbn [nop_while].
  - rewrite Z.mul_0_r, Z.add_0_r in Hc. rewrite Hc. by exists 0%nat.
  - destruct (cond (outp c)); [|exists 0%nat; split; [lia|done]].
    destruct (emit A64_NOP c) as [c'| |] eqn:He; cbn [rbind].
    + destruct (IH fuel c') as (n & Hn & Hw); [lia| |].
      * assert (outp c' = outp c + 4) as ->; [|rewrite <- Hc; f_equal; lia].
        unfold emit, emit_bytes in He. apply rbind_Ok in He as (m & _ & He).
        by apply (inj Ok) in He as <-.
      * exists (S n). split; [lia|]. cbn [replicate emits]. by rewrite He.
    + exists 1%nat. split; [lia|]. cbn [replicate emits]. by rewrite He.
    + exists 1%nat. split; [lia|]. cbn [replicate emits]. by rewrite He.
Qed.

(** Four steps of 4 bytes meet every 16-byte alignment. *)
Lemma aligned_within o k f :
  o mod 4 = 0 -> k mod 4 = 0 -> f ∈ [3; 7; 15] ->
  exists n, (n < 4)%nat /\ misaligned (o + 4 * Z.of_nat n + k) f = false.
Proof.
  intros Ho Hk Hf. exists (Z.to_nat (((- (o + k)) mod 16) / 4)).
  assert (Hr : 0 <= ((- (o + k)) mod 16) / 4 < 4) by (Z.to_euclidean_division_equations; lia).
  split; [lia|]. rewrite Z2Nat.id by lia. rewrite !elem_of_cons, elem_of_nil in Hf.
  destruct Hf as [-> | [-> | [-> | []]]];
    [rewrite (misaligned_mod _ 2)|rewrite (misaligned_mod _ 3)|rewrite (misaligned_mod _ 4)];
    try (done || lia); apply negb_false_iff, Z.eqb_eq;
    [change (2 ^ 2) with 4|change (2 ^ 3) with 8|change (2 ^ 4) with 16];
    Z.to_euclidean_division_equations; lia.
Qed.

Lemma offset_aligned_within abs o f :
  f ∈ [3; 7; 15] -> exists n, (n < 4)%nat /\
    misaligned ((abs - (o + 4 * Z.of_nat n)) .>> 2) (f .>> 2) = false.
Proof.
  intros Hf. exists (Z.to_nat (((abs - o) / 4) mod 4)).
  assert (Hr : 0 <= ((abs - o) / 4) mod 4 < 4) by (Z.to_euclidean_division_equations; lia).
  split; [lia|]. rewrite Z2Nat.id, Z.shiftr_div_pow2 by lia. change (2 ^ 2) with 4.
  set (q := (abs - (o + 4 * (((abs - o) / 4) mod 4))) / 4).
  assert (Hq : q mod 4 = 0) by (unfold q; Z.to_euclidean_division_equations; lia).
  rewrite !elem_of_cons, elem_of_nil in Hf. destruct Hf as [-> | [-> | [-> | []]]].
  - unfold misaligned. by rewrite Z.land_0_r.
  - change (7 .>> 2) with 1. rewrite (misaligned_mod _ 1) by (done || lia).
    apply negb_false_iff, Z.eqb_eq. change (2 ^ 1) with 2. Z.to_euclidean_division_equations; lia.
  - change (15 .>> 2) with 3. rewrite (misaligned_mod _ 2) by (done || lia).
    apply negb_false_iff, Z.eqb_eq. done.
Qed.

Lemma loadlit_faligned i mask f : loadlit_class i = Some (mask, f) -> f ∈ [3; 7; 15].
Proof.
  unfold loadlit_class. intros H. set_unfold.
  repeat (destruct (_ =? _) in H || destruct (truthy _) in H || (progress simpl in H)); naive_solver.
Qed.

Section Room.
Context (m0 : mem) (base lo : Z) (count : nat).
Context (count_max : (count <= A64_MAX_INSTRUCTIONS)%nat) (base_pos : 0 <= base).
Context (lo_aligned : lo mod 4 = 0) (base_aligned : base mod 4 = 0).
Context (code_mapped : mapped m0 base (4 * Z.of_nat count)) (room_mapped : mapped m0 lo 200).
Context (apart : base + 4 * Z.of_nat count <= lo \/ lo + 200 <= base).
(** The literals of the moved instructions can be read at the addresses the code copies them
    from; for one that lies ahead that is where it is, for one behind it 2^32 bytes further
    ([literal_offset]). *)
Context (literals : forall k i mask f, 0 <= k < Z.of_nat count ->
  load32 m0 (base + 4 * k) = Some i -> loadlit_class i = Some (mask, f) ->
  mapped m0 (base + 4 * k + imm19_offset i) (f + 1)).

Record good (c : cursor) : Prop := {
  g_lo : lo <= outp c;
  g_aligned : outp c mod 4 = 0;
  g_base : basep (ctx c) = base;
  g_end : endp (ctx c) = base + 4 * Z.of_nat count;
  g_dat : length (dat (ctx c)) = 5%nat;
  g_fix : Forall (fun d => Forall (fun f => bp f = 0 \/ lo <= bp f /\ bp f + 4 <= lo + 200) (fmap_ d))
            (dat (ctx c));
  g_dom : forall a, is_Some (cmem c !! a) <-> is_Some (m0 !! a);
  g_frame : forall a, ~ lo <= a < lo + 200 -> cmem c !! a = m0 !! a
}.

(** [c] is sound, reads at [p], and has written up to [n] at most. *)
Definition ok (p n : Z) (c : cursor) : Prop := good c /\ inp c = p /\ outp c <= n.

Lemma good_store c a bs m :
  good c -> store_bytes (cmem c) a bs = Some m -> lo <= a -> a + Z.of_nat (length bs) <= lo + 200 ->
  (forall x, is_Some (m !! x) <-> is_Some (m0 !! x)) /\
  (forall x, ~ lo <= x < lo + 200 -> m !! x = m0 !! x).
Proof.
  intros Hg Hs Ha Hl. split; intros x.
  - rewrite (store_bytes_dom _ _ _ _ x Hs). apply Hg.
  - intros Hx. rewrite (store_bytes_lookup _ _ _ _ Hs), decide_False by lia. by apply (g_frame _ Hg).
Qed.

Lemma wp_emit_bytes p n bs c :
  ok p n c -> Z.of_nat (length bs) mod 4 = 0 -> n + Z.of_nat (length bs) <= lo + 200 ->
  wp True (emit_bytes bs c) (ok p (n + Z.of_nat (length bs))).
Proof.
  intros (Hg & Hp & Hn) Hm Hl. unfold emit_bytes. apply wp_bind, wp_of_opt.
  - intros _. apply store_bytes_mapped. intros i Hi. apply (g_dom _ Hg).
    replace (outp c + i) with (lo + (outp c + i - lo)) by lia.
    apply room_mapped. pose proof (g_lo _ Hg). lia.
  - intros m Hs. pose proof (g_lo _ Hg).
    destruct (good_store c _ _ m Hg Hs) as [Hd Hf]; [done|lia|].
    split; [|split; [done|cbn; lia]]. destruct Hg. split; cbn; try done; [lia|].
    rewrite Z.add_mod, g_aligned0, Hm by lia. done.
Qed.

Lemma wp_emit p n w c : ok p n c -> n + 4 <= lo + 200 -> wp True (emit w c) (ok p (n + 4)).
Proof. intros Hc Hn. by apply (wp_emit_bytes p n (le_bytes 4 w)). Qed.

Lemma wp_emit64 p n v c : ok p n c -> n + 8 <= lo + 200 -> wp True (emit64 v c) (ok p (n + 8)).
Proof. intros Hc Hn. by apply (wp_emit_bytes p n (le_bytes 8 v)). Qed.

Lemma wp_emits p n ws c :
  ok p n c -> n + 4 * Z.of_nat (length ws) <= lo + 200 ->
  wp True (emits ws c) (ok p (n + 4 * Z.of_nat (length ws))).
Proof.
  revert n c. induction ws as [|w ws IH]; intros n c Hc Hn; cbn [emits length] in *.
  - by rewrite Z.mul_0_r, Z.add_0_r.
  - apply wp_bind. eapply wp_mono; [apply (wp_emit p n); [done|lia]|]. intros c' Hc'.
    eapply wp_mono; [apply IH; [exact Hc'|lia]|]. intros c2. by replace (n + 4 + 4 * Z.of_nat (length ws))
      with (n + 4 * Z.of_nat (S (length ws))) by lia.
Qed.

Lemma ok_le p n n' c : ok p n c -> n <= n' -> ok p n' c.
Proof. intros (? & ? & ?) ?. split_and!; [done|done|lia]. Qed.

Lemma ok_dat p n c idx d :
  ok p n c -> Forall (fun f => bp f = 0 \/ lo <= bp f /\ bp f + 4 <= lo + 200) (fmap_ d) ->
  ok p n (set_dat (<[idx:=d]> (dat (ctx c))) c).
Proof.
  intros (Hg & Hp & Hn) Hd. split; [|done]. destruct Hg. split; cbn; try done.
  - by rewrite length_insert.
  - by apply Forall_insert.
Qed.

Lemma dat_lookup p n c idx :
  ok p n c -> 0 <= idx < 5 -> exists d, dat (ctx c) !! Z.to_nat idx = Some d /\
    Forall (fun f => bp f = 0 \/ lo <= bp f /\ bp f + 4 <= lo + 200) (fmap_ d).
Proof.
  intros (Hg & _) Hi. destruct (lookup_lt_is_Some_2 (dat (ctx c)) (Z.to_nat idx)) as [d Hd].
  - rewrite (g_dat _ Hg). lia.
  - exists d. split; [done|]. apply (Forall_lookup_1 _ _ _ _ (g_fix _ Hg) Hd).
Qed.

Lemma wp_reset p n idx q c :
  ok p n c -> 0 <= idx < 5 -> wp True (reset_current_ins idx q c) (ok p n).
Proof.
  intros Hc Hi. destruct (dat_lookup _ _ _ _ Hc Hi) as (d & Hd & Hf). unfold reset_current_ins.
  rewrite Hd. cbn. by apply (ok_dat p n c _ {| ins := q; fmap_ := fmap_ d |}).
Qed.

Lemma ref_index p n c a :
  ok p n c -> base <= a < base + 4 * Z.of_nat count -> 0 <= get_ref_ins_index (ctx c) a < 5.
Proof.
  intros (Hg & _) Ha. unfold get_ref_ins_index. rewrite (g_base _ Hg).
  unfold A64_MAX_INSTRUCTIONS in *. rewrite uwrap_small by lia.
  Z.to_euclidean_division_equations; lia.
Qed.

Lemma wp_index p n c :
  ok p n c -> base <= p < base + 4 * Z.of_nat count ->
  wp True (get_and_set_current_index c) (fun '(idx, c) => 0 <= idx < 5 /\ ok p n c).
Proof.
  intros Hc Hp. unfold get_and_set_current_index. cbv zeta.
  pose proof (ref_index p n c p Hc Hp) as Hi. destruct Hc as (Hg & Hpp & Hn).
  rewrite <- Hpp in Hi. apply wp_bind. eapply wp_mono; [by apply (wp_reset p n)|]. by intros c' Hc'.
Qed.

Lemma insert_fix_ok f l :
  (bp f = 0 \/ lo <= bp f /\ bp f + 4 <= lo + 200) ->
  Forall (fun f => bp f = 0 \/ lo <= bp f /\ bp f + 4 <= lo + 200) l ->
  Forall (fun f => bp f = 0 \/ lo <= bp f /\ bp f + 4 <= lo + 200) (insert_fix f l).
Proof.
  intros Hf Hl. induction Hl as [|g l Hg Hl IH]; cbn; [done|].
  destruct (bp g =? 0); by constructor.
Qed.

Lemma in_range p n c a :
  ok p n c -> is_in_fixing_range (ctx c) a = true -> base <= a < base + 4 * Z.of_nat count.
Proof.
  intros (Hg & _). unfold is_in_fixing_range. rewrite (g_base _ Hg), (g_end _ Hg). intros H.
  breflect. lia.
Qed.

Lemma wp_special p n c idx ref k sh mask :
  ok p n c -> 0 <= ref < 5 -> n + 4 <= lo + 200 ->
  wp True (special_offset idx ref k sh mask c) (fun '(_, c) => ok p n c).
Proof.
  intros Hc Hr Hn. destruct (dat_lookup _ _ _ _ Hc Hr) as (d & Hd & Hf). unfold special_offset.
  destruct (ref <=? idx).
  - rewrite Hd. done.
  - unfold insert_fix_map. rewrite Hd. cbn. apply (ok_dat p n c _ {| ins := ins d |}); [done|].
    apply insert_fix_ok; [|done]. cbn. destruct Hc as (Hg & _ & ?). pose proof (g_lo _ Hg). lia.
Qed.

Lemma wp_process_fixes p n c t l :
  ok p n c -> Forall (fun f => bp f = 0 \/ lo <= bp f /\ bp f + 4 <= lo + 200) l ->
  wp True (process_fixes t l (cmem c)) (fun '(l', m) =>
    Forall (fun f => bp f = 0 \/ lo <= bp f /\ bp f + 4 <= lo + 200) l' /\
    ok p n (set_out (outp c) m c)).
Proof.
  intros Hc Hl. revert c Hc. induction Hl as [|f l Hf Hl IH]; intros c Hc; cbn [process_fixes].
  - split; [constructor|]. by destruct c as [? ? ? []], Hc as (Hg & ? & ?).
  - destruct (Z.eqb_spec (bp f) 0) as [H0|H0].
    { split; [by constructor|]. by destruct c as [? ? ? []], Hc as (Hg & ? & ?). }
    destruct Hf as [|Hf]; [done|]. assert (Hg : good c) by apply Hc.
    assert (Hm : mapped (cmem c) (bp f) 4).
    { intros i Hi. apply (g_dom _ Hg). replace (bp f + i) with (lo + (bp f + i - lo)) by lia.
      apply room_mapped. lia. }
    apply wp_bind, wp_of_opt; [intros _; by apply load_mapped|]. intros w _.
    apply wp_bind, wp_of_opt; [intros _; by apply store_mapped|]. intros m Hs.
    destruct (good_store c _ _ m Hg Hs) as [Hd Hfr]; [lia|rewrite le_bytes_length; lia|].
    assert (Hc' : ok p n (set_out (outp c) m c)).
    { destruct Hc as (_ & Hp & Hn). split; [|done]. destruct Hg. by split. }
    apply wp_bind. eapply wp_mono; [apply (IH _ Hc')|]. intros [l' m'] [Hl' Hok].
    split; [constructor; [by left|done]|exact Hok].
Qed.

Lemma wp_process p n idx c :
  ok p n c -> 0 <= idx < 5 -> wp True (process_fix_map idx c) (ok p n).
Proof.
  intros Hc Hi. destruct (dat_lookup _ _ _ _ Hc Hi) as (d & Hd & Hf). unfold process_fix_map.
  rewrite Hd. cbn [of_opt rbind]. apply wp_bind. eapply wp_mono; [by apply wp_process_fixes|].
  intros [l m] [Hl Hok]. cbn. apply (ok_dat p n (set_out (outp c) m c) _ {| ins := ins d; fmap_ := l |}); done.
Qed.

Lemma wp_align_nop p n b idx c :
  ok p n c -> 0 <= idx < 5 -> n + 4 <= lo + 200 -> wp True (align_nop b idx c) (ok p (n + 4)).
Proof.
  intros Hc Hi Hn. unfold align_nop. destruct b; [|apply ok_le with (1 := Hc); lia].
  apply wp_bind. eapply wp_mono; [by apply (wp_emit p n)|]. intros c' Hc'. by apply wp_reset.
Qed.

Lemma wp_nop_while p n cond c k :
  ok p n c -> (k < 4)%nat -> cond (outp c + 4 * Z.of_nat k) = false -> n + 12 <= lo + 200 ->
  wp True (nop_while 4 cond c) (ok p (n + 12)).
Proof.
  intros Hc Hk Hcond Hn. destruct (nop_while_stops 4 cond c k Hk Hcond) as (j & Hj & ->).
  eapply wp_mono; [apply (wp_emits p n); [done|rewrite length_replicate; lia]|].
  intros c'. rewrite length_replicate. intros Hc'. apply ok_le with (1 := Hc'). lia.
Qed.

Lemma ok_advance p n c : ok p n c -> ok (p + 4) n (advance c).
Proof. intros (Hg & Hp & Hn). split_and!; [|cbn; lia|done]. destruct Hg. by split. Qed.

(** The instruction read is the original one. *)
Lemma wp_fetch p n c k (Q : Z -> Prop) :
  ok p n c -> p = base + 4 * k -> 0 <= k < Z.of_nat count ->
  (forall i, load32 m0 p = Some i -> Q i) -> wp True (of_opt (load32 (cmem c) (inp c))) Q.
Proof.
  intros (Hg & Hp & _) Hpk Hk HQ. rewrite Hp.
  assert (He : load32 (cmem c) p = load32 m0 p).
  { unfold load. f_equal. apply load_bytes_ext. intros i Hi. apply (g_frame _ Hg). lia. }
  rewrite He. apply wp_of_opt; [|done]. intros _. apply load_mapped. intros i Hi.
  replace (p + i) with (base + (4 * k + i)) by lia. apply code_mapped. lia.
Qed.


(** Step through a fix function; [n] is what may have been written before it. *)
Definition rewritten (p n : Z) (r : option cursor) : Prop :=
  match r with Some c => ok (p + 4) (n + 36) c | None => True end.

Ltac emit_step :=
  lazymatch goal with
  | |- wp _ (rbind (rbind _ _) _) _ => apply wp_bind
  | |- wp _ (rbind (emits _ _) _) _ => apply wp_bind; eapply wp_mono; [eapply wp_emits; [eassumption|cbn; lia]|]
  | |- wp _ (rbind (emit _ _) _) _ => apply wp_bind; eapply wp_mono; [eapply wp_emit; [eassumption|cbn; lia]|]
  | |- wp _ (rbind (align_nop _ _ _) _) _ =>
      apply wp_bind; eapply wp_mono; [eapply wp_align_nop; [eassumption|assumption|lia]|]
  | |- wp _ (rbind (reset_current_ins _ _ _) _) _ =>
      apply wp_bind; eapply wp_mono; [eapply wp_reset; [eassumption|assumption]|]
  | |- wp _ (emit64 _ _) _ => eapply wp_mono; [eapply wp_emit64; [eassumption|cbn; lia]|]
  | |- wp _ (emit _ _) _ => eapply wp_mono; [eapply wp_emit; [eassumption|cbn; lia]|]
  end; intros ? ?.

Lemma wp_done p n n' c idx :
  ok p n' c -> 0 <= idx < 5 -> n' <= n + 36 ->
  wp True (let! c := process_fix_map idx (advance c) in Ok (Some c)) (rewritten p n).
Proof.
  intros Hc Hi Hn. apply wp_bind. eapply wp_mono; [eapply wp_process; [apply ok_advance, Hc|done]|].
  intros c' Hc'. by apply ok_le with (1 := Hc').
Qed.

Lemma wp_branch p n c k :
  ok p n c -> p = base + 4 * k -> 0 <= k < Z.of_nat count -> n + 36 <= lo + 200 ->
  wp True (fix_branch_imm c) (rewritten p n).
Proof.
  intros Hc Hp Hk Hn. unfold fix_branch_imm. cbv zeta. apply wp_bind.
  eapply wp_fetch; [done..|]. intros i _. destruct (_ || _); [|done].
  apply wp_bind. eapply wp_mono; [apply (wp_index p n); [done|lia]|]. intros [idx c1] [Hidx Hc1].
  apply wp_bind. eapply wp_mono with (P := ok p (n + 24)).
  2:{ intros c' Hc'. eapply (wp_done p n (n + 24)); [done|done|lia]. }
  destruct (_ && _).
  - destruct (_ =? _); repeat emit_step; (eapply ok_le; [eassumption|cbn; lia]).
  - apply wp_bind. destruct (is_in_fixing_range _ _) eqn:Hr.
    + eapply wp_mono; [eapply wp_special; [done| |lia]|].
      * eapply ref_index; [done|]. by eapply in_range.
      * intros [off c2] Hc2. emit_step. eapply ok_le; [eassumption|lia].
    + cbn. emit_step. eapply ok_le; [eassumption|lia].
Qed.

Lemma wp_cond p n c k :
  ok p n c -> p = base + 4 * k -> 0 <= k < Z.of_nat count -> n + 36 <= lo + 200 ->
  wp True (fix_cond_comp_test_branch c) (rewritten p n).
Proof.
  intros Hc Hp Hk Hn. unfold fix_cond_comp_test_branch. cbv zeta. apply wp_bind.
  eapply wp_fetch; [done..|]. intros i _. destruct (cond_lmask i) as [lmask|]; [|done].
  apply wp_bind. eapply wp_mono; [apply (wp_index p n); [done|lia]|]. intros [idx c1] [Hidx Hc1].
  apply wp_bind. eapply wp_mono with (P := ok p (n + 28)).
  2:{ intros c' Hc'. eapply (wp_done p n (n + 28)); [done|done|lia]. }
  destruct (_ && _).
  - repeat emit_step; (eapply ok_le; [eassumption|cbn; lia]).
  - apply wp_bind. destruct (is_in_fixing_range _ _) eqn:Hr.
    + eapply wp_mono; [eapply wp_special; [done| |lia]|].
      * eapply ref_index; [done|]. by eapply in_range.
      * intros [off c2] Hc2. emit_step. eapply ok_le; [eassumption|lia].
    + cbn. emit_step. eapply ok_le; [eassumption|lia].
Qed.

Lemma wp_loadlit p n c k :
  ok p n c -> p = base + 4 * k -> 0 <= k < Z.of_nat count -> n + 36 <= lo + 200 ->
  wp True (fix_loadlit c) (rewritten p n).
Proof.
  intros Hc Hp Hk Hn. unfold fix_loadlit. cbv zeta. apply wp_bind.
  eapply wp_fetch; [done..|]. intros i Hi. destruct (_ =? _).
  { apply wp_bind. eapply wp_mono; [apply (wp_index p n); [done|lia]|]. intros [idx c1] [Hidx Hc1].
    apply wp_bind. eapply wp_mono; [by eapply wp_process|]. intros c2 Hc2.
    apply ok_advance. by apply ok_le with (1 := Hc2); lia. }
  destruct (loadlit_class i) as [[mask f]|] eqn:Hl; [|done].
  pose proof (loadlit_faligned _ _ _ Hl) as Hf.
  assert (Hf3 : f = 3 \/ f = 7 \/ f = 15) by (rewrite !elem_of_cons, elem_of_nil in Hf; naive_solver).
  apply wp_bind. eapply wp_mono; [apply (wp_index p n); [done|lia]|]. intros [idx c1] [Hidx Hc1].
  apply wp_bind. eapply wp_mono with (P := ok p (n + 36)).
  2:{ intros c' Hc'. eapply (wp_done p n (n + 36)); [done|done|lia]. }
  assert (Hal : outp c1 mod 4 = 0) by apply Hc1.
  destruct (_ || _).
  - destruct (aligned_within (outp c1) 8 f Hal eq_refl Hf) as (j & Hj & Hmis).
    apply wp_bind. eapply wp_mono; [by eapply (wp_nop_while p n _ _ j); [| | |lia]|]. intros c2 Hc2.
    do 2 emit_step. apply wp_bind, wp_of_opt.
    + intros _. apply load_bytes_mapped. rewrite Z2Nat.id by lia. intros x Hx.
      assert (Hg : good a0) by apply H0. apply (g_dom _ Hg).
      replace (inp c1) with p by (symmetry; apply Hc1). rewrite Hp.
      apply (literals k i mask f); [done|by rewrite <- Hp|done|done].
    + intros lit Hlit%load_bytes_length. eapply wp_mono; [eapply wp_emit_bytes; [eassumption| |]|].
      * rewrite Hlit. destruct Hf3 as [-> | [-> | ->]]; reflexivity.
      * rewrite Hlit. cbn. lia.
      * intros c3 Hc3. apply ok_le with (1 := Hc3). rewrite Hlit. cbn. lia.
  - destruct (offset_aligned_within (inp c1 + imm19_offset i) (outp c1) f Hf) as (j & Hj & Hmis).
    apply wp_bind. eapply wp_mono; [by eapply (wp_nop_while p n _ _ j); [| | |lia]|]. intros c2 Hc2.
    emit_step. emit_step. eapply ok_le; [eassumption|lia].
Qed.

Lemma wp_done' p n n' c idx :
  ok p n' c -> 0 <= idx < 5 -> n' <= n + 36 ->
  wp True (let! c := process_fix_map idx c in Ok (Some (advance c))) (rewritten p n).
Proof.
  intros Hc Hi Hn. apply wp_bind. eapply wp_mono; [by eapply wp_process|].
  intros c' Hc'. apply ok_advance. by apply ok_le with (1 := Hc').
Qed.

Lemma wp_pcreladdr p n c k :
  ok p n c -> p = base + 4 * k -> 0 <= k < Z.of_nat count -> n + 36 <= lo + 200 ->
  wp True (fix_pcreladdr c) (rewritten p n).
Proof.
  intros Hc Hp Hk Hn. unfold fix_pcreladdr, emit_address. cbv zeta. apply wp_bind.
  eapply wp_fetch; [done..|]. intros i _. destruct (_ =? _); [|destruct (_ =? _); [|done]];
    (apply wp_bind; eapply wp_mono; [apply (wp_index p n); [done|lia]|]; intros [idx c1] [Hidx Hc1]);
    (apply wp_bind; eapply wp_mono with (P := ok p (n + 20));
     [|intros c' Hc'; eapply (wp_done' p n (n + 20)); [done|done|lia]]).
  - destruct (_ && _).
    + repeat emit_step; (eapply ok_le; [eassumption|cbn; lia]).
    + apply wp_bind. destruct (is_in_fixing_range _ _) eqn:Hr.
      * eapply wp_mono; [eapply wp_special; [done| |lia]|].
        -- eapply ref_index; [done|]. apply (in_range p n c1) in Hr; [|done]. rewrite <- (proj1 (proj2 Hc1)) in *.
           clear - Hr base_aligned. Z.to_euclidean_division_equations; lia.
        -- intros [off c2] Hc2. emit_step. eapply ok_le; [eassumption|lia].
      * cbn. emit_step. eapply ok_le; [eassumption|lia].
  - destruct (is_in_fixing_range _ _).
    + emit_step. eapply ok_le; [eassumption|lia].
    + repeat emit_step; (eapply ok_le; [eassumption|cbn; lia]).
Qed.

Lemma wp_fix_one p n c k :
  ok p n c -> p = base + 4 * k -> 0 <= k < Z.of_nat count -> n + 36 <= lo + 200 ->
  wp True (fix_one c) (ok (p + 4) (n + 36)).
Proof.
  intros Hc Hp Hk Hn. unfold fix_one.
  apply wp_bind. eapply wp_mono; [by eapply wp_branch|]. intros [c'|] Hr; [exact Hr|].
  apply wp_bind. eapply wp_mono; [by eapply wp_cond|]. intros [c'|] Hr'; [exact Hr'|].
  apply wp_bind. eapply wp_mono; [by eapply wp_loadlit|]. intros [c'|] Hr2; [exact Hr2|].
  apply wp_bind. eapply wp_mono; [by eapply wp_pcreladdr|]. intros [c'|] Hr3; [exact Hr3|].
  apply wp_bind. eapply wp_mono; [apply (wp_index p n); [done|lia]|]. intros [idx c1] [Hidx Hc1].
  apply wp_bind. eapply wp_mono; [by eapply wp_process|]. intros c2 Hc2.
  apply wp_bind. eapply wp_fetch; [done..|]. intros i _. emit_step.
  apply ok_advance. eapply ok_le; [eassumption|lia].
Qed.

Lemma wp_fix_loop j p n c k :
  ok p n c -> p = base + 4 * k -> 0 <= k -> k + Z.of_nat j <= Z.of_nat count ->
  n + 36 * Z.of_nat j <= lo + 200 ->
  wp True (fix_loop j c) (ok (p + 4 * Z.of_nat j) (n + 36 * Z.of_nat j)).
Proof.
  revert p n c k. induction j as [|j IH]; intros p n c k Hc Hp Hk Hj Hn; cbn [fix_loop].
  - cbn. by rewrite !Z.add_0_r.
  - apply wp_bind. eapply wp_mono; [eapply wp_fix_one; [done|done|lia|lia]|]. intros c' Hc'.
    eapply wp_mono; [apply (IH (p + 4) (n + 36) c' (k + 1)); (done || lia)|].
    intros c2. replace (p + 4 + 4 * Z.of_nat j) with (p + 4 * Z.of_nat (S j)) by lia.
    by replace (n + 36 + 36 * Z.of_nat j) with (n + 36 * Z.of_nat (S j)) by lia.
Qed.

Lemma wp_jump p n c t :
  ok p n c -> n + 20 <= lo + 200 -> wp True (emit_jump t c) (ok p (n + 20)).
Proof.
  intros Hc Hn. unfold emit_jump. cbv zeta. destruct (_ <=? _).
  - apply wp_bind. eapply wp_mono with (P := ok p (n + 4)).
    + destruct (misaligned _ _); [emit_step; eapply ok_le; [eassumption|lia]|]. by apply ok_le with (1 := Hc); lia.
    + intros c' Hc'. repeat emit_step. eapply ok_le; [eassumption|cbn; lia].
  - emit_step. eapply ok_le; [eassumption|lia].
Qed.

(** C15: Moving at most five instructions, at a multiple of 4 and mapped, to 200
    mapped bytes elsewhere terminates, does not fault, and writes those 200 bytes, the
    size of a slot of the pool, at most; the rest of memory, the hooked function included, is
    unchanged.  The literals that moved instructions load must be readable where the code looks for
    them: ahead of the instruction that is the literal, while for a literal behind it the code reads 2^32 bytes
    further on, and can fault ([backward_literal_faults]). *)
Theorem fix_instructions_room :
  exists c, fix_instructions base count lo m0 = Ok c /\
    inp c = base + 4 * Z.of_nat count /\ lo <= outp c <= lo + 200 /\
    forall a, ~ lo <= a < lo + 200 -> cmem c !! a = m0 !! a.
Proof.
  assert (H : wp True (fix_instructions base count lo m0)
    (ok (base + 4 * Z.of_nat count) (lo + 36 * Z.of_nat count + 20))).
  { unfold fix_instructions. apply wp_bind. unfold A64_MAX_INSTRUCTIONS in count_max.
    eapply wp_mono; [apply (wp_fix_loop count base lo _ 0); try lia|].
    - split; [|done]. split; try done. apply Forall_replicate, Forall_replicate. by left.
    - intros c Hc. apply wp_jump; [done|lia]. }
  destruct (wp_Ok _ _ _ I H) as (c & Hr & Hg & Hp & Hn). exists c. split; [done|]. split; [done|].
  split; [|apply Hg]. pose proof (g_lo _ Hg). unfold A64_MAX_INSTRUCTIONS in count_max. lia.
Qed.

End Room.

(** Where the code looks for a literal: its signed offset is turned into an unsigned word. *)
Lemma literal_offset i :
  let d := s32 (u32 (i .<< 8)) .>> 11 in
  imm19_offset i = d - d mod 4 + (if d <? 0 then 2 ^ 32 else 0).
Proof.
  intros d. assert (Hd : - 2 ^ 20 <= d < 2 ^ 20).
  { unfold d. rewrite Z.shiftr_div_pow2 by lia.
    assert (Hs : - 2 ^ 31 <= s32 (u32 (i .<< 8)) < 2 ^ 31) by (unfold swrap; Z.to_euclidean_division_equations; lia).
    Z.to_euclidean_division_equations; lia. }
  unfold imm19_offset. fold d.
  assert (Hand : u32 d .& not32 3 = u32 d - u32 d mod 4).
  { assert (Hl : u32 d .& not32 3 = Z.ldiff (u32 d) (Z.ones 2)).
    { change (not32 3) with (Z.ldiff (Z.ones 32) (Z.ones 2)). unfold uwrap. rewrite <- Z.land_ones by lia.
      apply Z.bits_inj'. intros n _. rewrite !Z.land_spec, !Z.ldiff_spec, !Z.land_spec.
      by destruct (Z.testbit d n), (Z.testbit (Z.ones 32) n). }
    rewrite Hl, Z.ldiff_ones_r, Z.shiftl_mul_pow2, Z.shiftr_div_pow2 by lia. Z.to_euclidean_division_equations; lia. }
  rewrite Hand. unfold uwrap. destruct (Z.ltb_spec d 0); Z.to_euclidean_division_equations; lia.
Qed.

(** ** What the rewritten instructions do

    A processor that executes the instructions found in rewritten code, from [pc]
    until control leaves [lo .. hi): the result is where it goes and the link
    register.  [taken]: whether the condition of a conditional branch holds. *)

Definition cond_offset (w : Z) : option Z :=
  match cond_lmask w with
  | Some l => Some (if l =? 0xff00001f then swrap 21 (4 * (w / 32 mod 2 ^ 19))
                    else swrap 16 (4 * (w / 32 mod 2 ^ 14)))
  | None => None
  end.

Fixpoint a64_run (fuel : nat) (m : mem) (taken : bool) (lo hi pc x17 x30 : Z) : option (Z * Z) :=
  if (pc <? lo) || (hi <=? pc) then Some (pc, x30)
  else match fuel with
  | O => None
  | S fuel' =>
      let run := a64_run fuel' m taken lo hi in
      match load32 m pc with
      | None => None
      | Some w =>
          if w =? A64_NOP then run (pc + 4) x17 x30
          else if w =? 0x58000051 then                                 (* LDR X17, #8 *)
            match load64 m (pc + 8) with Some v => run (pc + 4) v x30 | None => None end
          else if w =? 0x58000071 then                                 (* LDR X17, #12 *)
            match load64 m (pc + 12) with Some v => run (pc + 4) v x30 | None => None end
          else if w =? 0x1000009e then run (pc + 4) x17 (pc + 16)      (* ADR X30, #16 *)
          else if w =? 0xd61f0220 then run x17 x17 x30                 (* BR X17 *)
          else if (w .& 0xfc000000) =? 0x14000000
               then run (pc + swrap 28 (4 * (w mod 2 ^ 26))) x17 x30   (* B *)
          else if (w .& 0xfc000000) =? 0x94000000
               then run (pc + swrap 28 (4 * (w mod 2 ^ 26))) x17 (pc + 4)   (* BL *)
          else match cond_offset w with
               | Some off => run (if taken then pc + off else pc + 4) x17 x30
               | None => None
               end
      end
  end.


Lemma emit_bytes_app xs ys c :
  (let! c := emit_bytes xs c in emit_bytes ys c) = emit_bytes (xs ++ ys) c.
Proof.
  unfold emit_bytes. rewrite store_bytes_app, length_app.
  destruct (store_bytes (cmem c) (outp c) xs) as [m|]; [|done]. cbn [of_opt rbind].
  cbn [cmem outp set_out]. destruct (store_bytes m _ ys) as [m'|]; [|done]. cbn [of_opt rbind].
  rewrite Nat2Z.inj_add, Z.add_assoc. done.
Qed.

Definition words (ws : list Z) : list Z := mjoin (le_bytes 4 <$> ws).
Lemma words_length ws : length (words ws) = (4 * length ws)%nat.
Proof. apply bytes_length. Qed.

Lemma emits_bytes ws c : emits ws c = emit_bytes (words ws) c.
Proof.
  revert c. induction ws as [|w ws IH]; intros c.
  - unfold emit_bytes. cbn. rewrite Z.add_0_r. by destruct c.
  - cbn [emits]. change (words (w :: ws)) with (le_bytes 4 w ++ words ws).
    rewrite <- emit_bytes_app. unfold emit. destruct (emit_bytes _ c); [apply IH|done..].
Qed.

(** A settled instruction: no rewritten branch waits for its address. *)
Definition settled (idx : Z) (c : cursor) : Prop :=
  exists d, dat (ctx c) !! Z.to_nat idx = Some d /\ forall t m, process_fixes t (fmap_ d) m = Ok (fmap_ d, m).

Definition same_place (c c' : cursor) : Prop :=
  inp c' = inp c /\ outp c' = outp c /\ cmem c' = cmem c /\
  basep (ctx c') = basep (ctx c) /\ endp (ctx c') = endp (ctx c).

Lemma reset_settled idx p c :
  settled idx c -> exists c', reset_current_ins idx p c = Ok c' /\ same_place c c' /\ settled idx c'.
Proof.
  intros (d & Hd & Hf). unfold reset_current_ins. rewrite Hd. cbn [of_opt rbind].
  eexists. split; [done|]. split; [done|]. eexists. split.
  - cbn. apply list_lookup_insert_eq. by eapply lookup_lt_Some.
  - done.
Qed.

Lemma process_settled idx c :
  settled idx c -> exists c', process_fix_map idx c = Ok c' /\ same_place c c' /\ settled idx c'.
Proof.
  intros (d & Hd & Hf). unfold process_fix_map. rewrite Hd. cbn [of_opt rbind]. rewrite Hf.
  cbn [rbind]. eexists. split; [done|]. split; [done|]. eexists. split.
  - cbn. apply list_lookup_insert_eq. by eapply lookup_lt_Some.
  - done.
Qed.

(** [c'] is [c] after writing [bs]. *)
Definition wrote (bs : list Z) (c c' : cursor) : Prop :=
  store_bytes (cmem c) (outp c) bs = Some (cmem c') /\ outp c' = outp c + Z.of_nat (length bs) /\
  inp c' = inp c.

Lemma emit_bytes_wrote bs idx c :
  mapped (cmem c) (outp c) (Z.of_nat (length bs)) -> settled idx c ->
  exists c', emit_bytes bs c = Ok c' /\ wrote bs c c' /\ settled idx c'.
Proof.
  intros [m Hm]%store_bytes_mapped Hs. unfold emit_bytes. rewrite Hm. cbn [of_opt rbind].
  eexists. split; [done|]. by split.
Qed.

Lemma wrote_mapped bs c c' a : wrote bs c c' -> is_Some (cmem c' !! a) <-> is_Some (cmem c !! a).
Proof. intros (H & _). by apply store_bytes_dom with (1 := H). Qed.

Lemma wrote_app xs ys c c1 c2 : wrote xs c c1 -> wrote ys c1 c2 -> wrote (xs ++ ys) c c2.
Proof.
  intros (H1 & Ho1 & Hi1) (H2 & Ho2 & Hi2). split; [|split; [rewrite length_app; lia|congruence]].
  rewrite store_bytes_app, H1, <- Ho1. exact H2.
Qed.

Lemma wrote_same bs c c1 c' : same_place c c1 -> wrote bs c1 c' -> wrote bs c c'.
Proof. intros (? & Ho & Hm & _) (H1 & H2 & H3). unfold wrote. by rewrite <- Hm, <- Ho, H3. Qed.

(** An optional NOP and then [bs]. *)
Definition nop_bytes (b : bool) : list Z := if b then le_bytes 4 A64_NOP else [].

Lemma align_wrote b idx bs c :
  mapped (cmem c) (outp c) (Z.of_nat (length (nop_bytes b ++ bs))) -> settled idx c ->
  exists c', (let! c := align_nop b idx c in emit_bytes bs c) = Ok c' /\
    wrote (nop_bytes b ++ bs) c c' /\ settled idx c'.
Proof.
  intros Hm Hs. destruct b; cbn [nop_bytes align_nop] in *; [|by apply emit_bytes_wrote].
  rewrite length_app in Hm. change (length (nop_bytes true)) with 4%nat in Hm.
  destruct (emit_bytes_wrote (le_bytes 4 A64_NOP) idx c) as (c1 & He & Hw1 & Hs1); [|done|].
  { intros i Hi. apply Hm. rewrite le_bytes_length in *. lia. }
  unfold align_nop, emit. rewrite He. cbn [rbind].
  destruct (reset_settled idx (outp c1) c1 Hs1) as (c2 & -> & Hp & Hs2). cbn [rbind].
  destruct (emit_bytes_wrote bs idx c2) as (c3 & -> & Hw3 & Hs3); [|done|].
  - intros i Hi. destruct Hp as (_ & -> & -> & _). apply (wrote_mapped _ _ _ _ Hw1).
    destruct Hw1 as (_ & -> & _). rewrite <- Z.add_assoc. apply Hm. rewrite le_bytes_length. lia.
  - exists c3. split; [done|]. split; [|done]. eapply wrote_app; [done|]. by eapply wrote_same.
Qed.

Lemma index_settled c idx :
  idx = get_ref_ins_index (ctx c) (inp c) -> settled idx c ->
  exists c', get_and_set_current_index c = Ok (idx, c') /\ same_place c c' /\ settled idx c'.
Proof.
  intros -> Hs. unfold get_and_set_current_index. cbv zeta.
  destruct (reset_settled _ (outp c) c Hs) as (c' & -> & ? & ?). by exists c'.
Qed.

(** The result of a fix function that wrote [bs]. *)
Definition rewrote (bs : list Z) (c c' : cursor) : Prop :=
  inp c' = inp c + 4 /\ outp c' = outp c + Z.of_nat (length bs) /\
  store_bytes (cmem c) (outp c) bs = Some (cmem c').

Lemma finish_rewrote idx c c' bs :
  wrote bs c c' -> settled idx c' ->
  exists c2, (let! c := process_fix_map idx (advance c') in Ok (Some c)) = Ok (Some c2) /\ rewrote bs c c2.
Proof.
  intros (Hs & Ho & Hi) Hset. destruct (process_settled idx (advance c') Hset) as (c2 & -> & Hp & _).
  destruct Hp as (Hpi & Hpo & Hpm & _). exists c2. split; [done|].
  split; [rewrite Hpi; cbn; lia|]. split; [rewrite Hpo; cbn; lia|]. by rewrite Hpm.
Qed.

(** *** Branches *)

Lemma branch_offset i : s32 (u32 (i .<< 6)) .>> 4 = swrap 28 (4 * (i mod 2 ^ 26)).
Proof.
  rewrite swrap_uwrap, Z.shiftl_mul_pow2, Z.mul_comm by lia.
  change 32 with (26 + 6). rewrite swrap_scale by lia. rewrite Z.shiftr_div_pow2 by lia.
  change (2 ^ 6) with (4 * 2 ^ 4). rewrite <- Z.mul_assoc, (Z.mul_comm (2 ^ 4)), Z.mul_assoc, Z.div_mul by lia.
  change 28 with (26 + 2). change 4 with (2 ^ 2) at 2. rewrite swrap_scale by lia.
  change (i mod 2 ^ 26) with (uwrap 26 i). by rewrite swrap_uwrap.
Qed.

(** A branch instruction with the displacement [off]. *)
Lemma branch_word op off :
  op = 0x14000000 \/ op = 0x94000000 ->
  let w := op .| (off .& 0x03ffffff) in
  is_word 32 w /\ (w .& 0xfc000000) = op /\ w mod 2 ^ 26 = off mod 2 ^ 26.
Proof.
  intros Hop w. change 0x03ffffff with (Z.ones 26) in w. unfold w. rewrite Z.land_ones by lia.
  pose proof (Z.mod_pos_bound off (2 ^ 26) ltac:(lia)) as Hr.
  assert (Hw : exists k, op = k .<< 26 /\ 0 <= k < 64).
  { destruct Hop as [-> | ->]; [by exists 5|by exists 37]. }
  destruct Hw as (k & -> & Hk).
  rewrite Z.lor_comm, lor_add_disjoint by (done || lia). rewrite Z.shiftl_mul_pow2 by lia.
  assert (Hmod : (off mod 2 ^ 26 + k * 2 ^ 26) mod 2 ^ 26 = off mod 2 ^ 26)
    by (rewrite Z_mod_plus_full, Z.mod_mod by lia; done).
  assert (Hword : is_word 32 (off mod 2 ^ 26 + k * 2 ^ 26)).
  { unfold is_word. change (2 ^ 32) with (64 * 2 ^ 26). nia. }
  split; [done|]. split; [|done]. change 0xfc000000 with (2 ^ 32 - 2 ^ 26).
  rewrite land_high by (done || lia). rewrite Hmod. ring.
Qed.

Lemma branch_parts i op :
  is_word 32 i -> op = i .& 0xfc000000 -> i = op + i mod 2 ^ 26.
Proof.
  intros Hi ->. change 0xfc000000 with (2 ^ 32 - 2 ^ 26). rewrite land_high by (done || lia). lia.
Qed.

(** Control, entering at [o], leaves the code in [o .. hi) at [target]. *)
Definition leaves (taken : bool) (m : mem) (o hi target lr : Z) : Prop :=
  forall x17 x30, a64_run 6 m taken o hi o x17 x30 = Some (target, if lr =? 0 then x30 else lr).

Lemma run_outside tk fuel m lo hi pc x17 x30 :
  ~ lo <= pc < hi -> a64_run fuel m tk lo hi pc x17 x30 = Some (pc, x30).
Proof.
  intros H. assert (Hb : (pc <? lo) || (hi <=? pc) = true).
  { apply orb_true_iff. rewrite Z.ltb_lt, Z.leb_le. lia. }
  by destruct fuel; cbn [a64_run]; rewrite Hb.
Qed.

Lemma run_at tk fuel m lo hi pc x17 x30 w :
  lo <= pc < hi -> load32 m pc = Some w ->
  a64_run (S fuel) m tk lo hi pc x17 x30 =
    let run := a64_run fuel m tk lo hi in
    if w =? A64_NOP then run (pc + 4) x17 x30
    else if w =? 0x58000051 then
      match load64 m (pc + 8) with Some v => run (pc + 4) v x30 | None => None end
    else if w =? 0x58000071 then
      match load64 m (pc + 12) with Some v => run (pc + 4) v x30 | None => None end
    else if w =? 0x1000009e then run (pc + 4) x17 (pc + 16)
    else if w =? 0xd61f0220 then run x17 x17 x30
    else if (w .& 0xfc000000) =? 0x14000000 then run (pc + swrap 28 (4 * (w mod 2 ^ 26))) x17 x30
    else if (w .& 0xfc000000) =? 0x94000000
         then run (pc + swrap 28 (4 * (w mod 2 ^ 26))) x17 (pc + 4)
    else match cond_offset w with
         | Some off => run (if tk then pc + off else pc + 4) x17 x30
         | None => None
         end.
Proof.
  intros Hr Hl. assert (Hb : (pc <? lo) || (hi <=? pc) = false).
  { apply orb_false_iff. rewrite Z.ltb_ge, Z.leb_gt. lia. }
  cbn [a64_run]. by rewrite Hb, Hl.
Qed.


(** Execute the concrete instruction at [outp c + k]. *)
Ltac decode :=
  cbv zeta;
  repeat match goal with
  | |- context [if ?x =? ?y then _ else _] =>
      let b := eval vm_compute in (x =? y) in
      lazymatch b with
      | true => change (x =? y) with true
      | false => change (x =? y) with false
      end; cbv iota
  end.

Ltac exec H :=
  erewrite run_at; [|lia|exact H]; decode.

(** The bytes [bs] are at [o .. hi). *)
Definition holds (bs : list Z) (m : mem) (o hi : Z) : Prop :=
  load_bytes m o (length bs) = Some bs /\ hi = o + Z.of_nat (length bs).

Lemma bytes_at bs m o hi n v k post w :
  holds bs m o hi -> drop k bs = le_bytes n v ++ post -> (k <= length bs)%nat ->
  v mod 2 ^ (8 * Z.of_nat n) = w -> load m n (o + Z.of_nat k) = Some w.
Proof. intros [Hl _] ? ? <-. by eapply load_at. Qed.

(** [LDR X17, #8; BR X17] and the address. *)
Definition long_jump (b : bool) (v : Z) : list Z :=
  nop_bytes b ++ words [0x58000051; 0xd61f0220] ++ le_bytes 8 v.

Lemma run_long_jump taken b v m o hi :
  holds (long_jump b v) m o hi -> is_word 64 v -> ~ o <= v < hi -> leaves taken m o hi v 0.
Proof.
  intros Hr Hv Hout x17 x30. cbn [Z.eqb]. 
  assert (Ho : hi = o + if b then 20 else 16) by (destruct Hr as (_ & ->); by destruct b).
  assert (Hjump : forall f s k, s = o + Z.of_nat k -> k = (if b then 4 else 0)%nat ->
    a64_run (S (S f)) m taken o (hi) s x17 x30 = Some (v, x30)).
  { intros f s k -> ->.
    assert (H1 : load32 m (o + Z.of_nat (if b then 4 else 0)%nat) = Some 0x58000051)
      by (eapply (bytes_at _ _ _ _ 4 0x58000051); [exact Hr|by destruct b|destruct b; cbn; lia|done]).
    assert (H2 : load32 m (o + Z.of_nat (if b then 8 else 4)%nat) = Some 0xd61f0220)
      by (eapply (bytes_at _ _ _ _ 4 0xd61f0220); [exact Hr|by destruct b|destruct b; cbn; lia|done]).
    assert (H3 : load64 m (o + Z.of_nat (if b then 12 else 8)%nat) = Some v)
      by (eapply (bytes_at _ _ _ _ 8 v _ []); [exact Hr|by destruct b|destruct b; cbn; lia|by apply Z.mod_small]).
    erewrite run_at; [|destruct b; lia|exact H1]. decode.
    replace (o + Z.of_nat (if b then 4 else 0)%nat + 8) with (o + Z.of_nat (if b then 12 else 8)%nat)
      by (destruct b; lia). rewrite H3.
    replace (o + Z.of_nat (if b then 4 else 0)%nat + 4) with (o + Z.of_nat (if b then 8 else 4)%nat)
      by (destruct b; lia).
    erewrite run_at; [|destruct b; lia|exact H2]. decode. by apply run_outside. }
  destruct b.
  - assert (H0 : load32 m (o + Z.of_nat 0) = Some A64_NOP)
      by (eapply (bytes_at _ _ _ _ 4 A64_NOP); [exact Hr|done|cbn; lia|done]).
    replace (o + Z.of_nat 0) with o in H0 by lia. exec H0. by apply (Hjump 3%nat _ 4%nat).
  - apply (Hjump 4%nat _ 0%nat); [lia|done].
Qed.

(** [LDR X17, #12; ADR X30, #16; BR X17] and the address. *)
Definition long_call (b : bool) (v : Z) : list Z :=
  nop_bytes b ++ words [0x58000071; 0x1000009e; 0xd61f0220] ++ le_bytes 8 v.

Lemma run_long_call taken b v m o hi :
  holds (long_call b v) m o hi -> is_word 64 v -> ~ o <= v < hi -> 0 < hi ->
  leaves taken m o hi v (hi).
Proof.
  intros Hr Hv Hout Hpos x17 x30. destruct (Z.eqb_spec (hi) 0) as [|_]; [lia|].
  
  assert (Ho : hi = o + if b then 24 else 20) by (destruct Hr as (_ & ->); by destruct b).
  assert (Hcall : forall f s k, s = o + Z.of_nat k -> k = (if b then 4 else 0)%nat ->
    a64_run (S (S (S f))) m taken o (hi) s x17 x30 = Some (v, hi)).
  { intros f s k -> ->.
    assert (H1 : load32 m (o + Z.of_nat (if b then 4 else 0)%nat) = Some 0x58000071)
      by (eapply (bytes_at _ _ _ _ 4 0x58000071); [exact Hr|by destruct b|destruct b; cbn; lia|done]).
    assert (H2 : load32 m (o + Z.of_nat (if b then 8 else 4)%nat) = Some 0x1000009e)
      by (eapply (bytes_at _ _ _ _ 4 0x1000009e); [exact Hr|by destruct b|destruct b; cbn; lia|done]).
    assert (H3 : load32 m (o + Z.of_nat (if b then 12 else 8)%nat) = Some 0xd61f0220)
      by (eapply (bytes_at _ _ _ _ 4 0xd61f0220); [exact Hr|by destruct b|destruct b; cbn; lia|done]).
    assert (H4 : load64 m (o + Z.of_nat (if b then 16 else 12)%nat) = Some v)
      by (eapply (bytes_at _ _ _ _ 8 v _ []); [exact Hr|by destruct b|destruct b; cbn; lia|by apply Z.mod_small]).
    erewrite run_at; [|destruct b; lia|exact H1]. decode.
    replace (o + Z.of_nat (if b then 4 else 0)%nat + 12) with (o + Z.of_nat (if b then 16 else 12)%nat)
      by (destruct b; lia). rewrite H4.
    replace (o + Z.of_nat (if b then 4 else 0)%nat + 4) with (o + Z.of_nat (if b then 8 else 4)%nat)
      by (destruct b; lia).
    erewrite run_at; [|destruct b; lia|exact H2]. decode.
    replace (o + Z.of_nat (if b then 8 else 4)%nat + 4) with (o + Z.of_nat (if b then 12 else 8)%nat)
      by (destruct b; lia).
    erewrite run_at; [|destruct b; lia|exact H3]. decode. rewrite run_outside by lia.
    do 2 f_equal. destruct b; lia. }
  destruct b.
  - assert (H0 : load32 m (o + Z.of_nat 0) = Some A64_NOP)
      by (eapply (bytes_at _ _ _ _ 4 A64_NOP); [exact Hr|done|cbn; lia|done]).
    replace (o + Z.of_nat 0) with o in H0 by lia. exec H0. by apply (Hcall 2%nat _ 4%nat).
  - apply (Hcall 3%nat _ 0%nat); [lia|done].
Qed.

(** One direct branch. *)
Lemma run_direct taken op off m o hi target :
  op = 0x14000000 \/ op = 0x94000000 ->
  holds (le_bytes 4 (op .| (off .& 0x03ffffff))) m o hi ->
  Z.abs off < 2 ^ 25 -> target = o + 4 * off -> ~ o <= target < hi -> 0 < hi ->
  leaves taken m o hi target (if op =? 0x94000000 then hi else 0).
Proof.
  intros Hop Hr Hoff Ht Hout Hpos x17 x30. 
  assert (Ho : hi = o + 4) by by destruct Hr as (_ & ->).
  destruct (branch_word op off Hop) as (Hw & Hopc & Hmod). set (w := op .| _) in *.
  assert (Hl : load32 m (o + Z.of_nat 0) = Some w).
  { eapply (bytes_at _ _ _ _ 4 w _ []); [exact Hr|done|cbn; lia|by apply Z.mod_small]. }
  replace (o + Z.of_nat 0) with o in Hl by lia. erewrite run_at; [|lia|exact Hl]. cbv zeta.
  assert (Hne : forall x, op <> x .& 0xfc000000 -> (w =? x) = false).
  { intros x Hx. apply Z.eqb_neq. intros He. apply Hx. by rewrite <- He, Hopc. }
  assert (Hop' : w .& 0xfc000000 = op) by done.
  rewrite !Hne by (destruct Hop as [-> | ->]; done). rewrite Hop', Hmod.
  assert (Hd : o + swrap 28 (4 * (off mod 2 ^ 26)) = target).
  { change 28 with (26 + 2). change 4 with (2 ^ 2) at 1. rewrite swrap_scale by lia.
    change (off mod 2 ^ 26) with (uwrap 26 off). rewrite swrap_uwrap, swrap_small by lia. rewrite Ht. lia. }
  rewrite Hd, !run_outside by lia. destruct Hop as [-> | ->]; decode; [done|].
  destruct (Z.eqb_spec (hi) 0); [lia|]. by rewrite Ho.
Qed.


Section Exact.
Context (c : cursor) (taken : bool) (i : Z).
Context (fetched : load32 (cmem c) (inp c) = Some i) (i_word : is_word 32 i).
Context (in_aligned : inp c mod 4 = 0) (out_aligned : outp c mod 4 = 0).
Context (room : mapped (cmem c) (outp c) 28).
Context (idle : settled (get_ref_ins_index (ctx c) (inp c)) c).

Lemma room_for n : 0 <= n <= 28 -> mapped (cmem c) (outp c) n.
Proof. intros Hn j Hj. apply room. lia. Qed.

Lemma rewrote_holds bs c' : rewrote bs c c' -> holds bs (cmem c') (outp c) (outp c').
Proof. intros (_ & Ho & Hs). split; [by eapply store_bytes_load|done]. Qed.

Definition branch_target : Z := inp c + swrap 28 (4 * (i mod 2 ^ 26)).

Lemma branch_target_aligned : branch_target mod 4 = 0.
Proof.
  unfold branch_target. change 28 with (26 + 2). change 4 with (2 ^ 2) at 1. rewrite swrap_scale by lia.
  change (2 ^ 2) with 4. rewrite Z.mul_comm, Z_mod_plus_full. done.
Qed.

(** Write [bs] after the optional alignment, and finish. *)
Lemma rewrite_aligned idx c1 b bs :
  same_place c c1 -> settled idx c1 -> Z.of_nat (length (nop_bytes b ++ bs)) <= 28 ->
  exists c', (let! c := (let! c := align_nop b idx c1 in emit_bytes bs c) in
              let! c := process_fix_map idx (advance c) in Ok (Some c)) = Ok (Some c') /\
    rewrote (nop_bytes b ++ bs) c c'.
Proof.
  intros Hp Hs Hl. destruct (align_wrote b idx bs c1) as (c2 & -> & Hw & Hs2); [|done|].
  - destruct Hp as (_ & -> & -> & _). apply room_for. lia.
  - cbn [rbind]. apply (finish_rewrote idx c c2); [|done]. by eapply wrote_same.
Qed.

Lemma rewrite_plain idx c1 bs :
  same_place c c1 -> settled idx c1 -> Z.of_nat (length bs) <= 28 ->
  exists c', (let! c := emit_bytes bs c1 in
              let! c := process_fix_map idx (advance c) in Ok (Some c)) = Ok (Some c') /\ rewrote bs c c'.
Proof. intros Hp Hs Hl. exact (rewrite_aligned idx c1 false bs Hp Hs Hl). Qed.

(** The bytes a branch to [t] is rewritten to at [o]. *)
Definition branch_bytes (op o t : Z) (bs : list Z) : Prop :=
  (exists b, bs = if op =? 0x14000000 then long_jump b t else long_call b t) \/
  bs = le_bytes 4 (op .| (((t - o) .>> 2) .& 0x03ffffff)) /\ Z.abs ((t - o) .>> 2) < 2 ^ 25 - 1.

Lemma branch_bytes_length op o t bs : branch_bytes op o t bs -> (4 <= length bs <= 24)%nat.
Proof. intros [[[] ->]|[-> _]]; try destruct (_ =? _); cbn; lia. Qed.

Lemma branch_imm_bytes op :
  op = i .& 0xfc000000 -> op = 0x14000000 \/ op = 0x94000000 ->
  is_in_fixing_range (ctx c) branch_target = false ->
  exists c' bs, fix_branch_imm c = Ok (Some c') /\ rewrote bs c c' /\ branch_bytes op (outp c) branch_target bs.
Proof.
  intros Hop Hcase Hrange. destruct (index_settled c _ eq_refl idle) as (c1 & Hidx & Hp & Hs1).
  unfold fix_branch_imm. rewrite fetched. cbn [of_opt rbind]. cbv zeta. rewrite <- Hop.
  replace ((op =? 0x14000000) || (op =? 0x94000000)) with true by (by destruct Hcase as [-> | ->]).
  rewrite Hidx. cbn [rbind].
  assert (Hplace : inp c1 = inp c /\ outp c1 = outp c /\
    is_in_fixing_range (ctx c1) = is_in_fixing_range (ctx c)).
  { destruct Hp as (? & ? & ? & Hb & He). split_and!; try done. unfold is_in_fixing_range. by rewrite Hb, He. }
  destruct Hplace as (-> & -> & ->). rewrite branch_offset. fold branch_target. rewrite Hrange.
  cbn [negb andb]. change (0x03ffffff .>> 1) with (2 ^ 25 - 1). unfold branch_bytes.
  destruct (Z.leb_spec (2 ^ 25 - 1) (Z.abs ((branch_target - outp c) .>> 2))) as [Hfar|Hnear].
  - destruct (Z.eqb_spec op 0x14000000) as [->|Hbl].
    + destruct (rewrite_aligned (get_ref_ins_index (ctx c) (inp c)) c1
        (negb ((outp c + 8) .& 7 =? 0)) (words [0x58000051; 0xd61f0220] ++ le_bytes 8 branch_target))
        as (c' & He & Hr); [done|done|by destruct (_ =? 0)|].
      exists c', (long_jump (negb ((outp c + 8) .& 7 =? 0)) branch_target). rewrite <- He. split; [|split; [done|left; by eexists]].
      f_equal. destruct (align_nop _ _ _) as [c2| |]; [|done..]. cbn [rbind]. rewrite emits_bytes. apply emit_bytes_app.
    + destruct (rewrite_aligned (get_ref_ins_index (ctx c) (inp c)) c1 ((outp c + 8) .& 7 =? 0)
        (words [0x58000071; 0x1000009e; 0xd61f0220] ++ le_bytes 8 branch_target))
        as (c' & He & Hr); [done|done|by destruct (_ =? 0)|].
      exists c', (long_call ((outp c + 8) .& 7 =? 0) branch_target). rewrite <- He. split; [|split; [done|left; by eexists]].
      f_equal. destruct (align_nop _ _ _) as [c2| |]; [|done..]. cbn [rbind]. rewrite emits_bytes. apply emit_bytes_app.
  - destruct (rewrite_plain (get_ref_ins_index (ctx c) (inp c)) c1
      (le_bytes 4 (op .| (((branch_target - outp c) .>> 2) .& 0x03ffffff)))) as (c' & He & Hr); [done|done|by cbn|].
    exists c'. eexists. rewrite <- He. split; [done|]. split; [exact Hr|]. by right.
Qed.

(** [B] and [BL] to a place that is not itself being moved: the rewritten
    code, direct or through X17, goes to the target the original instruction had,
    and [BL] returns behind the rewritten code. *)
Theorem branch_imm_exact op :
  op = i .& 0xfc000000 -> op = 0x14000000 \/ op = 0x94000000 ->
  is_in_fixing_range (ctx c) branch_target = false -> is_word 64 branch_target ->
  ~ outp c <= branch_target < outp c + 24 -> 0 <= outp c ->
  exists c', fix_branch_imm c = Ok (Some c') /\ inp c' = inp c + 4 /\
    outp c < outp c' <= outp c + 24 /\
    leaves taken (cmem c') (outp c) (outp c') branch_target (if op =? 0x94000000 then outp c' else 0).
Proof.
  intros Hop Hcase Hrange Hword Hout Hpos. destruct (branch_imm_bytes op Hop Hcase Hrange) as (c' & bs & He & Hr & Hbs).
  pose proof (branch_bytes_length _ _ _ _ Hbs). pose proof Hr as (Hi' & Ho' & _). pose proof (rewrote_holds _ _ Hr) as Hh.
  exists c'. split; [done|]. split; [done|]. split; [lia|]. destruct Hbs as [[b ->]|[-> Hnear]].
  - destruct Hcase as [-> | ->]; cbn [Z.eqb Pos.eqb] in *; [eapply run_long_jump|eapply run_long_call]; try exact Hh; (done || lia).
  - eapply run_direct; [done|exact Hh|lia| |lia|lia].
    pose proof branch_target_aligned as Hta. revert Hta out_aligned.
    rewrite Z.shiftr_div_pow2 by lia. change (2 ^ 2) with 4. generalize branch_target as t, (outp c) as o.
    clear. intros t o Ht Ho. Z.to_euclidean_division_equations. lia.
Qed.


(** *** Conditional branches *)

Lemma field_land x s k : 0 <= s -> 0 <= k -> x .& (Z.ones k .<< s) = 2 ^ s * ((x / 2 ^ s) mod 2 ^ k).
Proof.
  intros Hs Hk. rewrite <- Z.land_ones, <- Z.shiftr_div_pow2, Z.mul_comm, <- Z.shiftl_mul_pow2 by done.
  apply Z.bits_inj'. intros n Hn. rewrite Z.land_spec, !Z.shiftl_spec by done.
  destruct (Z.ltb_spec n s).
  - by rewrite !(Z.testbit_neg_r _ (n - s)), andb_false_r by lia.
  - rewrite Z.land_spec, Z.shiftr_spec by lia. do 2 f_equal. lia.
Qed.

(** The number of bits of the displacement. *)
Definition cond_bits (l : Z) : Z := if l =? 0xff00001f then 19 else 14.

Lemma cond_lmask_cases w l :
  cond_lmask w = Some l ->
  l = 0xff00001f \/ l = 0xfff8001f.
Proof. unfold cond_lmask. repeat case_match; naive_solver. Qed.

Lemma cond_class w w' l :
  cond_lmask w = Some l -> w .& l = w' .& l -> cond_lmask w' = Some l.
Proof.
  intros Hw He. assert (Hsub : forall M, M = l .& M -> w .& M = w' .& M).
  { intros M ->. by rewrite !Z.land_assoc, He. }
  assert (Hl : 0xff000010 = l .& 0xff000010 /\ 0x7f000000 = l .& 0x7f000000)
    by (destruct (cond_lmask_cases w l Hw) as [-> | ->]; done).
  destruct Hl as [H1 H2]. unfold cond_lmask in *. by rewrite <- (Hsub _ H1), <- (Hsub _ H2).
Qed.

Lemma cond_parts l :
  l = 0xff00001f \/ l = 0xfff8001f ->
  not32 l = Z.ones (cond_bits l) .<< 5 /\ not32 l .& l = 0 /\ 0 < cond_bits l < 20.
Proof. by intros [-> | ->]. Qed.

(** The instruction with its displacement replaced by [x]. *)
Lemma cond_word l x :
  cond_lmask i = Some l ->
  let w := (u32 (x .<< 5) .& not32 l) .| (i .& l) in
  cond_lmask w = Some l /\ is_word 32 w /\
  cond_offset w = Some (swrap (cond_bits l + 2) (4 * (x mod 2 ^ cond_bits l))).
Proof.
  intros Hl w. pose proof (cond_lmask_cases i l Hl) as Hc.
  destruct (cond_parts l Hc) as (Hn & Hdis & Hk). set (k := cond_bits l) in *.
  assert (Hw : w .& l = i .& l).
  { unfold w. by rewrite Z.land_lor_distr_l, <- !Z.land_assoc, Hdis, Z.land_0_r, Z.lor_0_l, Z.land_diag. }
  assert (Hwc : cond_lmask w = Some l) by (apply (cond_class i); [done|by rewrite Hw]).
  assert (Hwn : w .& not32 l = u32 (x .<< 5) .& not32 l).
  { unfold w. rewrite Z.land_lor_distr_l, <- !Z.land_assoc, Z.land_diag.
    rewrite (Z.land_comm l), Hdis, Z.land_0_r. apply Z.lor_0_r. }
  assert (Hfield : (w / 32) mod 2 ^ k = x mod 2 ^ k).
  { rewrite Hn, !field_land in Hwn by lia. change (2 ^ 5) with 32 in Hwn.
    assert (He : (w / 32) mod 2 ^ k = (u32 (x .<< 5) / 32) mod 2 ^ k) by lia.
    rewrite He, Z.shiftl_mul_pow2 by lia. change (2 ^ 5) with 32. unfold uwrap.
    change (2 ^ 32) with (2 ^ 27 * 32). rewrite Z.mul_mod_distr_r, Z.div_mul by lia.
    rewrite <- (Znumtheory.Zmod_div_mod (2 ^ k) (2 ^ 27)); [done|lia|lia|].
    exists (2 ^ (27 - k)). rewrite <- Z.pow_add_r by lia. f_equal. lia. }
  split; [done|]. split.
  - unfold w. apply is_word_lor; [lia| |]; apply is_word_land_l; [lia| |lia|done].
    apply uwrap_word. lia.
  - unfold cond_offset. rewrite Hwc. destruct Hc as [-> | ->]; cbn [Z.eqb] in *.
    + change (cond_bits 0xff00001f) with 19 in *. change (_ =? _) with true. cbv iota.
      unfold k in Hfield. by rewrite Hfield.
    + change (cond_bits 0xfff8001f) with 14 in *. change (_ =? _) with false. cbv iota.
      unfold k in Hfield. by rewrite Hfield.
Qed.

Lemma cond_not_branch w l : cond_lmask w = Some l ->
  (w .& 0xfc000000 =? 0x14000000) = false /\ (w .& 0xfc000000 =? 0x94000000) = false.
Proof.
  intros Hw. assert (Hm : w .& 0x7c000000 = 0x54000000 \/ w .& 0x7c000000 = 0x34000000).
  { unfold cond_lmask in Hw.
    assert (Hsub : forall M v, w .& M = v -> M .& 0x7c000000 = 0x7c000000 ->
      w .& 0x7c000000 = v .& 0x7c000000).
    { intros M v <- HM. by rewrite <- Z.land_assoc, HM. }
    destruct (Z.eqb_spec (w .& 0xff000010) 0x54000000) as [H|].
    { left. by rewrite (Hsub _ _ H). }
    right.
    destruct (Z.eqb_spec (w .& 0x7f000000) 0x34000000) as [H|]; [by rewrite (Hsub _ _ H)|].
    destruct (Z.eqb_spec (w .& 0x7f000000) 0x35000000) as [H|]; [by rewrite (Hsub _ _ H)|].
    destruct (Z.eqb_spec (w .& 0x7f000000) 0x36000000) as [H|]; [by rewrite (Hsub _ _ H)|].
    destruct (Z.eqb_spec (w .& 0x7f000000) 0x37000000) as [H|]; [by rewrite (Hsub _ _ H)|].
    done. }
  split; apply Z.eqb_neq; intros He;
    apply (f_equal (fun z => z .& 0x7c000000)) in He; rewrite <- Z.land_assoc in He;
    change (0xfc000000 .& 0x7c000000) with 0x7c000000 in He;
    destruct Hm as [Hm|Hm]; rewrite Hm in He; discriminate He.
Qed.

Lemma run_cond_at tk fuel m lo hi pc x17 x30 w off :
  lo <= pc < hi -> load32 m pc = Some w -> cond_offset w = Some off ->
  a64_run (S fuel) m tk lo hi pc x17 x30 =
  a64_run fuel m tk lo hi (if tk then pc + off else pc + 4) x17 x30.
Proof.
  intros Hr Hl Ho. erewrite run_at by done. cbv zeta. rewrite Ho.
  unfold cond_offset in Ho. destruct (cond_lmask w) as [l|] eqn:Hc; [|done].
  destruct (cond_not_branch w l Hc) as [-> ->].
  assert (Hne : forall x, cond_lmask x = None -> (w =? x) = false).
  { intros x Hx. apply Z.eqb_neq. intros ->. congruence. }
  by rewrite !Hne.
Qed.

(** The inverted branch over an absolute jump: [B.C #8; B #20; LDR X17; BR X17]. *)
Definition cond_jump (b : bool) (w v : Z) : list Z :=
  nop_bytes b ++ words [w; 0x14000005; 0x58000051; 0xd61f0220] ++ le_bytes 8 v.

Lemma run_cond_jump b w v m o hi :
  is_word 32 w -> cond_offset w = Some 8 ->
  holds (cond_jump b w v) m o hi -> is_word 64 v -> ~ o <= v < hi ->
  leaves taken m o hi (if taken then v else hi) 0.
Proof.
  intros Hw Hoff Hr Hv Hout x17 x30. cbn [Z.eqb]. 
  assert (Ho : hi = o + if b then 28 else 24) by (destruct Hr as (_ & ->); by destruct b).
  assert (Hjump : forall f s k, s = o + Z.of_nat k -> k = (if b then 4 else 0)%nat ->
    a64_run (S (S (S f))) m taken o (hi) s x17 x30 =
    Some (if taken then v else hi, x30)).
  { intros f s k -> ->.
    assert (H1 : load32 m (o + Z.of_nat (if b then 4 else 0)%nat) = Some w)
      by (eapply (bytes_at _ _ _ _ 4 w); [exact Hr|by destruct b|destruct b; cbn; lia|by apply Z.mod_small]).
    assert (H2 : load32 m (o + Z.of_nat (if b then 8 else 4)%nat) = Some 0x14000005)
      by (eapply (bytes_at _ _ _ _ 4 0x14000005); [exact Hr|by destruct b|destruct b; cbn; lia|done]).
    assert (H3 : load32 m (o + Z.of_nat (if b then 12 else 8)%nat) = Some 0x58000051)
      by (eapply (bytes_at _ _ _ _ 4 0x58000051); [exact Hr|by destruct b|destruct b; cbn; lia|done]).
    assert (H4 : load32 m (o + Z.of_nat (if b then 16 else 12)%nat) = Some 0xd61f0220)
      by (eapply (bytes_at _ _ _ _ 4 0xd61f0220); [exact Hr|by destruct b|destruct b; cbn; lia|done]).
    assert (H5 : load64 m (o + Z.of_nat (if b then 20 else 16)%nat) = Some v)
      by (eapply (bytes_at _ _ _ _ 8 v _ []); [exact Hr|by destruct b|destruct b; cbn; lia|by apply Z.mod_small]).
    erewrite run_cond_at; [|destruct b; lia|exact H1|exact Hoff]. destruct taken.
    - replace (o + Z.of_nat (if b then 4 else 0)%nat + 8) with (o + Z.of_nat (if b then 12 else 8)%nat)
        by (destruct b; lia).
      erewrite run_at; [|destruct b; lia|exact H3]. decode.
      replace (o + Z.of_nat (if b then 12 else 8)%nat + 8) with (o + Z.of_nat (if b then 20 else 16)%nat)
        by (destruct b; lia). rewrite H5.
      replace (o + Z.of_nat (if b then 12 else 8)%nat + 4) with (o + Z.of_nat (if b then 16 else 12)%nat)
        by (destruct b; lia).
      erewrite run_at; [|destruct b; lia|exact H4]. decode. by apply run_outside.
    - replace (o + Z.of_nat (if b then 4 else 0)%nat + 4) with (o + Z.of_nat (if b then 8 else 4)%nat)
        by (destruct b; lia).
      erewrite run_at; [|destruct b; lia|exact H2]. decode.
      change (swrap 28 (4 * (0x14000005 mod 2 ^ 26))) with 20.
      rewrite run_outside by (destruct b; lia). do 2 f_equal. destruct b; lia. }
  destruct b.
  - assert (H0 : load32 m (o + Z.of_nat 0) = Some A64_NOP)
      by (eapply (bytes_at _ _ _ _ 4 A64_NOP); [exact Hr|done|cbn; lia|done]).
    replace (o + Z.of_nat 0) with o in H0 by lia. exec H0. by apply (Hjump 2%nat _ 4%nat).
  - apply (Hjump 3%nat _ 0%nat); [lia|done].
Qed.


Definition cond_target (l : Z) : Z := inp c + 4 * (i / 32 mod 2 ^ cond_bits l).

(** A conditional branch that is moved goes, when it is taken, to its target
    if that lies ahead; the displacement is not sign-extended, so that a branch
    backwards goes 2^21 bytes ([TBZ]: 2^16) beyond.  When it is not taken control
    falls through. *)
Theorem cond_branch_unsigned l :
  cond_lmask i = Some l ->
  is_in_fixing_range (ctx c) (cond_target l) = false -> is_word 64 (cond_target l) ->
  ~ outp c <= cond_target l < outp c + 28 -> 0 <= outp c ->
  exists c' off, fix_cond_comp_test_branch c = Ok (Some c') /\ inp c' = inp c + 4 /\
    outp c < outp c' <= outp c + 28 /\ cond_offset i = Some off /\
    leaves taken (cmem c') (outp c) (outp c') (if taken then inp c + off + (if off <? 0 then 2 ^ (cond_bits l + 2) else 0)
               else outp c') 0.
Proof.
  intros Hl Hrange Hword Hout Hpos.
  destruct (index_settled c _ eq_refl idle) as (c1 & Hidx & Hp & Hs1).
  destruct (cond_parts l (cond_lmask_cases i l Hl)) as (Hn & _ & Hk).
  pose proof (Z.mod_pos_bound (i / 32) (2 ^ cond_bits l) ltac:(lia)) as Hu.
  assert (Hoff : exists off, cond_offset i = Some off /\
    cond_target l = inp c + off + (if off <? 0 then 2 ^ (cond_bits l + 2) else 0)).
  { exists (swrap (cond_bits l + 2) (4 * (i / 32 mod 2 ^ cond_bits l))). split.
    - unfold cond_offset. rewrite Hl. by destruct (cond_lmask_cases i l Hl) as [-> | ->].
    - unfold cond_target. revert Hu. generalize (i / 32 mod 2 ^ cond_bits l) as u. clear -Hk. intros u Hu.
      unfold swrap. replace (cond_bits l + 2 - 1) with (cond_bits l + 1) by lia.
      assert (H1 : 2 ^ (cond_bits l + 2) = 4 * 2 ^ cond_bits l)
        by (rewrite Z.pow_add_r by lia; change (2 ^ 2) with 4; lia).
      assert (H2 : 2 ^ (cond_bits l + 1) = 2 * 2 ^ cond_bits l)
        by (rewrite Z.pow_add_r by lia; change (2 ^ 1) with 2; lia).
      rewrite H1, H2. destruct (Z.ltb_spec ((4 * u + 2 * 2 ^ cond_bits l) mod (4 * 2 ^ cond_bits l)
        - 2 * 2 ^ cond_bits l) 0) as [Hs|Hs]; revert Hs.
      + destruct (decide (4 * u < 2 * 2 ^ cond_bits l)).
        * rewrite Z.mod_small by lia. lia.
        * rewrite <- (Z.mod_unique _ _ 1 (4 * u - 2 * 2 ^ cond_bits l)) by lia. lia.
      + destruct (decide (4 * u < 2 * 2 ^ cond_bits l)).
        * rewrite Z.mod_small by lia. lia.
        * rewrite <- (Z.mod_unique _ _ 1 (4 * u - 2 * 2 ^ cond_bits l)) by lia. lia. }
  destruct Hoff as (off & Hoff & Ht). unfold fix_cond_comp_test_branch. rewrite fetched. cbn [of_opt rbind].
  rewrite Hl. cbv zeta. rewrite Hidx. cbn [rbind].
  assert (Hplace : inp c1 = inp c /\ outp c1 = outp c /\
    is_in_fixing_range (ctx c1) = is_in_fixing_range (ctx c)).
  { destruct Hp as (? & ? & ? & Hb & He). split_and!; try done. unfold is_in_fixing_range. by rewrite Hb, He. }
  destruct Hplace as (-> & -> & ->).
  assert (Habs : inp c + ((i .& not32 l) .>> (5 - 2)) = cond_target l).
  { rewrite Hn, field_land, Z.shiftr_div_pow2 by lia. change (2 ^ 5) with (4 * 2 ^ (5 - 2)).
    rewrite <- Z.mul_assoc, (Z.mul_comm (2 ^ (5 - 2)) (_ mod _)), Z.mul_assoc, Z.div_mul by lia. done. }
  rewrite Habs, Hrange. cbn [negb andb].
  assert (Hlim : not32 l .>> (5 + 1) = 2 ^ (cond_bits l - 1) - 1)
    by (by destruct (cond_lmask_cases i l Hl) as [-> | ->]).
  rewrite Hlim.
  assert (Hpow : 2 ^ cond_bits l = 2 * 2 ^ (cond_bits l - 1))
    by (rewrite <- Z.pow_succ_r by lia; f_equal; lia).
  assert (Hpow2 : 2 ^ (cond_bits l + 2) = 4 * 2 ^ cond_bits l)
    by (rewrite Z.pow_add_r by lia; change (2 ^ 2) with 4; lia).
  assert (Hsw : forall x, - 2 ^ (cond_bits l - 1) <= x < 2 ^ (cond_bits l - 1) ->
    swrap (cond_bits l + 2) (4 * (x mod 2 ^ cond_bits l)) = 4 * x).
  { intros x Hx. change 4 with (2 ^ 2) at 1. rewrite swrap_scale by lia.
    change (x mod 2 ^ cond_bits l) with (uwrap (cond_bits l) x). by rewrite swrap_uwrap, swrap_small by lia. }
  destruct (Z.leb_spec (2 ^ (cond_bits l - 1) - 1) (Z.abs ((cond_target l - outp c) .>> 2))) as [Hfar|Hnear].
  - destruct (cond_word l 2 Hl) as (_ & Hw & Hwo). rewrite Hsw in Hwo
      by (destruct (cond_lmask_cases i l Hl) as [-> | ->]; by cbn).
    set (w := (u32 (2 .<< 5) .& not32 l) .| (i .& l)) in *.
    destruct (rewrite_aligned (get_ref_ins_index (ctx c) (inp c)) c1 (misaligned (outp c + 16) 7)
      (words [w; 0x14000005; 0x58000051; 0xd61f0220] ++ le_bytes 8 (cond_target l)))
      as (c' & He & Hr); [done|done|by destruct (misaligned _ _)|].
    exists c', off. rewrite <- He. split.
    { change ((8 .>> 2 .<< 5 .& not32 l) .| (i .& l)) with w. f_equal.
      destruct (align_nop _ _ _) as [c2| |]; [|done..]. cbn [rbind].
      rewrite emits_bytes. apply emit_bytes_app. }
    assert (Ho' : outp c < outp c' <= outp c + 28)
      by (destruct Hr as (_ & -> & _); destruct (misaligned _ _); cbn; lia).
    split; [apply Hr|]. split; [done|]. split; [done|]. rewrite <- Ht.
    eapply run_cond_jump; [exact Hw|exact Hwo|by apply rewrote_holds|done|lia].
  - destruct (cond_word l ((cond_target l - outp c) .>> 2) Hl) as (_ & Hw & Hwo).
    rewrite Hsw in Hwo by lia. set (w := (u32 _ .& not32 l) .| (i .& l)) in *.
    destruct (rewrite_plain (get_ref_ins_index (ctx c) (inp c)) c1 (le_bytes 4 w)) as (c' & He & Hr);
      [done|done|by cbn|].
    exists c', off. rewrite <- He. split; [done|].
    assert (Ho' : outp c' = outp c + 4) by by destruct Hr as (_ & -> & _).
    split; [apply Hr|]. split; [lia|]. split; [done|]. rewrite <- Ht. intros x17 x30. cbn [Z.eqb].
    assert (Hld : load32 (cmem c') (outp c + Z.of_nat 0) = Some w)
      by (eapply (bytes_at _ _ _ _ 4 w 0 []); [by apply rewrote_holds|by rewrite app_nil_r|cbn; lia|by apply Z.mod_small]).
    replace (outp c + Z.of_nat 0) with (outp c) in Hld by lia.
    erewrite run_cond_at; [|lia|exact Hld|exact Hwo].
    assert (Htal : outp c + 4 * ((cond_target l - outp c) .>> 2) = cond_target l).
    { rewrite Z.shiftr_div_pow2 by lia. change (2 ^ 2) with 4.
      assert (Hta : cond_target l mod 4 = 0)
        by (unfold cond_target; rewrite (Z.mul_comm 4), Z_mod_plus_full; done).
      revert Hta out_aligned. generalize (cond_target l) as t, (outp c) as o. clear. intros t o Ht Ho.
      Z.to_euclidean_division_equations. lia. }
    rewrite Htal. rewrite run_outside by (destruct taken; lia). destruct taken; [done|]. by rewrite Ho'.
Qed.


(** *** ADR *)

(** The register and the displacement of an [ADR] instruction. *)
Definition adr_register (w : Z) : Z := w mod 32.
Definition adr_displacement (w : Z) : Z := swrap 21 (4 * (w / 32 mod 2 ^ 19) + w / 2 ^ 29 mod 4).

Definition adr_target : Z := inp c + (imm19_offset i .| (u32 (i .<< 1) .>> 30)).

Lemma adr_low : adr_target mod 4 = i / 2 ^ 29 mod 4.
Proof.
  assert (Hl : u32 (i .<< 1) .>> 30 = i / 2 ^ 29 mod 4).
  { rewrite Z.shiftl_mul_pow2, Z.shiftr_div_pow2 by lia. unfold uwrap.
    change (2 ^ 32) with (2 ^ 31 * 2 ^ 1). rewrite Z.mul_mod_distr_r by lia.
    change (2 ^ 30) with (2 ^ 29 * 2 ^ 1). rewrite Z.div_mul_cancel_r by lia.
    change (2 ^ 31) with (2 ^ 29 * 4). rewrite Z.rem_mul_r by lia.
    rewrite Z.mul_comm, Z.div_add by lia. rewrite Z.div_small by (apply Z.mod_pos_bound; lia). lia. }
  assert (Hi : exists q, imm19_offset i = q .<< 2).
  { exists ((u32 (s32 (u32 (i .<< 8)) .>> 11)) / 2 ^ 2). unfold imm19_offset.
    change (not32 3) with (2 ^ 32 - 2 ^ 2). rewrite land_high by (try apply uwrap_word; lia).
    generalize (u32 (s32 (u32 (i .<< 8)) .>> 11)) as x. intros x.
    rewrite Z.shiftl_mul_pow2 by lia. pose proof (Z.div_mod x (2 ^ 2) ltac:(lia)). lia. }
  destruct Hi as (q & Hq). unfold adr_target. rewrite Hl, Hq, Z.lor_comm.
  pose proof (Z.mod_pos_bound (i / 2 ^ 29) 4 ltac:(lia)).
  rewrite lor_add_disjoint by (unfold is_word; lia).
  change (2 ^ 2) with 4. rewrite Z.add_mod, in_aligned, Z.add_0_l, Z.mod_mod, Z_mod_plus_full, Z.mod_mod by lia.
  done.
Qed.

(** The word written for an [ADR] whose target is [off] bytes from its new place. *)
Lemma adr_word off :
  off mod 4 = i / 2 ^ 29 mod 4 -> - 2 ^ 20 <= off < 2 ^ 20 ->
  let w := (u32 (off .<< (5 - 2)) .& 0x00ffffff) .| (i .& 0xff00001f) in
  is_word 32 w /\ adr_displacement w = off /\
  adr_register w = adr_register i .| (8 * (off mod 4)).
Proof.
  intros Hlow Hoff w. change 0x00ffffff with (Z.ones 24) in w.
  assert (HA : u32 (off .<< (5 - 2)) .& Z.ones 24 = 8 * (off mod 2 ^ 21)).
  { rewrite Z.land_ones, Z.shiftl_mul_pow2 by lia. change (2 ^ (5 - 2)) with 8. unfold uwrap.
    rewrite <- (Znumtheory.Zmod_div_mod (2 ^ 24) (2 ^ 32)) by (try lia; by exists (2 ^ 8)).
    change (2 ^ 24) with (2 ^ 21 * 8). rewrite Z.mul_mod_distr_r by lia. lia. }
  unfold w in *. rewrite HA. clear w. set (A := 8 * (off mod 2 ^ 21)).
  assert (Hfield : forall s k x, 0 <= s -> 0 <= k ->
    2 ^ s * ((x / 2 ^ s) mod 2 ^ k) = x .& (Z.ones k .<< s)) by (intros; by rewrite field_land).
  assert (HAr : 0 <= A < 2 ^ 24) by (unfold A; pose proof (Z.mod_pos_bound off (2 ^ 21) ltac:(lia)); lia).
  set (w := A .| (i .& 0xff00001f)).
  assert (Hlow5 : w mod 32 = (A mod 32) .| (i mod 32)).
  { change 32 with (2 ^ 5). rewrite <- !Z.land_ones by lia. unfold w.
    rewrite Z.land_lor_distr_l, <- Z.land_assoc. done. }
  assert (Hmid : w / 32 mod 2 ^ 19 = A / 32 mod 2 ^ 19).
  { assert (He : 2 ^ 5 * (w / 2 ^ 5 mod 2 ^ 19) = 2 ^ 5 * (A / 2 ^ 5 mod 2 ^ 19)).
    { rewrite !Hfield by lia. unfold w. rewrite Z.land_lor_distr_l, <- Z.land_assoc.
      change (0xff00001f .& (Z.ones 19 .<< 5)) with 0. by rewrite Z.land_0_r, Z.lor_0_r. }
    change (2 ^ 5) with 32 in He. lia. }
  assert (Htop : w / 2 ^ 29 mod 4 = i / 2 ^ 29 mod 4).
  { assert (He : 2 ^ 29 * (w / 2 ^ 29 mod 2 ^ 2) = 2 ^ 29 * (i / 2 ^ 29 mod 2 ^ 2)).
    { rewrite !Hfield by lia. unfold w. rewrite Z.land_lor_distr_l, <- Z.land_assoc.
      change (0xff00001f .& (Z.ones 2 .<< 29)) with (Z.ones 2 .<< 29).
      replace (A .& (Z.ones 2 .<< 29)) with 0; [by rewrite Z.lor_0_l|].
      rewrite field_land by lia. rewrite Z.div_small by lia. done. }
    change (2 ^ 2) with 4 in He. lia. }
  assert (Hsplit : off mod 2 ^ 21 = off mod 4 + 4 * (off / 4 mod 2 ^ 19)).
  { change (2 ^ 21) with (4 * 2 ^ 19). apply Z.rem_mul_r; lia. }
  pose proof (Z.mod_pos_bound off 4 ltac:(lia)) as Hm4.
  pose proof (Z.mod_pos_bound (off / 4) (2 ^ 19) ltac:(lia)) as Hm19.
  assert (HA5 : A mod 32 = 8 * (off mod 4) /\ A / 32 = off / 4 mod 2 ^ 19).
  { unfold A. rewrite Hsplit. split; [symmetry; apply Z.mod_unique with (off / 4 mod 2 ^ 19); lia|].
    symmetry. apply Z.div_unique with (8 * (off mod 4)); lia. }
  destruct HA5 as [HA5 HA32]. split; [|split].
  - unfold w. apply is_word_lor; [lia|unfold is_word; lia|]. apply is_word_land_l; [lia|done].
  - unfold adr_displacement. rewrite Hmid, HA32, Z.mod_mod, Htop, <- Hlow by lia.
    replace (4 * (off / 4 mod 2 ^ 19) + off mod 4) with (off mod 2 ^ 21) by lia.
    change (off mod 2 ^ 21) with (uwrap 21 off). by rewrite swrap_uwrap, swrap_small by lia.
  - unfold adr_register. by rewrite Hlow5, HA5, Z.lor_comm.
Qed.

(** An [ADR] that stays within reach is written again with the right
    displacement, but the low two bits of the displacement are or-ed into the
    register field: the register is the original one only for targets aligned to
    4 bytes (or when its bits 3 and 4 are set anyway). *)
Theorem adr_register_clobbered :
  i .& 0x9f000000 = 0x10000000 ->
  is_in_fixing_range (ctx c) adr_target = false -> Z.abs (adr_target - outp c) < 0x000fffff ->
  exists c' w, fix_pcreladdr c = Ok (Some c') /\ inp c' = inp c + 4 /\ outp c' = outp c + 4 /\
    load32 (cmem c') (outp c) = Some w /\ outp c + adr_displacement w = adr_target /\
    adr_register w = adr_register i .| (8 * (adr_target mod 4)).
Proof.
  intros Hop Hrange Hnear.
  destruct (index_settled c _ eq_refl idle) as (c1 & Hidx & Hp & Hs1).
  unfold fix_pcreladdr. rewrite fetched. cbn [of_opt rbind]. cbv zeta. rewrite Hop.
  change (0x10000000 =? 0x10000000) with true. cbv iota. rewrite Hidx. cbn [rbind].
  assert (Hplace : inp c1 = inp c /\ outp c1 = outp c /\
    is_in_fixing_range (ctx c1) = is_in_fixing_range (ctx c)).
  { destruct Hp as (? & ? & ? & Hb & He). split_and!; try done. unfold is_in_fixing_range. by rewrite Hb, He. }
  destruct Hplace as (-> & -> & ->). fold adr_target. rewrite Hrange. cbn [negb andb].
  change (0x001fffff .>> 1) with 0xfffff. destruct (Z.leb_spec 0xfffff (Z.abs (adr_target - outp c))); [lia|].
  assert (Hlow : (adr_target - outp c) mod 4 = adr_target mod 4).
  { rewrite Zminus_mod, out_aligned, Z.sub_0_r. apply Z.mod_mod. lia. }
  destruct (adr_word (adr_target - outp c)) as (Hw & Hd & Hr); [by rewrite Hlow, adr_low|lia|].
  set (w := (u32 ((adr_target - outp c) .<< (5 - 2)) .& 0x00ffffff) .| (i .& 0xff00001f)) in *.
  cbn [rbind]. change (emit _ c1) with (emit w c1).
  destruct (emit_bytes_wrote (le_bytes 4 w) (get_ref_ins_index (ctx c) (inp c)) c1) as (c2 & He & Hw2 & Hs2);
    [|done|].
  { destruct Hp as (_ & -> & -> & _). apply room_for. by cbn. }
  unfold emit. rewrite He. cbn [rbind].
  destruct (process_settled _ c2 Hs2) as (c3 & -> & (Hi3 & Ho3 & Hm3 & _) & _). cbn [rbind].
  exists (advance c3), w. split; [done|]. apply (wrote_same _ c) in Hw2; [|done].
  destruct Hw2 as (Hst & Ho & Hi2). cbn [inp outp cmem advance]. rewrite Hi3, Ho3, Hm3, Hi2, Ho.
  split; [done|]. split; [done|]. split.
  - pose proof (store_load (cmem c) 4 (outp c) w (cmem c2) Hst) as Hl. by rewrite Z.mod_small in Hl.
  - rewrite Hd, Hr, Hlow. split; [lia|done].
Qed.

End Exact.

(** ** A hooked function *)

(** Instructions that are copied unchanged. *)
Definition plain (i : Z) : bool :=
  negb ((i .& 0xfc000000 =? 0x14000000) || (i .& 0xfc000000 =? 0x94000000)) &&
  bool_decide (cond_lmask i = None) && negb (i .& 0xff000000 =? 0xd8000000) &&
  bool_decide (loadlit_class i = None) &&
  negb (i .& 0x9f000000 =? 0x10000000) && negb (i .& 0x9f000000 =? 0x90000000).

Definition all_idle (c : cursor) : Prop :=
  length (dat (ctx c)) = 5%nat /\
  Forall (fun d => forall t m, process_fixes t (fmap_ d) m = Ok (fmap_ d, m)) (dat (ctx c)).

Lemma all_idle_insert c idx d p :
  all_idle c -> dat (ctx c) !! idx = Some d ->
  all_idle (set_dat (<[idx := {| ins := p; fmap_ := fmap_ d |}]> (dat (ctx c))) c).
Proof.
  intros [Hl Hf] Hd. split; cbn; [by rewrite length_insert|].
  apply Forall_insert; [done|]. exact (Forall_lookup_1 _ _ _ _ Hf Hd).
Qed.

Lemma fix_one_plain c i :
  load32 (cmem c) (inp c) = Some i -> plain i = true -> all_idle c ->
  0 <= get_ref_ins_index (ctx c) (inp c) < 5 ->
  mapped (cmem c) (outp c) 4 ->
  exists c', fix_one c = Ok c' /\ rewrote (le_bytes 4 i) c c' /\ all_idle c' /\
    basep (ctx c') = basep (ctx c) /\ endp (ctx c') = endp (ctx c).
Proof.
  intros Hi Hp Hidle Hidx Hm. unfold plain in Hp. breflect.
  repeat match goal with H : bool_decide _ = true |- _ => apply bool_decide_eq_true in H end.
  unfold fix_one, fix_branch_imm, fix_cond_comp_test_branch, fix_loadlit, fix_pcreladdr.
  rewrite Hi. cbn [of_opt rbind]. cbv zeta.
  repeat match goal with H : (_ =? _) = false |- _ => apply Z.eqb_neq in H end.
  destruct (Z.eqb_spec (i .& 0xfc000000) 0x14000000); [done|].
  destruct (Z.eqb_spec (i .& 0xfc000000) 0x94000000); [done|]. cbn [orb rbind].
  replace (cond_lmask i) with (@None Z) by done. cbn [rbind].
  destruct (Z.eqb_spec (i .& 0xff000000) 0xd8000000); [done|].
  replace (loadlit_class i) with (@None (Z * Z)) by done. cbn [rbind].
  destruct (Z.eqb_spec (i .& 0x9f000000) 0x10000000); [done|].
  destruct (Z.eqb_spec (i .& 0x9f000000) 0x90000000); [done|]. cbn [rbind].
  unfold get_and_set_current_index, reset_current_ins, process_fix_map. cbv zeta.
  set (idx := get_ref_ins_index (ctx c) (inp c)) in *.
  destruct (lookup_lt_is_Some_2 (dat (ctx c)) (Z.to_nat idx)) as [d Hd].
  { destruct Hidle as [-> _]. lia. }
  rewrite Hd. cbn [of_opt rbind]. cbn [dat ctx set_dat].
  rewrite list_lookup_insert_eq by (by eapply lookup_lt_Some). cbn [of_opt rbind fmap_ ins cmem].
  destruct Hidle as [Hlen Hall]. pose proof (Forall_lookup_1 _ _ _ _ Hall Hd) as Hf.
  rewrite Hf. cbn [rbind]. cbn [cmem inp set_out set_dat]. rewrite Hi. cbn [of_opt rbind].
  unfold emit, emit_bytes. cbn [cmem outp set_out set_dat].
  destruct (store_bytes_mapped (cmem c) (outp c) (le_bytes 4 i)) as [m Hs]; [done|].
  rewrite Hs. cbn [of_opt rbind]. eexists. split; [done|]. split; [done|]. split; [|done].
  split; cbn; [by rewrite !length_insert|].
  apply Forall_insert; [|exact Hf]. apply Forall_insert; [done|exact Hf].
Qed.

Lemma fix_loop_plain n c ws :
  length ws = n -> all_idle c -> 0 <= basep (ctx c) <= inp c -> basep (ctx c) + 20 < 2 ^ 64 ->
  inp c + 4 * Z.of_nat n <= basep (ctx c) + 20 ->
  (forall k w, ws !! k = Some w -> load32 (cmem c) (inp c + 4 * Z.of_nat k) = Some w /\ plain w = true) ->
  mapped (cmem c) (outp c) (4 * Z.of_nat n) ->
  inp c + 4 * Z.of_nat n <= outp c \/ outp c + 4 * Z.of_nat n <= inp c ->
  exists c', fix_loop n c = Ok c' /\ inp c' = inp c + 4 * Z.of_nat n /\
    outp c' = outp c + 4 * Z.of_nat n /\
    store_bytes (cmem c) (outp c) (words ws) = Some (cmem c').
Proof.
  revert c ws. induction n as [|n IH]; intros c ws Hlen Hidle Hb Hb64 Hend His Hm Hap.
  - destruct ws; [|done]. exists c. cbn. split_and!; try done; lia.
  - destruct ws as [|i ws]; [done|]. injection Hlen as Hlen.
    destruct (His 0%nat i eq_refl) as [Hi Hpl]. rewrite Z.mul_0_r, Z.add_0_r in Hi.
    destruct (fix_one_plain c i Hi Hpl Hidle) as (c1 & He & (Hi1 & Ho1 & Hs1) & Hid1 & Hb1 & _).
    { unfold get_ref_ins_index. rewrite uwrap_small by lia. Z.to_euclidean_division_equations; lia. }
    { intros j Hj. apply Hm. lia. }
    rewrite le_bytes_length in Ho1.
    destruct (IH c1 ws) as (c' & Hl & Hi' & Ho' & Hs'); [done|done|lia|lia|lia| | |lia|].
    + intros k w Hk. destruct (His (S k) w Hk) as [Hw Hpw]. split; [|done].
      rewrite <- Hw, Hi1. replace (inp c + 4 + 4 * Z.of_nat k) with (inp c + 4 * Z.of_nat (S k)) by lia.
      apply (store_load_ne (cmem c) 4 (outp c) i); [exact Hs1|]. apply lookup_lt_Some in Hk. lia.
    + intros j Hj. apply (store_bytes_dom _ _ _ _ _ Hs1). rewrite Ho1.
      replace (outp c + Z.of_nat 4 + j) with (outp c + (4 + j)) by lia. apply Hm. lia.
    + exists c'. cbn [fix_loop]. rewrite He. cbn [rbind]. split; [done|]. split; [lia|]. split; [lia|].
      change (words (i :: ws)) with (le_bytes 4 i ++ words ws).
      rewrite store_bytes_app, Hs1, le_bytes_length, <- Ho1. exact Hs'.
Qed.

(** The bytes of a jump from [o] to [t]. *)
Definition jump_bytes : Z -> Z -> list Z -> Prop := branch_bytes 0x14000000.

Lemma jump_bytes_length o t bs : jump_bytes o t bs -> (4 <= length bs <= 20)%nat.
Proof. intros [[[] ->]|[-> _]]; cbn; lia. Qed.

(** The final jump of a trampoline, and the patch of a function beyond 128 MB. *)
Lemma emit_jump_bytes t c :
  mapped (cmem c) (outp c) 20 ->
  exists c' bs, emit_jump t c = Ok c' /\ store_bytes (cmem c) (outp c) bs = Some (cmem c') /\
    outp c' = outp c + Z.of_nat (length bs) /\ (4 <= length bs <= 20)%nat /\ jump_bytes (outp c) t bs.
Proof.
  intros Hm. unfold emit_jump. cbv zeta. change (0x03ffffff .>> 1) with (2 ^ 25 - 1).
  destruct (Z.leb_spec (2 ^ 25 - 1) (Z.abs ((t - outp c) .>> 2))).
  - set (b := misaligned (outp c + 8) 7).
    destruct (store_bytes_mapped (cmem c) (outp c) (long_jump b t)) as [m Hs].
    { intros j Hj. apply Hm. destruct b; cbn in Hj; lia. }
    exists (set_out (outp c + Z.of_nat (length (long_jump b t))) m c), (long_jump b t).
    split; [|split; [done|split; [done|split; [by destruct b; cbn; lia|left; by exists b]]]].
    replace (let! c := if b then emit A64_NOP c else Ok c in
             let! c := emits [0x58000051; 0xd61f0220] c in emit64 t c)
      with (emit_bytes (long_jump b t) c).
    + unfold emit_bytes. by rewrite Hs.
    + unfold long_jump, nop_bytes. destruct b; cbn [rbind app].
      * rewrite <- emit_bytes_app. unfold emit. destruct (emit_bytes (le_bytes 4 A64_NOP) c); [|done..].
        cbn [rbind]. rewrite emits_bytes. symmetry. apply emit_bytes_app.
      * rewrite emits_bytes. symmetry. apply emit_bytes_app.
  - set (w := 0x14000000 .| _).
    destruct (store_bytes_mapped (cmem c) (outp c) (le_bytes 4 w)) as [m Hs].
    { intros j Hj. rewrite le_bytes_length in Hj. apply Hm. lia. }
    eexists _, (le_bytes 4 w). unfold emit, emit_bytes. rewrite Hs. split; [done|].
    split; [done|]. split; [done|]. split; [cbn; lia|]. by right.
Qed.

(** Code that holds such a jump leaves for [t]. *)
Lemma run_jump bs m o hi t tk :
  holds bs m o hi -> is_word 64 t -> ~ o <= t < hi -> 0 <= o -> o mod 4 = 0 -> t mod 4 = 0 ->
  jump_bytes o t bs -> leaves tk m o hi t 0.
Proof.
  intros Hh Ht Hout Ho Hao Hat [[b ->]|[-> Hnear]]; [cbn [Z.eqb Pos.eqb] in Hh; by eapply run_long_jump|].
  assert (Hhi : hi = o + 4) by by destruct Hh as [_ ->].
  eapply (run_direct tk 0x14000000); [by left|exact Hh|lia| |lia|lia].
  rewrite Z.shiftr_div_pow2 by lia. change (2 ^ 2) with 4. revert Hao Hat. clear. intros.
  Z.to_euclidean_division_equations. lia.
Qed.

(** The instructions a hook overwrites. *)
Definition hook_count (symbol replace : Z) : nat :=
  if 2 ^ 25 - 1 <=? Z.abs ((replace - symbol) .>> 2)
  then if misaligned (symbol + 8) 7 then 5 else 4 else 1.

Lemma hook_count_bound symbol replace : (1 <= hook_count symbol replace <= 5)%nat.
Proof. unfold hook_count. repeat case_match; lia. Qed.

(** A trampoline of plain instructions. *)
Lemma fix_instructions_plain base count lo m :
  (count <= 5)%nat -> 0 <= base -> base + 20 < 2 ^ 64 ->
  mapped m lo 200 -> base + 4 * Z.of_nat count <= lo \/ lo + 200 <= base ->
  (forall k, 0 <= k < Z.of_nat count -> exists w, load32 m (base + 4 * k) = Some w /\ plain w = true) ->
  exists c bs ws, fix_instructions base count lo m = Ok c /\ length ws = count /\
    (forall k w, ws !! k = Some w -> load32 m (base + 4 * Z.of_nat k) = Some w) /\
    store_bytes m lo (words ws ++ bs) = Some (cmem c) /\
    jump_bytes (lo + 4 * Z.of_nat count) (base + 4 * Z.of_nat count) bs.
Proof.
  intros Hc Hb Hb64 Hm Hap Hplain.
  assert (Hws : exists ws, length ws = count /\ forall k w, ws !! k = Some w ->
    load32 m (base + 4 * Z.of_nat k) = Some w /\ plain w = true).
  { clear - Hplain. revert Hplain. generalize base as b. induction count as [|n IH]; intros b Hp.
    - exists []. split; [done|]. intros k w Hk. by rewrite lookup_nil in Hk.
    - destruct (Hp 0 ltac:(lia)) as (w & Hw & Hpw). destruct (IH (b + 4)) as (ws & Hl & Hws).
      + intros k Hk. destruct (Hp (k + 1) ltac:(lia)) as (w' & Hw' & ?). exists w'. split; [|done].
        rewrite <- Hw'. f_equal. lia.
      + exists (w :: ws). split; [cbn; lia|]. intros [|k] w' Hk.
        * injection Hk as <-. rewrite Z.mul_0_r, Z.add_0_r in *. done.
        * destruct (Hws k w' Hk) as [<- ?]. split; [f_equal; lia|done]. }
  destruct Hws as (ws & Hlen & Hws).
  set (c0 := {| inp := base; outp := lo; cmem := m; ctx := new_context base (Z.of_nat count) |}).
  destruct (fix_loop_plain count c0 ws Hlen) as (c1 & Hl & Hi1 & Ho1 & Hs1); cbn; try lia.
  - split; [done|]. apply Forall_replicate. intros t m'. done.
  - done.
  - intros j Hj. apply Hm. lia.
  - cbn in *. assert (Hm1 : mapped (cmem c1) (outp c1) 20).
    { intros j Hj. apply (store_bytes_dom _ _ _ _ _ Hs1). rewrite Ho1.
      replace (lo + 4 * Z.of_nat count + j) with (lo + (4 * Z.of_nat count + j)) by lia. apply Hm. lia. }
    destruct (emit_jump_bytes (inp c1) c1 Hm1) as (c2 & bs & He & Hs2 & Ho2 & Hlb & Hbs).
    exists c2, bs, ws. unfold fix_instructions. fold c0. rewrite Hl. cbn [rbind].
    split; [done|]. split; [done|]. split; [intros k w Hk; by apply Hws|]. split.
    + rewrite store_bytes_app, Hs1. rewrite words_length, Hlen.
      replace (lo + Z.of_nat (4 * count)) with (outp c1) by lia. exact Hs2.
    + by rewrite <- Hi1, <- Ho1.
Qed.

Lemma patch_far (b : bool) m a t :
  (let! m := if b then of_opt (store32 m a A64_NOP) else Ok m in
   let! m := of_opt (store32 m (if b then a + 4 else a) 0x58000051) in
   let! m := of_opt (store32 m ((if b then a + 4 else a) + 4) 0xd61f0220) in
   of_opt (store64 m ((if b then a + 4 else a) + 8) t)) = of_opt (store_bytes m a (long_jump b t)).
Proof.
  assert (H : forall m a, (let! m := of_opt (store32 m a 0x58000051) in
    let! m := of_opt (store32 m (a + 4) 0xd61f0220) in of_opt (store64 m (a + 8) t)) =
    of_opt (store_bytes m a (words [0x58000051; 0xd61f0220] ++ le_bytes 8 t))).
  { intros m' a'. change (words [0x58000051; 0xd61f0220]) with (le_bytes 4 0x58000051 ++ le_bytes 4 0xd61f0220).
    rewrite <- app_assoc, store_bytes_app, le_bytes_length. unfold store.
    destruct (store_bytes m' a' _) as [m1|]; [|done]. cbn [of_opt rbind].
    rewrite store_bytes_app, le_bytes_length. change (Z.of_nat 4) with 4.
    destruct (store_bytes m1 (a' + 4) _) as [m2|]; [|done]. cbn [of_opt rbind].
    do 2 f_equal. lia. }
  unfold long_jump. destruct b; [|apply H]. unfold nop_bytes.
  rewrite store_bytes_app, le_bytes_length. unfold store at 1.
  destruct (store_bytes m a (le_bytes 4 A64_NOP)) as [m1|]; [|done]. cbn [of_opt rbind].
  change (Z.of_nat 4) with 4. rewrite <- (H m1 (a + 4)). done.
Qed.

(** Between [m0] and [m], [symbol] was hooked: the function holds a jump to
    [replace], the trampoline the function's old instructions and a jump behind them. *)
Definition hooked (m0 m : mem) (symbol replace rwx : Z) : Prop :=
  exists ps bs ws, length ps = (4 * hook_count symbol replace)%nat /\
    load_bytes m symbol (length ps) = Some ps /\ jump_bytes symbol replace ps /\
    length ws = hook_count symbol replace /\
    (forall k w, ws !! k = Some w -> load32 m0 (symbol + 4 * Z.of_nat k) = Some w) /\
    load_bytes m rwx (length (words ws ++ bs)) = Some (words ws ++ bs) /\
    jump_bytes (rwx + 4 * Z.of_nat (hook_count symbol replace)) (symbol + 4 * Z.of_nat (hook_count symbol replace)) bs.

(** It stays so as long as the two places are not written. *)
Lemma hooked_ext m0 m0' m m' symbol replace rwx :
  hooked m0 m symbol replace rwx ->
  (forall a, symbol <= a < symbol + 20 -> m' !! a = m !! a) -> (forall a, rwx <= a < rwx + 200 -> m' !! a = m !! a) ->
  (forall a, symbol <= a < symbol + 20 -> m0' !! a = m0 !! a) -> hooked m0' m' symbol replace rwx.
Proof.
  intros (ps & bs & ws & Hlen & Hps & Hpj & Hws & Hold & Hbs & Hbj) Hs Hr H0. pose proof (hook_count_bound symbol replace).
  pose proof (jump_bytes_length _ _ _ Hpj). pose proof (jump_bytes_length _ _ _ Hbj).
  exists ps, bs, ws. split_and!; try done.
  - rewrite <- Hps. apply load_bytes_ext. intros j Hj. apply Hs. lia.
  - intros k w Hk. rewrite <- (Hold k w Hk). unfold load. f_equal. apply load_bytes_ext. intros j Hj. apply H0.
    apply lookup_lt_Some in Hk. lia.
  - rewrite <- Hbs. apply load_bytes_ext. intros j Hj. apply Hr. revert Hj. rewrite length_app, words_length. lia.
Qed.

Lemma words_drop ws k w :
  ws !! k = Some w -> drop (4 * k) (words ws) = le_bytes 4 w ++ words (drop (S k) ws).
Proof.
  revert ws. induction k as [|k IH]; intros [|v ws] Hw; try done.
  - injection Hw as ->. by rewrite drop_0.
  - replace (4 * S k)%nat with (4 + 4 * k)%nat by lia. rewrite <- drop_drop.
    change (words (v :: ws)) with (le_bytes 4 v ++ words ws).
    rewrite (drop_app_length' (le_bytes 4 v)) by by rewrite le_bytes_length. by apply IH.
Qed.

(** What the processor does there. *)
Lemma hooked_runs m0 m symbol replace rwx tk :
  let count := Z.of_nat (hook_count symbol replace) in
  symbol mod 4 = 0 -> replace mod 4 = 0 -> rwx mod 4 = 0 -> 0 <= symbol /\ symbol + 20 < 2 ^ 64 -> is_word 64 replace ->
  0 < rwx -> symbol + 20 <= rwx \/ rwx + 200 <= symbol -> ~ symbol <= replace < symbol + 20 -> mem_ok m0 ->
  hooked m0 m symbol replace rwx ->
  leaves tk m symbol (symbol + 4 * count) replace 0 /\
  exists hi,
    (forall k, 0 <= k < count -> load32 m (rwx + 4 * k) = load32 m0 (symbol + 4 * k)) /\
    hi <= rwx + 200 /\ leaves tk m (rwx + 4 * count) hi (symbol + 4 * count) 0.
Proof.
  intros count Hs4 Hr4 Hw4 Hsu Hru Hwu Hap Hel Hbytes (ps & bs & ws & Hlen & Hps & Hpj & Hws & Hold & Hbs & Hbj).
  pose proof (hook_count_bound symbol replace). pose proof (jump_bytes_length _ _ _ Hpj).
  pose proof (jump_bytes_length _ _ _ Hbj). unfold count in *. clear count.
  assert (Hlw : length (words ws) = (4 * hook_count symbol replace)%nat) by (by rewrite words_length, Hws).
  split; [eapply (run_jump ps); [split; [exact Hps|lia]|done|lia|lia|done|done|exact Hpj]|].
  exists (rwx + 4 * Z.of_nat (hook_count symbol replace) + Z.of_nat (length bs)).
  split; [|split; [lia|]].
  - intros k Hk. destruct (lookup_lt_is_Some_2 ws (Z.to_nat k)) as [w Hw]; [lia|].
    pose proof (Hold _ _ Hw) as Hl. rewrite Z2Nat.id in Hl by lia. rewrite Hl.
    assert (Hat : drop (4 * Z.to_nat k) (words ws ++ bs) = le_bytes 4 w ++ words (drop (S (Z.to_nat k)) ws) ++ bs).
    { rewrite drop_app_le by lia. by rewrite (words_drop _ _ _ Hw), app_assoc. }
    replace (rwx + 4 * k) with (rwx + Z.of_nat (4 * Z.to_nat k)) by lia.
    rewrite (load_at _ _ _ 4 w _ _ Hbs Hat) by (rewrite length_app; lia).
    f_equal. apply Z.mod_small. by apply (load_range m0 4 (symbol + 4 * k)).
  - eapply (run_jump bs); [split; [|done]|unfold is_word; lia|lia|lia| | |exact Hbj].
    + rewrite length_app in Hbs. apply load_bytes_split in Hbs as [_ Hbs]. rewrite Hlw in Hbs.
      rewrite drop_app_length' in Hbs by done. rewrite <- Hbs. f_equal. lia.
    + rewrite Z.add_mod, Hw4, (Z.mul_comm 4), Z_mod_mult by lia. done.
    + rewrite Z.add_mod, Hs4, (Z.mul_comm 4), Z_mod_mult by lia. done.
Qed.

Section Hooked.
Context (make_rwx : Z -> Z -> bool) (symbol replace rwx size : Z) (m : mem).
Context (symbol_aligned : symbol mod 4 = 0) (replace_aligned : replace mod 4 = 0) (rwx_aligned : rwx mod 4 = 0).
Context (symbol_user : 0 <= symbol /\ symbol + 20 < 2 ^ 64) (replace_user : is_word 64 replace) (rwx_user : 0 < rwx).
Context (code : mapped m symbol 20) (trampoline : mapped m rwx 200).
Context (apart : symbol + 20 <= rwx \/ rwx + 200 <= symbol).
Context (elsewhere : ~ symbol <= replace < symbol + 20).

(** Both ways the function is patched. *)
Lemma hook_stores_patch m1 :
  mapped m1 symbol 20 -> make_rwx symbol (if (hook_count symbol replace =? 1)%nat then 4 else 20) = true ->
  truthy rwx && (size <? Z.of_nat (hook_count symbol replace) * 10) = false ->
  (if truthy rwx then let! c := fix_instructions symbol (hook_count symbol replace) rwx m in Ok (cmem c)
   else Ok m) = Ok m1 ->
  exists bs m2, A64HookFunctionV make_rwx symbol replace rwx size m = Ok (rwx, m2) /\
      store_bytes m1 symbol bs = Some m2 /\ jump_bytes symbol replace bs /\ length bs = (4 * hook_count symbol replace)%nat.
Proof.
  intros Hm Hrwx Hsz Htr. revert Hrwx Hsz Htr. unfold A64HookFunctionV, hook_count. cbv zeta.
  change (0x03ffffff .>> 1) with (2 ^ 25 - 1). change (5 * 4) with 20. change (1 * 4) with 4.
  destruct (Z.leb_spec (2 ^ 25 - 1) (Z.abs ((replace - symbol) .>> 2))).
  - intros Hrwx Hsz Htr. set (b := misaligned (symbol + 8) 7) in *.
    assert (Hcount : Z.of_nat (if b then 5 else 4) = if b then 5 else 4) by by destruct b.
    rewrite Hcount in Hsz. rewrite Hsz.
    replace (Z.to_nat (if b then 5 else 4)) with (if b then 5 else 4)%nat by by destruct b.
    rewrite Htr. cbn [rbind].
    replace ((if b then 5 else 4) =? 1)%nat with false in Hrwx by by destruct b.
    rewrite Hrwx. replace ((if b then 5 else 4) =? 5) with b by by destruct b.
    destruct (store_bytes_mapped m1 symbol (long_jump b replace)) as [m2 Hs].
    { intros j Hj. apply Hm. destruct b; cbn in Hj; lia. }
    exists (long_jump b replace), m2. split; [|split_and!; [done|left; by exists b|by destruct b]].
    pose proof (patch_far b m1 symbol replace) as Hp. rewrite Hs in Hp. cbn [of_opt] in Hp.
    apply rbind_Ok in Hp as (m3 & -> & Hp). cbn [rbind].
    apply rbind_Ok in Hp as (m4 & -> & Hp). cbn [rbind].
    apply rbind_Ok in Hp as (m5 & -> & Hp). cbn [rbind]. by rewrite Hp.
  - intros Hrwx Hsz Htr. change (Z.of_nat 1) with 1 in Hsz. rewrite Hsz, Htr. cbn [rbind].
    change (1 =? 1)%nat with true in Hrwx. rewrite Hrwx. set (w := 0x14000000 .| _).
    destruct (store_bytes_mapped m1 symbol (le_bytes 4 w)) as [m2 Hs].
    { intros j Hj. rewrite le_bytes_length in Hj. apply Hm. lia. }
    exists (le_bytes 4 w), m2. unfold store. rewrite Hs. split_and!; [done..|by right|done].
Qed.

Let count := Z.of_nat (hook_count symbol replace).

(** What the two stores of a hook leave: the jump in the function, and the trampoline. *)
Lemma hook_function_bytes :
  make_rwx symbol (if (hook_count symbol replace =? 1)%nat then 4 else 20) = true -> count * 10 <= size ->
  (forall k, 0 <= k < count -> exists w, load32 m (symbol + 4 * k) = Some w /\ plain w = true) ->
  exists m', A64HookFunctionV make_rwx symbol replace rwx size m = Ok (rwx, m') /\ hooked m m' symbol replace rwx /\
    (forall a, ~ symbol <= a < symbol + 4 * count -> ~ rwx <= a < rwx + 200 -> m' !! a = m !! a) /\
    forall a, is_Some (m' !! a) <-> is_Some (m !! a).
Proof.
  intros Hrwx Hsz Hplain. pose proof (hook_count_bound symbol replace) as Hcb.
  destruct (fix_instructions_plain symbol (hook_count symbol replace) rwx m)
    as (c & bs & ws & Hfix & Hws & Hload & Hst & Hjump); try (done || lia).
  assert (Hlw : length (words ws ++ bs) = (4 * hook_count symbol replace + length bs)%nat).
  { rewrite length_app. by rewrite words_length, Hws. }
  pose proof (jump_bytes_length _ _ _ Hjump) as Hlb.
  destruct (hook_stores_patch (cmem c)) as (ps & m2 & HV & Hps & Hpj & Hpl).
  - intros j Hj. apply (store_bytes_dom _ _ _ _ _ Hst). by apply code.
  - done.
  - rewrite andb_false_iff. right. apply Z.ltb_ge. done.
  - unfold truthy. destruct (Z.eqb_spec rwx 0); [lia|]. cbn [negb]. by rewrite Hfix.
  - pose proof (jump_bytes_length _ _ _ Hpj) as Hlp. exists m2. split; [done|].
    split; [exists ps, bs, ws; split_and!; try done; [by eapply store_bytes_load|]|split].
    + erewrite load_bytes_ext; [by eapply store_bytes_load|]. intros j Hj.
      rewrite (store_bytes_lookup _ _ _ _ Hps), decide_False by (unfold count in *; lia). done.
    + intros a Ha1 Ha2. rewrite (store_bytes_lookup _ _ _ _ Hps), decide_False by (unfold count in *; lia).
      rewrite (store_bytes_lookup _ _ _ _ Hst), decide_False by lia. done.
    + intros a. by rewrite (store_bytes_dom _ _ _ _ a Hps), (store_bytes_dom _ _ _ _ a Hst).
Qed.

(** C11: Hooking a function whose overwritten instructions have no PC-relative
    operand: every call of the function goes to the replacement, and a call of
    the trampoline executes the original instructions and goes on behind them;
    nothing else in memory changes. *)
Theorem hook_function_redirects tk :
  make_rwx symbol (if (hook_count symbol replace =? 1)%nat then 4 else 20) = true ->
  count * 10 <= size -> mem_ok m ->
  (forall k, 0 <= k < count -> exists w, load32 m (symbol + 4 * k) = Some w /\ plain w = true) ->
  exists m' hi, A64HookFunctionV make_rwx symbol replace rwx size m = Ok (rwx, m') /\
    leaves tk m' symbol (symbol + 4 * count) replace 0 /\
    (forall k, 0 <= k < count -> load32 m' (rwx + 4 * k) = load32 m (symbol + 4 * k)) /\
    hi <= rwx + 200 /\ leaves tk m' (rwx + 4 * count) hi (symbol + 4 * count) 0 /\
    forall a, ~ symbol <= a < symbol + 4 * count -> ~ rwx <= a < rwx + 200 -> m' !! a = m !! a.
Proof.
  intros Hrwx Hsz Hbytes Hplain. destruct (hook_function_bytes Hrwx Hsz Hplain) as (m' & HV & Hh & Hext & _).
  destruct (hooked_runs m m' symbol replace rwx tk) as (Hl & hi & Hw & Hhi & Hb); try done.
  by exists m', hi.
Qed.

End Hooked.

(** ** Witnesses *)

(** Code at 0x10000, room for a trampoline at 0x20000. *)
Definition demo_memory (ws : list Z) : mem :=
  mem_at 0x10000 (words ws ++ replicate 20 0) (mem_at 0x20000 (replicate 200 0) ∅).
(** [B #64; CBZ X0, #8; LDR X0, #8; ADR X1, #1; NOP]. *)
Definition demo_code : list Z := [0x14000010; 0xb4000040; 0x58000040; 0x30000001; 0xd503201f].
(** [STP X29, X30, \[SP, #-16\]!; MOV X29, SP; MOV X0, X1; MOV X1, X2; NOP]. *)
Definition demo_plain : list Z := [0xa9bf7bfd; 0x910003fd; 0xaa0103e0; 0xaa0203e1; 0xd503201f].

Lemma fix_instructions_room_witness :
  exists c, fix_instructions 0x10000 5 0x20000 (demo_memory demo_code) = Ok c /\
    inp c = 0x10000 + 4 * Z.of_nat 5 /\ 0x20000 <= outp c <= 0x20000 + 200 /\
    forall a, ~ 0x20000 <= a < 0x20000 + 200 -> cmem c !! a = demo_memory demo_code !! a.
Proof.
  apply fix_instructions_room.
  - unfold A64_MAX_INSTRUCTIONS. lia.
  - lia.
  - reflexivity.
  - reflexivity.
  - apply mapped_check. vm_compute. reflexivity.
  - apply mapped_check. vm_compute. reflexivity.
  - left. lia.
  - intros k i mask f Hk Hl. assert (Hcases : k = 0 \/ k = 1 \/ k = 2 \/ k = 3 \/ k = 4) by lia.
    destruct Hcases as [-> | [-> | [-> | [-> | ->]]]]; vm_compute in Hl; apply (inj Some) in Hl as <-;
      intros Hc; vm_compute in Hc; try discriminate Hc.
    apply (inj Some), pair_equal_spec in Hc as [_ <-]. apply mapped_check. vm_compute. reflexivity.
Defined.

(** [LDR X0, #-8] with its literal in place: the code copies it from 2^32 bytes further on. *)
Lemma backward_literal_faults :
  let m := mem_at 0xfff8 (le_bytes 8 42) (demo_memory [0x58ffffc0]) in
  load64 m (0x10000 - 8) = Some 42 /\ fix_instructions 0x10000 1 0x20000 m = Fault.
Proof. split; vm_compute; reflexivity. Qed.

Definition demo_cursor (ws : list Z) : cursor :=
  {| inp := 0x10000; outp := 0x20000; cmem := demo_memory ws; ctx := new_context 0x10000 5 |}.

Lemma demo_idle ws : settled (get_ref_ins_index (ctx (demo_cursor ws)) (inp (demo_cursor ws))) (demo_cursor ws).
Proof. eexists. split; [reflexivity|]. intros t m. reflexivity. Qed.

(** [BL] to 0x10010 + 0x4000000. *)
Lemma branch_imm_exact_witness :
  exists c', fix_branch_imm (demo_cursor [0x95000000]) = Ok (Some c') /\
    inp c' = 0x10000 + 4 /\ 0x20000 < outp c' <= 0x20000 + 24 /\
    leaves true (cmem c') 0x20000 (outp c') (branch_target (demo_cursor [0x95000000]) 0x95000000)
      (if 0x94000000 =? 0x94000000 then outp c' else 0).
Proof.
  apply (branch_imm_exact (demo_cursor [0x95000000]) true 0x95000000).
  - vm_compute. reflexivity.
  - reflexivity.
  - reflexivity.
  - apply mapped_check. vm_compute. reflexivity.
  - apply demo_idle.
  - reflexivity.
  - by right.
  - vm_compute. reflexivity.
  - by vm_compute.
  - intros [_ H]. vm_compute in H. discriminate H.
  - by vm_compute.
Defined.

(** [B.NE #-8]. *)
Lemma cond_branch_unsigned_witness :
  exists c' off, fix_cond_comp_test_branch (demo_cursor [0x54ffffc1]) = Ok (Some c') /\
    inp c' = 0x10000 + 4 /\ 0x20000 < outp c' <= 0x20000 + 28 /\ cond_offset 0x54ffffc1 = Some off /\
    leaves true (cmem c') 0x20000 (outp c')
      (0x10000 + off + (if off <? 0 then 2 ^ (cond_bits 0xff00001f + 2) else 0)) 0.
Proof.
  apply (cond_branch_unsigned (demo_cursor [0x54ffffc1]) true 0x54ffffc1).
  - vm_compute. reflexivity.
  - by vm_compute.
  - reflexivity.
  - reflexivity.
  - apply mapped_check. vm_compute. reflexivity.
  - apply demo_idle.
  - reflexivity.
  - vm_compute. reflexivity.
  - by vm_compute.
  - intros [_ H]. vm_compute in H. discriminate H.
  - by vm_compute.
Defined.

(** [ADR X1, #0x101], written again as [ADR X9, ..]. *)
Lemma adr_register_clobbered_witness :
  exists c' w, fix_pcreladdr (demo_cursor [0x30000801]) = Ok (Some c') /\
    inp c' = 0x10000 + 4 /\ outp c' = 0x20000 + 4 /\ load32 (cmem c') 0x20000 = Some w /\
    0x20000 + adr_displacement w = adr_target (demo_cursor [0x30000801]) 0x30000801 /\
    adr_register w = adr_register 0x30000801 .|
      (8 * (adr_target (demo_cursor [0x30000801]) 0x30000801 mod 4)).
Proof.
  apply (adr_register_clobbered (demo_cursor [0x30000801]) 0x30000801).
  - vm_compute. reflexivity.
  - by vm_compute.
  - reflexivity.
  - reflexivity.
  - apply mapped_check. vm_compute. reflexivity.
  - apply demo_idle.
  - reflexivity.
  - vm_compute. reflexivity.
  - by vm_compute.
Defined.

Lemma hook_function_redirects_witness :
  exists m' hi, A64HookFunctionV (fun _ _ => true) 0x10000 0x7f12345678 0x20000 50 (demo_memory demo_plain)
      = Ok (0x20000, m') /\
    leaves true m' 0x10000 (0x10000 + 4 * 4) 0x7f12345678 0 /\
    (forall k, 0 <= k < 4 -> load32 m' (0x20000 + 4 * k) = load32 (demo_memory demo_plain) (0x10000 + 4 * k)) /\
    hi <= 0x20000 + 200 /\ leaves true m' (0x20000 + 4 * 4) hi (0x10000 + 4 * 4) 0 /\
    forall a, ~ 0x10000 <= a < 0x10000 + 4 * 4 -> ~ 0x20000 <= a < 0x20000 + 200 ->
      m' !! a = demo_memory demo_plain !! a.
Proof.
  apply (hook_function_redirects (fun _ _ => true) 0x10000 0x7f12345678 0x20000 50 (demo_memory demo_plain)).
  - reflexivity.
  - reflexivity.
  - reflexivity.
  - lia.
  - by vm_compute.
  - lia.
  - apply mapped_check. vm_compute. reflexivity.
  - apply mapped_check. vm_compute. reflexivity.
  - left. lia.
  - lia.
  - reflexivity.
  - by vm_compute.
  - apply mem_ok_check. vm_compute. reflexivity.
  - intros k Hk. change (Z.of_nat (hook_count 0x10000 0x7f12345678)) with 4 in Hk.
    assert (Hcases : k = 0 \/ k = 1 \/ k = 2 \/ k = 3) by lia.
    destruct Hcases as [-> | [-> | [-> | ->]]]; (eexists; split; [vm_compute; reflexivity|reflexivity]).
Defined.
