(* ===== verification/A64Rehook.v ===== *)
(** Hooking, with And64InlineHook.cpp, a function that is already hooked: the
    instructions moved to the new trampoline are the jump to the replacement. *)
From S2P Require Import Prelude Memory A64Hook.

#[local] Arguments rbind {_ _} !_ _ /.

Lemma reset_idle idx p c :
  all_idle c -> (Z.to_nat idx < 5)%nat -> exists c', reset_current_ins idx p c = Ok c' /\ same_place c c' /\ all_idle c'.
Proof.
  intros Hidle Hi. destruct (lookup_lt_is_Some_2 (dat (ctx c)) (Z.to_nat idx)) as [d Hd]; [by destruct Hidle as [-> _]|].
  unfold reset_current_ins. rewrite Hd. cbn [of_opt rbind]. eexists. split; [done|]. split; [done|]. by apply all_idle_insert.
Qed.

Lemma process_idle idx c :
  all_idle c -> (Z.to_nat idx < 5)%nat -> exists c', process_fix_map idx c = Ok c' /\ same_place c c' /\ all_idle c'.
Proof.
  intros Hidle Hi. destruct (lookup_lt_is_Some_2 (dat (ctx c)) (Z.to_nat idx)) as [d Hd]; [by destruct Hidle as [-> _]|].
  pose proof (Forall_lookup_1 _ _ _ _ (proj2 Hidle) Hd) as Hf. unfold process_fix_map. rewrite Hd. cbn [of_opt rbind].
  rewrite Hf. cbn [rbind]. eexists. split; [done|]. split; [done|]. destruct Hidle as [Hl Hall].
  split; cbn; [by rewrite length_insert|]. by apply Forall_insert.
Qed.

Lemma emit_idle bs c :
  all_idle c -> mapped (cmem c) (outp c) (Z.of_nat (length bs)) ->
  exists c', emit_bytes bs c = Ok c' /\ wrote bs c c' /\ ctx c' = ctx c.
Proof.
  intros Hidle [m Hm]%store_bytes_mapped. unfold emit_bytes. rewrite Hm. cbn [of_opt rbind]. eexists. split; [done|]. by split.
Qed.

(** [LDR X17, #8; B #12] and the literal. *)
Definition literal_load (b : bool) (v : Z) : list Z := nop_bytes b ++ words [0x58000051; 0x14000003] ++ le_bytes 8 v.

Lemma nop_while_aligned c :
  all_idle c -> outp c mod 4 = 0 -> mapped (cmem c) (outp c) 4 ->
  exists c' b, nop_while 4 (fun o => misaligned (o + 8) 7) c = Ok c' /\ wrote (nop_bytes b) c c' /\ ctx c' = ctx c.
Proof.
  intros Hidle Ha Hm. cbn [nop_while]. rewrite !(misaligned_mod _ 3) by done. change (2 ^ 3) with 8.
  destruct (Z.eqb_spec ((outp c + 8) mod 8) 0) as [He|He]; cbn [negb].
  - exists c, false. split; [done|]. split; [|done]. unfold wrote. cbn. split; [done|]. split; [lia|done].
  - destruct (emit_idle (le_bytes 4 A64_NOP) c Hidle Hm) as (c' & Hc' & Hw & Hx). unfold emit. rewrite Hc'. cbn [rbind].
    rewrite (misaligned_mod _ 3) by done. change (2 ^ 3) with 8. exists c', true. split; [|done].
    replace ((outp c' + 8) mod 8) with 0; [done|]. destruct Hw as (_ & -> & _). rewrite le_bytes_length.
    Z.to_euclidean_division_equations. lia.
Qed.

Lemma wrote_ext bs c c' a n :
  wrote bs c c' -> a + Z.of_nat n <= outp c \/ outp c + Z.of_nat (length bs) <= a ->
  load_bytes (cmem c') a n = load_bytes (cmem c) a n.
Proof.
  intros (Hs & _) Ha. apply load_bytes_ext. intros j Hj. rewrite (store_bytes_lookup _ _ _ _ Hs), decide_False by lia. done.
Qed.

Lemma literal_loaded c v :
  load32 (cmem c) (inp c) = Some 0x58000051 -> load_bytes (cmem c) (inp c + 8) 8 = Some (le_bytes 8 v) ->
  is_in_fixing_range (ctx c) (inp c + 8) = true -> all_idle c -> 0 <= get_ref_ins_index (ctx c) (inp c) < 5 ->
  outp c mod 4 = 0 -> mapped (cmem c) (outp c) 20 -> inp c + 16 <= outp c \/ outp c + 20 <= inp c ->
  exists c' b, fix_loadlit c = Ok (Some c') /\ rewrote (literal_load b v) c c' /\ all_idle c' /\
    basep (ctx c') = basep (ctx c) /\ endp (ctx c') = endp (ctx c).
Proof.
  intros Hi Hlit Hrange Hidle Hidx Ha Hm Hap. unfold fix_loadlit. rewrite Hi. cbn [of_opt rbind].
  change (0x58000051 .& 0xff000000 =? 0xd8000000) with false. change (loadlit_class 0x58000051) with (Some (0xbf000000, 7)).
  cbv iota zeta. unfold get_and_set_current_index. cbv zeta. set (idx := get_ref_ins_index (ctx c) (inp c)) in *.
  destruct (reset_idle idx (outp c) c Hidle ltac:(lia)) as (c1 & -> & (Hi1 & Ho1 & Hm1 & Hb1 & He1) & Hid1). cbn [rbind].
  change (imm19_offset 0x58000051) with 8.
  replace (is_in_fixing_range (ctx c1) (inp c1 + 8)) with true by (unfold is_in_fixing_range in *; by rewrite Hb1, He1, Hi1).
  cbn [orb]. destruct (nop_while_aligned c1 Hid1) as (c2 & b & -> & Hw2 & Hx2).
  { by rewrite Ho1. }
  { rewrite Hm1, Ho1. intros j Hj. apply Hm. lia. }
  cbn [rbind]. assert (Hid2 : all_idle c2) by (unfold all_idle; by rewrite Hx2).
  destruct (reset_idle idx (outp c2) c2 Hid2 ltac:(lia)) as (c3 & -> & (Hi3 & Ho3 & Hm3 & Hb3 & He3) & Hid3). cbn [rbind].
  assert (Hlb : Z.of_nat (length (nop_bytes b)) <= 4) by by destruct b; cbn.
  assert (Hroom : forall k, 0 <= k <= 16 -> mapped (cmem c3) (outp c3) k).
  { intros k Hk j Hj. rewrite Hm3, Ho3. apply (wrote_mapped _ _ _ _ Hw2). destruct Hw2 as (_ & -> & _). rewrite Hm1, Ho1.
    rewrite <- Z.add_assoc. apply Hm. lia. }
  change (_ :: _) with [0x58000051; 0x14000003]. rewrite emits_bytes.
  destruct (emit_idle (words [0x58000051; 0x14000003]) c3 Hid3) as (c4 & -> & Hw4 & Hx4); [by apply Hroom|]. cbn [rbind].
  assert (Hid4 : all_idle c4) by (unfold all_idle; by rewrite Hx4).
  assert (Hl4 : load_bytes (cmem c4) (inp c1 + 8) 8 = Some (le_bytes 8 v)).
  { pose proof Hw2 as (_ & Ho2 & _). rewrite (wrote_ext _ _ _ _ _ Hw4) by (change (length (words _)) with 8%nat; lia).
    rewrite Hm3, (wrote_ext _ _ _ _ _ Hw2), Hm1, Hi1 by lia. done. }
  change (Z.to_nat (7 + 1)) with 8%nat. rewrite Hl4. cbn [of_opt rbind].
  destruct (emit_idle (le_bytes 8 v) c4 Hid4) as (c5 & -> & Hw5 & Hx5).
  { intros j Hj. apply (wrote_mapped _ _ _ _ Hw4). destruct Hw4 as (_ & -> & _). rewrite le_bytes_length in Hj.
    rewrite <- Z.add_assoc. apply (Hroom 16); [lia|]. change (length (words _)) with 8%nat. lia. }
  cbn [rbind]. assert (Hid5 : all_idle (advance c5)) by (unfold all_idle; cbn; by rewrite Hx5).
  destruct (process_idle idx (advance c5) Hid5 ltac:(lia)) as (c6 & -> & (Hi6 & Ho6 & Hm6 & Hb6 & He6) & Hid6). cbn [rbind].
  assert (Hw : wrote (literal_load b v) c c5).
  { eapply wrote_same; [by split_and!|]. eapply wrote_app; [exact Hw2|]. eapply wrote_app; [|exact Hw5].
    eapply wrote_same; [by split_and!|exact Hw4]. }
  destruct Hw as (Hs & Ho & Hin). exists c6, b. split; [done|]. split; [|split; [done|split]].
  - split; [rewrite Hi6; cbn; lia|]. split; [rewrite Ho6; cbn; lia|]. by rewrite Hm6.
  - rewrite Hb6. cbn [ctx advance]. by rewrite Hx5, Hx4, Hb3, Hx2, Hb1.
  - rewrite He6. cbn [ctx advance]. by rewrite Hx5, Hx4, He3, Hx2, He1.
Qed.

(** The jump to [v] as the trampoline has it: alignment, the literal load, [BR X17]. *)
Definition reload (b1 b2 : bool) (v : Z) : list Z := nop_bytes b1 ++ literal_load b2 v ++ le_bytes 4 0xd61f0220.

Lemma run_reload b1 b2 v m o hi tk :
  holds (reload b1 b2 v) m o hi -> is_word 64 v -> ~ o <= v < hi -> leaves tk m o hi v 0.
Proof.
  intros Hr Hv Hout x17 x30. cbn [Z.eqb]. set (k := ((if b1 then 4 else 0) + if b2 then 4 else 0)%nat).
  assert (Ho : hi = o + Z.of_nat k + 20) by (destruct Hr as (_ & ->); by destruct b1, b2; cbn; lia).
  assert (Hdrop : forall j w n post, drop (k + j) (reload b1 b2 v) = le_bytes n w ++ post -> (j <= 20)%nat ->
    0 <= w < 2 ^ (8 * Z.of_nat n) -> load m n (o + Z.of_nat k + Z.of_nat j) = Some w).
  { intros j w n post Hd Hj Hw. rewrite <- Z.add_assoc, <- Nat2Z.inj_add.
    eapply bytes_at; [exact Hr|exact Hd|destruct b1, b2; cbn; lia|by apply Z.mod_small]. }
  assert (H1 : load32 m (o + Z.of_nat k) = Some 0x58000051).
  { pose proof (Hdrop 0%nat 0x58000051 4%nat) as H. rewrite Z.add_0_r in H. eapply H; [by destruct b1, b2|lia|by vm_compute]. }
  assert (H2 : load32 m (o + Z.of_nat k + 4) = Some 0x14000003)
    by (eapply (Hdrop 4%nat _ 4%nat); [by destruct b1, b2|lia|by vm_compute]).
  assert (H3 : load64 m (o + Z.of_nat k + 8) = Some v)
    by (eapply (Hdrop 8%nat _ 8%nat); [by destruct b1, b2|lia|done]).
  assert (H4 : load32 m (o + Z.of_nat k + 16) = Some 0xd61f0220)
    by (eapply (Hdrop 16%nat 0xd61f0220 4%nat []); [by destruct b1, b2|lia|by vm_compute]).
  assert (Hjump : forall f, a64_run (S (S (S f))) m tk o hi (o + Z.of_nat k) x17 x30 = Some (v, x30)).
  { intros f. exec H1. rewrite H3. exec H2. change (swrap 28 _) with 12.
    replace (o + Z.of_nat k + 4 + 12) with (o + Z.of_nat k + 16) by lia. exec H4. by apply run_outside. }
  assert (Hnop : forall j, (j < k)%nat -> (j = 0 \/ j = 4)%nat -> load32 m (o + Z.of_nat j) = Some A64_NOP).
  { clear -Hr. unfold k. clear k. intros j Hj Hc. destruct b1, b2, Hc as [-> | ->]; cbn in Hj; try lia;
      (eapply (bytes_at _ _ _ _ 4 A64_NOP); [exact Hr|reflexivity|cbn; lia|reflexivity]). }
  pose proof (Hnop 0%nat) as H5. pose proof (Hnop 4%nat) as H6. change (Z.of_nat 0) with 0 in H5. rewrite Z.add_0_r in H5.
  change (Z.of_nat 4) with 4 in H6. clear Hnop Hdrop H1 H2 H3 H4.
  destruct b1, b2; cbn [Nat.add] in k; unfold k in *; clear k; cbn in Ho; try specialize (H5 ltac:(lia) ltac:(lia)).
  - specialize (H6 ltac:(lia) ltac:(lia)). exec H5. exec H6. replace (o + 4 + 4) with (o + Z.of_nat 8) by lia. apply (Hjump 1%nat).
  - exec H5. apply (Hjump 2%nat).
  - exec H5. apply (Hjump 2%nat).
  - pose proof (Hjump 3%nat) as H. change (Z.of_nat 0) with 0 in H. by rewrite Z.add_0_r in H.
Qed.

Lemma direct_target base v w :
  base mod 4 = 0 -> v mod 4 = 0 -> w = 0x14000000 .| (((v - base) .>> 2) .& 0x03ffffff) -> Z.abs ((v - base) .>> 2) < 2 ^ 25 - 1 ->
  is_word 32 w /\ w .& 0xfc000000 = 0x14000000 /\ base + swrap 28 (4 * (w mod 2 ^ 26)) = v.
Proof.
  intros Hb Hv Hw Hnear. set (off := (v - base) .>> 2) in *.
  destruct (branch_word 0x14000000 off) as (Hw1 & Hop & Hmod); [by left|]. rewrite <- Hw in *. split; [done|]. split; [done|].
  rewrite Hmod. change 28 with (26 + 2). change 4 with (2 ^ 2) at 1. rewrite swrap_scale by lia.
  change (off mod 2 ^ 26) with (uwrap 26 off). rewrite swrap_uwrap, swrap_small by lia. unfold off.
  rewrite Z.shiftr_div_pow2 by lia. revert Hb Hv. clear. change (2 ^ 2) with 4. intros. Z.to_euclidean_division_equations. lia.
Qed.

Section Again.
Context (base v lo : Z) (m : mem).
Context (base_aligned : base mod 4 = 0) (v_aligned : v mod 4 = 0) (lo_aligned : lo mod 4 = 0).
Context (base_user : 0 <= base /\ base + 20 < 2 ^ 64) (v_user : is_word 64 v).
Context (room : mapped m lo 200) (apart : base + 20 <= lo \/ lo + 200 <= base) (elsewhere : ~ base <= v < base + 20).

(** The moved jump starts the trampoline. *)
Definition starts_with_jump (c : cursor) : Prop :=
  exists bs rest, store_bytes m lo (bs ++ rest) = Some (cmem c) /\ (length (bs ++ rest) <= 200)%nat /\
    (jump_bytes lo v bs \/ exists b1 b2, bs = reload b1 b2 v).

Lemma fix_hooked_near w :
  load32 m base = Some w -> w = 0x14000000 .| (((v - base) .>> 2) .& 0x03ffffff) -> Z.abs ((v - base) .>> 2) < 2 ^ 25 - 1 ->
  exists c, fix_instructions base 1 lo m = Ok c /\ starts_with_jump c.
Proof.
  intros Hl Hw Hnear. destruct (direct_target base v w base_aligned v_aligned Hw Hnear) as (Hword & Hop & Ht).
  set (c0 := {| inp := base; outp := lo; cmem := m; ctx := new_context base 1 |}).
  assert (Hbt : branch_target c0 w = v) by exact Ht.
  destruct (branch_imm_bytes c0 w) with (op := 0x14000000) as (c1 & bs & Hf & (Hi1 & Ho1 & Hs1) & Hbs); try done.
  - intros j Hj. apply room. lia.
  - unfold get_ref_ins_index. cbn [basep ctx c0 new_context inp]. rewrite Z.sub_diag. eexists. split; [reflexivity|]. done.
  - by left.
  - rewrite Hbt. unfold is_in_fixing_range. cbn. apply andb_false_iff. rewrite Z.leb_gt, Z.ltb_ge. lia.
  - rewrite Hbt in Hbs. cbn in Hi1, Ho1, Hs1, Hbs. pose proof (jump_bytes_length _ _ _ Hbs) as Hlb.
    destruct (emit_jump_bytes (inp c1) c1) as (c2 & js & He & Hs2 & _ & Hlj & _).
    { intros j Hj. apply (store_bytes_dom _ _ _ _ _ Hs1). rewrite Ho1, <- Z.add_assoc. apply room. lia. }
    exists c2. split.
    + unfold fix_instructions. change (Z.of_nat 1) with 1. fold c0. cbn [fix_loop]. unfold fix_one. rewrite Hf. exact He.
    + exists bs, js. rewrite store_bytes_app, Hs1, <- Ho1, length_app. split; [done|]. split; [lia|]. by left.
Qed.

(** After [k] of [count] instructions, which became [xs]. *)
Definition stage (count k : Z) (xs : list Z) (c : cursor) : Prop :=
  store_bytes m lo xs = Some (cmem c) /\ outp c = lo + Z.of_nat (length xs) /\ inp c = base + 4 * k /\ all_idle c /\
  basep (ctx c) = base /\ endp (ctx c) = base + 4 * count.

Lemma stage_load count k xs c i n :
  stage count k xs c -> (length xs <= 200)%nat -> 0 <= i -> i + Z.of_nat n <= 20 ->
  load_bytes (cmem c) (base + i) n = load_bytes m (base + i) n.
Proof.
  intros (Hs & _) Hl Hi Hn. apply load_bytes_ext. intros j Hj.
  rewrite (store_bytes_lookup _ _ _ _ Hs), decide_False by lia. done.
Qed.

Lemma stage_mapped count k xs c n : stage count k xs c -> Z.of_nat (length xs) + n <= 200 -> mapped (cmem c) (outp c) n.
Proof.
  intros (Hs & Ho & _) Hn j Hj. apply (store_bytes_dom _ _ _ _ _ Hs). rewrite Ho, <- Z.add_assoc. apply room. lia.
Qed.

Lemma stage_index count k xs c : stage count k xs c -> 0 <= k < 5 -> get_ref_ins_index (ctx c) (inp c) = k.
Proof.
  intros (_ & _ & Hi & _ & Hb & _) Hk. unfold get_ref_ins_index. rewrite Hi, Hb. replace (base + 4 * k - base) with (k * 4) by lia.
  rewrite uwrap_small by lia. by rewrite Z.div_mul.
Qed.

Lemma stage_next count k xs c bs c' :
  stage count k xs c -> rewrote bs c c' -> all_idle c' -> basep (ctx c') = basep (ctx c) -> endp (ctx c') = endp (ctx c) ->
  stage count (k + 1) (xs ++ bs) c'.
Proof.
  intros (Hs & Ho & Hi & _ & Hb & He) (Hi' & Ho' & Hs') Hid Hb' He'. unfold stage. rewrite length_app.
  split_and!; [by rewrite store_bytes_app, Hs, <- Ho|lia|lia|done|congruence|congruence].
Qed.

Lemma stage_nop count c :
  stage count 0 [] c -> load32 m base = Some A64_NOP -> exists c', fix_one c = Ok c' /\ stage count 1 (nop_bytes true) c'.
Proof.
  intros Hst Hl. pose proof Hst as (_ & _ & Hi & Hid & _).
  destruct (fix_one_plain c A64_NOP) as (c' & He & Hr & Hid' & Hb & Hen); [|done|done| | |].
  - rewrite Hi. rewrite <- Hl. unfold load. f_equal. rewrite Z.mul_0_r. rewrite (stage_load _ _ _ _ _ _ Hst) by (cbn; lia). by rewrite Z.add_0_r.
  - rewrite (stage_index _ _ _ _ Hst); lia.
  - apply (stage_mapped _ _ _ _ _ Hst). cbn. lia.
  - exists c'. split; [done|]. exact (stage_next _ _ _ _ _ _ Hst Hr Hid' Hb Hen).
Qed.

Lemma stage_literal count k xs c :
  stage count k xs c -> 0 <= k -> k + 4 <= count -> count <= 5 -> (length xs <= 100)%nat -> Z.of_nat (length xs) mod 4 = 0 ->
  load32 m (base + 4 * k) = Some 0x58000051 -> load_bytes m (base + (4 * k + 8)) 8 = Some (le_bytes 8 v) ->
  exists c' b, fix_one c = Ok c' /\ stage count (k + 1) (xs ++ literal_load b v) c'.
Proof.
  intros Hst Hk Hkc Hc Hxs Hx4 Hl Hlit. pose proof Hst as (_ & Ho & Hi & Hid & Hb & He).
  assert (Hf : load32 (cmem c) (inp c) = Some 0x58000051).
  { rewrite Hi, <- Hl. unfold load. f_equal. apply (stage_load _ _ _ _ _ _ Hst); lia. }
  destruct (literal_loaded c v) as (c' & b & Hll & Hr & Hid' & Hb' & He'); [done| | |done| | | | |].
  - rewrite Hi, <- Hlit, <- Z.add_assoc. apply (stage_load _ _ _ _ _ _ Hst); lia.
  - unfold is_in_fixing_range. rewrite Hb, He, Hi. apply andb_true_iff. rewrite Z.leb_le, Z.ltb_lt. lia.
  - rewrite (stage_index _ _ _ _ Hst); lia.
  - rewrite Ho, Z.add_mod, lo_aligned, Hx4 by lia. done.
  - apply (stage_mapped _ _ _ _ _ Hst). lia.
  - lia.
  - exists c', b. split; [|exact (stage_next _ _ _ _ _ _ Hst Hr Hid' Hb' He')].
    unfold fix_one, fix_branch_imm, fix_cond_comp_test_branch. rewrite Hf. cbn [of_opt rbind].
    change (cond_lmask 0x58000051) with (@None Z). by rewrite Hll.
Qed.

(** The four words of a jump through X17, the last two the address. *)
Definition jump_words : list Z := [0xd61f0220; v mod 2 ^ 32; v / 2 ^ 32].

Lemma jump_words_bytes : words jump_words = le_bytes 4 0xd61f0220 ++ le_bytes 8 v.
Proof.
  change (words jump_words) with (le_bytes 4 0xd61f0220 ++ le_bytes 4 (v mod 2 ^ 32) ++ le_bytes 4 (v / 2 ^ 32) ++ []).
  rewrite app_nil_r. f_equal. change (2 ^ 32) with 4294967296. cbn [le_bytes app]. rewrite !Z.div_div by lia.
  repeat apply (f_equal2 cons); try reflexivity; Z.to_euclidean_division_equations; lia.
Qed.

Lemma long_jump_words b : long_jump b v = nop_bytes b ++ words (0x58000051 :: jump_words).
Proof. change (words (_ :: jump_words)) with (le_bytes 4 0x58000051 ++ words jump_words). by rewrite jump_words_bytes. Qed.

Section Far.
Context (b : bool) (loaded : load_bytes m base (length (long_jump b v)) = Some (long_jump b v)).

Let count : Z := if b then 5 else 4.
Let k0 : Z := if b then 1 else 0.

Lemma far_word k w : (0x58000051 :: jump_words) !! k = Some w -> load32 m (base + 4 * (k0 + Z.of_nat k)) = Some w.
Proof.
  intros Hk. assert (Hr : is_word 32 w).
  { unfold is_word in *. destruct k as [|[|[|[|k]]]]; cbn in Hk; try done; injection Hk as <-; Z.to_euclidean_division_equations; lia. }
  pose proof loaded as Hl. rewrite long_jump_words in Hl.
  pose proof (load_at _ _ _ 4 w (length (nop_bytes b) + 4 * k) (words (drop (S k) (0x58000051 :: jump_words))) Hl) as H.
  rewrite drop_app_add', (words_drop _ _ _ Hk), length_app, words_length, (Z.mod_small w) in H by done.
  apply lookup_lt_Some in Hk. cbn [length jump_words] in *.
  rewrite <- H; [f_equal; unfold k0; destruct b; cbn; lia|done|destruct b; cbn; lia].
Qed.

Lemma far_literal : load_bytes m (base + (4 * k0 + 8)) 8 = Some (le_bytes 8 v).
Proof.
  pose proof loaded as Hl. assert (Hd : drop (length (nop_bytes b) + 8) (long_jump b v) = le_bytes 8 v) by by destruct b.
  replace (length (long_jump b v)) with (length (nop_bytes b) + 8 + 8)%nat in Hl by by destruct b.
  apply load_bytes_split in Hl as [_ Hl]. rewrite Hd in Hl. rewrite <- Hl. f_equal. unfold k0. destruct b; cbn; lia.
Qed.

(** The NOP, if any, and the literal load. *)
Lemma far_start :
  exists c b2, fix_loop (Z.to_nat count) {| inp := base; outp := lo; cmem := m; ctx := new_context base count |} = fix_loop 3 c /\
    stage count (k0 + 1) (nop_bytes b ++ literal_load b2 v) c.
Proof.
  set (c0 := {| inp := base |}). assert (H0 : stage count 0 [] c0).
  { split_and!; cbn; try done; try lia. split; [done|]. apply Forall_replicate. by intros t m'. }
  assert (H1 : exists c1, fix_loop (Z.to_nat count) c0 = fix_loop 4 c1 /\ stage count k0 (nop_bytes b) c1).
  { pose proof loaded as Hl. unfold count, k0 in *. destruct b; [|by exists c0]. destruct (stage_nop _ _ H0) as (c1 & Hc1 & Hst).
    - pose proof (load_at _ _ _ 4 A64_NOP 0 _ Hl eq_refl ltac:(cbn; lia)) as H. by rewrite Z.add_0_r in H.
    - exists c1. split; [|done]. change (Z.to_nat 5) with 5%nat. cbn [fix_loop]. by rewrite Hc1. }
  destruct H1 as (c1 & Hl1 & Hst1). unfold count, k0 in *.
  destruct (stage_literal _ _ _ _ Hst1) as (c2 & b2 & Hc2 & Hst2); try by (destruct b; cbn; lia).
  - by destruct b.
  - rewrite <- (far_word 0%nat _ eq_refl). unfold k0. f_equal. lia.
  - exact far_literal.
  - exists c2, b2. split; [|done]. rewrite Hl1. cbn [fix_loop]. by rewrite Hc2.
Qed.

Lemma fix_hooked_far :
  plain (v mod 2 ^ 32) = true -> plain (v / 2 ^ 32) = true ->
  exists c, fix_instructions base (Z.to_nat count) lo m = Ok c /\ starts_with_jump c.
Proof.
  intros Hp1 Hp2. destruct far_start as (c2 & b2 & Hl2 & Hst2).
  pose proof Hst2 as (Hs2 & Ho2 & Hi2 & Hid2 & Hb2 & _). set (xs := nop_bytes b ++ literal_load b2 v) in *.
  assert (Hlx : (length xs <= 24)%nat) by (unfold xs; destruct b, b2; cbn; lia). assert (Hk0 : 0 <= k0 <= 1) by (unfold k0; by destruct b).
  destruct (fix_loop_plain 3 c2 jump_words eq_refl Hid2) as (c3 & Hl3 & Hi3 & Ho3 & Hs3); [lia..| | |lia|].
  - intros k w Hk. split.
    + rewrite <- (far_word (S k) w Hk), Hi2. replace (base + 4 * (k0 + 1) + 4 * Z.of_nat k) with (base + 4 * (k0 + Z.of_nat (S k))) by lia.
      unfold load. f_equal. apply lookup_lt_Some in Hk. cbn in Hk. apply (stage_load _ _ _ _ _ _ Hst2); lia.
    + destruct k as [|[|[|k]]]; cbn in Hk; try done; by injection Hk as <-.
  - apply (stage_mapped _ _ _ _ _ Hst2). lia.
  - destruct (emit_jump_bytes (inp c3) c3) as (c4 & js & He & Hs4 & _ & Hlj & _).
    { intros j Hj. apply (store_bytes_dom _ _ _ _ _ Hs3). rewrite Ho3, <- Z.add_assoc.
      apply (stage_mapped _ _ _ _ 32 Hst2); lia. }
    exists c4. split.
    + unfold fix_instructions. rewrite Z2Nat.id by (unfold count; by destruct b). rewrite Hl2, Hl3. exact He.
    + exists (reload b b2 v), (le_bytes 8 v ++ js).
      assert (Hall : reload b b2 v ++ le_bytes 8 v ++ js = xs ++ words jump_words ++ js).
      { rewrite jump_words_bytes. unfold reload, xs. by rewrite <- !app_assoc. }
      rewrite Hall, store_bytes_app, Hs2, store_bytes_app. rewrite <- Ho2, Hs3.
      split; [|split; [|right; by exists b, b2]].
      * rewrite <- Hs4. f_equal. rewrite Ho3, words_length. cbn. lia.
      * rewrite !length_app, words_length. cbn [length jump_words]. lia.
Qed.
End Far.

End Again.

(** The trampoline at [rwx] starts with a jump to [replace]. *)
Definition bounces (m : mem) (replace rwx : Z) : Prop :=
  exists bs, load_bytes m rwx (length bs) = Some bs /\ (length bs <= 200)%nat /\
    (jump_bytes rwx replace bs \/ exists b1 b2, bs = reload b1 b2 replace).

Lemma bounces_runs m replace rwx tk :
  replace mod 4 = 0 -> rwx mod 4 = 0 -> is_word 64 replace -> 0 < rwx -> bounces m replace rwx -> ~ rwx <= replace < rwx + 200 -> exists hi, hi <= rwx + 200 /\ leaves tk m rwx hi replace 0.
Proof.
  intros Hr4 Hw4 Hru Hw (bs & Hl & Hlen & Hj) Hout. exists (rwx + Z.of_nat (length bs)). split; [lia|].
  assert (Hh : holds bs m rwx (rwx + Z.of_nat (length bs))) by done.
  destruct Hj as [Hj|(b1 & b2 & ->)]; [eapply (run_jump bs); try done; lia|eapply run_reload; [exact Hh|done|lia]].
Qed.

(** The function [symbol] is a jump to [replace]. *)
Definition jumps_to (m : mem) (symbol replace : Z) : Prop :=
  exists ps, length ps = (4 * hook_count symbol replace)%nat /\ load_bytes m symbol (length ps) = Some ps /\
    jump_bytes symbol replace ps.

Lemma hooked_jumps m0 m symbol replace rwx : hooked m0 m symbol replace rwx -> jumps_to m symbol replace.
Proof. intros (ps & _ & _ & Hlen & Hps & Hpj & _). by exists ps. Qed.

Lemma jumps_ext m m' symbol replace :
  jumps_to m symbol replace -> (forall a, symbol <= a < symbol + 20 -> m' !! a = m !! a) -> jumps_to m' symbol replace.
Proof.
  intros (ps & Hlen & Hps & Hpj) Hext. exists ps. split; [done|]. split; [|done]. rewrite <- Hps. apply load_bytes_ext.
  intros j Hj. apply Hext. pose proof (jump_bytes_length _ _ _ Hpj). lia.
Qed.

Section HookAgain.
Context (make_rwx : Z -> Z -> bool) (symbol replace rwx size : Z) (m : mem).
Context (symbol_aligned : symbol mod 4 = 0) (replace_aligned : replace mod 4 = 0) (rwx_aligned : rwx mod 4 = 0).
Context (symbol_user : 0 <= symbol /\ symbol + 20 < 2 ^ 64) (replace_user : is_word 64 replace) (rwx_user : 0 < rwx).
Context (code : mapped m symbol 20) (trampoline : mapped m rwx 200).
Context (apart : symbol + 20 <= rwx \/ rwx + 200 <= symbol).
Context (elsewhere : ~ symbol <= replace < symbol + 20).

(** Data words of the jump that are not decoded as a branch or a PC-relative load. *)
Definition address_plain : Prop :=
  (1 < hook_count symbol replace)%nat -> plain (replace mod 2 ^ 32) = true /\ plain (replace / 2 ^ 32) = true.

Lemma fix_hooked :
  jumps_to m symbol replace -> address_plain ->
  exists c, fix_instructions symbol (hook_count symbol replace) rwx m = Ok c /\ starts_with_jump replace rwx m c.
Proof.
  intros (ps & Hlen & Hps & Hpj) Hplain. revert Hplain Hlen. unfold address_plain, hook_count.
  destruct (Z.leb_spec (2 ^ 25 - 1) (Z.abs ((replace - symbol) .>> 2))); intros Hplain Hlen.
  - destruct Hpj as [[b ->]|[_ Hnear]]; [|lia]. cbn [Z.eqb Pos.eqb] in *.
    assert (Hb : misaligned (symbol + 8) 7 = b) by (destruct b, (misaligned _ _); cbn in Hlen; (done || lia)). rewrite Hb in *.
    destruct Hplain as [Hp1 Hp2]; [by destruct b; lia|].
    destruct (fix_hooked_far symbol replace rwx m) with (b := b) as (c & Hc & Hs); try done.
    exists c. split; [|done]. by destruct b.
  - destruct Hpj as [[b ->]|[-> Hnear]]; [by destruct b|]. set (w := 0x14000000 .| _) in *.
    destruct (direct_target symbol replace w) as (Hw & _); [done..|].
    apply (fix_hooked_near symbol replace rwx m) with (w := w); try done.
    unfold load. rewrite le_bytes_length in Hps. rewrite Hps. cbn [fmap option_fmap option_map]. rewrite le_val_bytes.
    f_equal. by apply Z.mod_small.
Qed.

Lemma hook_again_bytes :
  jumps_to m symbol replace -> address_plain ->
  make_rwx symbol (if (hook_count symbol replace =? 1)%nat then 4 else 20) = true ->
  Z.of_nat (hook_count symbol replace) * 10 <= size ->
  exists m', A64HookFunctionV make_rwx symbol replace rwx size m = Ok (rwx, m') /\ bounces m' replace rwx /\
    (forall a, ~ symbol <= a < symbol + 20 -> ~ rwx <= a < rwx + 200 -> m' !! a = m !! a) /\
    forall a, is_Some (m' !! a) <-> is_Some (m !! a).
Proof.
  intros Hh Hplain Hrwx Hsz. pose proof (hook_count_bound symbol replace) as Hcb.
  destruct (fix_hooked Hh Hplain) as (c & Hfix & bs & rest & Hst & Hlen & Hj).
  destruct (hook_stores_patch make_rwx symbol replace rwx size m (cmem c)) as (ps & m2 & HV & Hps & Hpj & Hpl).
  - intros j Hj'. apply (store_bytes_dom _ _ _ _ _ Hst). by apply code.
  - done.
  - rewrite andb_false_iff. right. by apply Z.ltb_ge.
  - unfold truthy. destruct (Z.eqb_spec rwx 0); [lia|]. cbn [negb]. by rewrite Hfix.
  - rewrite length_app in Hlen. exists m2. split; [done|]. split; [|split].
    + exists bs. split; [|split; [lia|done]]. erewrite load_bytes_ext.
      * apply store_bytes_load in Hst. rewrite length_app in Hst. apply load_bytes_split in Hst as [Hst _].
        by rewrite take_app_length in Hst.
      * intros j Hj'. rewrite (store_bytes_lookup _ _ _ _ Hps), decide_False by lia. done.
    + intros a Ha1 Ha2. rewrite (store_bytes_lookup _ _ _ _ Hps), decide_False by lia.
      rewrite (store_bytes_lookup _ _ _ _ Hst), decide_False by (rewrite length_app; lia). done.
    + intros a. by rewrite (store_bytes_dom _ _ _ _ a Hps), (store_bytes_dom _ _ _ _ a Hst).
Qed.

End HookAgain.
