(* ===== verification/XhReloc.v ===== *)
(** xHook/xh_elf.c, lines 72-249: the iterators over the relocations of a shared
    library, plain ([.rel(a).plt], [.rel(a).dyn]) and packed in SLEB128
    ([.rel(a).android]).  Addresses are integers of the pointer size. *)
From S2P Require Import Prelude Memory.

Definition XH_ERRNO_FORMAT : Z := 1007.

Section Reloc.
Context `{Arch}.

(** [size_t], [ElfW(Addr)] and [ssize_t] arithmetic. *)
Definition up (x : Z) : Z := uwrap ptr_bits x.

(** [sizeof(ElfW(Rela))] and [sizeof(ElfW(Rel))] *)
Definition rela_size : Z := if lp64 then 24 else 12.
Definition rel_size : Z := if lp64 then 16 else 8.

(** ** Plain relocations *)

Record xh_elf_plain_reloc_iterator_t := { p_cur : Z; p_end : Z; p_is_use_rela : Z }.

Definition xh_elf_plain_reloc_iterator_init (rel rel_sz is_use_rela : Z) : xh_elf_plain_reloc_iterator_t :=
  {| p_cur := rel; p_end := rel + rel_sz; p_is_use_rela := is_use_rela |}.

Definition entry_size (is_use_rela : Z) : Z := if truthy is_use_rela then rela_size else rel_size.

(** [None]: NULL. *)
Definition xh_elf_plain_reloc_iterator_next (self : xh_elf_plain_reloc_iterator_t)
    : option Z * xh_elf_plain_reloc_iterator_t :=
  if p_end self <=? p_cur self then (None, self)
  else let cur := p_cur self + entry_size (p_is_use_rela self) in
       (Some cur, {| p_cur := cur; p_end := p_end self; p_is_use_rela := p_is_use_rela self |}).

(** ** SLEB128 *)

Record xh_elf_sleb128_decoder_t := { s_cur : Z; s_end : Z }.

Definition xh_elf_sleb128_decoder_init (rel rel_sz : Z) : xh_elf_sleb128_decoder_t :=
  {| s_cur := rel; s_end := rel + rel_sz |}.

(** The [do .. while] loop; a shift by the width of [size_t] or more is undefined. *)
Fixpoint sleb_loop (fuel : nat) (m : mem) (cur end_ value shift : Z) : res (option (Z * Z) * Z) :=
  match fuel with
  | O => NoFuel
  | S fuel' =>
      if end_ <=? cur then Ok (None, cur)
      else
        let! byte := of_opt (load8 m cur) in
        if ptr_bits <=? shift then Fault
        else
          let value := value .| up ((byte .& 127) .<< shift) in
          let shift := shift + 7 in
          if truthy (byte .& 128) then sleb_loop fuel' m (cur + 1) end_ value shift
          else Ok (Some (if (shift <? ptr_bits) && truthy (byte .& 64)
                         then value .| up (- (1 .<< shift)) else value, shift), cur + 1)
  end.

(** [inl]: an error code; the cursor has moved in both cases. *)
Definition xh_elf_sleb128_decoder_next (m : mem) (self : xh_elf_sleb128_decoder_t)
    : res (option Z * xh_elf_sleb128_decoder_t) :=
  let! (r, cur) := sleb_loop (S (Z.to_nat (s_end self - s_cur self))) m (s_cur self) (s_end self) 0 0 in
  Ok (fst <$> r, {| s_cur := cur; s_end := s_end self |}).

(** ** Packed relocations *)

Definition RELOCATION_GROUPED_BY_INFO_FLAG : Z := 1.
Definition RELOCATION_GROUPED_BY_OFFSET_DELTA_FLAG : Z := 2.
Definition RELOCATION_GROUPED_BY_ADDEND_FLAG : Z := 4.
Definition RELOCATION_GROUP_HAS_ADDEND_FLAG : Z := 8.

(** A group's fields, and the relocation being built. *)
Record group := { group_size : Z; group_flags : Z; group_r_offset_delta : Z }.
Record reloc := { r_offset : Z; r_info : Z; r_addend : Z }.

Record xh_elf_packed_reloc_iterator_t := {
  decoder : xh_elf_sleb128_decoder_t;
  relocation_count : Z;
  grp : group;
  relocation_index : Z;
  relocation_group_index : Z;
  cur_reloc : reloc;
  is_use_rela : Z
}.

Definition with_decoder (d : xh_elf_sleb128_decoder_t) (g : group) (r : reloc)
    (self : xh_elf_packed_reloc_iterator_t) : xh_elf_packed_reloc_iterator_t :=
  {| decoder := d; relocation_count := relocation_count self; grp := g;
     relocation_index := relocation_index self; relocation_group_index := relocation_group_index self;
     cur_reloc := r; is_use_rela := is_use_rela self |}.
Definition with_index (i j : Z) (self : xh_elf_packed_reloc_iterator_t) : xh_elf_packed_reloc_iterator_t :=
  {| decoder := decoder self; relocation_count := relocation_count self; grp := grp self;
     relocation_index := i; relocation_group_index := j;
     cur_reloc := cur_reloc self; is_use_rela := is_use_rela self |}.
Definition with_count (n : Z) (self : xh_elf_packed_reloc_iterator_t) : xh_elf_packed_reloc_iterator_t :=
  {| decoder := decoder self; relocation_count := n; grp := grp self;
     relocation_index := relocation_index self; relocation_group_index := relocation_group_index self;
     cur_reloc := cur_reloc self; is_use_rela := is_use_rela self |}.

(** Read one number into a field of the iterator when [read] holds; [true] on
    success. *)
Definition read_if (read : bool) (m : mem)
    (set : Z -> xh_elf_packed_reloc_iterator_t -> xh_elf_packed_reloc_iterator_t)
    (self : xh_elf_packed_reloc_iterator_t) : res (bool * xh_elf_packed_reloc_iterator_t) :=
  if read then
    let! (v, d) := xh_elf_sleb128_decoder_next m (decoder self) in
    let self := with_decoder d (grp self) (cur_reloc self) self in
    match v with Some v => Ok (true, set v self) | None => Ok (false, self) end
  else Ok (true, self).

Definition set_group_size (v : Z) (self : xh_elf_packed_reloc_iterator_t) :=
  with_decoder (decoder self) {| group_size := v; group_flags := group_flags (grp self);
    group_r_offset_delta := group_r_offset_delta (grp self) |} (cur_reloc self) self.
Definition set_group_flags (v : Z) (self : xh_elf_packed_reloc_iterator_t) :=
  with_decoder (decoder self) {| group_size := group_size (grp self); group_flags := v;
    group_r_offset_delta := group_r_offset_delta (grp self) |} (cur_reloc self) self.
Definition set_offset_delta (v : Z) (self : xh_elf_packed_reloc_iterator_t) :=
  with_decoder (decoder self) {| group_size := group_size (grp self); group_flags := group_flags (grp self);
    group_r_offset_delta := v |} (cur_reloc self) self.
Definition set_r_offset (v : Z) (self : xh_elf_packed_reloc_iterator_t) :=
  with_decoder (decoder self) (grp self) {| r_offset := v; r_info := r_info (cur_reloc self);
    r_addend := r_addend (cur_reloc self) |} self.
Definition add_r_offset (v : Z) (self : xh_elf_packed_reloc_iterator_t) :=
  set_r_offset (up (r_offset (cur_reloc self) + v)) self.
Definition set_r_info (v : Z) (self : xh_elf_packed_reloc_iterator_t) :=
  with_decoder (decoder self) (grp self) {| r_offset := r_offset (cur_reloc self); r_info := v;
    r_addend := r_addend (cur_reloc self) |} self.
Definition set_r_addend (v : Z) (self : xh_elf_packed_reloc_iterator_t) :=
  with_decoder (decoder self) (grp self) {| r_offset := r_offset (cur_reloc self);
    r_info := r_info (cur_reloc self); r_addend := v |} self.
Definition add_r_addend (v : Z) (self : xh_elf_packed_reloc_iterator_t) :=
  set_r_addend (swrap ptr_bits (r_addend (cur_reloc self) + v)) self.

Notation "'try!' self ':=' m 'in' k" :=
  (rbind m (fun '(ok, self) => if (ok : bool) then k else Ok (false, self)))
  (at level 10, self name, m at level 100, k at level 200).

(** [true]: returned 0; the caller ignores the error code of the initialisation. *)
Definition xh_elf_packed_reloc_iterator_init (m : mem) (rel rel_sz use_rela : Z)
    : res (bool * xh_elf_packed_reloc_iterator_t) :=
  let self := {| decoder := xh_elf_sleb128_decoder_init rel rel_sz; relocation_count := 0;
                 grp := {| group_size := 0; group_flags := 0; group_r_offset_delta := 0 |};
                 relocation_index := 0; relocation_group_index := 0;
                 cur_reloc := {| r_offset := 0; r_info := 0; r_addend := 0 |};
                 is_use_rela := use_rela |} in
  try! self := read_if true m with_count self in
  read_if true m set_r_offset self.

Definition flag (self : xh_elf_packed_reloc_iterator_t) (f : Z) : bool := truthy (group_flags (grp self) .& f).

Definition xh_elf_packed_reloc_iterator_read_group_fields (m : mem) (self : xh_elf_packed_reloc_iterator_t)
    : res (bool * xh_elf_packed_reloc_iterator_t) :=
  try! self := read_if true m set_group_size self in
  try! self := read_if true m set_group_flags self in
  try! self := read_if (flag self RELOCATION_GROUPED_BY_OFFSET_DELTA_FLAG) m set_offset_delta self in
  try! self := read_if (flag self RELOCATION_GROUPED_BY_INFO_FLAG) m set_r_info self in
  let finish self := Ok (true, with_index (relocation_index self) 0 self) in
  if flag self RELOCATION_GROUP_HAS_ADDEND_FLAG && flag self RELOCATION_GROUPED_BY_ADDEND_FLAG then
    if is_use_rela self =? 0 then Ok (false, self)
    else try! self := read_if true m add_r_addend self in finish self
  else if negb (flag self RELOCATION_GROUP_HAS_ADDEND_FLAG) then finish (set_r_addend 0 self)
  else finish self.

(** The fields a relocation does not share with its group. *)
Definition read_entry (m : mem) (self : xh_elf_packed_reloc_iterator_t)
    : res (bool * xh_elf_packed_reloc_iterator_t) :=
  try! self := (if flag self RELOCATION_GROUPED_BY_OFFSET_DELTA_FLAG
                then Ok (true, add_r_offset (group_r_offset_delta (grp self)) self)
                else read_if true m add_r_offset self) in
  try! self := read_if (negb (flag self RELOCATION_GROUPED_BY_INFO_FLAG)) m set_r_info self in
  read_if (truthy (is_use_rela self) && flag self RELOCATION_GROUP_HAS_ADDEND_FLAG &&
           negb (flag self RELOCATION_GROUPED_BY_ADDEND_FLAG)) m add_r_addend self.

(** The relocation, [None] at the end or on an error. *)
Definition xh_elf_packed_reloc_iterator_next (m : mem) (self : xh_elf_packed_reloc_iterator_t)
    : res (option reloc * xh_elf_packed_reloc_iterator_t) :=
  if relocation_count self <=? relocation_index self then Ok (None, self)
  else
    let! (ok, self) :=
      (try! self := (if relocation_group_index self =? group_size (grp self)
                     then xh_elf_packed_reloc_iterator_read_group_fields m self else Ok (true, self)) in
       read_entry m self) in
    if ok then
      let self := with_index (up (relocation_index self + 1)) (up (relocation_group_index self + 1)) self in
      Ok (Some (cur_reloc self), self)
    else Ok (None, self).


(** ** SLEB128 round trip

    The encoding of the DWARF standard: seven bits at a time, least significant
    first, until the rest is the sign of the last byte. *)

Fixpoint sleb (fuel : nat) (v : Z) : list Z :=
  match fuel with
  | O => []
  | S fuel' =>
      if (-64 <=? v) && (v <? 64) then [v mod 128]
      else (v mod 128 + 128) :: sleb fuel' (v / 128)
  end.

(** Ten bytes are enough for 64 bits. *)
Definition sleb_encode (v : Z) : list Z := sleb 10 v.

(** A value of [ssize_t]. *)
Definition in_range (v : Z) : Prop := - 2 ^ (ptr_bits - 1) <= v < 2 ^ (ptr_bits - 1).

Lemma ptr_bits_pos : 32 <= ptr_bits <= 64.
Proof. unfold ptr_bits. destruct lp64; lia. Qed.

Lemma payload v : (v mod 128 + 128) .& 127 = v mod 128 /\ (v mod 128 + 128) .& 128 = 128 /\
  (v mod 128) .& 127 = v mod 128 /\ (v mod 128) .& 128 = 0.
Proof.
  pose proof (Z.mod_pos_bound v 128 ltac:(lia)) as Hm. revert Hm. generalize (v mod 128) as x.
  intros x Hm.
  assert (Hc : forall x, 0 <= x < 128 -> ((x + 128) .& 127 =? x) && ((x + 128) .& 128 =? 128) &&
    ((x .& 127) =? x) && ((x .& 128) =? 0) = true)
    by (apply (range_check_Z _ 128); vm_compute; reflexivity).
  specialize (Hc x Hm). breflect. done.
Qed.

Lemma byte_sign v : -64 <= v < 64 -> truthy ((v mod 128) .& 64) = (v <? 0).
Proof.
  intros Hv. assert (Hc : forall x, 0 <= x < 128 ->
    eqb (truthy (((x - 64) mod 128) .& 64)) (x - 64 <? 0) = true)
    by (apply (range_check_Z _ 128); vm_compute; reflexivity).
  specialize (Hc (v + 64) ltac:(lia)). replace (v + 64 - 64) with v in Hc by lia. by apply eqb_prop.
Qed.

Lemma or_above value x shift :
  0 <= value < 2 ^ shift -> 0 <= shift <= ptr_bits ->
  value .| up (x * 2 ^ shift) = value + up (x * 2 ^ shift).
Proof.
  intros Hv Hs. unfold up, uwrap.
  assert (Hp : 2 ^ ptr_bits = 2 ^ (ptr_bits - shift) * 2 ^ shift)
    by (rewrite <- Z.pow_add_r by lia; f_equal; lia).
  rewrite Hp, Z.mul_mod_distr_r by (apply Z.pow_nonzero; lia). rewrite <- Z.shiftl_mul_pow2 by lia.
  rewrite lor_add_disjoint by (done || lia). by rewrite Z.shiftl_mul_pow2 by lia.
Qed.

(** The last byte. *)
Lemma sleb_last v value shift :
  -64 <= v < 64 -> 0 <= value < 2 ^ shift -> 0 <= shift < ptr_bits ->
  - 2 ^ (ptr_bits - 1 - shift) <= v < 2 ^ (ptr_bits - 1 - shift) ->
  (let value' := value .| up ((v mod 128) .<< shift) in
   if (shift + 7 <? ptr_bits) && truthy ((v mod 128) .& 64)
   then value' .| up (- (1 .<< (shift + 7))) else value') = up (value + v * 2 ^ shift).
Proof.
  intros Hv Hval Hs Hr. cbv zeta. rewrite byte_sign, Z.shiftl_mul_pow2, or_above by lia.
  pose proof ptr_bits_pos as Hb.
  assert (Hpow : 2 ^ ptr_bits = 2 ^ (ptr_bits - shift) * 2 ^ shift)
    by (rewrite <- Z.pow_add_r by lia; f_equal; lia).
  pose proof (Z.pow_pos_nonneg 2 shift ltac:(lia) ltac:(lia)) as Hs0.
  destruct (Z.ltb_spec v 0) as [Hneg|Hpos]; rewrite ?andb_true_r, ?andb_false_r.
  - assert (Hm : v mod 128 = v + 128) by (symmetry; apply Z.mod_unique with (-1); lia).
    rewrite Hm. destruct (Z.ltb_spec (shift + 7) ptr_bits) as [Hlt|Hge].
    + assert (H7 : 2 ^ (shift + 7) = 128 * 2 ^ shift) by (rewrite Z.pow_add_r by lia; change (2 ^ 7) with 128; lia).
      assert (Hbig : 2 ^ ptr_bits = 2 ^ (ptr_bits - (shift + 7)) * 2 ^ (shift + 7))
        by (rewrite <- Z.pow_add_r by lia; f_equal; lia).
      assert (0 < 2 ^ (ptr_bits - (shift + 7))) by (apply Z.pow_pos_nonneg; lia).
      assert (Hu : up ((v + 128) * 2 ^ shift) = (v + 128) * 2 ^ shift).
      { unfold up. apply uwrap_small. rewrite Hbig, H7. nia. }
      rewrite Hu, Z.shiftl_mul_pow2 by lia.
      replace (- (1 * 2 ^ (shift + 7))) with ((-1) * 2 ^ (shift + 7)) by lia.
      rewrite or_above by (rewrite ?H7; nia).
      assert (Hm1 : up (-1 * 2 ^ (shift + 7)) = 2 ^ ptr_bits - 2 ^ (shift + 7)).
      { unfold up, uwrap. symmetry. apply Z.mod_unique with (-1); [left; rewrite Hbig; nia|lia]. }
      rewrite Hm1, H7. unfold up, uwrap. apply Z.mod_unique with (-1); [left|ring].
      rewrite Hbig, H7. nia.
    + unfold up. rewrite <- (uwrap_small ptr_bits (value + uwrap ptr_bits ((v + 128) * 2 ^ shift))).
      * rewrite uwrap_add_r. unfold uwrap. rewrite Hpow.
        assert (H128 : 128 = 2 ^ (shift + 7 - ptr_bits) * 2 ^ (ptr_bits - shift))
          by (rewrite <- Z.pow_add_r by lia; change 128 with (2 ^ 7); f_equal; lia).
        replace (value + (v + 128) * 2 ^ shift) with
          (value + v * 2 ^ shift + 2 ^ (shift + 7 - ptr_bits) * (2 ^ (ptr_bits - shift) * 2 ^ shift))
          by (rewrite H128; ring).
        by rewrite Z_mod_plus_full.
      * unfold uwrap. rewrite Hpow, Z.mul_mod_distr_r by (apply Z.pow_nonzero; lia).
        assert (Hmb : 0 <= (v + 128) mod 2 ^ (ptr_bits - shift) < 2 ^ (ptr_bits - shift))
          by (apply Z.mod_pos_bound, Z.pow_pos_nonneg; lia).
        nia.
  - rewrite Z.mod_small by lia. unfold up. rewrite (uwrap_small _ (v * 2 ^ shift)).
    + symmetry. apply uwrap_small.
      assert (Hhalf : 2 ^ (ptr_bits - shift) = 2 * 2 ^ (ptr_bits - 1 - shift))
        by (rewrite <- Z.pow_succ_r by lia; f_equal; lia). rewrite Hpow, Hhalf. nia.
    + assert (Hhalf : 2 ^ (ptr_bits - shift) = 2 * 2 ^ (ptr_bits - 1 - shift))
        by (rewrite <- Z.pow_succ_r by lia; f_equal; lia). rewrite Hpow, Hhalf. nia.
Qed.

Lemma sleb_loop_decodes n fuel m cur end_ value shift v post :
  load_bytes m cur (length (sleb n v ++ post)) = Some (sleb n v ++ post) ->
  end_ = cur + Z.of_nat (length (sleb n v ++ post)) ->
  (length (sleb n v ++ post) < fuel)%nat -> ptr_bits - shift <= 7 * Z.of_nat n ->
  0 <= value < 2 ^ shift -> 0 <= shift < ptr_bits ->
  - 2 ^ (ptr_bits - 1 - shift) <= v < 2 ^ (ptr_bits - 1 - shift) ->
  exists s, sleb_loop fuel m cur end_ value shift =
    Ok (Some (up (value + v * 2 ^ shift), s), cur + Z.of_nat (length (sleb n v))).
Proof.
  revert fuel cur value shift v. induction n as [|n IH]; intros fuel cur value shift v Hl Hend Hf Hn Hval Hs Hr; [lia|].
  destruct fuel as [|fuel]; [lia|]. cbn [sleb_loop sleb] in *. revert Hl Hend Hf.
  destruct (payload v) as (Hp1 & Hp2 & Hp3 & Hp4).
  destruct ((-64 <=? v) && (v <? 64)) eqn:Hsmall; intros Hl Hend Hf.
  - breflect. cbn [app length] in *.
    destruct (Z.leb_spec end_ cur); [lia|].
    assert (Hb : load8 m cur = Some (v mod 128)).
    { unfold load. cbn [load_bytes] in Hl |- *. destruct (m !! cur); [|done].
      destruct (load_bytes m (cur + 1) _); [|done]. injection Hl as -> _. cbn. f_equal. lia. }
    rewrite Hb. cbn [of_opt rbind]. destruct (Z.leb_spec ptr_bits shift); [lia|].
    rewrite Hp3, Hp4. cbn [truthy Z.eqb negb]. exists (shift + 7).
    rewrite <- (sleb_last v value shift); [done|lia|done..].
  - assert (Hbig : v < -64 \/ 64 <= v) by (apply andb_false_iff in Hsmall as [?|?]; breflect; lia).
    assert (H7 : shift + 7 <= ptr_bits - 1).
    { destruct (decide (shift + 7 <= ptr_bits - 1)); [done|].
      assert (2 ^ (ptr_bits - 1 - shift) <= 2 ^ 6) by (apply Z.pow_le_mono_r; lia). lia. }
    cbn [app length] in *. destruct (Z.leb_spec end_ cur); [lia|].
    assert (Hb : load8 m cur = Some (v mod 128 + 128) /\
      load_bytes m (cur + 1) (length (sleb n (v / 128) ++ post)) = Some (sleb n (v / 128) ++ post)).
    { unfold load. cbn [load_bytes] in Hl |- *. destruct (m !! cur); [|done].
      destruct (load_bytes m (cur + 1) _); [|done]. injection Hl as -> ->. cbn. split; [f_equal; lia|done]. }
    destruct Hb as [-> Hrest]. cbn [of_opt rbind]. destruct (Z.leb_spec ptr_bits shift); [lia|].
    rewrite Hp1, Hp2. cbn [truthy Z.eqb negb]. cbv iota.
    assert (Hdiv : v = 128 * (v / 128) + v mod 128) by (apply Z.div_mod; lia).
    pose proof (Z.mod_pos_bound v 128 ltac:(lia)) as Hm.
    assert (Hpow7 : 2 ^ (shift + 7) = 128 * 2 ^ shift) by (rewrite Z.pow_add_r by lia; change (2 ^ 7) with 128; lia).
    assert (Hrange : 2 ^ (ptr_bits - 1 - shift) = 128 * 2 ^ (ptr_bits - 1 - (shift + 7))).
    { change 128 with (2 ^ 7). rewrite <- Z.pow_add_r by lia. f_equal. lia. }
    pose proof (Z.pow_pos_nonneg 2 shift ltac:(lia) ltac:(lia)) as Hs0.
    assert (Hv' : value .| up ((v mod 128) .<< shift) = value + (v mod 128) * 2 ^ shift).
    { rewrite Z.shiftl_mul_pow2, or_above by lia. f_equal. unfold up. apply uwrap_small.
      assert (2 ^ (shift + 7) <= 2 ^ ptr_bits) by (apply Z.pow_le_mono_r; lia). nia. }
    rewrite Hv'. destruct (IH fuel (cur + 1) (value + (v mod 128) * 2 ^ shift) (shift + 7) (v / 128))
      as (s & Hloop); [done|lia|lia|lia|nia|lia|nia|].
    exists s. rewrite Hloop. replace (value + (v mod 128) * 2 ^ shift + v / 128 * 2 ^ (shift + 7))
      with (value + v * 2 ^ shift) by (rewrite Hpow7; nia).
    do 2 f_equal. lia.
Qed.


(** The decoder stands before the numbers [vs]. *)
Definition stream (m : mem) (vs : list Z) (post : list Z) (d : xh_elf_sleb128_decoder_t) : Prop :=
  let bytes := mjoin (sleb_encode <$> vs) ++ post in
  load_bytes m (s_cur d) (length bytes) = Some bytes /\ s_end d = s_cur d + Z.of_nat (length bytes) /\
  Forall in_range vs.

Lemma decoder_next_number m v vs post d :
  stream m (v :: vs) post d ->
  exists d', xh_elf_sleb128_decoder_next m d = Ok (Some (up v), d') /\ stream m vs post d' /\
    s_cur d' = s_cur d + Z.of_nat (length (sleb_encode v)).
Proof.
  intros (Hl & Hend & Hall). apply Forall_cons in Hall as [Hv Hall].
  change (mjoin (sleb_encode <$> v :: vs)) with (sleb_encode v ++ mjoin (sleb_encode <$> vs)) in *.
  rewrite <- app_assoc in Hl, Hend. set (rest := mjoin (sleb_encode <$> vs) ++ post) in *.
  pose proof ptr_bits_pos as Hb. unfold xh_elf_sleb128_decoder_next.
  destruct (sleb_loop_decodes 10 (S (Z.to_nat (s_end d - s_cur d))) m (s_cur d) (s_end d) 0 0 v rest)
    as (s & Hloop); try done; try lia.
  { rewrite Hend. unfold sleb_encode. lia. }
  { unfold in_range in Hv. by rewrite Z.sub_0_r. }
  rewrite Hloop. cbn [rbind]. eexists. split.
  - change (Some (up v)) with (fst <$> Some (up v, s)). by rewrite Z.mul_1_r.
  - split; [|done]. split; [|split; [|done]]; fold rest; cbn [s_cur s_end].
    + rewrite length_app in Hl. apply load_bytes_split in Hl as [_ Hl].
      rewrite drop_app_length in Hl. exact Hl.
    + rewrite Hend, length_app. unfold sleb_encode. lia.
Qed.

(** Decoding an encoded number gives it back, as a [size_t], and leaves the
    cursor behind it; for every value of [ssize_t] on both ABIs. *)
Theorem sleb128_roundtrip m v vs post d :
  stream m (v :: vs) post d ->
  exists d', xh_elf_sleb128_decoder_next m d = Ok (Some (up v), d') /\ stream m vs post d' /\
    s_cur d' = s_cur d + Z.of_nat (length (sleb_encode v)).
Proof. apply decoder_next_number. Qed.

(** ** Iterating over a packed section

    A section as groups of relocations; a field that a group's flags share is
    stored once, in the group. *)

Record pgroup := { pg_flags : Z; pg_delta : Z; pg_info : Z; pg_addend : Z; pg_entries : list (Z * Z * Z) }.

Definition has (fl f : Z) : bool := truthy (fl .& f).
Definition by_delta fl := has fl RELOCATION_GROUPED_BY_OFFSET_DELTA_FLAG.
Definition by_info fl := has fl RELOCATION_GROUPED_BY_INFO_FLAG.
Definition by_addend fl := has fl RELOCATION_GROUP_HAS_ADDEND_FLAG && has fl RELOCATION_GROUPED_BY_ADDEND_FLAG.
Definition own_addend (u fl : Z) : bool :=
  truthy u && has fl RELOCATION_GROUP_HAS_ADDEND_FLAG && negb (has fl RELOCATION_GROUPED_BY_ADDEND_FLAG).

Definition one_if (b : bool) (v : Z) : list Z := if b then [v] else [].

(** The numbers of an entry, of a group, of the section. *)
Definition entry_numbers (u fl : Z) (e : Z * Z * Z) : list Z :=
  let '(o, i, a) := e in
  one_if (negb (by_delta fl)) o ++ one_if (negb (by_info fl)) i ++ one_if (own_addend u fl) a.
Definition entries_numbers (u fl : Z) (es : list (Z * Z * Z)) : list Z := mjoin (entry_numbers u fl <$> es).
Definition group_numbers (u : Z) (g : pgroup) : list Z :=
  [Z.of_nat (length (pg_entries g)); pg_flags g] ++ one_if (by_delta (pg_flags g)) (pg_delta g) ++
  one_if (by_info (pg_flags g)) (pg_info g) ++ one_if (by_addend (pg_flags g)) (pg_addend g) ++
  entries_numbers u (pg_flags g) (pg_entries g).
Definition groups_numbers (u : Z) (gs : list pgroup) : list Z := mjoin (group_numbers u <$> gs).

(** The relocations they stand for, each relative to the previous one. *)
Definition start_group (g : pgroup) (r : reloc) : reloc :=
  {| r_offset := r_offset r;
     r_info := if by_info (pg_flags g) then up (pg_info g) else r_info r;
     r_addend := if by_addend (pg_flags g) then swrap ptr_bits (r_addend r + pg_addend g)
                 else if has (pg_flags g) RELOCATION_GROUP_HAS_ADDEND_FLAG then r_addend r else 0 |}.
Definition step_entry (u fl delta : Z) (r : reloc) (e : Z * Z * Z) : reloc :=
  let '(o, i, a) := e in
  {| r_offset := up (r_offset r + if by_delta fl then delta else o);
     r_info := if by_info fl then r_info r else up i;
     r_addend := if own_addend u fl then swrap ptr_bits (r_addend r + a) else r_addend r |}.

Fixpoint expand_entries (u fl delta : Z) (r : reloc) (es : list (Z * Z * Z)) : list reloc :=
  match es with
  | [] => []
  | e :: es' => let r := step_entry u fl delta r e in r :: expand_entries u fl delta r es'
  end.
Definition last_entry (u fl delta : Z) (r : reloc) (es : list (Z * Z * Z)) : reloc :=
  fold_left (step_entry u fl delta) es r.
Fixpoint expand (u : Z) (r : reloc) (gs : list pgroup) : list reloc :=
  match gs with
  | [] => []
  | g :: gs' =>
      let r := start_group g r in
      expand_entries u (pg_flags g) (pg_delta g) r (pg_entries g) ++
      expand u (last_entry u (pg_flags g) (pg_delta g) r (pg_entries g)) gs'
  end.

(** A group is not empty, its flags are the four known ones, and only
    [android.rela] sections have addends. *)
Definition group_ok (u : Z) (g : pgroup) : Prop :=
  pg_entries g <> [] /\ 0 <= pg_flags g < 16 /\ (by_addend (pg_flags g) = true -> u <> 0).

Definition total (gs : list pgroup) : nat := sum_list (length ∘ pg_entries <$> gs).

(** All relocations of an iterator. *)
Fixpoint collect (fuel : nat) (m : mem) (self : xh_elf_packed_reloc_iterator_t) : res (list reloc) :=
  match fuel with
  | O => NoFuel
  | S fuel' =>
      let! (r, self) := xh_elf_packed_reloc_iterator_next m self in
      match r with
      | None => Ok []
      | Some r => let! rs := collect fuel' m self in Ok (r :: rs)
      end
  end.

Definition iter d n size fl delta i j r u : xh_elf_packed_reloc_iterator_t :=
  {| decoder := d; relocation_count := n;
     grp := {| group_size := size; group_flags := fl; group_r_offset_delta := delta |};
     relocation_index := i; relocation_group_index := j; cur_reloc := r; is_use_rela := u |}.

Lemma read_number m v vs post d set n size fl delta i j r u :
  stream m (v :: vs) post d ->
  exists d', stream m vs post d' /\
    read_if true m set (iter d n size fl delta i j r u) = Ok (true, set (up v) (iter d' n size fl delta i j r u)).
Proof.
  intros Hs. destruct (decoder_next_number m v vs post d Hs) as (d' & Hn & Hs' & _).
  exists d'. split; [done|]. unfold read_if. cbn [decoder iter]. rewrite Hn. done.
Qed.

Lemma up_small v : 0 <= v < 2 ^ ptr_bits -> up v = v.
Proof. apply uwrap_small. Qed.

Lemma up_up_add x y : up (x + up y) = up (x + y).
Proof. apply uwrap_add_r. Qed.

Lemma swrap_add_up x y : swrap ptr_bits (x + up y) = swrap ptr_bits (x + y).
Proof. rewrite <- swrap_uwrap. unfold up. by rewrite uwrap_add_r, swrap_uwrap. Qed.

(** Reading when a flag asks for it. *)
Lemma read_flagged (b : bool) m v vs post d set n size fl delta i j r u :
  stream m (one_if b v ++ vs) post d ->
  exists d', stream m vs post d' /\
    read_if b m set (iter d n size fl delta i j r u) =
    Ok (true, if b then set (up v) (iter d' n size fl delta i j r u) else iter d' n size fl delta i j r u).
Proof. destruct b; [apply read_number|]. intros Hs. by exists d. Qed.

Lemma read_group m g u vs post d n size fl delta i j r :
  group_ok u g -> Z.of_nat (length (pg_entries g)) < 2 ^ ptr_bits ->
  stream m (group_numbers u g ++ vs) post d ->
  exists d' delta', stream m (entries_numbers u (pg_flags g) (pg_entries g) ++ vs) post d' /\
    (by_delta (pg_flags g) = true -> delta' = up (pg_delta g)) /\
    xh_elf_packed_reloc_iterator_read_group_fields m (iter d n size fl delta i j r u) =
    Ok (true, iter d' n (Z.of_nat (length (pg_entries g))) (pg_flags g) delta' i 0 (start_group g r) u).
Proof.
  intros (_ & Hfl & Hu) Hlen Hs. unfold group_numbers in Hs. rewrite <- !app_assoc in Hs. cbn [app] in Hs.
  pose proof ptr_bits_pos as Hb.
  assert (H16 : 16 < 2 ^ ptr_bits) by (apply Z.lt_le_trans with (2 ^ 32); [lia|apply Z.pow_le_mono_r; lia]).
  unfold xh_elf_packed_reloc_iterator_read_group_fields.
  destruct (read_number m _ _ post d set_group_size n size fl delta i j r u Hs) as (d1 & Hs1 & ->).
  cbn [rbind]. rewrite (up_small (Z.of_nat (length (pg_entries g)))) by (split; [lia|exact Hlen]).
  change (set_group_size ?v (iter d1 n size fl delta i j r u)) with (iter d1 n v fl delta i j r u).
  set (sz := Z.of_nat (length (pg_entries g))) in *.
  destruct (read_number m _ _ post d1 set_group_flags n sz fl delta i j r u Hs1) as (d2 & Hs2 & ->).
  cbn [rbind]. rewrite (up_small (pg_flags g)) by lia.
  change (set_group_flags ?v (iter d2 n sz fl delta i j r u)) with (iter d2 n sz v delta i j r u).
  set (f := pg_flags g) in *.
  change (flag (iter d2 n sz f delta i j r u) RELOCATION_GROUPED_BY_OFFSET_DELTA_FLAG) with (by_delta f).
  destruct (read_flagged (by_delta f) m _ _ post d2 set_offset_delta n sz f delta i j r u Hs2) as (d3 & Hs3 & ->).
  cbn [rbind].
  set (delta' := if by_delta f then up (pg_delta g) else delta).
  replace (if by_delta f then set_offset_delta (up (pg_delta g)) (iter d3 n sz f delta i j r u)
           else iter d3 n sz f delta i j r u) with (iter d3 n sz f delta' i j r u)
    by (unfold delta'; by destruct (by_delta f)).
  change (flag (iter d3 n sz f delta' i j r u) RELOCATION_GROUPED_BY_INFO_FLAG) with (by_info f).
  destruct (read_flagged (by_info f) m _ _ post d3 set_r_info n sz f delta' i j r u Hs3) as (d4 & Hs4 & ->).
  cbn [rbind]. set (r1 := {| r_offset := r_offset r;
    r_info := if by_info f then up (pg_info g) else r_info r; r_addend := r_addend r |}).
  replace (if by_info f then set_r_info (up (pg_info g)) (iter d4 n sz f delta' i j r u)
           else iter d4 n sz f delta' i j r u) with (iter d4 n sz f delta' i j r1 u)
    by (unfold r1; destruct (by_info f); [done|by destruct r]).
  change (flag (iter d4 n sz f delta' i j r1 u) ?x) with (has f x). fold (by_addend f).
  assert (Hdelta : by_delta f = true -> delta' = up (pg_delta g)) by (unfold delta'; by intros ->).
  cbn [is_use_rela iter].
  destruct (by_addend f) eqn:Hba; cbn [one_if app] in Hs4.
  - destruct (Z.eqb_spec u 0) as [->|_]; [by destruct (Hu eq_refl)|].
    destruct (read_number m _ _ post d4 add_r_addend n sz f delta' i j r1 u Hs4) as (d5 & Hs5 & He).
    unfold iter in He. unfold iter. rewrite He. cbn [rbind]. exists d5, delta'. split; [done|]. split; [done|].
    unfold start_group. fold f. rewrite Hba. unfold add_r_addend, set_r_addend, with_decoder, with_index.
    cbn. by rewrite swrap_add_up.
  - exists d4, delta'. split; [done|]. split; [done|].
    unfold start_group. fold f. rewrite Hba. unfold r1.
    destruct (has f RELOCATION_GROUP_HAS_ADDEND_FLAG); reflexivity.
Qed.

Lemma read_entry_ok m e vs post d n sz f delta dl i j r u :
  stream m (entry_numbers u f e ++ vs) post d -> (by_delta f = true -> delta = up dl) ->
  exists d', stream m vs post d' /\
    read_entry m (iter d n sz f delta i j r u) =
    Ok (true, iter d' n sz f delta i j (step_entry u f dl r e) u).
Proof.
  intros Hs Hdelta. destruct e as [[o info] a]. unfold entry_numbers in Hs. rewrite <- !app_assoc in Hs.
  unfold read_entry.
  change (flag (iter d n sz f delta i j r u) RELOCATION_GROUPED_BY_OFFSET_DELTA_FLAG) with (by_delta f).
  set (r1 := {| r_offset := up (r_offset r + if by_delta f then dl else o); r_info := r_info r;
                r_addend := r_addend r |}).
  assert (H1 : exists d1, stream m (one_if (negb (by_info f)) info ++ one_if (own_addend u f) a ++ vs) post d1 /\
    (if by_delta f then Ok (true, add_r_offset (group_r_offset_delta (grp (iter d n sz f delta i j r u)))
                                   (iter d n sz f delta i j r u))
     else read_if true m add_r_offset (iter d n sz f delta i j r u)) = Ok (true, iter d1 n sz f delta i j r1 u)).
  { destruct (by_delta f).
    - exists d. split; [done|]. cbn [group_r_offset_delta grp iter]. rewrite Hdelta by done.
      unfold r1. rewrite <- up_up_add. done.
    - destruct (read_number m o _ post d add_r_offset n sz f delta i j r u Hs) as (d1 & Hs1 & ->).
      exists d1. split; [done|]. unfold r1. rewrite <- up_up_add. done. }
  destruct H1 as (d1 & Hs1 & ->). cbn [rbind].
  change (flag (iter d1 n sz f delta i j r1 u) RELOCATION_GROUPED_BY_INFO_FLAG) with (by_info f).
  destruct (read_flagged (negb (by_info f)) m info _ post d1 set_r_info n sz f delta i j r1 u Hs1) as (d2 & Hs2 & ->).
  cbn [rbind]. set (r2 := {| r_offset := r_offset r1; r_info := if by_info f then r_info r1 else up info;
                             r_addend := r_addend r1 |}).
  replace (if negb (by_info f) then set_r_info (up info) (iter d2 n sz f delta i j r1 u)
           else iter d2 n sz f delta i j r1 u) with (iter d2 n sz f delta i j r2 u)
    by (unfold r2; by destruct (by_info f)).
  change (truthy (is_use_rela (iter d2 n sz f delta i j r2 u)) && flag (iter d2 n sz f delta i j r2 u) 8 &&
    negb (flag (iter d2 n sz f delta i j r2 u) 4)) with (own_addend u f).
  destruct (read_flagged (own_addend u f) m a vs post d2 add_r_addend n sz f delta i j r2 u Hs2) as (d3 & Hs3 & He).
  exists d3. split; [done|]. etransitivity; [exact He|]. unfold step_entry. destruct (own_addend u f).
  - unfold add_r_addend. rewrite swrap_add_up. done.
  - done.
Qed.

Lemma next_entry m e vs post d n sz f delta dl i j r u :
  stream m (entry_numbers u f e ++ vs) post d -> (by_delta f = true -> delta = up dl) ->
  0 <= i < n -> n < 2 ^ ptr_bits -> 0 <= j < sz -> sz < 2 ^ ptr_bits ->
  exists d', stream m vs post d' /\
    xh_elf_packed_reloc_iterator_next m (iter d n sz f delta i j r u) =
    Ok (Some (step_entry u f dl r e), iter d' n sz f delta (i + 1) (j + 1) (step_entry u f dl r e) u).
Proof.
  intros Hs Hdelta Hi Hn Hj Hsz. destruct (read_entry_ok m e vs post d n sz f delta dl i j r u Hs Hdelta)
    as (d' & Hs' & He). exists d'. split; [done|]. unfold xh_elf_packed_reloc_iterator_next.
  cbn [relocation_count relocation_index relocation_group_index group_size grp iter].
  destruct (Z.leb_spec n i); [lia|]. destruct (Z.eqb_spec j sz); [lia|]. cbn [rbind].
  rewrite He. cbn [rbind]. unfold with_index.
  cbn [relocation_count relocation_index relocation_group_index decoder grp cur_reloc is_use_rela iter].
  rewrite (up_small (i + 1)) by (split; [lia|]; apply Z.le_lt_trans with n; [lia|done]).
  rewrite (up_small (j + 1)) by (split; [lia|]; apply Z.le_lt_trans with sz; [lia|done]).
  done.
Qed.

(** The first relocation of the next group. *)
Lemma next_group m g e es vs post d n sz f delta i r u :
  group_ok u g -> pg_entries g = e :: es ->
  Z.of_nat (length (pg_entries g)) < 2 ^ ptr_bits ->
  stream m (group_numbers u g ++ vs) post d -> 0 <= i < n -> n < 2 ^ ptr_bits ->
  exists d' delta', stream m (entries_numbers u (pg_flags g) es ++ vs) post d' /\
    (by_delta (pg_flags g) = true -> delta' = up (pg_delta g)) /\
    xh_elf_packed_reloc_iterator_next m (iter d n sz f delta i sz r u) =
    Ok (Some (step_entry u (pg_flags g) (pg_delta g) (start_group g r) e),
        iter d' n (Z.of_nat (length (pg_entries g))) (pg_flags g) delta' (i + 1) 1
          (step_entry u (pg_flags g) (pg_delta g) (start_group g r) e) u).
Proof.
  intros Hok He Hlen Hs Hi Hn.
  destruct (read_group m g u vs post d n sz f delta i sz r Hok Hlen Hs) as (d1 & delta' & Hs1 & Hdelta & Hg).
  rewrite He in Hs1. change (entries_numbers u (pg_flags g) (e :: es)) with
    (entry_numbers u (pg_flags g) e ++ entries_numbers u (pg_flags g) es) in Hs1.
  rewrite <- app_assoc in Hs1.
  destruct (read_entry_ok m e _ post d1 n (Z.of_nat (length (pg_entries g))) (pg_flags g) delta' (pg_delta g)
    i 0 (start_group g r) u Hs1 Hdelta) as (d2 & Hs2 & Hr).
  exists d2, delta'. split; [done|]. split; [done|]. unfold xh_elf_packed_reloc_iterator_next.
  cbn [relocation_count relocation_index relocation_group_index group_size grp iter].
  destruct (Z.leb_spec n i); [lia|]. rewrite Z.eqb_refl.
  rewrite Hg. cbn [rbind]. rewrite Hr. cbn [rbind]. unfold with_index.
  cbn [relocation_count relocation_index relocation_group_index decoder grp cur_reloc is_use_rela iter].
  pose proof ptr_bits_pos.
  assert (1 < 2 ^ ptr_bits) by (apply Z.pow_gt_1; lia).
  rewrite (up_small (i + 1)) by (split; [lia|]; apply Z.le_lt_trans with n; [lia|done]).
  rewrite (up_small (0 + 1)) by (split; [lia|done]).
  done.
Qed.

Lemma collect_entries fuel m es gs post d n sz f delta dl i r u :
  stream m (entries_numbers u f es ++ groups_numbers u gs) post d ->
  (by_delta f = true -> delta = up dl) -> Forall (group_ok u) gs ->
  0 <= i -> i + Z.of_nat (length es) + Z.of_nat (total gs) = n -> n < 2 ^ ptr_bits ->
  Z.of_nat (length es) <= sz -> sz < 2 ^ ptr_bits -> (length es + total gs < fuel)%nat ->
  collect fuel m (iter d n sz f delta i (sz - Z.of_nat (length es)) r u) =
  Ok (expand_entries u f dl r es ++ expand u (last_entry u f dl r es) gs).
Proof.
  revert es gs d sz f delta dl i r. induction fuel as [|fuel IH];
    intros es gs d sz f delta dl i r Hs Hdelta Hgs Hi Hn Hn64 Hsz Hsz64 Hf; [lia|].
  cbn [collect]. destruct es as [|e es].
  - cbn [length entries_numbers fmap list_fmap mjoin list_join app] in Hs.
    cbn [length] in *. rewrite Z.sub_0_r. cbn [expand_entries last_entry fold_left app].
    destruct gs as [|g gs].
    + cbn [expand]. unfold xh_elf_packed_reloc_iterator_next.
      cbn [relocation_count relocation_index iter]. cbn in Hn. destruct (Z.leb_spec n i); [done|lia].
    + apply Forall_cons in Hgs as [Hok Hgs]. destruct (pg_entries g) as [|e es] eqn:He; [by destruct Hok|].
      assert (Htot : total (g :: gs) = (S (length es) + total gs)%nat)
        by (unfold total; cbn; by rewrite He).
      rewrite Htot in *.
      assert (Hlen : Z.of_nat (length (pg_entries g)) < 2 ^ ptr_bits)
        by (rewrite He; cbn [length]; eapply Z.le_lt_trans; [|exact Hn64]; lia).
      change (groups_numbers u (g :: gs)) with (group_numbers u g ++ groups_numbers u gs) in Hs.
      destruct (next_group m g e es (groups_numbers u gs) post d n sz f delta i r u Hok He Hlen Hs)
        as (d' & delta' & Hs' & Hd' & ->); [lia|done|]. cbn [rbind].
      assert (Hsz' : Z.of_nat (length (pg_entries g)) = Z.of_nat (length es) + 1) by (rewrite He; cbn; lia).
      replace 1 with (Z.of_nat (length (pg_entries g)) - Z.of_nat (length es)) at 2 by lia.
      rewrite (IH es gs d' _ _ delta' (pg_delta g)); try done; try lia.
      cbn [rbind expand]. by rewrite He.
  - change (entries_numbers u f (e :: es)) with (entry_numbers u f e ++ entries_numbers u f es) in Hs.
    rewrite <- app_assoc in Hs. cbn [length] in *.
    destruct (next_entry m e _ post d n sz f delta dl i (sz - Z.of_nat (S (length es))) r u Hs Hdelta)
      as (d' & Hs' & ->); [lia|done|lia|done|]. cbn [rbind].
    replace (sz - Z.of_nat (S (length es)) + 1) with (sz - Z.of_nat (length es)) by lia.
    rewrite (IH es gs d' sz f delta dl); try done; try lia.
Qed.

(** C38: Iterating over a packed section, whatever fields its groups share, gives
    the relocations it encodes, in order and no more, and terminates. *)
Theorem packed_roundtrip m rel rel_sz u first gs post fuel :
  stream m (Z.of_nat (total gs) :: first :: groups_numbers u gs) post
    (xh_elf_sleb128_decoder_init rel rel_sz) ->
  Forall (group_ok u) gs -> (total gs < fuel)%nat ->
  exists self, xh_elf_packed_reloc_iterator_init m rel rel_sz u = Ok (true, self) /\
    collect fuel m self = Ok (expand u {| r_offset := up first; r_info := 0; r_addend := 0 |} gs).
Proof.
  intros Hs Hgs Hf. unfold xh_elf_packed_reloc_iterator_init.
  set (r0 := {| r_offset := 0; r_info := 0; r_addend := 0 |}).
  assert (Hn : Z.of_nat (total gs) < 2 ^ ptr_bits).
  { destruct Hs as (_ & _ & Hall). apply Forall_cons in Hall as [[_ Hr] _].
    eapply Z.lt_le_trans; [exact Hr|]. apply Z.pow_le_mono_r; lia. }
  destruct (read_number m _ _ post _ with_count 0 0 0 0 0 0 r0 u Hs) as (d1 & Hs1 & He1).
  unfold iter in He1. rewrite He1. cbn [rbind]. rewrite up_small by lia.
  change (with_count ?v _) with (iter d1 v 0 0 0 0 0 r0 u).
  destruct (read_number m _ _ post d1 set_r_offset (Z.of_nat (total gs)) 0 0 0 0 0 r0 u Hs1) as (d2 & Hs2 & He2).
  eexists. split; [exact He2|]. pose proof ptr_bits_pos.
  assert (0 < 2 ^ ptr_bits) by (apply Z.pow_pos_nonneg; lia).
  apply (collect_entries fuel m [] gs post d2 (Z.of_nat (total gs)) 0 0 0 0 0
    {| r_offset := up first; r_info := 0; r_addend := 0 |} u); try done; cbn [length]; lia.
Qed.

(** ** Plain sections *)

Fixpoint collect_plain (fuel : nat) (self : xh_elf_plain_reloc_iterator_t) : res (list Z) :=
  match fuel with
  | O => NoFuel
  | S fuel' =>
      match xh_elf_plain_reloc_iterator_next self with
      | (None, _) => Ok []
      | (Some a, self) => let! l := collect_plain fuel' self in Ok (a :: l)
      end
  end.

Lemma entry_size_pos u : 8 <= entry_size u.
Proof. unfold entry_size, rela_size, rel_size. destruct (truthy u), lp64; lia. Qed.

(** The iterator over a plain section of [n] relocations advances before it
    returns: it skips the first relocation and ends with the one past the end. *)
Theorem plain_iterator_shifted rel u n fuel :
  (n < fuel)%nat ->
  collect_plain fuel (xh_elf_plain_reloc_iterator_init rel (Z.of_nat n * entry_size u) u) =
  Ok ((fun k => rel + k * entry_size u) <$> zrange 1 n).
Proof.
  intros Hf. unfold xh_elf_plain_reloc_iterator_init.
  set (end_ := rel + Z.of_nat n * entry_size u).
  assert (Hcol : forall k j fuel, (k < fuel)%nat -> end_ = rel + (j + Z.of_nat k) * entry_size u ->
    collect_plain fuel {| p_cur := rel + j * entry_size u; p_end := end_; p_is_use_rela := u |} =
    Ok ((fun k => rel + k * entry_size u) <$> zrange (j + 1) k)).
  { pose proof (entry_size_pos u) as He. intros k.
    induction k as [|k IH]; intros j fuel' Hf' Hend; (destruct fuel' as [|fuel']; [lia|]);
      cbn [collect_plain]; unfold xh_elf_plain_reloc_iterator_next; cbn [p_cur p_end p_is_use_rela].
    - destruct (Z.leb_spec end_ (rel + j * entry_size u)); [done|nia].
    - destruct (Z.leb_spec end_ (rel + j * entry_size u)); [nia|].
      replace (rel + j * entry_size u + entry_size u) with (rel + (j + 1) * entry_size u) by ring.
      rewrite (IH (j + 1)); [done|lia|]. rewrite Hend. f_equal. f_equal. lia. }
  replace rel with (rel + 0 * entry_size u) at 1 by lia.
  by rewrite (Hcol n 0 fuel Hf) by (unfold end_; f_equal; lia).
Qed.

(** ** The iterators only read *)

Lemma mono_sleb_loop fuel cur end_ value shift : mono (fun m => sleb_loop fuel m cur end_ value shift).
Proof. revert cur value shift. induction fuel as [|fuel IH]; intros cur value shift; cbn [sleb_loop]; solve_mono. Qed.
#[local] Hint Resolve mono_sleb_loop : mono.

Lemma mono_decoder_next d : mono (fun m => xh_elf_sleb128_decoder_next m d).
Proof. unfold xh_elf_sleb128_decoder_next. solve_mono. Qed.
#[local] Hint Resolve mono_decoder_next : mono.

Lemma mono_read_if read set self : mono (fun m => read_if read m set self).
Proof. unfold read_if. solve_mono. Qed.
#[local] Hint Resolve mono_read_if : mono.

Lemma mono_read_group self : mono (fun m => xh_elf_packed_reloc_iterator_read_group_fields m self).
Proof. unfold xh_elf_packed_reloc_iterator_read_group_fields. solve_mono. Qed.

Lemma mono_read_entry self : mono (fun m => read_entry m self).
Proof. unfold read_entry. solve_mono. Qed.
#[local] Hint Resolve mono_read_group mono_read_entry : mono.

Lemma mono_packed_next self : mono (fun m => xh_elf_packed_reloc_iterator_next m self).
Proof. unfold xh_elf_packed_reloc_iterator_next. solve_mono. Qed.

Lemma mono_packed_init rel rel_sz u : mono (fun m => xh_elf_packed_reloc_iterator_init m rel rel_sz u).
Proof. unfold xh_elf_packed_reloc_iterator_init. solve_mono. Qed.

End Reloc.

#[export] Hint Resolve mono_packed_next mono_packed_init : mono.

(** ** Witnesses *)

#[local] Existing Instance arm64.

(** Two groups of a 64-bit [.rela.android] section: a shared delta and info, then
    entries with their own addends. *)
Definition demo_groups : list pgroup :=
  [ {| pg_flags := 3; pg_delta := 8; pg_info := 1027; pg_addend := 0; pg_entries := [(0, 0, 0); (0, 0, 0)] |};
    {| pg_flags := 8; pg_delta := 0; pg_info := 0; pg_addend := 0; pg_entries := [(-16, 0x500000401, -70)] |} ].
Definition demo_section : list Z :=
  mjoin (sleb_encode <$> 3 :: 0x2000 :: groups_numbers 1 demo_groups).
Definition demo_mem : mem := mem_at 0x1000 (demo_section ++ [0; 0]) ∅.
Definition demo_decoder : xh_elf_sleb128_decoder_t :=
  xh_elf_sleb128_decoder_init 0x1000 (Z.of_nat (length demo_section) + 2).

Lemma sleb128_roundtrip_witness :
  exists d', xh_elf_sleb128_decoder_next demo_mem demo_decoder = Ok (Some (up 3), d') /\
    stream demo_mem (0x2000 :: groups_numbers 1 demo_groups) [0; 0] d' /\
    s_cur d' = s_cur demo_decoder + Z.of_nat (length (sleb_encode 3)).
Proof.
  apply (sleb128_roundtrip demo_mem 3 (0x2000 :: groups_numbers 1 demo_groups) [0; 0] demo_decoder).
  split; [|split].
  - vm_compute. reflexivity.
  - reflexivity.
  - repeat constructor; vm_compute; intros; discriminate.
Defined.

Lemma packed_roundtrip_witness :
  exists self, xh_elf_packed_reloc_iterator_init demo_mem 0x1000 (Z.of_nat (length demo_section) + 2) 1 =
      Ok (true, self) /\
    collect 4 demo_mem self =
    Ok [ {| r_offset := 0x2008; r_info := 1027; r_addend := 0 |};
         {| r_offset := 0x2010; r_info := 1027; r_addend := 0 |};
         {| r_offset := 0x2000; r_info := 0x500000401; r_addend := -70 |} ].
Proof.
  replace (Ok [_; _; _]) with (Ok (expand 1 {| r_offset := up 0x2000; r_info := 0; r_addend := 0 |} demo_groups))
    by (vm_compute; reflexivity).
  apply (packed_roundtrip demo_mem 0x1000 (Z.of_nat (length demo_section) + 2) 1 0x2000 demo_groups [0; 0] 4).
  - split; [|split].
    + vm_compute. reflexivity.
    + reflexivity.
    + repeat constructor; vm_compute; intros; discriminate.
  - repeat constructor; vm_compute; intros; discriminate.
  - apply (bool_decide_unpack _). vm_compute. reflexivity.
Defined.

Lemma plain_iterator_shifted_witness :
  collect_plain 4 (xh_elf_plain_reloc_iterator_init 0x1000 (Z.of_nat 3 * entry_size 1) 1) =
  Ok [0x1018; 0x1030; 0x1048].
Proof.
  replace (Ok [_; _; _]) with (Ok ((fun k => 0x1000 + k * entry_size 1) <$> zrange 1 3)) by (vm_compute; reflexivity).
  apply (plain_iterator_shifted 0x1000 1 3 4). lia.
Defined.
