(* ===== verification/XhUtil.v ===== *)
(** xHook/xh_util.c: the protection of a memory range out of the text of
    [/proc/self/maps], changing it page-wise, and flushing the instruction
    cache. *)
From S2P Require Import Prelude Memory CString XhReloc.

Definition XH_ERRNO_UNKNOWN : Z := 1001.
Definition XH_ERRNO_BADMAPS : Z := 1006.
Definition XH_ERRNO_SEGVERR : Z := 1009.

Definition PROT_READ : Z := 1.
Definition PROT_WRITE : Z := 2.
Definition PROT_EXEC : Z := 4.
Definition PAGE_SIZE : Z := 4096.

Section Util.
Context `{Arch}.

Definition PAGE_MASK : Z := up (- PAGE_SIZE).
Definition PAGE_START (addr : Z) : Z := addr .& PAGE_MASK.
Definition PAGE_END (addr : Z) : Z := up (PAGE_START (up (addr + ptr_size - 1)) + PAGE_SIZE).
Definition PAGE_COVER (addr : Z) : Z := up (PAGE_END addr - PAGE_START addr).

(** ** [xh_util_get_mem_protect] *)

(** The local variables that live across the lines of the file. *)
Record prot_scan := { start_addr : Z; load0 : bool; prot : Z; perm : list Z }.

(** [sscanf(line, "%"PRIxPTR"-%"PRIxPTR" %4s ", &start, &end, perm)]: [None] when
    it converts fewer than three. *)
Definition sscanf_region (line : list Z) (perm : list Z) : option (Z * Z * list Z) :=
  match scan_hex line with
  | Some (start, s) =>
      match scan_lit 45 s with
      | Some s =>
          match scan_hex s with
          | Some (end_, s) =>
              match scan_word 4 (skip_spaces s) with
              | Some (w, _) => Some (start, end_, w ++ 0 :: drop (S (length w)) perm)
              | None => None
              end
          | None => None
          end
      | None => None
      end
  | None => None
  end.

Definition has_perm (perm : list Z) (i : nat) (c : Z) : bool := bool_decide (perm !! i = Some c).
Definition set_if (b : bool) (bit prot : Z) : Z := if b then prot .| bit else prot.
Definition clear_unless (b : bool) (bit prot : Z) : Z := if b then prot else prot .& Z.lnot bit.

Definition merge_prot (load0 : bool) (perm : list Z) (prot : Z) : Z :=
  let merge := if load0 then set_if else clear_unless in
  let prot := merge (has_perm perm 0 114) PROT_READ prot in
  let prot := merge (has_perm perm 1 119) PROT_WRITE prot in
  merge (has_perm perm 2 120) PROT_EXEC prot.

(** One line; [true]: the end of the range is found. *)
Definition scan_region (pathname : option (list Z)) (end_addr : Z) (line : list Z) (self : prot_scan)
    : bool * prot_scan :=
  if (match pathname with Some p => negb (strstr line p) | None => false end) then (false, self)
  else
    match sscanf_region line (perm self) with
    | None => (false, self)
    | Some (start, end_, perm') =>
        let self := {| start_addr := start_addr self; load0 := load0 self; prot := prot self; perm := perm' |} in
        if bool_decide (perm' !! 3%nat <> Some 112) then (false, self)
        else if (start <=? start_addr self) && (start_addr self <? end_) then
          let prot := merge_prot (load0 self) perm' (prot self) in
          if end_addr <=? end_
          then (true, {| start_addr := start_addr self; load0 := false; prot := prot; perm := perm' |})
          else (false, {| start_addr := end_; load0 := false; prot := prot; perm := perm' |})
        else (false, self)
    end.

Fixpoint scan_regions (pathname : option (list Z)) (end_addr : Z) (lines : list (list Z)) (self : prot_scan)
    : bool * prot_scan :=
  match lines with
  | [] => (false, self)
  | l :: lines' =>
      let '(found_all, self) := scan_region pathname end_addr l self in
      if found_all then (true, self) else scan_regions pathname end_addr lines' self
  end.

(** The return value and [*prot]; [maps] is the file ([None]: [fopen] fails),
    [raw] the uninitialised [perm]. *)
Definition xh_util_get_mem_protect (maps : option (list Z)) (raw : list Z) (addr len : Z)
    (pathname : option (list Z)) : Z * Z :=
  match maps with
  | None => (XH_ERRNO_BADMAPS, 0)
  | Some file =>
      let '(found_all, self) :=
        scan_regions pathname (up (addr + len)) (fgets_all 511 [] file)
          {| start_addr := addr; load0 := true; prot := 0; perm := raw |} in
      (if found_all then 0 else XH_ERRNO_SEGVERR, prot self)
  end.

Definition xh_util_get_addr_protect (maps : option (list Z)) (raw : list Z) (addr : Z)
    (pathname : option (list Z)) : Z * Z :=
  xh_util_get_mem_protect maps raw addr ptr_size pathname.

(** [0 == errno ? XH_ERRNO_UNKNOWN : errno] after a failed [mprotect]. *)
Definition mprotect_error (errno : Z) : Z := if errno =? 0 then XH_ERRNO_UNKNOWN else errno.

(** ** Reading the kernel's text back *)

(** A mapping of the process. *)
Record vma := { lo : Z; hi : Z; readable : bool; writable : bool; executable : bool; private : bool;
                width : nat; info : list Z }.

Definition perms (v : vma) : list Z :=
  [ if readable v then 114 else 45; if writable v then 119 else 45; if executable v then 120 else 45;
    if private v then 112 else 115 ].
(** Its line: the offset, device, inode and path are [info]. *)
Definition vma_text (v : vma) : list Z :=
  hex_of (width v) (lo v) ++ 45 :: hex_of (width v) (hi v) ++ 32 :: perms v ++ 32 :: info v.
Definition vma_form (v : vma) : Prop :=
  (2 <= width v)%nat /\ 0 <= lo v /\ lo v < hi v /\ hi v < 16 ^ Z.of_nat (width v) /\ hi v < 2 ^ ptr_bits /\
  Forall (fun c => c <> NL) (info v).
#[export] Instance vma_form_dec v : Decision (vma_form v).
Proof. unfold vma_form. apply _. Defined.
(** A line that fits the buffer of 512 characters. *)
Definition vma_ok (v : vma) : Prop := vma_form v /\ (length (vma_text v) < 511)%nat.
#[export] Instance vma_ok_dec v : Decision (vma_ok v).
Proof. unfold vma_ok. apply _. Defined.
Definition maps_text (vs : list vma) : list Z := mjoin (text_line <$> (vma_text <$> vs)).

Definition vma_prot (v : vma) : Z :=
  (if readable v then PROT_READ else 0) + (if writable v then PROT_WRITE else 0) +
  (if executable v then PROT_EXEC else 0).
Definition matches (pathname : option (list Z)) (v : vma) : bool :=
  match pathname with Some p => strstr (text_line (vma_text v)) p | None => true end.

Lemma perms_word v s : scan_word 4 (skip_spaces (32 :: perms v ++ 32 :: s)) = Some (perms v, 32 :: s).
Proof. unfold perms. destruct (readable v), (writable v), (executable v), (private v); reflexivity. Qed.

(** A line of the kernel's text gives back the bounds and the permissions. *)
Lemma sscanf_vma v perm :
  vma_form v -> sscanf_region (text_line (vma_text v)) perm = Some (lo v, hi v, perms v ++ 0 :: drop 5 perm).
Proof.
  intros (Hw & Hlo & Hlt & Hhi & Hp & _). unfold sscanf_region, text_line, vma_text.
  rewrite <- !app_assoc. rewrite hex_scan by (done || lia). cbn [app scan_lit Z.eqb Pos.eqb].
  rewrite <- !app_assoc. rewrite hex_scan by (done || lia). cbn [app].
  rewrite <- app_assoc. cbn [app]. by rewrite perms_word.
Qed.

Lemma has_perms v perm :
  let p := perms v ++ 0 :: perm in
  has_perm p 0 114 = readable v /\ has_perm p 1 119 = writable v /\ has_perm p 2 120 = executable v /\
  (bool_decide (p !! 3%nat <> Some 112) = negb (private v)).
Proof. unfold perms. destruct (readable v), (writable v), (executable v), (private v); by cbn. Qed.

(** A protection has the three bits only. *)
Lemma merge_vma (first : bool) v perm prot :
  0 <= prot < 8 ->
  merge_prot first (perms v ++ 0 :: perm) prot = if first then prot .| vma_prot v else prot .& vma_prot v.
Proof.
  intros Hp. unfold merge_prot. destruct (has_perms v perm) as (-> & -> & -> & _). unfold vma_prot.
  apply Z.eqb_eq. revert Hp. destruct first, (readable v), (writable v), (executable v); intros Hp; by_range prot 8%nat.
Qed.

(** [scan_region] on a line of a mapping. *)
Lemma scan_vma pathname e v self :
  vma_ok v -> 0 <= prot self < 8 ->
  let perm' := perms v ++ 0 :: drop 5 (perm self) in
  scan_region pathname e (text_line (vma_text v)) self =
  if negb (matches pathname v) then (false, self)
  else
    let self' a first p := {| start_addr := a; load0 := first; prot := p; perm := perm' |} in
    if private v && ((lo v <=? start_addr self) && (start_addr self <? hi v)) then
      let p := if load0 self then prot self .| vma_prot v else prot self .& vma_prot v in
      if e <=? hi v then (true, self' (start_addr self) false p) else (false, self' (hi v) false p)
    else (false, self' (start_addr self) (load0 self) (prot self)).
Proof.
  intros Hok Hprot perm'. subst perm'. unfold scan_region, matches. rewrite sscanf_vma by apply Hok.
  assert (Hm : (match pathname with Some p => negb (strstr (text_line (vma_text v)) p) | None => false end) =
    negb (match pathname with Some p => strstr (text_line (vma_text v)) p | None => true end)) by by destruct pathname.
  rewrite Hm. destruct (negb _); [done|].
  destruct (has_perms v (drop 5 (perm self))) as (_ & _ & _ & ->).
  destruct (private v); [|done]. cbn [negb andb start_addr load0 prot]. by rewrite merge_vma.
Qed.

(** The mappings [vs] cover [a .. e) one after the other. *)
Fixpoint covered (pathname : option (list Z)) (a e : Z) (vs : list vma) : Prop :=
  match vs with
  | [] => False
  | v :: vs' => lo v <= a < hi v /\ private v = true /\ matches pathname v = true /\
                if e <=? hi v then vs' = [] else covered pathname (hi v) e vs'
  end.

(** The protection they have in common. *)
Definition common_prot (vs : list vma) : Z := foldr (fun v p => vma_prot v .& p) 7 vs.

Lemma vma_prot_range v : 0 <= vma_prot v < 8.
Proof. unfold vma_prot, PROT_READ, PROT_WRITE, PROT_EXEC. destruct (readable v), (writable v), (executable v); lia. Qed.

Lemma land_7 p : 0 <= p < 8 -> p .& 7 = p.
Proof. intros Hp. change 7 with (Z.ones 3). rewrite Z.land_ones by lia. by apply Z.mod_small. Qed.

Lemma land_range p q : 0 <= p < 8 -> 0 <= q -> 0 <= p .& q < 8.
Proof. intros Hp Hq. apply (is_word_land_l 3); [lia|exact Hp]. Qed.

Lemma common_prot_range vs : 0 <= common_prot vs < 8.
Proof.
  induction vs as [|v vs IH]; cbn [common_prot foldr]; [lia|].
  apply land_range; [apply vma_prot_range|]. fold (common_prot vs). lia.
Qed.

(** What is known of the protection before the first region. *)
Definition prot_so_far (self : prot_scan) : Z := if load0 self then 7 else prot self.

Lemma scan_covered pathname e vs after self :
  Forall vma_ok vs -> covered pathname (start_addr self) e vs -> 0 <= prot self < 8 ->
  (load0 self = true -> prot self = 0) ->
  exists self', scan_regions pathname e ((text_line <$> (vma_text <$> vs)) ++ after) self = (true, self') /\
    prot self' = prot_so_far self .& common_prot vs.
Proof.
  intros Hok. revert self. induction Hok as [|v vs Hv Hok IH]; intros self Hc Hp H0; [done|].
  cbn [covered] in Hc. destruct Hc as (Hin & Hpriv & Hm & Hc).
  cbn [fmap list_fmap app scan_regions]. rewrite scan_vma by done. rewrite Hm, Hpriv. cbn [negb andb].
  destruct (Z.leb_spec (lo v) (start_addr self)), (Z.ltb_spec (start_addr self) (hi v)); try lia. cbn [andb].
  pose proof (vma_prot_range v) as Hr.
  assert (Hnew : (if load0 self then prot self .| vma_prot v else prot self .& vma_prot v) =
    prot_so_far self .& vma_prot v).
  { unfold prot_so_far. destruct (load0 self); [|done]. rewrite H0 by done. rewrite Z.lor_0_l, Z.land_comm.
    symmetry. by apply land_7. }
  rewrite Hnew. destruct (Z.leb_spec e (hi v)).
  - subst vs. eexists. split; [done|]. cbn [prot common_prot foldr]. by rewrite (land_7 (vma_prot v)).
  - cbn [common_prot foldr]. fold (common_prot vs). rewrite Z.land_assoc.
    edestruct IH as (self' & He & Hp'); [| | |exists self'; split; [exact He|exact Hp']]; cbn [start_addr prot load0];
      try done.
    rewrite Z.land_comm. apply land_range; [done|]. unfold prot_so_far. destruct (load0 self); lia.
Qed.

(** A mapping the search passes over. *)
Definition passed (pathname : option (list Z)) (a : Z) (v : vma) : Prop :=
  hi v <= a \/ private v = false \/ matches pathname v = false.

Lemma scan_passed pathname e vs rest self :
  Forall vma_ok vs -> Forall (passed pathname (start_addr self)) vs -> 0 <= prot self < 8 ->
  exists perm', scan_regions pathname e ((text_line <$> (vma_text <$> vs)) ++ rest) self =
    scan_regions pathname e rest
      {| start_addr := start_addr self; load0 := load0 self; prot := prot self; perm := perm' |}.
Proof.
  intros Hok Hpass Hp. revert Hpass. revert self Hp.
  induction Hok as [|v vs Hv Hok IH]; intros self Hp Hpass; [by exists (perm self); destruct self|].
  apply Forall_cons in Hpass as [Hhere Hpass]. cbn [fmap list_fmap app scan_regions]. rewrite scan_vma by done.
  destruct (matches pathname v) eqn:Hm; cbn [negb]; [|by apply IH].
  destruct (private v && ((lo v <=? start_addr self) && (start_addr self <? hi v))) eqn:Hin.
  - breflect. destruct Hhere as [?|[?|?]]; [lia|congruence..].
  - edestruct IH as (perm' & He); [| |exists perm'; exact He]; done.
Qed.

(** The lines of the text are read whole. *)
Lemma form_lines_ok n vs :
  Forall (fun v => vma_form v /\ (length (vma_text v) < n)%nat) vs ->
  Forall (fun l => Forall (fun c => c <> NL) l /\ (length l < n)%nat) (vma_text <$> vs).
Proof.
  intros Hok. apply Forall_fmap. eapply Forall_impl; [exact Hok|]. intros v ((_ & _ & _ & _ & _ & Hinfo) & Hlen).
  split; [|exact Hlen]. unfold vma_text. cbn [compose].
  rewrite Forall_app, Forall_cons, Forall_app, Forall_cons, Forall_app, Forall_cons.
  assert (Hnl : forall n a, Forall (fun c => c <> NL) (hex_of n a)).
  { intros k a. eapply Forall_impl; [apply hex_of_chars|]. by intros ? [_ ?]. }
  repeat split; try apply Hnl; try done. unfold perms, NL.
  repeat constructor; destruct (readable v), (writable v), (executable v), (private v); lia.
Qed.

Lemma maps_lines_ok n vs :
  (511 <= n)%nat -> Forall vma_ok vs ->
  Forall (fun l => Forall (fun c => c <> NL) l /\ (length l < n)%nat) (vma_text <$> vs).
Proof.
  intros Hn Hok. apply form_lines_ok. eapply Forall_impl; [exact Hok|]. intros v [Hv Hlen]. split; [done|lia].
Qed.

Lemma mem_protect_spec before vs after raw addr len pathname :
  Forall vma_ok (before ++ vs ++ after) -> Forall (passed pathname addr) before ->
  covered pathname addr (up (addr + len)) vs ->
  xh_util_get_mem_protect (Some (maps_text (before ++ vs ++ after))) raw addr len pathname =
  (0, common_prot vs).
Proof.
  intros Hok Hbefore Hc. unfold xh_util_get_mem_protect, maps_text.
  rewrite fgets_all_lines by (by apply maps_lines_ok). rewrite !Forall_app in Hok. destruct Hok as (Hok1 & Hok2 & Hok3).
  rewrite !fmap_app.
  destruct (scan_passed pathname (up (addr + len)) before ((text_line <$> (vma_text <$> vs)) ++ (text_line <$> (vma_text <$> after)))
    {| start_addr := addr; load0 := true; prot := 0; perm := raw |}) as (perm' & ->); [done|done|cbn; lia|].
  cbn [start_addr load0 prot].
  destruct (scan_covered pathname (up (addr + len)) vs (text_line <$> (vma_text <$> after))
    {| start_addr := addr; load0 := true; prot := 0; perm := perm' |}) as (self' & -> & Hp');
    [done|done|cbn; lia|done|].
  f_equal. rewrite Hp'. unfold prot_so_far. cbn [load0]. rewrite Z.land_comm. apply land_7, common_prot_range.
Qed.


(** ** Pages *)

Lemma page_start_spec a : 0 <= a < 2 ^ ptr_bits -> PAGE_START a = a - a mod PAGE_SIZE.
Proof.
  intros Ha. pose proof ptr_bits_pos. unfold PAGE_START, PAGE_MASK, up, uwrap, PAGE_SIZE.
  change (a - a mod 4096) with (a - a mod 2 ^ 12). rewrite <- (land_high ptr_bits 12 a) by (done || lia). f_equal.
  symmetry. apply Z.mod_unique with (-1); [left|change (2 ^ 12) with 4096; lia].
  assert (2 ^ 32 <= 2 ^ ptr_bits) by (apply Z.pow_le_mono_r; lia). change (2 ^ 12) with 4096. lia.
Qed.

(** The pages whose protection is changed hold the whole pointer. *)
Lemma page_cover a :
  0 <= a -> a + ptr_size + PAGE_SIZE <= 2 ^ ptr_bits ->
  PAGE_START a <= a /\ a + ptr_size <= PAGE_START a + PAGE_COVER a /\
  PAGE_START a mod PAGE_SIZE = 0 /\ PAGE_COVER a mod PAGE_SIZE = 0 /\ 0 <= PAGE_START a /\
  PAGE_START a + PAGE_COVER a <= 2 ^ ptr_bits.
Proof.
  intros Ha Hend. assert (Hsz : 0 < ptr_size) by (unfold ptr_size; destruct lp64; lia).
  unfold PAGE_COVER, PAGE_END. unfold PAGE_SIZE in Hend.
  assert (Hup : up (a + ptr_size - 1) = a + ptr_size - 1) by (apply uwrap_small; lia). rewrite Hup.
  rewrite !page_start_spec by lia. unfold PAGE_SIZE.
  pose proof (Z.div_mod a 4096 ltac:(lia)) as Hd1. pose proof (Z.mod_pos_bound a 4096 ltac:(lia)) as Hm1.
  pose proof (Z.div_mod (a + ptr_size - 1) 4096 ltac:(lia)) as Hd2.
  pose proof (Z.mod_pos_bound (a + ptr_size - 1) 4096 ltac:(lia)) as Hm2.
  assert (Hle : a / 4096 <= (a + ptr_size - 1) / 4096) by (apply Z.div_le_mono; lia).
  pose proof (Z.div_pos a 4096 Ha ltac:(lia)).
  unfold up. rewrite !(uwrap_small ptr_bits (a + ptr_size - 1 - (a + ptr_size - 1) mod 4096 + 4096)) by lia.
  rewrite !uwrap_small by lia.
  repeat split; try lia.
  - replace (a - a mod 4096) with (a / 4096 * 4096) by lia. apply Z_mod_mult.
  - replace (a + ptr_size - 1 - (a + ptr_size - 1) mod 4096 + 4096 - (a - a mod 4096))
      with (((a + ptr_size - 1) / 4096 + 1 - a / 4096) * 4096) by lia. apply Z_mod_mult.
Qed.

End Util.

(** ** Witnesses *)

#[local] Existing Instance arm64.

Definition demo_vma (lo hi : Z) (w x : bool) (info : list Z) : vma :=
  {| lo := lo; hi := hi; readable := true; writable := w; executable := x; private := true; width := 10; info := info |}.
(** "/a.so" behind the offset; another file; the two mappings of the range. *)
Definition demo_maps : list vma :=
  [ demo_vma 0x7000000000 0x7000002000 false true [48; 32; 47; 97; 46; 115; 111];
    demo_vma 0x7000002000 0x7000003000 true false [48; 32; 47; 98; 46; 115; 111];
    demo_vma 0x7000002000 0x7000003000 true false [48; 32; 47; 97; 46; 115; 111];
    demo_vma 0x7000003000 0x7000004000 false false [49; 32; 47; 97; 46; 115; 111] ].

