(* ===== verification/XhElf.v ===== *)
(** xHook/xh_elf.c: a shared library in memory - its header, program headers and
    dynamic section, the lookup of a symbol in its ELF or GNU hash table, and
    the replacement of a function's slots in its relocation tables.  The
    structures of <elf.h> are byte offsets of the two ELF classes. *)
From S2P Require Import Prelude Memory CString XhReloc XhUtil.

Definition XH_ERRNO_INVAL : Z := 1002.
Definition XH_ERRNO_NOTFND : Z := 1005.
Definition XH_ERRNO_ELFINIT : Z := 1008.

Definition PT_LOAD : Z := 1.
Definition PT_DYNAMIC : Z := 2.
Definition DT_NULL : Z := 0.
Definition DT_PLTRELSZ : Z := 2.
Definition DT_HASH : Z := 4.
Definition DT_STRTAB : Z := 5.
Definition DT_SYMTAB : Z := 6.
Definition DT_RELA : Z := 7.
Definition DT_RELASZ : Z := 8.
Definition DT_REL : Z := 17.
Definition DT_RELSZ : Z := 18.
Definition DT_PLTREL : Z := 20.
Definition DT_JMPREL : Z := 23.
Definition DT_ANDROID_REL : Z := 0x6000000f.
Definition DT_ANDROID_RELSZ : Z := 0x60000010.
Definition DT_ANDROID_RELA : Z := 0x60000011.
Definition DT_ANDROID_RELASZ : Z := 0x60000012.
Definition DT_GNU_HASH : Z := 0x6ffffef5.

Section Elf.
Context `{Arch}.

Definition XH_ELF_R_GENERIC_JUMP_SLOT : Z := if lp64 then 1026 else 22.
Definition XH_ELF_R_GENERIC_GLOB_DAT : Z := if lp64 then 1025 else 21.
Definition XH_ELF_R_GENERIC_ABS : Z := if lp64 then 257 else 2.
Definition XH_ELF_R_SYM (info : Z) : Z := if lp64 then info .>> 32 else info .>> 8.
Definition XH_ELF_R_TYPE (info : Z) : Z := if lp64 then info .& 0xffffffff else info .& 0xff.

(** A pointer-sized field. *)
Definition load_ptr (m : mem) (a : Z) : option Z := load m (Z.to_nat ptr_size) a.
Definition store_ptr (m : mem) (a v : Z) : option mem := store m (Z.to_nat ptr_size) a v.

Definition e_phoff (m : mem) (ehdr : Z) : option Z := load_ptr m (ehdr + if lp64 then 32 else 28).
Definition e_phnum (m : mem) (ehdr : Z) : option Z := load16 m (ehdr + if lp64 then 56 else 44).
Definition phdr_size : Z := if lp64 then 56 else 32.
Definition p_type (m : mem) (phdr : Z) : option Z := load32 m phdr.
Definition p_offset (m : mem) (phdr : Z) : option Z := load_ptr m (phdr + ptr_size).
Definition p_vaddr (m : mem) (phdr : Z) : option Z := load_ptr m (phdr + 2 * ptr_size).
Definition p_memsz (m : mem) (phdr : Z) : option Z := load_ptr m (phdr + 5 * ptr_size).
Definition dyn_size : Z := 2 * ptr_size.
Definition d_tag (m : mem) (dyn : Z) : option Z := load_ptr m dyn.
Definition d_val (m : mem) (dyn : Z) : option Z := load_ptr m (dyn + ptr_size).
Definition sym_size : Z := if lp64 then 24 else 16.
Definition st_name (m : mem) (symtab i : Z) : option Z := load32 m (symtab + i * sym_size).

(** ** [xh_elf_check_elfheader] *)

Definition ELFCLASS : Z := if lp64 then 2 else 1.
Definition e_machine_ok : Z := if lp64 then 183 else 40.

(** Checks in order, each on a field; the first that fails is an error. *)
Fixpoint check_fields (m : mem) (checks : list (Z * nat * list Z)) : res Z :=
  match checks with
  | [] => Ok 0
  | (a, n, vs) :: checks' =>
      let! v := of_opt (load m n a) in
      if bool_decide (v ∈ vs) then check_fields m checks' else Ok XH_ERRNO_FORMAT
  end.

(** Magic, class, endianness, version, type (ET_EXEC or ET_DYN), machine, version. *)
Definition xh_elf_check_elfheader (m : mem) (base_addr : Z) : res Z :=
  check_fields m
    [ (base_addr, 4%nat, [0x464c457f]); (base_addr + 4, 1%nat, [ELFCLASS]); (base_addr + 5, 1%nat, [1]);
      (base_addr + 6, 1%nat, [1]); (base_addr + 16, 2%nat, [2; 3]); (base_addr + 18, 2%nat, [e_machine_ok]);
      (base_addr + 20, 4%nat, [1]) ].

(** ** The library: [xh_elf_t] *)

Record hash_table := {
  bucket : Z; bucket_cnt : Z; chain : Z; chain_cnt : Z;
  symoffset : Z; bloom : Z; bloom_sz : Z; bloom_shift : Z;
  is_use_gnu_hash : Z
}.

Record tables := {
  strtab : Z; symtab : Z;
  relplt : Z; relplt_sz : Z;
  reldyn : Z; reldyn_sz : Z;
  relandroid : Z; relandroid_sz : Z;
  rela : Z                              (* is_use_rela *)
}.

Record xh_elf_t := {
  pathname : option (list Z);
  base_addr : Z; bias_addr : Z;
  ehdr : Z; phdr : Z;
  dyn : Z; dyn_sz : Z;
  tabs : tables;
  hash : hash_table
}.

Definition with_tables (t : tables) (self : xh_elf_t) : xh_elf_t :=
  {| pathname := pathname self; base_addr := base_addr self; bias_addr := bias_addr self;
     ehdr := ehdr self; phdr := phdr self; dyn := dyn self; dyn_sz := dyn_sz self; tabs := t; hash := hash self |}.
Definition with_hash (h : hash_table) (self : xh_elf_t) : xh_elf_t :=
  {| pathname := pathname self; base_addr := base_addr self; bias_addr := bias_addr self;
     ehdr := ehdr self; phdr := phdr self; dyn := dyn self; dyn_sz := dyn_sz self; tabs := tabs self; hash := h |}.
Definition with_bias (b : Z) (self : xh_elf_t) : xh_elf_t :=
  {| pathname := pathname self; base_addr := base_addr self; bias_addr := b;
     ehdr := ehdr self; phdr := phdr self; dyn := dyn self; dyn_sz := dyn_sz self; tabs := tabs self; hash := hash self |}.
Definition with_dyn (d sz : Z) (self : xh_elf_t) : xh_elf_t :=
  {| pathname := pathname self; base_addr := base_addr self; bias_addr := bias_addr self;
     ehdr := ehdr self; phdr := phdr self; dyn := d; dyn_sz := sz; tabs := tabs self; hash := hash self |}.

Definition no_hash : hash_table :=
  {| bucket := 0; bucket_cnt := 0; chain := 0; chain_cnt := 0; symoffset := 0; bloom := 0; bloom_sz := 0;
     bloom_shift := 0; is_use_gnu_hash := 0 |}.
Definition no_tables : tables :=
  {| strtab := 0; symtab := 0; relplt := 0; relplt_sz := 0; reldyn := 0; reldyn_sz := 0; relandroid := 0;
     relandroid_sz := 0; rela := 0 |}.

Definition set_strtab v t := {| strtab := v; symtab := symtab t; relplt := relplt t; relplt_sz := relplt_sz t;
  reldyn := reldyn t; reldyn_sz := reldyn_sz t; relandroid := relandroid t; relandroid_sz := relandroid_sz t; rela := rela t |}.
Definition set_symtab v t := {| strtab := strtab t; symtab := v; relplt := relplt t; relplt_sz := relplt_sz t;
  reldyn := reldyn t; reldyn_sz := reldyn_sz t; relandroid := relandroid t; relandroid_sz := relandroid_sz t; rela := rela t |}.
Definition set_relplt v t := {| strtab := strtab t; symtab := symtab t; relplt := v; relplt_sz := relplt_sz t;
  reldyn := reldyn t; reldyn_sz := reldyn_sz t; relandroid := relandroid t; relandroid_sz := relandroid_sz t; rela := rela t |}.
Definition set_relplt_sz v t := {| strtab := strtab t; symtab := symtab t; relplt := relplt t; relplt_sz := v;
  reldyn := reldyn t; reldyn_sz := reldyn_sz t; relandroid := relandroid t; relandroid_sz := relandroid_sz t; rela := rela t |}.
Definition set_reldyn v t := {| strtab := strtab t; symtab := symtab t; relplt := relplt t; relplt_sz := relplt_sz t;
  reldyn := v; reldyn_sz := reldyn_sz t; relandroid := relandroid t; relandroid_sz := relandroid_sz t; rela := rela t |}.
Definition set_reldyn_sz v t := {| strtab := strtab t; symtab := symtab t; relplt := relplt t; relplt_sz := relplt_sz t;
  reldyn := reldyn t; reldyn_sz := v; relandroid := relandroid t; relandroid_sz := relandroid_sz t; rela := rela t |}.
Definition set_relandroid v t := {| strtab := strtab t; symtab := symtab t; relplt := relplt t; relplt_sz := relplt_sz t;
  reldyn := reldyn t; reldyn_sz := reldyn_sz t; relandroid := v; relandroid_sz := relandroid_sz t; rela := rela t |}.
Definition set_relandroid_sz v t := {| strtab := strtab t; symtab := symtab t; relplt := relplt t; relplt_sz := relplt_sz t;
  reldyn := reldyn t; reldyn_sz := reldyn_sz t; relandroid := relandroid t; relandroid_sz := v; rela := rela t |}.
Definition set_rela v t := {| strtab := strtab t; symtab := symtab t; relplt := relplt t; relplt_sz := relplt_sz t;
  reldyn := reldyn t; reldyn_sz := reldyn_sz t; relandroid := relandroid t; relandroid_sz := relandroid_sz t; rela := v |}.

(** ** Program headers *)

(** The loop [for(phdr = self->phdr; phdr < self->phdr + self->ehdr->e_phnum; phdr++)]
    over the [n] headers left; [None]: NULL. *)
Fixpoint first_segment (n : nat) (m : mem) (phdr type : Z) (offset : option Z) : res (option Z) :=
  match n with
  | O => Ok None
  | S n' =>
      let! t := of_opt (p_type m phdr) in
      let! found := (if t =? type
                     then match offset with
                          | None => Ok true
                          | Some offset => let! o := of_opt (p_offset m phdr) in Ok (o =? offset)
                          end
                     else Ok false) in
      if found : bool then Ok (Some phdr) else first_segment n' m (phdr + phdr_size) type offset
  end.

Definition xh_elf_get_first_segment_by_type (m : mem) (self : xh_elf_t) (type : Z) : res (option Z) :=
  let! n := of_opt (e_phnum m (ehdr self)) in first_segment (Z.to_nat n) m (phdr self) type None.
Definition xh_elf_get_first_segment_by_type_offset (m : mem) (self : xh_elf_t) (type offset : Z) : res (option Z) :=
  let! n := of_opt (e_phnum m (ehdr self)) in first_segment (Z.to_nat n) m (phdr self) type (Some offset).

(** ** [xh_elf_init] *)

(** A table's address in memory; an error below the base. *)
Definition set_table (self : xh_elf_t) (set : Z -> tables -> tables) (val : Z) : Z * xh_elf_t :=
  let p := up (bias_addr self + val) in
  let self := with_tables (set p (tabs self)) self in
  if p <? base_addr self then (XH_ERRNO_FORMAT, self) else (0, self).

(** One entry of the dynamic section. *)
Definition dyn_entry (m : mem) (self : xh_elf_t) (tag val : Z) : res (Z * xh_elf_t) :=
  let set f v := Ok (0, with_tables (f v (tabs self)) self) in
  let word k := of_opt (load32 m (up (bias_addr self + val) + 4 * k)) in
  if tag =? DT_STRTAB then Ok (set_table self set_strtab val)
  else if tag =? DT_SYMTAB then Ok (set_table self set_symtab val)
  else if tag =? DT_PLTREL then set set_rela (b2z (val =? DT_RELA))
  else if tag =? DT_JMPREL then Ok (set_table self set_relplt val)
  else if tag =? DT_PLTRELSZ then set set_relplt_sz (u32 val)
  else if (tag =? DT_REL) || (tag =? DT_RELA) then Ok (set_table self set_reldyn val)
  else if (tag =? DT_RELSZ) || (tag =? DT_RELASZ) then set set_reldyn_sz (u32 val)
  else if (tag =? DT_ANDROID_REL) || (tag =? DT_ANDROID_RELA) then Ok (set_table self set_relandroid val)
  else if (tag =? DT_ANDROID_RELSZ) || (tag =? DT_ANDROID_RELASZ) then set set_relandroid_sz (u32 val)
  else if tag =? DT_HASH then
    if is_use_gnu_hash (hash self) =? 1 then Ok (0, self)
    else
      let raw := up (bias_addr self + val) in
      if raw <? base_addr self then Ok (XH_ERRNO_FORMAT, self)
      else
        let! n := word 0 in
        let! c := word 1 in
        let h := hash self in
        Ok (0, with_hash {| bucket := raw + 8; bucket_cnt := n; chain := raw + 8 + 4 * n; chain_cnt := c;
              symoffset := symoffset h; bloom := bloom h; bloom_sz := bloom_sz h; bloom_shift := bloom_shift h;
              is_use_gnu_hash := is_use_gnu_hash h |} self)
  else if tag =? DT_GNU_HASH then
    let raw := up (bias_addr self + val) in
    if raw <? base_addr self then Ok (XH_ERRNO_FORMAT, self)
    else
      let! n := word 0 in
      let! o := word 1 in
      let! z := word 2 in
      let! s := word 3 in
      let bucket := raw + 16 + ptr_size * z in
      Ok (0, with_hash {| bucket := bucket; bucket_cnt := n; chain := bucket + 4 * n;
            chain_cnt := chain_cnt (hash self); symoffset := o; bloom := raw + 16; bloom_sz := z; bloom_shift := s;
            is_use_gnu_hash := 1 |} self)
  else Ok (0, self).

(** The loop over the [n] entries left. *)
Fixpoint dyn_loop (n : nat) (m : mem) (dyn : Z) (self : xh_elf_t) : res (Z * xh_elf_t) :=
  match n with
  | O => Ok (0, self)
  | S n' =>
      let! tag := of_opt (d_tag m dyn) in
      if tag =? DT_NULL then Ok (0, self)
      else
        let! val := of_opt (d_val m dyn) in
        let! (r, self) := dyn_entry m self tag val in
        if r =? 0 then dyn_loop n' m (dyn + dyn_size) self else Ok (r, self)
  end.

Definition xh_elf_check (self : xh_elf_t) : Z :=
  let t := tabs self in let h := hash self in
  if base_addr self =? 0 then 1 else if bias_addr self =? 0 then 1
  else if ehdr self =? 0 then 1 else if phdr self =? 0 then 1
  else if strtab t =? 0 then 1 else if symtab t =? 0 then 1
  else if bucket h =? 0 then 1 else if chain h =? 0 then 1
  else if (is_use_gnu_hash h =? 1) && (bloom h =? 0) then 1
  else 0.

(** The magic "APS2" of a packed section. *)
Definition check_android (m : mem) (self : xh_elf_t) : res (Z * xh_elf_t) :=
  let t := tabs self in
  if relandroid t =? 0 then Ok (0, self)
  else if relandroid_sz t <? 4 then Ok (XH_ERRNO_FORMAT, self)
  else
    let! aps2 := strcmp_prefix m [65; 80; 83; 50] (relandroid t) in
    if aps2 : bool
    then Ok (0, with_tables (set_relandroid_sz (relandroid_sz t - 4) (set_relandroid (up (relandroid t + 4)) t)) self)
    else Ok (XH_ERRNO_FORMAT, self).

Definition elf_reset (base : Z) (path : option (list Z)) : xh_elf_t :=
  {| pathname := path; base_addr := base; bias_addr := 0; ehdr := base; phdr := 0; dyn := 0; dyn_sz := 0;
     tabs := no_tables; hash := no_hash |}.

Definition xh_elf_init (m : mem) (self : xh_elf_t) (base : Z) (path : option (list Z)) : res (Z * xh_elf_t) :=
  if (base =? 0) || bool_decide (path = None) then Ok (XH_ERRNO_INVAL, self)
  else
    let self := elf_reset base path in
    let! phoff := of_opt (e_phoff m base) in
    let self := {| pathname := path; base_addr := base; bias_addr := 0; ehdr := base; phdr := up (base + phoff);
                   dyn := 0; dyn_sz := 0; tabs := no_tables; hash := no_hash |} in
    let! phdr0 := xh_elf_get_first_segment_by_type_offset m self PT_LOAD 0 in
    match phdr0 with
    | None => Ok (XH_ERRNO_FORMAT, self)
    | Some phdr0 =>
        let! vaddr := of_opt (p_vaddr m phdr0) in
        if base <? vaddr then Ok (XH_ERRNO_FORMAT, self)
        else
          let self := with_bias (base - vaddr) self in
          let! dhdr := xh_elf_get_first_segment_by_type m self PT_DYNAMIC in
          match dhdr with
          | None => Ok (XH_ERRNO_FORMAT, self)
          | Some dhdr =>
              let! vaddr := of_opt (p_vaddr m dhdr) in
              let! memsz := of_opt (p_memsz m dhdr) in
              let self := with_dyn (up (bias_addr self + vaddr)) (u32 memsz) self in
              let! (r, self) := dyn_loop (Z.to_nat (dyn_sz self / dyn_size)) m (dyn self) self in
              if negb (r =? 0) then Ok (r, self)
              else
                let! (r, self) := check_android m self in
                if negb (r =? 0) then Ok (r, self)
                else if negb (xh_elf_check self =? 0) then Ok (XH_ERRNO_FORMAT, self)
                else Ok (0, self)
          end
    end.

(** ** Hash functions *)

Definition elf_hash_step (h c : Z) : Z :=
  let h := u32 (u32 (h .<< 4) + c) in
  let g := h .& 0xf0000000 in
  let h := h .^ g in
  h .^ (g .>> 24).
Definition xh_elf_hash (name : list Z) : Z := fold_left elf_hash_step name 0.

Definition xh_elf_gnu_hash (name : list Z) : Z := fold_left (fun h c => u32 (h + u32 (u32 (h .<< 5) + c))) name 5381.

(** ** Symbol lookup: [inl]-like [None] is [XH_ERRNO_NOTFND] *)

(** [0 == strcmp(symbol, self->strtab + self->symtab\[i\].st_name)] *)
Definition sym_is (m : mem) (self : xh_elf_t) (symbol : list Z) (i : Z) : res bool :=
  let! name := of_opt (st_name m (symtab (tabs self)) i) in
  strcmp_eq m symbol (strtab (tabs self) + name).

(** [bucket\[k\]] and [chain\[k\]] *)
Definition bucket_at (m : mem) (self : xh_elf_t) (k : Z) : res Z := of_opt (load32 m (bucket (hash self) + 4 * k)).
Definition chain_at (m : mem) (self : xh_elf_t) (k : Z) : res Z := of_opt (load32 m (chain (hash self) + 4 * k)).

(** A remainder; the divisor 0 is undefined. *)
Definition umod (x y : Z) : res Z := if y =? 0 then Fault else Ok (x mod y).

Fixpoint hash_chain (fuel : nat) (m : mem) (self : xh_elf_t) (symbol : list Z) (i : Z) : res (option Z) :=
  match fuel with
  | O => NoFuel
  | S fuel' =>
      if i =? 0 then Ok None
      else
        let! found := sym_is m self symbol i in
        if found : bool then Ok (Some i)
        else let! i := chain_at m self i in hash_chain fuel' m self symbol i
  end.

Definition xh_elf_hash_lookup (fuel : nat) (m : mem) (self : xh_elf_t) (symbol : list Z) : res (option Z) :=
  let! b := umod (xh_elf_hash symbol) (bucket_cnt (hash self)) in
  let! i := bucket_at m self b in
  hash_chain fuel m self symbol i.

Fixpoint gnu_chain (fuel : nat) (m : mem) (self : xh_elf_t) (symbol : list Z) (h i : Z) : res (option Z) :=
  match fuel with
  | O => NoFuel
  | S fuel' =>
      let! name := of_opt (st_name m (symtab (tabs self)) i) in
      let! symhash := chain_at m self (u32 (i - symoffset (hash self))) in
      let! found := (if (h .| 1) =? (symhash .| 1) then strcmp_eq m symbol (strtab (tabs self) + name) else Ok false) in
      if found : bool then Ok (Some i)
      else if truthy (symhash .& 1) then Ok None
      else gnu_chain fuel' m self symbol h (u32 (i + 1))
  end.

(** The Bloom filter: [false] when the symbol is surely missing. *)
Definition bloom_test (m : mem) (self : xh_elf_t) (h : Z) : res bool :=
  let! k := umod (h / ptr_bits) (bloom_sz (hash self)) in
  let! word := of_opt (load_ptr m (bloom (hash self) + ptr_size * k)) in
  if 32 <=? bloom_shift (hash self) then Fault
  else
    let mask := (1 .<< (h mod ptr_bits)) .| (1 .<< ((h .>> bloom_shift (hash self)) mod ptr_bits)) in
    Ok ((word .& mask) =? mask).

Definition xh_elf_gnu_hash_lookup_def (fuel : nat) (m : mem) (self : xh_elf_t) (symbol : list Z) : res (option Z) :=
  let h := xh_elf_gnu_hash symbol in
  let! possible := bloom_test m self h in
  if negb possible then Ok None
  else
    let! b := umod h (bucket_cnt (hash self)) in
    let! i := bucket_at m self b in
    if i <? symoffset (hash self) then Ok None else gnu_chain fuel m self symbol h i.

(** The loop over [i .. symoffset], [n] left. *)
Fixpoint undef_loop (n : nat) (m : mem) (self : xh_elf_t) (symbol : list Z) (i : Z) : res (option Z) :=
  match n with
  | O => Ok None
  | S n' =>
      let! found := sym_is m self symbol i in
      if found : bool then Ok (Some i) else undef_loop n' m self symbol (i + 1)
  end.

Definition xh_elf_gnu_hash_lookup_undef (m : mem) (self : xh_elf_t) (symbol : list Z) : res (option Z) :=
  undef_loop (Z.to_nat (symoffset (hash self))) m self symbol 0.

Definition xh_elf_gnu_hash_lookup (fuel : nat) (m : mem) (self : xh_elf_t) (symbol : list Z) : res (option Z) :=
  let! r := xh_elf_gnu_hash_lookup_def fuel m self symbol in
  match r with
  | Some i => Ok (Some i)
  | None => xh_elf_gnu_hash_lookup_undef m self symbol
  end.

Definition xh_elf_find_symidx_by_name (fuel : nat) (m : mem) (self : xh_elf_t) (symbol : list Z) : res (option Z) :=
  if truthy (is_use_gnu_hash (hash self)) then xh_elf_gnu_hash_lookup fuel m self symbol
  else xh_elf_hash_lookup fuel m self symbol.

(** ** Replacing a function *)

Section Hook.

(** The kernel: what [/proc/self/maps] reads, [mprotect] ([Some errno] when it
    fails) and the protection of each byte. *)
Record kernel (W : Type) := {
  proc_maps : W -> option (list Z);
  mprotect : Z -> Z -> Z -> W -> option Z * W;
  byte_prot : W -> Z -> Z
}.
Context {W : Type} (K : kernel W) (raw_perm : list Z).

(** The memory, the kernel, [*old_func] once it is written, and the ranges whose
    instruction cache was flushed. *)
Record hook_state := {
  hmem : mem;
  world : W;
  old_func : option Z;
  flushed : list (Z * Z)
}.

Definition xh_util_set_addr_protect (addr prot : Z) (w : W) : Z * W :=
  match mprotect W K (PAGE_START addr) (PAGE_COVER addr) prot w with
  | (None, w) => (0, w)
  | (Some errno, w) => (mprotect_error errno, w)
  end.

Definition xh_util_flush_instruction_cache (addr : Z) (st : hook_state) : hook_state :=
  {| hmem := hmem st; world := world st; old_func := old_func st;
     flushed := (PAGE_START addr, PAGE_END addr) :: flushed st |}.

(** Every byte of the pointer at [addr] may be written. *)
Definition can_write (w : W) (addr : Z) : bool :=
  forallb (fun i => truthy (byte_prot W K w (addr + i) .& PROT_WRITE)) (zrange 0 (Z.to_nat ptr_size)).

Definition need_prot : Z := PROT_READ .| PROT_WRITE.

(** [want_old]: the caller's [old_func] is not NULL. *)
Definition xh_elf_replace_function (self : xh_elf_t) (addr new_func : Z) (want_old : bool) (st : hook_state)
    : res (Z * hook_state) :=
  let! cur := of_opt (load_ptr (hmem st) addr) in
  if cur =? new_func then Ok (0, st)
  else
    let '(r, old_prot) := xh_util_get_addr_protect (proc_maps W K (world st)) raw_perm addr (pathname self) in
    if negb (r =? 0) then Ok (r, st)
    else
      let '(r, w) := if old_prot =? need_prot then (0, world st)
                     else xh_util_set_addr_protect addr need_prot (world st) in
      if negb (r =? 0)
      then Ok (r, {| hmem := hmem st; world := w; old_func := old_func st; flushed := flushed st |})
      else
        let! old_addr := of_opt (load_ptr (hmem st) addr) in
        if negb (can_write w addr) then Fault
        else
          let! m := of_opt (store_ptr (hmem st) addr new_func) in
          let w := if old_prot =? need_prot then w else snd (xh_util_set_addr_protect addr old_prot w) in
          Ok (0, xh_util_flush_instruction_cache addr
                   {| hmem := m; world := w; old_func := if want_old then Some old_addr else old_func st;
                      flushed := flushed st |}).

(** The result, [*found] and the state, for the relocation ([r_offset], [r_info]). *)
Definition xh_elf_find_and_replace_func (self : xh_elf_t) (is_plt : bool) (new_func : Z) (want_old : bool)
    (symidx : Z) (rel : Z * Z) (st : hook_state) : res (Z * bool * hook_state) :=
  let '(r_offset, r_info) := rel in
  if negb (XH_ELF_R_SYM r_info =? symidx) then Ok (0, false, st)
  else
    let r_type := XH_ELF_R_TYPE r_info in
    if is_plt && negb (r_type =? XH_ELF_R_GENERIC_JUMP_SLOT) then Ok (0, false, st)
    else if negb is_plt && (negb (r_type =? XH_ELF_R_GENERIC_GLOB_DAT) && negb (r_type =? XH_ELF_R_GENERIC_ABS))
    then Ok (0, false, st)
    else
      let addr := up (bias_addr self + r_offset) in
      if addr <? base_addr self then Ok (XH_ERRNO_FORMAT, true, st)
      else
        let! (r, st) := xh_elf_replace_function self addr new_func want_old st in
        Ok (r, true, st).

(** [r_offset] and [r_info] of a [Rela] or [Rel] in memory. *)
Definition rel_fields (m : mem) (a : Z) : res (Z * Z) :=
  let! info := of_opt (load_ptr m (a + ptr_size)) in
  let! offset := of_opt (load_ptr m a) in
  Ok (offset, info).

(** The loops over a plain and over a packed section. *)
Fixpoint plain_loop (fuel : nat) (self : xh_elf_t) (is_plt : bool) (new_func : Z) (want_old : bool) (symidx : Z)
    (it : xh_elf_plain_reloc_iterator_t) (st : hook_state) : res (Z * hook_state) :=
  match fuel with
  | O => NoFuel
  | S fuel' =>
      match xh_elf_plain_reloc_iterator_next it with
      | (None, _) => Ok (0, st)
      | (Some a, it) =>
          let! rel := rel_fields (hmem st) a in
          let! (r, found, st) := xh_elf_find_and_replace_func self is_plt new_func want_old symidx rel st in
          if negb (r =? 0) then Ok (r, st)
          else if is_plt && found then Ok (0, st)
          else plain_loop fuel' self is_plt new_func want_old symidx it st
      end
  end.

Fixpoint packed_loop (fuel : nat) (self : xh_elf_t) (new_func : Z) (want_old : bool) (symidx : Z)
    (it : xh_elf_packed_reloc_iterator_t) (st : hook_state) : res (Z * hook_state) :=
  match fuel with
  | O => NoFuel
  | S fuel' =>
      let! (rel, it) := xh_elf_packed_reloc_iterator_next (hmem st) it in
      match rel with
      | None => Ok (0, st)
      | Some rel =>
          let! (r, _, st) := xh_elf_find_and_replace_func self false new_func want_old symidx
                               (r_offset rel, r_info rel) st in
          if negb (r =? 0) then Ok (r, st) else packed_loop fuel' self new_func want_old symidx it st
      end
  end.

(** A plain section is walked in at most [rel_sz] steps. *)
Definition hook_plain (self : xh_elf_t) (is_plt : bool) (new_func : Z) (want_old : bool) (symidx rel rel_sz : Z)
    (st : hook_state) : res (Z * hook_state) :=
  if rel =? 0 then Ok (0, st)
  else plain_loop (S (Z.to_nat rel_sz)) self is_plt new_func want_old symidx
         (xh_elf_plain_reloc_iterator_init rel rel_sz (rela (tabs self))) st.

Definition hook_packed (fuel : nat) (self : xh_elf_t) (new_func : Z) (want_old : bool) (symidx : Z)
    (st : hook_state) : res (Z * hook_state) :=
  let t := tabs self in
  if relandroid t =? 0 then Ok (0, st)
  else
    let! (_, it) := xh_elf_packed_reloc_iterator_init (hmem st) (relandroid t) (relandroid_sz t) (rela t) in
    packed_loop fuel self new_func want_old symidx it st.

(** [fuel] bounds a hash chain and the packed relocations. *)
Definition xh_elf_hook (fuel : nat) (self : xh_elf_t) (symbol : option (list Z)) (new_func : Z) (want_old : bool)
    (st : hook_state) : res (Z * hook_state) :=
  match pathname self, symbol with
  | None, _ => Ok (XH_ERRNO_ELFINIT, st)
  | Some _, None => Ok (XH_ERRNO_INVAL, st)
  | Some _, Some symbol =>
      if new_func =? 0 then Ok (XH_ERRNO_INVAL, st)
      else
        let! symidx := xh_elf_find_symidx_by_name fuel (hmem st) self symbol in
        match symidx with
        | None => Ok (0, st)
        | Some symidx =>
            let t := tabs self in
            let! (r, st) := hook_plain self true new_func want_old symidx (relplt t) (relplt_sz t) st in
            if negb (r =? 0) then Ok (r, st)
            else
              let! (r, st) := hook_plain self false new_func want_old symidx (reldyn t) (reldyn_sz t) st in
              if negb (r =? 0) then Ok (r, st)
              else hook_packed fuel self new_func want_old symidx st
        end
  end.

End Hook.

(** ** Initialisation and lookup only read *)

Lemma mono_e_fields : (forall a, mono (fun m => of_opt (e_phoff m a))) /\ (forall a, mono (fun m => of_opt (e_phnum m a))) /\
  (forall a, mono (fun m => of_opt (p_type m a))) /\ (forall a, mono (fun m => of_opt (p_offset m a))) /\
  (forall a, mono (fun m => of_opt (p_vaddr m a))) /\ (forall a, mono (fun m => of_opt (p_memsz m a))) /\
  (forall a, mono (fun m => of_opt (d_tag m a))) /\ (forall a, mono (fun m => of_opt (d_val m a))) /\
  (forall a i, mono (fun m => of_opt (st_name m a i))) /\ (forall a, mono (fun m => of_opt (load_ptr m a))).
Proof. repeat split; intros; apply mono_load. Qed.
#[local] Hint Extern 1 (mono (fun m => of_opt _)) => apply mono_e_fields : mono.

Lemma mono_sym_is self symbol i : mono (fun m => sym_is m self symbol i).
Proof. unfold sym_is. solve_mono. Qed.
Lemma mono_bucket_at self k : mono (fun m => bucket_at m self k).
Proof. apply mono_load. Qed.
Lemma mono_chain_at self k : mono (fun m => chain_at m self k).
Proof. apply mono_load. Qed.
#[local] Hint Resolve mono_sym_is mono_bucket_at mono_chain_at : mono.

Lemma mono_hash_chain fuel self symbol i : mono (fun m => hash_chain fuel m self symbol i).
Proof. revert i. induction fuel as [|fuel IH]; intros i; cbn [hash_chain]; solve_mono. Qed.
Lemma mono_gnu_chain fuel self symbol h i : mono (fun m => gnu_chain fuel m self symbol h i).
Proof. revert i. induction fuel as [|fuel IH]; intros i; cbn [gnu_chain]; solve_mono. Qed.
Lemma mono_undef_loop n self symbol i : mono (fun m => undef_loop n m self symbol i).
Proof. revert i. induction n as [|n IH]; intros i; cbn [undef_loop]; solve_mono. Qed.
#[local] Hint Resolve mono_hash_chain mono_gnu_chain mono_undef_loop : mono.

Lemma mono_find_symidx fuel self symbol : mono (fun m => xh_elf_find_symidx_by_name fuel m self symbol).
Proof.
  unfold xh_elf_find_symidx_by_name, xh_elf_gnu_hash_lookup, xh_elf_gnu_hash_lookup_def, xh_elf_gnu_hash_lookup_undef,
    xh_elf_hash_lookup, bloom_test. solve_mono.
Qed.

Lemma mono_rel_fields a : mono (fun m => rel_fields m a).
Proof. unfold rel_fields. solve_mono. Qed.

Lemma mono_first_segment n phdr type offset : mono (fun m => first_segment n m phdr type offset).
Proof. revert phdr. induction n as [|n IH]; intros phdr; cbn [first_segment]; solve_mono. Qed.
Lemma mono_dyn_entry self tag val : mono (fun m => dyn_entry m self tag val).
Proof. unfold dyn_entry. solve_mono. Qed.
#[local] Hint Resolve mono_first_segment mono_dyn_entry : mono.
Lemma mono_dyn_loop n dyn self : mono (fun m => dyn_loop n m dyn self).
Proof. revert dyn self. induction n as [|n IH]; intros dyn self; cbn [dyn_loop]; solve_mono. Qed.
Lemma mono_check_android self : mono (fun m => check_android m self).
Proof. unfold check_android. solve_mono. Qed.
#[local] Hint Resolve mono_dyn_loop mono_check_android : mono.

Lemma mono_init self base path : mono (fun m => xh_elf_init m self base path).
Proof.
  unfold xh_elf_init, xh_elf_get_first_segment_by_type, xh_elf_get_first_segment_by_type_offset. solve_mono.
Qed.

(** ** Symbol lookup finds exactly the symbols of the table

    [names] are the names of the dynamic symbols, by index. *)

Definition syms_ok (m : mem) (self : xh_elf_t) (names : list (list Z)) : Prop :=
  forall i name, names !! i = Some name ->
    no_nul name /\ exists off, st_name m (symtab (tabs self)) (Z.of_nat i) = Some off /\
      cstr_at m (strtab (tabs self) + off) name.

(** Symbol [i] of the table, of index [first] or more. *)
Definition sym (names : list (list Z)) (first i : Z) (name : list Z) : Prop :=
  first <= i /\ 0 <= i /\ names !! Z.to_nat i = Some name.

(** A chain of the ELF hash table. *)
Fixpoint chain_path (m : mem) (self : xh_elf_t) (i : Z) (l : list Z) : Prop :=
  match l with
  | [] => i = 0
  | j :: l' => i = j /\ i <> 0 /\ exists next, chain_at m self i = Ok next /\ chain_path m self next l'
  end.

(** A well-formed ELF hash table: the chain of each bucket has distinct symbols and
    all those of the bucket. *)
Definition elf_hash_ok (m : mem) (self : xh_elf_t) (names : list (list Z)) : Prop :=
  0 < bucket_cnt (hash self) /\
  forall b, 0 <= b < bucket_cnt (hash self) ->
    exists i l, bucket_at m self b = Ok i /\ chain_path m self i l /\ NoDup l /\
      Forall (fun j => 0 < j < Z.of_nat (length names)) l /\
      forall j name, sym names 1 j name -> xh_elf_hash name mod bucket_cnt (hash self) = b -> j ∈ l.

(** A well-formed GNU hash table: the hashed symbols, from [symoffset] on, are
    grouped by bucket; the chain word of each is its hash, the lowest bit marking
    the last of the bucket; the Bloom filter has the bits of each. *)
Definition gnu_bucket (self : xh_elf_t) (name : list Z) : Z := xh_elf_gnu_hash name mod bucket_cnt (hash self).

Record gnu_hash_ok (m : mem) (self : xh_elf_t) (names : list (list Z)) : Prop := {
  g_count : Z.of_nat (length names) < 2 ^ 32;
  g_offset : 0 <= symoffset (hash self) <= Z.of_nat (length names);
  g_buckets : 0 < bucket_cnt (hash self);
  g_filter : 0 < bloom_sz (hash self) /\ 0 <= bloom_shift (hash self) < 32 /\
    forall k, 0 <= k < bloom_sz (hash self) -> is_Some (load_ptr m (bloom (hash self) + ptr_size * k));
  g_bloom : forall i name word, sym names (symoffset (hash self)) i name ->
    let h := xh_elf_gnu_hash name in
    load_ptr m (bloom (hash self) + ptr_size * (h / ptr_bits mod bloom_sz (hash self))) = Some word ->
    Z.testbit word (h mod ptr_bits) = true /\
    Z.testbit word ((h .>> bloom_shift (hash self)) mod ptr_bits) = true;
  g_bucket : forall b, 0 <= b < bucket_cnt (hash self) ->
    exists i, bucket_at m self b = Ok i /\
      ((i < symoffset (hash self) /\
        forall j name, sym names (symoffset (hash self)) j name -> gnu_bucket self name <> b) \/
       ((exists name, sym names (symoffset (hash self)) i name /\ gnu_bucket self name = b) /\
        forall j name, sym names (symoffset (hash self)) j name -> gnu_bucket self name = b -> i <= j));
  g_chain : forall i name, sym names (symoffset (hash self)) i name ->
    exists v, chain_at m self (i - symoffset (hash self)) = Ok v /\ v .| 1 = xh_elf_gnu_hash name .| 1 /\
      if truthy (v .& 1)
      then forall j name', i < j -> sym names (symoffset (hash self)) j name' ->
             gnu_bucket self name' <> gnu_bucket self name
      else exists name', sym names (symoffset (hash self)) (i + 1) name' /\
             gnu_bucket self name' = gnu_bucket self name
}.

(** What the lookup promises, from index [first] on. *)
Definition lookup_spec (names : list (list Z)) (first : Z) (symbol : list Z) (r : option Z) : Prop :=
  match r with
  | Some i => sym names first i symbol
  | None => forall i, ~ sym names first i symbol
  end.

Lemma sym_name m self names first i name symbol :
  syms_ok m self names -> no_nul symbol -> sym names first i name ->
  exists off, st_name m (symtab (tabs self)) i = Some off /\
    strcmp_eq m symbol (strtab (tabs self) + off) = Ok (bool_decide (symbol = name)).
Proof.
  intros Hsyms Hs (_ & Hi & Hn). destruct (Hsyms _ _ Hn) as (Hz & off & Hoff & Hc).
  rewrite Z2Nat.id in Hoff by done. exists off. split; [done|]. by apply strcmp_eq_spec.
Qed.

Lemma sym_is_spec m self names first i name symbol :
  syms_ok m self names -> no_nul symbol -> sym names first i name ->
  sym_is m self symbol i = Ok (bool_decide (symbol = name)).
Proof.
  intros Hsyms Hs Hi. destruct (sym_name m self names first i name symbol Hsyms Hs Hi) as (off & Hoff & Hc).
  unfold sym_is. by rewrite Hoff.
Qed.

Lemma sym_bound names first i name : sym names first i name -> 0 <= i < Z.of_nat (length names).
Proof. intros (_ & Hi & Hn). apply lookup_lt_Some in Hn. lia. Qed.

Lemma sym_fun names first first' i name name' :
  sym names first i name -> sym names first' i name' -> name = name'.
Proof. intros (_ & _ & H1) (_ & _ & H2). congruence. Qed.

Lemma sym_exists (names : list (list Z)) first i :
  first <= i -> 0 <= i < Z.of_nat (length names) -> exists name, sym names first i name.
Proof.
  intros Hf Hi. destruct (lookup_lt_is_Some_2 names (Z.to_nat i)) as [name Hn]; [lia|]. exists name. by split_and!; [|lia|].
Qed.

Lemma hash_chain_spec fuel m self names symbol i l :
  syms_ok m self names -> no_nul symbol -> chain_path m self i l ->
  Forall (fun j => 0 < j < Z.of_nat (length names)) l -> (length l < fuel)%nat ->
  exists r, hash_chain fuel m self symbol i = Ok r /\
    match r with Some j => sym names 1 j symbol | None => forall j, j ∈ l -> ~ sym names 1 j symbol end.
Proof.
  intros Hsyms Hs. revert i l. induction fuel as [|fuel IH]; intros i l Hp Hl Hf; [lia|]. cbn [hash_chain].
  destruct l as [|j l]; cbn [chain_path] in Hp.
  - subst i. exists None. split; [done|]. intros j Hj. by apply elem_of_nil in Hj.
  - destruct Hp as (<- & Hi & next & Hnext & Hp). destruct (Z.eqb_spec i 0); [done|].
    apply Forall_cons in Hl as [Hb Hl]. destruct (sym_exists names 1 i) as [name Hname]; [lia..|].
    rewrite (sym_is_spec m self names 1 i name) by done. cbn [rbind]. case_bool_decide as Heq.
    + subst name. by exists (Some i).
    + rewrite Hnext. cbn [rbind]. cbn [length] in Hf. destruct (IH next l Hp Hl) as (r & Hr & Hspec); [lia|].
      exists r. split; [exact Hr|]. destruct r as [j|]; [done|]. intros j [->|Hj]%elem_of_cons; [|by apply Hspec].
      intros Hsym. apply Heq. by eapply sym_fun.
Qed.

Lemma hash_lookup_spec fuel m self names symbol :
  syms_ok m self names -> no_nul symbol -> elf_hash_ok m self names -> (length names < fuel)%nat ->
  exists r, xh_elf_hash_lookup fuel m self symbol = Ok r /\ lookup_spec names 1 symbol r.
Proof.
  intros Hsyms Hs (Hcnt & Hb) Hf. unfold xh_elf_hash_lookup, umod.
  destruct (Z.eqb_spec (bucket_cnt (hash self)) 0); [lia|]. cbn [rbind].
  destruct (Hb (xh_elf_hash symbol mod bucket_cnt (hash self))) as (i & l & Hi & Hp & Hnd & Hl & Hall);
    [by apply Z.mod_pos_bound|].
  rewrite Hi. cbn [rbind].
  destruct (hash_chain_spec fuel m self names symbol i l) as (r & Hr & Hspec); try done.
  { apply Nat.le_lt_trans with (length (zrange 0 (length names))); [|by rewrite zrange_length].
    apply List.NoDup_incl_length; [by apply NoDup_ListNoDup|]. intros j Hj. apply list_elem_of_In, elem_of_zrange.
    apply list_elem_of_In in Hj. rewrite Forall_forall in Hl. specialize (Hl j Hj). lia. }
  exists r. split; [exact Hr|]. destruct r as [j|]; [done|]. intros j Hj. apply (Hspec j); [|done].
  by apply (Hall j symbol).
Qed.

Lemma u32_small x : 0 <= x < 2 ^ 32 -> u32 x = x.
Proof. apply uwrap_small. Qed.

Lemma gnu_chain_spec fuel m self names symbol i name :
  syms_ok m self names -> no_nul symbol -> gnu_hash_ok m self names ->
  sym names (symoffset (hash self)) i name -> gnu_bucket self name = gnu_bucket self symbol ->
  Z.of_nat (length names) - i < Z.of_nat fuel ->
  exists r, gnu_chain fuel m self symbol (xh_elf_gnu_hash symbol) i = Ok r /\
    match r with
    | Some j => sym names (symoffset (hash self)) j symbol
    | None => forall j, i <= j -> ~ sym names (symoffset (hash self)) j symbol
    end.
Proof.
  intros Hsyms Hs Hok. pose proof (g_count _ _ _ Hok) as Hcount. pose proof (g_offset _ _ _ Hok) as Hoff.
  revert i name. induction fuel as [|fuel IH]; intros i name Hi Hb Hf; pose proof (sym_bound _ _ _ _ Hi) as Hbd;
    [lia|].
  cbn [gnu_chain]. destruct (sym_name m self names _ i name symbol Hsyms Hs Hi) as (off & -> & Hcmp).
  cbn [of_opt rbind]. destruct (g_chain _ _ _ Hok i name Hi) as (v & Hv & Hv1 & Hnext).
  assert (Hu : u32 (i - symoffset (hash self)) = i - symoffset (hash self)).
  { apply u32_small. destruct Hi as (? & _). lia. }
  rewrite Hu, Hv. cbn [rbind]. rewrite Hv1, Hcmp.
  assert (Hfound : (if (xh_elf_gnu_hash symbol .| 1) =? (xh_elf_gnu_hash name .| 1)
    then Ok (bool_decide (symbol = name)) else Ok false) = Ok (bool_decide (symbol = name))).
  { case_bool_decide as Heq; [subst; by rewrite Z.eqb_refl|by destruct (_ =? _)]. }
  rewrite Hfound. cbn [rbind]. case_bool_decide as Heq; [subst name; by exists (Some i)|].
  assert (Hne : ~ sym names (symoffset (hash self)) i symbol).
  { intros Hsym. apply Heq. by eapply sym_fun. }
  destruct (truthy (v .& 1)).
  - exists None. split; [done|]. intros j Hj Hsym. destruct (decide (i = j)) as [<-|]; [done|].
    by destruct (Hnext j symbol ltac:(lia) Hsym).
  - destruct Hnext as (name' & Hsym' & Hb'). pose proof (sym_bound _ _ _ _ Hsym') as Hbd'.
    rewrite u32_small by lia. destruct (IH (i + 1) name' Hsym') as (r & Hr & Hspec); [congruence|lia|].
    exists r. split; [exact Hr|]. destruct r as [j|]; [done|]. intros j Hj.
    destruct (decide (i = j)) as [<-|]; [done|]. apply Hspec. lia.
Qed.

Lemma two_bits word a b :
  0 <= a -> 0 <= b -> Z.testbit word a = true -> Z.testbit word b = true ->
  word .& ((1 .<< a) .| (1 .<< b)) = (1 .<< a) .| (1 .<< b).
Proof.
  intros Ha Hb Hwa Hwb. rewrite !Z.shiftl_1_l. apply Z.bits_inj'. intros i Hi.
  rewrite Z.land_spec, !Z.lor_spec, !Z.pow2_bits_eqb by done.
  destruct (Z.eqb_spec a i) as [->|]; [by rewrite Hwa|]. destruct (Z.eqb_spec b i) as [->|]; [by rewrite Hwb|].
  apply andb_false_r.
Qed.

(** The filter never rejects a symbol of the table. *)
Lemma bloom_test_spec m self names symbol :
  gnu_hash_ok m self names -> exists b, bloom_test m self (xh_elf_gnu_hash symbol) = Ok b /\
    ((exists i, sym names (symoffset (hash self)) i symbol) -> b = true).
Proof.
  intros Hok. destruct (g_filter _ _ _ Hok) as (Hsz & Hshift & Hwords). pose proof ptr_bits_pos.
  unfold bloom_test, umod. destruct (Z.eqb_spec (bloom_sz (hash self)) 0); [lia|]. cbn [rbind].
  destruct (Hwords (xh_elf_gnu_hash symbol / ptr_bits mod bloom_sz (hash self))) as [word Hword];
    [by apply Z.mod_pos_bound|].
  rewrite Hword. cbn [of_opt rbind]. destruct (Z.leb_spec 32 (bloom_shift (hash self))); [lia|].
  eexists. split; [done|]. intros [i Hi]. destruct (g_bloom _ _ _ Hok i symbol word Hi Hword) as [Hb1 Hb2].
  rewrite two_bits by (done || apply Z.mod_pos_bound; lia). apply Z.eqb_refl.
Qed.

Lemma gnu_lookup_def_spec fuel m self names symbol :
  syms_ok m self names -> no_nul symbol -> gnu_hash_ok m self names -> (length names < fuel)%nat ->
  exists r, xh_elf_gnu_hash_lookup_def fuel m self symbol = Ok r /\
    lookup_spec names (symoffset (hash self)) symbol r.
Proof.
  intros Hsyms Hs Hok Hf. unfold xh_elf_gnu_hash_lookup_def.
  destruct (bloom_test_spec m self names symbol Hok) as (b & -> & Hb). cbn [rbind].
  destruct b; cbn [negb].
  2:{ exists None. split; [done|]. intros i Hi. by assert (false = true) by (apply Hb; by exists i). }
  pose proof (g_buckets _ _ _ Hok) as Hcnt. unfold umod. destruct (Z.eqb_spec (bucket_cnt (hash self)) 0); [lia|].
  cbn [rbind]. destruct (g_bucket _ _ _ Hok (gnu_bucket self symbol)) as (i & Hi & Hcase);
    [by apply Z.mod_pos_bound|].
  unfold gnu_bucket in Hi at 1. rewrite Hi. cbn [rbind]. destruct Hcase as [[Hlt Hnone]|[(name & Hsym & Hname) Hfirst]].
  - destruct (Z.ltb_spec i (symoffset (hash self))); [|lia]. exists None. split; [done|].
    intros j Hj. by apply (Hnone j symbol).
  - destruct (Z.ltb_spec i (symoffset (hash self))); [destruct Hsym; lia|].
    destruct (gnu_chain_spec fuel m self names symbol i name) as (r & Hr & Hspec); try done.
    { pose proof (sym_bound _ _ _ _ Hsym). lia. }
    exists r. split; [exact Hr|]. destruct r as [j|]; [done|]. intros j Hj. apply (Hspec j); [|done].
    by apply (Hfirst j symbol).
Qed.

Lemma undef_loop_spec n m self names symbol i :
  syms_ok m self names -> no_nul symbol -> 0 <= i -> i + Z.of_nat n <= Z.of_nat (length names) ->
  exists r, undef_loop n m self symbol i = Ok r /\
    match r with
    | Some j => sym names 0 j symbol
    | None => forall j, i <= j < i + Z.of_nat n -> ~ sym names 0 j symbol
    end.
Proof.
  intros Hsyms Hs. revert i. induction n as [|n IH]; intros i Hi Hn; cbn [undef_loop].
  - exists None. split; [done|]. lia.
  - destruct (sym_exists names 0 i) as [name Hname]; [lia..|].
    rewrite (sym_is_spec m self names 0 i name) by done. cbn [rbind]. case_bool_decide as Heq.
    + subst name. by exists (Some i).
    + destruct (IH (i + 1)) as (r & Hr & Hspec); [lia..|]. exists r. split; [exact Hr|].
      destruct r as [j|]; [done|]. intros j Hj Hsym. destruct (decide (i = j)) as [<-|].
      * apply Heq. by eapply sym_fun.
      * apply (Hspec j); [lia|done].
Qed.

Lemma gnu_lookup_spec fuel m self names symbol :
  syms_ok m self names -> no_nul symbol -> gnu_hash_ok m self names -> (length names < fuel)%nat ->
  exists r, xh_elf_gnu_hash_lookup fuel m self symbol = Ok r /\ lookup_spec names 0 symbol r.
Proof.
  intros Hsyms Hs Hok Hf. unfold xh_elf_gnu_hash_lookup.
  destruct (gnu_lookup_def_spec fuel m self names symbol) as (r & -> & Hr); try done. cbn [rbind].
  pose proof (g_offset _ _ _ Hok) as Hoff. destruct r as [i|].
  - exists (Some i). split; [done|]. destruct Hr as (? & ? & ?). by split_and!; [lia|done|].
  - unfold xh_elf_gnu_hash_lookup_undef.
    destruct (undef_loop_spec (Z.to_nat (symoffset (hash self))) m self names symbol 0) as (r & -> & Hr');
      [done|done|lia|lia|].
    exists r. split; [done|]. destruct r as [j|]; [done|]. intros j Hj.
    destruct (decide (j < symoffset (hash self))).
    + apply (Hr' j); [|done]. destruct Hj. lia.
    + apply (Hr j). destruct Hj as (? & ? & ?). by split_and!; [lia|done|].
Qed.

(** The hash table the library uses is well formed. *)
Definition hash_ok (m : mem) (self : xh_elf_t) (names : list (list Z)) : Prop :=
  if truthy (is_use_gnu_hash (hash self)) then gnu_hash_ok m self names else elf_hash_ok m self names.
(** Index 0 of an ELF hash table is no symbol. *)
Definition first_index (self : xh_elf_t) : Z := if truthy (is_use_gnu_hash (hash self)) then 0 else 1.

Lemma find_symidx_spec fuel m self names symbol :
  syms_ok m self names -> hash_ok m self names -> no_nul symbol -> (length names < fuel)%nat ->
  exists r, xh_elf_find_symidx_by_name fuel m self symbol = Ok r /\
    lookup_spec names (first_index self) symbol r.
Proof.
  unfold hash_ok, first_index, xh_elf_find_symidx_by_name. intros Hsyms Hok Hs Hf.
  destruct (truthy _); [by apply gnu_lookup_spec|by apply hash_lookup_spec].
Qed.

(** C17: Looking a name up in a well-formed hash table, GNU or ELF, terminates; it
    returns the index of a symbol of that name, and reports none exactly when no
    symbol, defined or undefined, has it. *)
Theorem find_symidx_correct fuel m self names symbol :
  syms_ok m self names -> hash_ok m self names -> no_nul symbol -> (length names < fuel)%nat ->
  exists r, xh_elf_find_symidx_by_name fuel m self symbol = Ok r /\
    lookup_spec names (first_index self) symbol r.
Proof. apply find_symidx_spec. Qed.

(** ** Hooking replaces exactly the slots of the symbol *)

Section HookSpec.
Context {W : Type} (K : kernel W) (raw_perm : list Z).
Abbreviation hook_state := (hook_state (W := W)).

(** The library's data pages: the kernel reports the protection of an address
    there, and changing that of its page succeeds. *)
Record kernel_ok (path : option (list Z)) (lib : Z -> Prop) : Prop := {
  k_maps : forall w a, lib a ->
    xh_util_get_addr_protect (proc_maps W K w) raw_perm a path = (0, byte_prot W K w a);
  k_prot : forall w a, 0 <= byte_prot W K w a < 8;
  k_page : forall w a x, lib a -> PAGE_START a <= x < PAGE_START a + PAGE_COVER a ->
    byte_prot W K w x = byte_prot W K w a;
  k_mprotect : forall w a p, lib a -> 0 <= p < 8 ->
    exists w', mprotect W K (PAGE_START a) (PAGE_COVER a) p w = (None, w') /\
      forall x, byte_prot W K w' x =
        if decide (PAGE_START a <= x < PAGE_START a + PAGE_COVER a) then p else byte_prot W K w x
}.

(** A slot: an aligned pointer in the library's data. *)
Definition slot_ok (lib : Z -> Prop) (m : mem) (a : Z) : Prop :=
  lib a /\ a mod ptr_size = 0 /\ mapped m a ptr_size /\ 0 <= a /\ a + ptr_size + PAGE_SIZE <= 2 ^ ptr_bits.

Definition in_slot (a b : Z) : Prop := a <= b < a + ptr_size.

(** [st'] is [st] with [new_func] in the slots [l]. *)
Record replaced (new_func : Z) (want_old : bool) (l : list Z) (st st' : hook_state) : Prop := {
  r_new : forall a, a ∈ l -> load_ptr (hmem st') a = Some new_func;
  r_rest : forall b, (forall a, a ∈ l -> ~ in_slot a b) -> hmem st' !! b = hmem st !! b;
  r_dom : forall b, is_Some (hmem st' !! b) <-> is_Some (hmem st !! b);
  r_ok : mem_ok (hmem st) -> mem_ok (hmem st');
  r_prot : forall b, byte_prot W K (world st') b = byte_prot W K (world st) b;
  r_old : forall f, f <> new_func -> want_old = true ->
    (forall a, a ∈ l -> load_ptr (hmem st) a = Some f \/ load_ptr (hmem st) a = Some new_func) ->
    old_func st = Some f \/ (exists a, a ∈ l /\ load_ptr (hmem st) a = Some f) -> old_func st' = Some f
}.

Lemma ptr_size_pos : 4 <= ptr_size <= 8.
Proof. unfold ptr_size. destruct lp64; lia. Qed.

Lemma ptr_bits_size : 8 * Z.of_nat (Z.to_nat ptr_size) = ptr_bits.
Proof. unfold ptr_bits, ptr_size. by destruct lp64. Qed.

(** Aligned slots are equal or disjoint. *)
Lemma aligned_apart a b : a mod ptr_size = 0 -> b mod ptr_size = 0 -> a <> b -> a + ptr_size <= b \/ b + ptr_size <= a.
Proof.
  pose proof ptr_size_pos. intros Ha Hb Hne. apply Z.mod_divide in Ha as [x ->]; [|lia].
  apply Z.mod_divide in Hb as [y ->]; [|lia].
  destruct (Z.lt_total x y) as [?|[->|?]]; [left|done|right]; nia.
Qed.

Lemma store_same m n a v m' :
  mem_ok m -> load m n a = Some v -> store m n a v = Some m' -> m' = m.
Proof.
  intros Hok Hl Hs. apply map_eq. intros b. unfold load in Hl. apply fmap_Some in Hl as (bs & Hbs & ->).
  pose proof (load_bytes_length _ _ _ _ Hbs) as Hlen. unfold store in Hs. rewrite <- Hlen in Hs at 1.
  rewrite le_bytes_val in Hs by (by eapply load_bytes_ok).
  rewrite (store_bytes_lookup _ _ _ _ Hs). case_decide; [|done].
  rewrite <- (load_bytes_lookup m a n bs (b - a)) by (done || lia). f_equal. lia.
Qed.

Lemma load_ptr_ext m m' a :
  (forall b, in_slot a b -> m !! b = m' !! b) -> load_ptr m a = load_ptr m' a.
Proof.
  intros Hext. unfold load_ptr, load. f_equal. apply load_bytes_ext. intros i Hi. apply Hext.
  unfold in_slot. pose proof ptr_size_pos. lia.
Qed.

Lemma replaced_nil new want st : replaced new want [] st st.
Proof.
  constructor; try done.
  - intros a Ha. by apply elem_of_nil in Ha.
  - intros f _ _ _ [Hf|(a & Ha & _)]; [done|by apply elem_of_nil in Ha].
Qed.

(** A slot keeps its value or gets the new one. *)
Lemma replaced_slot new want l st st' a :
  Forall (fun a => a mod ptr_size = 0) l -> a mod ptr_size = 0 -> replaced new want l st st' ->
  load_ptr (hmem st') a = if decide (a ∈ l) then Some new else load_ptr (hmem st) a.
Proof.
  intros Hal Ha Hr. case_decide as Hin; [by apply (r_new _ _ _ _ _ Hr)|]. apply load_ptr_ext. intros b Hb.
  apply (r_rest _ _ _ _ _ Hr). intros a' Ha' Hb'. rewrite Forall_forall in Hal.
  assert (Hne : a' <> a) by congruence. destruct (aligned_apart a' a (Hal _ Ha') Ha Hne); unfold in_slot in *; lia.
Qed.

Lemma replaced_app new want l1 l2 st st1 st2 :
  Forall (fun a => a mod ptr_size = 0) (l1 ++ l2) ->
  replaced new want l1 st st1 -> replaced new want l2 st1 st2 -> replaced new want (l1 ++ l2) st st2.
Proof.
  intros Hal Hr1 Hr2. apply Forall_app in Hal as [Hal1 Hal2]. constructor.
  - intros a Ha. rewrite (replaced_slot new want l2 st1 st2) by
      (done || (rewrite Forall_forall in Hal1, Hal2; apply elem_of_app in Ha as [?|?]; auto)).
    case_decide; [done|]. apply (r_new _ _ _ _ _ Hr1). apply elem_of_app in Ha as [?|?]; done.
  - intros b Hb. rewrite (r_rest _ _ _ _ _ Hr2), (r_rest _ _ _ _ _ Hr1); [done|..];
      intros a Ha; apply Hb, elem_of_app; auto.
  - intros b. by rewrite (r_dom _ _ _ _ _ Hr2), (r_dom _ _ _ _ _ Hr1).
  - intros Hok. by apply (r_ok _ _ _ _ _ Hr2), (r_ok _ _ _ _ _ Hr1).
  - intros b. by rewrite (r_prot _ _ _ _ _ Hr2), (r_prot _ _ _ _ _ Hr1).
  - intros f Hf Hw Hall Hsome.
    assert (Hslot : forall a, a ∈ l2 -> load_ptr (hmem st1) a = if decide (a ∈ l1) then Some new else load_ptr (hmem st) a).
    { intros a Ha. rewrite Forall_forall in Hal2. apply (replaced_slot new want l1); auto. }
    apply (r_old _ _ _ _ _ Hr2 f Hf Hw).
    + intros a Ha. rewrite Hslot by done. case_decide; [by right|]. apply Hall, elem_of_app. by right.
    + destruct (decide (old_func st = Some f \/ Exists (fun a => load_ptr (hmem st) a = Some f) l1)) as [Hd|Hd].
      * left. apply (r_old _ _ _ _ _ Hr1 f Hf Hw); [intros a Ha; apply Hall, elem_of_app; by left|].
        destruct Hd as [?|Hd]; [by left|right]. apply Exists_exists in Hd. done.
      * destruct Hsome as [Hs|(a & Ha & Hl)]; [destruct Hd; by left|]. right. exists a.
        assert (Hn1 : a ∉ l1). { intros Hin. apply Hd. right. apply Exists_exists. by exists a. }
        apply elem_of_app in Ha as [?|Ha]; [done|]. split; [done|]. rewrite Hslot by done. by rewrite decide_False.
Qed.

Lemma can_write_page path lib (w : W) a :
  kernel_ok path lib -> lib a -> 0 <= a -> a + ptr_size + PAGE_SIZE <= 2 ^ ptr_bits ->
  (forall x, PAGE_START a <= x < PAGE_START a + PAGE_COVER a -> byte_prot W K w x = need_prot) ->
  can_write K w a = true.
Proof.
  intros HK Hlib Ha Hend Hp. destruct (page_cover a Ha Hend) as (Hlo & Hhi & _). unfold can_write.
  apply forallb_forall. intros i Hi. apply list_elem_of_In, elem_of_zrange in Hi. pose proof ptr_size_pos.
  rewrite Hp by lia. reflexivity.
Qed.

(** Writing the slot, with the protections as they were. *)
Lemma replaced_store new want a cur st m w l :
  mem_ok (hmem st) -> 0 <= new < 2 ^ ptr_bits -> load_ptr (hmem st) a = Some cur -> cur <> new ->
  store_ptr (hmem st) a new = Some m -> (forall b, byte_prot W K w b = byte_prot W K (world st) b) ->
  replaced new want [a] st
    {| hmem := m; world := w; old_func := if want then Some cur else old_func st; flushed := l |}.
Proof.
  intros Hok Hnew Hcur Hne Hs Hw. unfold store_ptr in Hs. constructor; cbn [hmem world old_func].
  - intros a' ->%list_elem_of_singleton. unfold load_ptr. rewrite (store_load _ _ _ _ _ Hs), ptr_bits_size.
    by rewrite Z.mod_small.
  - intros b Hb. apply (store_lookup_ne _ _ _ _ _ _ Hs). specialize (Hb a (list_elem_of_here _ _)).
    unfold in_slot in Hb. pose proof ptr_size_pos. lia.
  - intros b. unfold store in Hs. by apply (store_bytes_dom _ _ _ _ _ Hs).
  - intros _. by apply (store_mem_ok _ _ _ _ _ Hok Hs).
  - done.
  - intros f Hf Hw' Hall Hsome. rewrite Hw'. f_equal.
    destruct (Hall a (list_elem_of_here _ _)); congruence.
Qed.

Lemma replaced_already new want a st :
  load_ptr (hmem st) a = Some new -> replaced new want [a] st st.
Proof.
  intros Hcur. constructor; try done.
  - by intros a' ->%list_elem_of_singleton.
  - intros f Hf _ _ [Ho|(a' & ->%list_elem_of_singleton & Hl)]; [done|congruence].
Qed.

Lemma replace_ok self lib a new want st :
  kernel_ok (pathname self) lib -> slot_ok lib (hmem st) a -> mem_ok (hmem st) -> 0 <= new < 2 ^ ptr_bits ->
  exists st', xh_elf_replace_function K raw_perm self a new want st = Ok (0, st') /\ replaced new want [a] st st'.
Proof.
  intros HK (Hlib & Hal & Hm & Ha & Hend) Hok Hnew. unfold xh_elf_replace_function.
  pose proof ptr_size_pos. assert (Hm' : mapped (hmem st) a (Z.of_nat (Z.to_nat ptr_size))) by (by rewrite Z2Nat.id by lia).
  destruct (load_mapped _ _ _ Hm') as [cur Hcur]. fold (load_ptr (hmem st) a) in Hcur. rewrite Hcur. cbn [of_opt rbind].
  destruct (Z.eqb_spec cur new) as [->|Hne]; [exists st; split; [done|by apply replaced_already]|].
  rewrite (k_maps _ _ HK _ _ Hlib). cbn [negb Z.eqb].
  set (p := byte_prot W K (world st) a). pose proof (k_prot _ _ HK (world st) a) as Hp. fold p in Hp.
  destruct (store_mapped _ _ _ new Hm') as [m Hs]. fold (store_ptr (hmem st) a new) in Hs.
  destruct (Z.eqb_spec p need_prot) as [Hrw|Hrw].
  - cbn [negb Z.eqb of_opt rbind]. rewrite (can_write_page _ _ (world st) a HK Hlib Ha Hend).
    2:{ intros x Hx. by rewrite (k_page _ _ HK _ a x). }
    cbn [negb]. rewrite Hs. cbn [of_opt rbind]. eexists. split; [done|]. by apply replaced_store.
  - unfold xh_util_set_addr_protect at 1.
    destruct (k_mprotect _ _ HK (world st) a need_prot Hlib) as (w1 & -> & Hw1); [vm_compute; split; congruence|].
    cbn [negb Z.eqb of_opt rbind]. rewrite (can_write_page _ _ w1 a HK Hlib Ha Hend).
    2:{ intros x Hx. rewrite Hw1. by rewrite decide_True. }
    cbn [negb]. rewrite Hs. cbn [of_opt rbind]. unfold xh_util_set_addr_protect.
    destruct (k_mprotect _ _ HK w1 a p Hlib Hp) as (w2 & -> & Hw2). cbn [snd]. eexists. split; [done|].
    apply replaced_store; try done. intros b. rewrite Hw2, Hw1. case_decide; [|done].
    by rewrite (k_page _ _ HK _ a b).
Qed.

(** *** The walks over the relocation tables

    [t] is the part of the memory that holds the library's tables; no slot is
    there. *)

Context (self : xh_elf_t) (lib : Z -> Prop) (t m0 : mem) (new_func symidx : Z) (want_old : bool).
Hypothesis HK : kernel_ok (pathname self) lib.
Hypothesis Hnew : 0 <= new_func < 2 ^ ptr_bits.

(** The relocations of the symbol a table may bind it with, and their slots. *)
Definition wanted (is_plt : bool) (rel : Z * Z) : bool :=
  (XH_ELF_R_SYM (snd rel) =? symidx) &&
  (if is_plt then XH_ELF_R_TYPE (snd rel) =? XH_ELF_R_GENERIC_JUMP_SLOT
   else (XH_ELF_R_TYPE (snd rel) =? XH_ELF_R_GENERIC_GLOB_DAT) || (XH_ELF_R_TYPE (snd rel) =? XH_ELF_R_GENERIC_ABS)).
Definition slot_of (rel : Z * Z) : Z := up (bias_addr self + fst rel).
(** The first of [.rel(a).plt], all of the other tables. *)
Definition targets (is_plt : bool) (rels : list (Z * Z)) : list Z :=
  let l := slot_of <$> filter (fun r => wanted is_plt r = true) rels in if is_plt then take 1 l else l.

Definition good (a : Z) : Prop :=
  slot_ok lib m0 a /\ base_addr self <= a /\ forall b, in_slot a b -> t !! b = None.

(** A state reached from the memory [m0] by replacing good slots. *)
Record valid (st : hook_state) : Prop := {
  v_ok : mem_ok (hmem st);
  v_tabs : t ⊆ hmem st;
  v_dom : forall b, is_Some (hmem st !! b) <-> is_Some (m0 !! b)
}.

Lemma valid_replaced l st st' :
  Forall good l -> valid st -> replaced new_func want_old l st st' -> valid st'.
Proof.
  intros Hl Hv Hr. constructor.
  - apply (r_ok _ _ _ _ _ Hr), (v_ok _ Hv).
  - apply map_subseteq_spec. intros b x Hb. rewrite (r_rest _ _ _ _ _ Hr).
    + by apply (lookup_weaken _ _ _ _ Hb), (v_tabs _ Hv).
    + intros a Ha Hin. rewrite Forall_forall in Hl. destruct (Hl a Ha) as (_ & _ & Hno).
      rewrite (Hno b Hin) in Hb. done.
  - intros b. rewrite (r_dom _ _ _ _ _ Hr). apply (v_dom _ Hv).
Qed.

Lemma good_aligned l : Forall good l -> Forall (fun a => a mod ptr_size = 0) l.
Proof. intros Hl. eapply Forall_impl; [exact Hl|]. by intros a ((_ & ? & _) & _). Qed.

Lemma find_and_replace_ok is_plt rel st :
  valid st -> (wanted is_plt rel = true -> good (slot_of rel)) ->
  exists st', xh_elf_find_and_replace_func K raw_perm self is_plt new_func want_old symidx rel st =
      Ok (0, wanted is_plt rel, st') /\
    replaced new_func want_old (if wanted is_plt rel then [slot_of rel] else []) st st'.
Proof.
  intros Hv Hgood. destruct rel as [o info]. unfold xh_elf_find_and_replace_func.
  assert (Hskip : wanted is_plt (o, info) = false ->
    exists st', Ok (0, false, st) = Ok (0, wanted is_plt (o, info), st') /\
      replaced new_func want_old (if wanted is_plt (o, info) then [slot_of (o, info)] else []) st st').
  { intros Hw. rewrite Hw. exists st. split; [done|apply replaced_nil]. }
  assert (Hdo : wanted is_plt (o, info) = true ->
    exists st', (let addr := up (bias_addr self + o) in
      if addr <? base_addr self then Ok (XH_ERRNO_FORMAT, true, st)
      else let! (r, st) := xh_elf_replace_function K raw_perm self addr new_func want_old st in Ok (r, true, st)) =
      Ok (0, wanted is_plt (o, info), st') /\
      replaced new_func want_old (if wanted is_plt (o, info) then [slot_of (o, info)] else []) st st').
  { intros Hw. rewrite Hw. destruct (Hgood Hw) as ((Hlib & Hal & Hm & Hr) & Hbase & _).
    unfold slot_of in *. cbn [fst] in *. destruct (Z.ltb_spec (up (bias_addr self + o)) (base_addr self)); [lia|].
    assert (Hslot : slot_ok lib (hmem st) (up (bias_addr self + o))).
    { split_and!; try done; try apply Hr. intros i Hi. apply (v_dom _ Hv). by apply Hm. }
    destruct (replace_ok self lib _ new_func want_old st HK Hslot (v_ok _ Hv) Hnew) as (st' & -> & Hrep).
    by exists st'. }
  revert Hskip Hdo. unfold wanted. cbn [snd]. destruct (XH_ELF_R_SYM info =? symidx); cbn [negb andb];
    [|intros Hskip _; by apply Hskip].
  destruct is_plt; cbn [negb andb].
  - destruct (XH_ELF_R_TYPE info =? XH_ELF_R_GENERIC_JUMP_SLOT); cbn [negb]; intros Hskip Hdo; [by apply Hdo|by apply Hskip].
  - rewrite <- negb_orb. destruct (_ || _); cbn [negb]; intros Hskip Hdo; [by apply Hdo|by apply Hskip].
Qed.

Lemma targets_cons is_plt rel rels :
  targets is_plt (rel :: rels) =
  if wanted is_plt rel then slot_of rel :: (if is_plt then [] else targets is_plt rels) else targets is_plt rels.
Proof.
  unfold targets. rewrite filter_cons. destruct (wanted is_plt rel) eqn:Hw.
  - rewrite decide_True by done. cbn [fmap list_fmap]. by destruct is_plt.
  - by rewrite decide_False by done.
Qed.

(** The relocations the walk over a plain table of [n] visits: from the second on,
    and the one behind the end. *)
Definition visited (rel u : Z) (j : Z) (rels : list (Z * Z)) : Prop :=
  forall k r, rels !! k = Some r ->
    rel_fields t (rel + (j + Z.of_nat k + 1) * entry_size u) = Ok r.

Lemma plain_loop_ok is_plt rel u n j rels fuel st :
  visited rel u j rels -> Forall good (targets is_plt rels) -> valid st ->
  n = j + Z.of_nat (length rels) -> (length rels < fuel)%nat ->
  exists st',
    plain_loop K raw_perm fuel self is_plt new_func want_old symidx
      {| p_cur := rel + j * entry_size u; p_end := rel + n * entry_size u; p_is_use_rela := u |} st = Ok (0, st') /\
    replaced new_func want_old (targets is_plt rels) st st'.
Proof.
  pose proof (entry_size_pos u) as Hes. revert j rels st.
  induction fuel as [|fuel IH]; intros j rels st Hvis Hgood Hv Hn Hf; [lia|].
  cbn [plain_loop]. unfold xh_elf_plain_reloc_iterator_next. cbn [p_cur p_end p_is_use_rela].
  destruct rels as [|r rels].
  { cbn [length] in Hn. destruct (Z.leb_spec (rel + n * entry_size u) (rel + j * entry_size u)); [|nia].
    exists st. split; [done|]. assert (Ht : targets is_plt [] = []) by (by destruct is_plt). rewrite Ht.
    apply replaced_nil. }
  cbn [length] in Hn, Hf. destruct (Z.leb_spec (rel + n * entry_size u) (rel + j * entry_size u)); [nia|].
  pose proof (Hvis 0%nat r eq_refl) as Hr.
  replace (rel + (j + Z.of_nat 0 + 1) * entry_size u) with (rel + j * entry_size u + entry_size u) in Hr by (cbn; ring).
  rewrite (mono_rel_fields _ t (hmem st) r (v_tabs _ Hv) Hr). cbn [rbind]. rewrite targets_cons in Hgood |- *.
  destruct (find_and_replace_ok is_plt r st Hv) as (st1 & -> & Hrep).
  { intros Hw. rewrite Hw in Hgood. by apply Forall_cons in Hgood as [? _]. }
  cbn [rbind negb Z.eqb].
  assert (Hvis' : visited rel u (j + 1) rels).
  { intros k r' Hk. specialize (Hvis (S k) r' Hk).
    replace (j + 1 + Z.of_nat k + 1) with (j + Z.of_nat (S k) + 1) by lia. done. }
  assert (Hcur : rel + j * entry_size u + entry_size u = rel + (j + 1) * entry_size u) by ring. rewrite Hcur.
  destruct (wanted is_plt r) eqn:Hw.
  - apply Forall_cons in Hgood as [Hhere Hgood].
    assert (Hv1 : valid st1) by (eapply valid_replaced; [|done|exact Hrep]; by constructor).
    destruct is_plt; cbn [andb]; [by exists st1|].
    destruct (IH (j + 1) rels st1 Hvis' Hgood Hv1) as (st2 & He & Hrep2); [lia|lia|].
    exists st2. split; [exact He|]. change (slot_of r :: ?l) with ([slot_of r] ++ l).
    eapply replaced_app; [|exact Hrep|exact Hrep2]. apply good_aligned. by constructor.
  - rewrite andb_false_r. assert (Hv1 : valid st1) by (eapply valid_replaced; [|done|exact Hrep]; by constructor).
    destruct (IH (j + 1) rels st1 Hvis' Hgood Hv1) as (st2 & He & Hrep2); [lia|lia|].
    exists st2. split; [exact He|]. apply (replaced_app _ _ [] _ st st1 st2); [by apply good_aligned|done|done].
Qed.

(** A plain table of the library, absent or with relocations [rels] to visit. *)
Definition plain_table (rel rel_sz : Z) (rels : list (Z * Z)) : Prop :=
  (rel = 0 /\ rels = []) \/
  (rel <> 0 /\ rel_sz = Z.of_nat (length rels) * entry_size (rela (tabs self)) /\
   visited rel (rela (tabs self)) 0 rels).

Definition rel_pair (r : reloc) : Z * Z := (r_offset r, r_info r).

(** The packed table. *)
Definition packed_table (fuel : nat) (rels : list (Z * Z)) : Prop :=
  let tb := tabs self in
  (relandroid tb = 0 /\ rels = []) \/
  (relandroid tb <> 0 /\
   exists ok it l, xh_elf_packed_reloc_iterator_init t (relandroid tb) (relandroid_sz tb) (rela tb) = Ok (ok, it) /\
     collect fuel t it = Ok l /\ rels = rel_pair <$> l).

Lemma hook_plain_ok is_plt rel rel_sz rels st :
  plain_table rel rel_sz rels -> Forall good (targets is_plt rels) -> valid st ->
  exists st', hook_plain K raw_perm self is_plt new_func want_old symidx rel rel_sz st = Ok (0, st') /\
    replaced new_func want_old (targets is_plt rels) st st'.
Proof.
  intros Ht Hgood Hv. unfold hook_plain. destruct Ht as [[-> ->]|(Hrel & Hsz & Hvis)].
  - exists st. split; [done|]. assert (Ht : targets is_plt [] = []) by (by destruct is_plt). rewrite Ht.
    apply replaced_nil.
  - destruct (Z.eqb_spec rel 0); [done|]. unfold xh_elf_plain_reloc_iterator_init. rewrite Hsz.
    replace {| p_cur := rel; p_end := _; p_is_use_rela := _ |} with
      {| p_cur := rel + 0 * entry_size (rela (tabs self));
         p_end := rel + Z.of_nat (length rels) * entry_size (rela (tabs self)); p_is_use_rela := rela (tabs self) |}
      by (f_equal; lia).
    apply plain_loop_ok; try done. pose proof (entry_size_pos (rela (tabs self))). nia.
Qed.

Lemma packed_loop_ok it l fuel st :
  collect fuel t it = Ok l -> Forall good (targets false (rel_pair <$> l)) -> valid st ->
  exists st', packed_loop K raw_perm fuel self new_func want_old symidx it st = Ok (0, st') /\
    replaced new_func want_old (targets false (rel_pair <$> l)) st st'.
Proof.
  revert it l st. induction fuel as [|fuel IH]; intros it l st Hc Hgood Hv; [done|].
  cbn [collect packed_loop] in *. apply rbind_Ok in Hc as ([r it'] & Hnext & Hc).
  rewrite (mono_packed_next _ t (hmem st) _ (v_tabs _ Hv) Hnext). cbn [rbind]. destruct r as [r|].
  - destruct (collect fuel t it') as [l'| |] eqn:Hl; cbn [rbind] in Hc; try done. apply (inj Ok) in Hc as <-.
    cbn [fmap list_fmap] in *. fold (rel_pair r) in *. rewrite targets_cons in Hgood |- *.
    destruct (find_and_replace_ok false (rel_pair r) st Hv) as (st1 & He & Hrep).
    { intros Hwr. rewrite Hwr in Hgood. by apply Forall_cons in Hgood as [? _]. }
    rewrite He. cbn [rbind negb Z.eqb].
    assert (Hgood' : Forall good (if wanted false (rel_pair r) then [slot_of (rel_pair r)] else []) /\
      Forall good (targets false (rel_pair <$> l'))).
    { destruct (wanted false (rel_pair r)); [apply Forall_cons in Hgood as [? ?]; by split; [constructor|]|done]. }
    destruct Hgood' as [Hg1 Hg2].
    assert (Hv1 : valid st1) by (eapply valid_replaced; [|done|exact Hrep]; done).
    destruct (IH it' l' st1 Hl Hg2 Hv1) as (st2 & He2 & Hrep2). exists st2. split; [exact He2|].
    replace (if wanted false (rel_pair r) then _ else _) with
      ((if wanted false (rel_pair r) then [slot_of (rel_pair r)] else []) ++ targets false (rel_pair <$> l'))
      by by destruct (wanted false (rel_pair r)).
    eapply replaced_app; [|exact Hrep|exact Hrep2]. apply good_aligned, Forall_app. done.
  - apply (inj Ok) in Hc as <-. exists st. split; [done|apply replaced_nil].
Qed.

Lemma hook_packed_ok fuel rels st :
  packed_table fuel rels -> Forall good (targets false rels) -> valid st ->
  exists st', hook_packed K raw_perm fuel self new_func want_old symidx st = Ok (0, st') /\
    replaced new_func want_old (targets false rels) st st'.
Proof.
  intros Ht Hgood Hv. unfold hook_packed. destruct Ht as [[-> ->]|(Hrel & ok & it & l & Hinit & Hc & ->)].
  - exists st. split; [done|apply replaced_nil].
  - cbv zeta. destruct (Z.eqb_spec (relandroid (tabs self)) 0); [done|].
    rewrite (mono_packed_init _ _ _ t (hmem st) _ (v_tabs _ Hv) Hinit). cbn [rbind]. by eapply packed_loop_ok.
Qed.

End HookSpec.

(** The tables of a library in the memory [t]: the names of its symbols, a hash
    table, and the relocations of its three tables. *)
Record library (fuel : nat) (t : mem) (self : xh_elf_t) (names : list (list Z)) (plt dyns packed : list (Z * Z)) : Prop := {
  l_path : exists path, pathname self = Some path;
  l_syms : syms_ok t self names;
  l_hash : hash_ok t self names;
  l_fuel : (length names < fuel)%nat;
  l_plt : plain_table self t (relplt (tabs self)) (relplt_sz (tabs self)) plt;
  l_dyn : plain_table self t (reldyn (tabs self)) (reldyn_sz (tabs self)) dyns;
  l_packed : packed_table self t fuel packed
}.

(** The slots of symbol [i]. *)
Definition slots (self : xh_elf_t) (plt dyns packed : list (Z * Z)) (i : Z) : list Z :=
  targets self i true plt ++ targets self i false dyns ++ targets self i false packed.

(** [i]: the only symbol of that name; [None]: there is none. *)
Definition symbol_index (self : xh_elf_t) (names : list (list Z)) (symbol : list Z) (i : option Z) : Prop :=
  match i with
  | Some i => sym names (first_index self) i symbol /\ forall j, sym names (first_index self) j symbol -> j = i
  | None => forall j, ~ sym names (first_index self) j symbol
  end.

Lemma hook_ok {W : Type} (K : kernel W) raw_perm fuel self lib t m0 names plt dyns packed symbol i
    new_func want_old (st : hook_state (W := W)) :
  library fuel t self names plt dyns packed -> kernel_ok K raw_perm (pathname self) lib ->
  0 < new_func < 2 ^ ptr_bits -> no_nul symbol -> symbol_index self names symbol i -> valid t m0 st ->
  let l := match i with Some i => slots self plt dyns packed i | None => [] end in
  Forall (good self lib t m0) l ->
  exists st', xh_elf_hook K raw_perm fuel self (Some symbol) new_func want_old st = Ok (0, st') /\
    replaced K new_func want_old l st st' /\ valid t m0 st'.
Proof.
  intros Hlib HK Hnew Hs Hi Hv l Hgood. destruct (l_path _ _ _ _ _ _ _ Hlib) as [path Hpath].
  destruct (find_symidx_spec fuel t self names symbol (l_syms _ _ _ _ _ _ _ Hlib) (l_hash _ _ _ _ _ _ _ Hlib) Hs
    (l_fuel _ _ _ _ _ _ _ Hlib)) as (r & Hfind & Hr).
  unfold xh_elf_hook. rewrite Hpath. destruct (Z.eqb_spec new_func 0); [lia|].
  rewrite (mono_find_symidx _ _ _ t (hmem st) r (v_tabs _ _ _ Hv) Hfind). cbn [rbind].
  destruct i as [i|]; destruct r as [j|]; cbn [lookup_spec symbol_index] in Hr, Hi.
  - destruct Hi as [Hi Huniq]. rewrite (Huniq j Hr). clear j Hr Hfind. cbv zeta.
    unfold l, slots in *. apply Forall_app in Hgood as [Hg1 Hg]. apply Forall_app in Hg as [Hg2 Hg3].
    edestruct (hook_plain_ok K raw_perm self lib t m0 new_func i want_old) as (st1 & -> & Hr1);
      [done|lia|exact (l_plt _ _ _ _ _ _ _ Hlib)|done|exact Hv|]. cbn [rbind negb Z.eqb].
    assert (Hv1 : valid t m0 st1) by (eapply valid_replaced; [exact Hg1|exact Hv|exact Hr1]).
    edestruct (hook_plain_ok K raw_perm self lib t m0 new_func i want_old) as (st2 & -> & Hr2);
      [done|lia|exact (l_dyn _ _ _ _ _ _ _ Hlib)|done|exact Hv1|]. cbn [rbind negb Z.eqb].
    assert (Hv2 : valid t m0 st2) by (eapply valid_replaced; [exact Hg2|exact Hv1|exact Hr2]).
    edestruct (hook_packed_ok K raw_perm self lib t m0 new_func i want_old) as (st3 & He & Hr3);
      [done|lia|exact (l_packed _ _ _ _ _ _ _ Hlib)|done|exact Hv2|].
    assert (Hal : Forall (fun a => a mod ptr_size = 0)
      (targets self i true plt ++ targets self i false dyns ++ targets self i false packed)).
    { eapply (good_aligned self lib t m0). rewrite !Forall_app. done. }
    exists st3. split; [exact He|]. split; [|eapply valid_replaced; [exact Hg3|exact Hv2|exact Hr3]].
    eapply replaced_app; [exact Hal|exact Hr1|]. apply Forall_app in Hal as [_ Hal].
    eapply replaced_app; [exact Hal|exact Hr2|exact Hr3].
  - by destruct (Hr i), Hi.
  - by destruct (Hi j).
  - exists st. split; [done|]. split; [apply replaced_nil|done].
Qed.

(** C16: Hooking a symbol of a well-formed library replaces its slots: the first of
    the visited [.rel(a).plt] relocations of the symbol, all visited ones of
    [.rel(a).dyn] and of [.rel(a).android].  Every other byte and every protection
    stays, and [*old_func] is the function the slots held.  A symbol the library
    does not have leaves everything as it is. *)
Theorem hook_replaces_slots {W : Type} (K : kernel W) raw_perm fuel self lib t names plt dyns packed symbol i
    new_func want_old (st : hook_state (W := W)) :
  library fuel t self names plt dyns packed -> t ⊆ hmem st -> mem_ok (hmem st) ->
  kernel_ok K raw_perm (pathname self) lib ->
  0 < new_func < 2 ^ ptr_bits -> no_nul symbol -> symbol_index self names symbol i ->
  let l := match i with Some i => slots self plt dyns packed i | None => [] end in
  Forall (good self lib t (hmem st)) l ->
  exists st', xh_elf_hook K raw_perm fuel self (Some symbol) new_func want_old st = Ok (0, st') /\
    replaced K new_func want_old l st st'.
Proof.
  intros Hlib Ht Hok HK Hnew Hs Hi l Hgood.
  destruct (hook_ok K raw_perm fuel self lib t (hmem st) names plt dyns packed symbol i new_func want_old st)
    as (st' & He & Hr & _); try done.
  by exists st'.
Qed.

(** ** [xh_elf_init] reads the dynamic section

    The last entry of a tag counts; of the two hash tables the GNU one, wherever it
    stands. *)

Definition last_val (tags : list Z) (es : list (Z * Z)) : option Z :=
  snd <$> last (filter (fun e => e.1 ∈ tags) es).
Definition from_tags (tags : list Z) (f : Z -> Z) (es : list (Z * Z)) : Z :=
  match last_val tags es with Some v => f v | None => 0 end.

Definition dyn_tables (bias : Z) (es : list (Z * Z)) : tables :=
  let addr v := up (bias + v) in
  {| strtab := from_tags [DT_STRTAB] addr es; symtab := from_tags [DT_SYMTAB] addr es;
     relplt := from_tags [DT_JMPREL] addr es; relplt_sz := from_tags [DT_PLTRELSZ] u32 es;
     reldyn := from_tags [DT_REL; DT_RELA] addr es; reldyn_sz := from_tags [DT_RELSZ; DT_RELASZ] u32 es;
     relandroid := from_tags [DT_ANDROID_REL; DT_ANDROID_RELA] addr es;
     relandroid_sz := from_tags [DT_ANDROID_RELSZ; DT_ANDROID_RELASZ] u32 es;
     rela := from_tags [DT_PLTREL] (fun v => b2z (v =? DT_RELA)) es |}.

Definition gnu_fields (m : mem) (raw : Z) (h : hash_table) : Prop :=
  is_use_gnu_hash h = 1 /\ load32 m (raw + 4 * 0) = Some (bucket_cnt h) /\ load32 m (raw + 4 * 1) = Some (symoffset h) /\
  load32 m (raw + 4 * 2) = Some (bloom_sz h) /\ load32 m (raw + 4 * 3) = Some (bloom_shift h) /\ bloom h = raw + 16 /\
  bucket h = raw + 16 + ptr_size * bloom_sz h /\ chain h = bucket h + 4 * bucket_cnt h.
Definition elf_fields (m : mem) (raw : Z) (h : hash_table) : Prop :=
  is_use_gnu_hash h = 0 /\ load32 m (raw + 4 * 0) = Some (bucket_cnt h) /\ load32 m (raw + 4 * 1) = Some (chain_cnt h) /\
  bucket h = raw + 8 /\ chain h = raw + 8 + 4 * bucket_cnt h.
Definition dyn_hash (m : mem) (bias : Z) (es : list (Z * Z)) (h : hash_table) : Prop :=
  match last_val [DT_GNU_HASH] es, last_val [DT_HASH] es with
  | Some v, _ => gnu_fields m (up (bias + v)) h
  | None, Some v => elf_fields m (up (bias + v)) h
  | None, None => is_use_gnu_hash h = 0
  end.

(** An entry [xh_elf_init] accepts: addresses are not below the base, and the words
    of a hash table are mapped. *)
Definition addr_tags : list Z :=
  [DT_STRTAB; DT_SYMTAB; DT_JMPREL; DT_REL; DT_RELA; DT_ANDROID_REL; DT_ANDROID_RELA; DT_HASH; DT_GNU_HASH].
Definition entry_ok (m : mem) (base bias : Z) (e : Z * Z) : Prop :=
  e.1 <> DT_NULL /\ (e.1 ∈ addr_tags -> base <= up (bias + e.2)) /\
  (e.1 ∈ [DT_HASH; DT_GNU_HASH] -> forall k, 0 <= k < 4 -> is_Some (load32 m (up (bias + e.2) + 4 * k))).

Lemma last_val_snoc tags es e :
  last_val tags (es ++ [e]) = if decide (e.1 ∈ tags) then Some e.2 else last_val tags es.
Proof.
  unfold last_val. rewrite filter_app, filter_cons, filter_nil. case_decide; [by rewrite last_snoc|].
  by rewrite app_nil_r.
Qed.

Lemma from_tags_snoc tags f es e :
  from_tags tags f (es ++ [e]) = if decide (e.1 ∈ tags) then f e.2 else from_tags tags f es.
Proof. unfold from_tags. rewrite last_val_snoc. by case_decide. Qed.

(** One entry more. *)
Lemma dyn_tables_snoc bias es tag val :
  dyn_tables bias (es ++ [(tag, val)]) =
  let t := dyn_tables bias es in
  let a := up (bias + val) in
  let pick tags v old := if decide (tag ∈ tags) then v else old in
  {| strtab := pick [DT_STRTAB] a (strtab t); symtab := pick [DT_SYMTAB] a (symtab t);
     relplt := pick [DT_JMPREL] a (relplt t); relplt_sz := pick [DT_PLTRELSZ] (u32 val) (relplt_sz t);
     reldyn := pick [DT_REL; DT_RELA] a (reldyn t); reldyn_sz := pick [DT_RELSZ; DT_RELASZ] (u32 val) (reldyn_sz t);
     relandroid := pick [DT_ANDROID_REL; DT_ANDROID_RELA] a (relandroid t);
     relandroid_sz := pick [DT_ANDROID_RELSZ; DT_ANDROID_RELASZ] (u32 val) (relandroid_sz t);
     rela := pick [DT_PLTREL] (b2z (val =? DT_RELA)) (rela t) |}.
Proof. unfold dyn_tables at 1. by rewrite !from_tags_snoc. Qed.

(** What the loop keeps. *)
Record dyn_inv (m : mem) (base bias : Z) (es : list (Z * Z)) (self0 self : xh_elf_t) : Prop := {
  di_tabs : tabs self = dyn_tables bias es;
  di_hash : dyn_hash m bias es (hash self);
  di_rest : with_hash no_hash (with_tables no_tables self) = with_hash no_hash (with_tables no_tables self0);
  di_base : base_addr self = base;
  di_bias : bias_addr self = bias
}.

Lemma decide_in_1 {A} (tag x : Z) (a b : A) : (if decide (tag ∈ [x]) then a else b) = if tag =? x then a else b.
Proof.
  destruct (Z.eqb_spec tag x) as [->|Hne]; [by rewrite decide_True by apply list_elem_of_here|].
  by rewrite decide_False by (by rewrite list_elem_of_singleton).
Qed.
Lemma decide_in_2 {A} (tag x y : Z) (a b : A) :
  (if decide (tag ∈ [x; y]) then a else b) = if (tag =? x) || (tag =? y) then a else b.
Proof.
  destruct (Z.eqb_spec tag x) as [->|Hx]; [by rewrite decide_True by apply list_elem_of_here|].
  destruct (Z.eqb_spec tag y) as [->|Hy]; cbn [orb]; [by rewrite decide_True by (apply list_elem_of_further, list_elem_of_here)|].
  by rewrite decide_False by (by rewrite elem_of_cons, list_elem_of_singleton; intros [?|?]).
Qed.


Lemma set_table_ok self set val :
  base_addr self <= up (bias_addr self + val) ->
  set_table self set val = (0, with_tables (set (up (bias_addr self + val)) (tabs self)) self).
Proof.
  intros Hb. unfold set_table. destruct (Z.ltb_spec (up (bias_addr self + val)) (base_addr (with_tables
    (set (up (bias_addr self + val)) (tabs self)) self))) as [Hlt|]; [cbn [with_tables base_addr] in Hlt; lia|done].
Qed.

(** An entry for a table keeps the hash tables. *)
Lemma dyn_hash_other m bias es e h :
  e.1 <> DT_HASH -> e.1 <> DT_GNU_HASH -> dyn_hash m bias es h -> dyn_hash m bias (es ++ [e]) h.
Proof.
  intros H1 H2. unfold dyn_hash. rewrite !last_val_snoc, !decide_False; [done|by rewrite list_elem_of_singleton..].
Qed.

Lemma dyn_inv_tables m base bias es e self0 self t :
  dyn_inv m base bias es self0 self -> e.1 <> DT_HASH -> e.1 <> DT_GNU_HASH ->
  t = dyn_tables bias (es ++ [e]) -> dyn_inv m base bias (es ++ [e]) self0 (with_tables t self).
Proof.
  intros [Ht Hh Hr Hbase Hbias] H1 H2 ->. constructor; try done. by apply dyn_hash_other.
Qed.

Lemma dyn_inv_hash m base bias es e self0 self h :
  dyn_inv m base bias es self0 self -> e.1 = DT_HASH \/ e.1 = DT_GNU_HASH ->
  dyn_hash m bias (es ++ [e]) h -> dyn_inv m base bias (es ++ [e]) self0 (with_hash h self).
Proof.
  intros [Ht Hh Hr Hbase Hbias] He Hh'. constructor; try done. cbn [with_hash tabs]. rewrite Ht. destruct e as [tag val].
  cbn [fst] in He. rewrite dyn_tables_snoc. cbv zeta beta. rewrite !decide_in_1, !decide_in_2. destruct He as [->| ->]; reflexivity.
Qed.

Lemma with_hash_self self : with_hash (hash self) self = self.
Proof. by destruct self. Qed.
Lemma with_tables_self self : with_tables (tabs self) self = self.
Proof. by destruct self. Qed.

(** The words of a hash table. *)
Lemma hash_word m base bias tag val k :
  entry_ok m base bias (tag, val) -> tag = DT_HASH \/ tag = DT_GNU_HASH -> 0 <= k < 4 ->
  exists w, load32 m (up (bias + val) + 4 * k) = Some w.
Proof.
  intros (_ & _ & Hw) Htag Hk. apply (Hw ltac:(cbn [fst]; rewrite elem_of_cons, list_elem_of_singleton; done) k Hk).
Qed.

Lemma dyn_hash_entry m base bias es self0 self val :
  dyn_inv m base bias es self0 self -> entry_ok m base bias (DT_HASH, val) ->
  exists self', dyn_entry m self DT_HASH val = Ok (0, self') /\ dyn_inv m base bias (es ++ [(DT_HASH, val)]) self0 self'.
Proof.
  intros Hinv Hok. pose proof Hinv as [Ht Hh Hr Hbase Hbias].
  assert (Ha : base <= up (bias + val)) by (apply Hok; apply (bool_decide_unpack _); vm_compute; reflexivity).
  unfold dyn_entry. cbn [Z.eqb Pos.eqb orb DT_STRTAB DT_SYMTAB DT_PLTREL DT_JMPREL DT_PLTRELSZ DT_REL DT_RELA DT_RELSZ
    DT_RELASZ DT_ANDROID_REL DT_ANDROID_RELA DT_ANDROID_RELSZ DT_ANDROID_RELASZ DT_HASH DT_GNU_HASH].
  unfold dyn_hash in Hh. rewrite Hbase, Hbias.
  destruct (last_val [DT_GNU_HASH] es) as [v|] eqn:Hg.
  - destruct Hh as (Huse & Hrest). rewrite Huse. cbn [Z.eqb Pos.eqb]. exists self. split; [done|].
    rewrite <- (with_hash_self self). eapply dyn_inv_hash; [done|by left|].
    unfold dyn_hash. rewrite !last_val_snoc, decide_False by (by rewrite list_elem_of_singleton). rewrite Hg. by split.
  - assert (Huse : is_use_gnu_hash (hash self) = 0) by (by destruct (last_val [DT_HASH] es); [destruct Hh|]).
    rewrite Huse. cbn [Z.eqb]. destruct (Z.ltb_spec (up (bias + val)) base); [lia|].
    destruct (hash_word m base bias DT_HASH val 0 Hok) as [n Hn]; [by left|lia|].
    destruct (hash_word m base bias DT_HASH val 1 Hok) as [c Hc]; [by left|lia|].
    rewrite Hn, Hc. cbn [of_opt rbind]. eexists. split; [done|]. eapply dyn_inv_hash; [done|by left|].
    unfold dyn_hash. rewrite !last_val_snoc, decide_False by (by rewrite list_elem_of_singleton).
    rewrite Hg, decide_True by (by apply list_elem_of_here). by split_and!.
Qed.

Lemma dyn_gnu_entry m base bias es self0 self val :
  dyn_inv m base bias es self0 self -> entry_ok m base bias (DT_GNU_HASH, val) ->
  exists self', dyn_entry m self DT_GNU_HASH val = Ok (0, self') /\
    dyn_inv m base bias (es ++ [(DT_GNU_HASH, val)]) self0 self'.
Proof.
  intros Hinv Hok. pose proof Hinv as [Ht Hh Hr Hbase Hbias].
  assert (Ha : base <= up (bias + val)) by (apply Hok; apply (bool_decide_unpack _); vm_compute; reflexivity).
  unfold dyn_entry. cbn [Z.eqb Pos.eqb orb DT_STRTAB DT_SYMTAB DT_PLTREL DT_JMPREL DT_PLTRELSZ DT_REL DT_RELA DT_RELSZ
    DT_RELASZ DT_ANDROID_REL DT_ANDROID_RELA DT_ANDROID_RELSZ DT_ANDROID_RELASZ DT_HASH DT_GNU_HASH].
  rewrite Hbase, Hbias. destruct (Z.ltb_spec (up (bias + val)) base); [lia|].
  destruct (hash_word m base bias DT_GNU_HASH val 0 Hok) as [n Hn]; [by right|lia|].
  destruct (hash_word m base bias DT_GNU_HASH val 1 Hok) as [o Ho]; [by right|lia|].
  destruct (hash_word m base bias DT_GNU_HASH val 2 Hok) as [z Hz]; [by right|lia|].
  destruct (hash_word m base bias DT_GNU_HASH val 3 Hok) as [sh Hsh]; [by right|lia|].
  rewrite Hn, Ho, Hz, Hsh. cbn [of_opt rbind]. eexists. split; [done|]. eapply dyn_inv_hash; [done|by right|].
  unfold dyn_hash. rewrite !last_val_snoc, decide_True by (by apply list_elem_of_here). by split_and!.
Qed.

(** Entries for the tables. *)
Ltac table_entry :=
  lazymatch goal with
  | Hinv : dyn_inv _ _ _ _ _ ?self |- context [set_table ?self ?set ?val] =>
      rewrite (set_table_ok self set val)
        by (rewrite (di_base _ _ _ _ _ _ Hinv), (di_bias _ _ _ _ _ _ Hinv);
            match goal with Hok : entry_ok _ _ _ _ |- _ => apply Hok end;
            apply (bool_decide_unpack _); vm_compute; reflexivity)
  | _ => idtac
  end;
  eexists; split; [reflexivity|]; eapply dyn_inv_tables; [eassumption|done|done|];
  rewrite dyn_tables_snoc; cbv zeta beta; rewrite !decide_in_1, !decide_in_2;
  match goal with Hinv : dyn_inv _ _ _ _ _ ?self |- _ =>
    rewrite (di_tabs _ _ _ _ _ _ Hinv), ?(di_bias _ _ _ _ _ _ Hinv) end; reflexivity.

Lemma dyn_entry_ok m base bias es self0 self tag val :
  dyn_inv m base bias es self0 self -> entry_ok m base bias (tag, val) ->
  exists self', dyn_entry m self tag val = Ok (0, self') /\ dyn_inv m base bias (es ++ [(tag, val)]) self0 self'.
Proof.
  intros Hinv Hok.
  destruct (decide (tag = DT_HASH)) as [->|Hne1]; [by apply dyn_hash_entry|].
  destruct (decide (tag = DT_GNU_HASH)) as [->|Hne2]; [by apply dyn_gnu_entry|]. unfold dyn_entry.
  destruct (tag =? DT_STRTAB) eqn:E1; [apply Z.eqb_eq in E1 as ->; table_entry|].
  destruct (tag =? DT_SYMTAB) eqn:E2; [apply Z.eqb_eq in E2 as ->; table_entry|].
  destruct (tag =? DT_PLTREL) eqn:E3; [apply Z.eqb_eq in E3 as ->; table_entry|].
  destruct (tag =? DT_JMPREL) eqn:E4; [apply Z.eqb_eq in E4 as ->; table_entry|].
  destruct (tag =? DT_PLTRELSZ) eqn:E5; [apply Z.eqb_eq in E5 as ->; table_entry|].
  destruct ((tag =? DT_REL) || (tag =? DT_RELA)) eqn:E6;
    [apply orb_true_iff in E6 as [E6|E6]; apply Z.eqb_eq in E6 as ->; table_entry|].
  destruct ((tag =? DT_RELSZ) || (tag =? DT_RELASZ)) eqn:E7;
    [apply orb_true_iff in E7 as [E7|E7]; apply Z.eqb_eq in E7 as ->; table_entry|].
  destruct ((tag =? DT_ANDROID_REL) || (tag =? DT_ANDROID_RELA)) eqn:E8;
    [apply orb_true_iff in E8 as [E8|E8]; apply Z.eqb_eq in E8 as ->; table_entry|].
  destruct ((tag =? DT_ANDROID_RELSZ) || (tag =? DT_ANDROID_RELASZ)) eqn:E9;
    [apply orb_true_iff in E9 as [E9|E9]; apply Z.eqb_eq in E9 as ->; table_entry|].
  apply Z.eqb_neq in Hne1, Hne2. rewrite Hne1, Hne2. exists self. split; [done|].
  apply Z.eqb_neq in Hne1, Hne2. rewrite <- (with_tables_self self). eapply dyn_inv_tables; [done..|].
  rewrite dyn_tables_snoc. cbv zeta beta. rewrite !decide_in_1, !decide_in_2, E1, E2, E3, E4, E5, E6, E7, E8, E9.
  by rewrite (di_tabs _ _ _ _ _ _ Hinv).
Qed.


(** The entries [es] of the dynamic section, up to DT_NULL or its end. *)
Definition dyn_section (m : mem) (dyn : Z) (n : nat) (es : list (Z * Z)) : Prop :=
  (forall k tag val, es !! k = Some (tag, val) ->
     d_tag m (dyn + Z.of_nat k * dyn_size) = Some tag /\ d_val m (dyn + Z.of_nat k * dyn_size) = Some val) /\
  (length es = n \/ (length es < n)%nat /\ d_tag m (dyn + Z.of_nat (length es) * dyn_size) = Some DT_NULL).

Lemma dyn_loop_ok m base bias dyn n done_ es self0 self :
  dyn_section m dyn n es -> Forall (entry_ok m base bias) es -> dyn_inv m base bias done_ self0 self ->
  exists self', dyn_loop n m dyn self = Ok (0, self') /\ dyn_inv m base bias (done_ ++ es) self0 self'.
Proof.
  intros Hsec Hok. revert n dyn done_ self Hsec. induction Hok as [|[tag val] es He Hok IH]; intros n dyn done_ self Hsec Hinv.
  - rewrite app_nil_r. exists self. split; [|done]. destruct Hsec as [_ [Hn|[Hn Hnull]]]; cbn [length] in *.
    + by subst n.
    + destruct n as [|n]; [lia|]. cbn [dyn_loop]. rewrite Z.add_0_r in Hnull. by rewrite Hnull.
  - destruct Hsec as [Hat Hend]. destruct n as [|n]; [cbn in Hend; lia|]. cbn [dyn_loop].
    destruct (Hat 0%nat tag val eq_refl) as [Htag Hval]. rewrite Z.add_0_r in Htag, Hval.
    rewrite Htag. cbn [of_opt rbind]. destruct (Z.eqb_spec tag DT_NULL); [by destruct He|].
    rewrite Hval. cbn [of_opt rbind].
    destruct (dyn_entry_ok m base bias done_ self0 self tag val Hinv He) as (self1 & -> & Hinv1). cbn [rbind Z.eqb].
    destruct (IH n (dyn + dyn_size) (done_ ++ [(tag, val)]) self1) as (self2 & He2 & Hinv2); [|done|].
    + split.
      * intros k t v Hk. destruct (Hat (S k) t v Hk) as [Ht Hv].
        replace (dyn + dyn_size + Z.of_nat k * dyn_size) with (dyn + Z.of_nat (S k) * dyn_size) by lia. done.
      * cbn [length] in Hend. destruct Hend as [Hend|[Hlt Hnull]]; [left; lia|right]. split; [lia|].
        by replace (dyn + dyn_size + Z.of_nat (length es) * dyn_size) with
          (dyn + Z.of_nat (S (length es)) * dyn_size) by lia.
    + exists self2. split; [done|]. by rewrite <- app_assoc in Hinv2.
Qed.

(** The program headers. *)
Record seg := { s_type : Z; s_off : Z; s_vaddr : Z; s_memsz : Z }.
Definition seg_at (m : mem) (phdr : Z) (s : seg) : Prop :=
  p_type m phdr = Some (s_type s) /\ p_offset m phdr = Some (s_off s) /\ p_vaddr m phdr = Some (s_vaddr s) /\
  p_memsz m phdr = Some (s_memsz s).
Definition segs_at (m : mem) (phdr : Z) (segs : list seg) : Prop :=
  forall k s, segs !! k = Some s -> seg_at m (phdr + Z.of_nat k * phdr_size) s.
(** The first header that satisfies [p]. *)
Definition first_seg (p : seg -> bool) (segs : list seg) : option seg := head (filter (fun s => p s = true) segs).
Definition is_load0 (s : seg) : bool := (s_type s =? PT_LOAD) && (s_off s =? 0).
Definition is_dynamic (s : seg) : bool := s_type s =? PT_DYNAMIC.

Lemma first_segment_ok m phdr segs type offset (p : seg -> bool) s :
  segs_at m phdr segs -> first_seg p segs = Some s ->
  (forall s, p s = (s_type s =? type) && match offset with Some o => s_off s =? o | None => true end) ->
  exists a, first_segment (length segs) m phdr type offset = Ok (Some a) /\ seg_at m a s.
Proof.
  intros Hat Hf Hp. revert phdr Hat. induction segs as [|s' segs IH]; intros phdr Hat; [done|]. cbn [length first_segment].
  destruct (Hat 0%nat s' eq_refl) as (Ht & Ho & Hv & Hm). rewrite Z.add_0_r in Ht, Ho, Hv, Hm. rewrite Ht. cbn [of_opt rbind].
  assert (Hfound : (if s_type s' =? type
    then match offset with None => Ok true | Some offset => let! o := of_opt (p_offset m phdr) in Ok (o =? offset) end
    else Ok false) = Ok (p s')).
  { rewrite Hp. destruct (s_type s' =? type); [|done]. destruct offset; [by rewrite Ho|done]. }
  rewrite Hfound. cbn [rbind]. unfold first_seg in Hf. rewrite filter_cons in Hf. destruct (p s') eqn:Hps.
  - rewrite decide_True in Hf by done. apply (inj Some) in Hf as ->. by exists phdr.
  - rewrite decide_False in Hf by done. apply IH; [exact Hf|]. intros k s'' Hk. specialize (Hat (S k) s'' Hk).
    by replace (phdr + phdr_size + Z.of_nat k * phdr_size) with (phdr + Z.of_nat (S k) * phdr_size) by lia.
Qed.

(** The packed section, behind its magic. *)
Definition skip_magic (t : tables) : tables :=
  if relandroid t =? 0 then t
  else set_relandroid_sz (relandroid_sz t - 4) (set_relandroid (up (relandroid t + 4)) t).
Definition magic_ok (m : mem) (t : tables) : Prop :=
  relandroid t <> 0 -> 4 <= relandroid_sz t /\ load_bytes m (relandroid t) 4 = Some [65; 80; 83; 50].

Lemma strcmp_prefix_ok m s a : load_bytes m a (length s) = Some s -> strcmp_prefix m s a = Ok true.
Proof.
  revert a. induction s as [|c s IH]; intros a Hl; [done|]. cbn [length] in Hl. apply load8_cons in Hl as [Hc Hl].
  cbn [strcmp_prefix]. rewrite Hc. cbn [of_opt rbind]. rewrite Z.eqb_refl. by apply IH.
Qed.

Lemma check_android_ok m self :
  magic_ok m (tabs self) -> check_android m self = Ok (0, with_tables (skip_magic (tabs self)) self).
Proof.
  intros Hm. unfold check_android, skip_magic. destruct (Z.eqb_spec (relandroid (tabs self)) 0) as [|Hne].
  - by rewrite with_tables_self.
  - destruct (Hm Hne) as [Hsz Hb]. destruct (Z.ltb_spec (relandroid_sz (tabs self)) 4); [lia|].
    by rewrite (strcmp_prefix_ok m [65; 80; 83; 50]).
Qed.

Lemma hash_nonzero m base bias es h :
  mem_ok m -> 0 < base -> Forall (entry_ok m base bias) es ->
  is_Some (last_val [DT_GNU_HASH] es) \/ is_Some (last_val [DT_HASH] es) -> dyn_hash m bias es h ->
  0 < bucket h /\ 0 < chain h /\ (is_use_gnu_hash h = 1 -> 0 < bloom h).
Proof.
  intros Hm Hbase Hok Hsome Hh. pose proof ptr_size_pos as Hps.
  assert (Hraw : forall tag v, tag ∈ addr_tags -> last_val [tag] es = Some v -> 0 < up (bias + v)).
  { intros tag v Htag Hl. unfold last_val in Hl. apply fmap_Some in Hl as (e & He & ->).
    apply last_Some_elem_of, list_elem_of_filter in He as [Ht He].
    apply list_elem_of_singleton in Ht. rewrite Forall_forall in Hok. destruct (Hok _ He) as (_ & Ha & _).
    rewrite Ht in Ha. specialize (Ha Htag). lia. }
  assert (Hword : forall a v, load32 m a = Some v -> 0 <= v) by (intros a v Hl; by apply (load_range m 4 a v Hm)).
  unfold dyn_hash in Hh. destruct (last_val [DT_GNU_HASH] es) as [v|] eqn:Hg.
  - destruct Hh as (_ & Hn & _ & Hz & _ & -> & -> & ->). apply Hword in Hn, Hz.
    specialize (Hraw DT_GNU_HASH v ltac:(apply (bool_decide_unpack _); vm_compute; reflexivity) Hg). nia.
  - destruct (last_val [DT_HASH] es) as [v|] eqn:He; [|by destruct Hsome as [[]|[]]].
    destruct Hh as (-> & Hn & _ & -> & ->). apply Hword in Hn.
    specialize (Hraw DT_HASH v ltac:(apply (bool_decide_unpack _); vm_compute; reflexivity) He). lia.
Qed.


(** The tables that are named lie behind the start of the library. *)
Lemma table_positive m base bias es tag :
  0 < base -> Forall (entry_ok m base bias) es -> tag ∈ addr_tags -> is_Some (last_val [tag] es) ->
  0 < from_tags [tag] (fun v => up (bias + v)) es.
Proof.
  intros Hbase Hes Htag [v Hv]. unfold from_tags. rewrite Hv. unfold last_val in Hv. apply fmap_Some in Hv as (e & He & ->).
  apply last_Some_elem_of, list_elem_of_filter in He as [He1 He]. apply list_elem_of_singleton in He1.
  rewrite Forall_forall in Hes. destruct (Hes _ He) as (_ & Ha & _). rewrite He1 in Ha. specialize (Ha Htag). lia.
Qed.

(** C18: [xh_elf_init] on a library whose first load segment starts at offset 0
    succeeds; the tables are the last ones the dynamic section names, relative to the
    load bias, the GNU hash table is preferred wherever it stands, and the magic of
    the packed relocations is skipped. *)
Theorem init_reads_dynamic m self base path off segs s0 s1 es :
  mem_ok m -> 0 < base < 2 ^ ptr_bits ->
  e_phoff m base = Some off -> e_phnum m base = Some (Z.of_nat (length segs)) -> up (base + off) <> 0 ->
  segs_at m (up (base + off)) segs -> first_seg is_load0 segs = Some s0 -> first_seg is_dynamic segs = Some s1 ->
  let bias := base - s_vaddr s0 in
  0 < bias ->
  dyn_section m (up (bias + s_vaddr s1)) (Z.to_nat (u32 (s_memsz s1) / dyn_size)) es ->
  Forall (entry_ok m base bias) es ->
  is_Some (last_val [DT_STRTAB] es) -> is_Some (last_val [DT_SYMTAB] es) ->
  is_Some (last_val [DT_GNU_HASH] es) \/ is_Some (last_val [DT_HASH] es) ->
  magic_ok m (dyn_tables bias es) ->
  exists self', xh_elf_init m self base (Some path) = Ok (0, self') /\
    pathname self' = Some path /\ base_addr self' = base /\ bias_addr self' = bias /\
    tabs self' = skip_magic (dyn_tables bias es) /\ dyn_hash m bias es (hash self').
Proof.
  intros Hm Hbase Hoff Hnum Hphdr Hsegs Hs0 Hs1 bias Hbias Hdyn Hes Hstr Hsym Hhash Hmagic.
  unfold xh_elf_init. destruct (Z.eqb_spec base 0); [lia|]. rewrite bool_decide_false by done. cbn [orb].
  rewrite Hoff. cbn [of_opt rbind]. unfold xh_elf_get_first_segment_by_type_offset, xh_elf_get_first_segment_by_type.
  cbn [ehdr phdr with_bias]. rewrite Hnum. cbn [of_opt rbind]. rewrite Nat2Z.id.
  destruct (first_segment_ok m _ segs PT_LOAD (Some 0) is_load0 s0 Hsegs Hs0 ltac:(done)) as (a0 & -> & Ha0).
  cbn [rbind]. destruct Ha0 as (_ & _ & Hv0 & _). rewrite Hv0. cbn [of_opt rbind].
  destruct (Z.ltb_spec base (s_vaddr s0)); [lia|].
  destruct (first_segment_ok m _ segs PT_DYNAMIC None is_dynamic s1 Hsegs Hs1) as (a1 & -> & Ha1);
    [intros s; unfold is_dynamic; by rewrite andb_true_r|].
  cbn [rbind]. destruct Ha1 as (_ & _ & Hv1 & Hm1). rewrite Hv1, Hm1. cbn [of_opt rbind].
  unfold with_dyn, with_bias. cbn [dyn dyn_sz bias_addr base_addr pathname ehdr phdr tabs hash]. fold bias.
  set (self0 := {| pathname := Some path; base_addr := base; bias_addr := bias; ehdr := base; phdr := up (base + off);
    dyn := up (bias + s_vaddr s1); dyn_sz := u32 (s_memsz s1); tabs := no_tables; hash := no_hash |}).
  destruct (dyn_loop_ok m base bias (up (bias + s_vaddr s1)) _ [] es self0 self0 Hdyn Hes) as (self1 & -> & Hinv).
  { by constructor. }
  cbn [rbind Z.eqb negb app] in *. pose proof Hinv as [Ht Hh Hr Hb Hbi].
  rewrite check_android_ok by (by rewrite Ht). cbn [rbind Z.eqb negb]. rewrite Ht.
  set (self2 := with_tables (skip_magic (dyn_tables bias es)) self1).
  destruct (hash_nonzero m base bias es (hash self1)) as (Hbk & Hch & Hbl); try done; [lia|].
  pose proof (fun tag => table_positive m base bias es tag (proj1 Hbase) Hes) as Htab.
  assert (Hcheck : xh_elf_check self2 = 0).
  { assert (Hrest : base_addr self2 = base /\ bias_addr self2 = bias /\ ehdr self2 = base /\ phdr self2 = up (base + off)).
    { assert (E : with_hash no_hash (with_tables no_tables self2) = with_hash no_hash (with_tables no_tables self0)) by exact Hr.
      pose proof (f_equal ehdr E). pose proof (f_equal phdr E). by split_and!. }
    destruct Hrest as (H1 & H2 & H3 & H4). unfold xh_elf_check. rewrite H1, H2, H3, H4.
    assert (Hst : strtab (tabs self2) = from_tags [DT_STRTAB] (fun v => up (bias + v)) es /\
      symtab (tabs self2) = from_tags [DT_SYMTAB] (fun v => up (bias + v)) es).
    { unfold self2, skip_magic. cbn [with_tables tabs]. by destruct (relandroid (dyn_tables bias es) =? 0). }
    destruct Hst as [-> ->]. change (hash self2) with (hash self1).
    specialize (Htab DT_STRTAB ltac:(apply (bool_decide_unpack _); vm_compute; reflexivity) Hstr) as Hst1.
    specialize (Htab DT_SYMTAB ltac:(apply (bool_decide_unpack _); vm_compute; reflexivity) Hsym) as Hst2.
    assert (Hnz : forall x, x <> 0 -> (x =? 0) = false) by (intros x Hx; by apply Z.eqb_neq).
    rewrite !Hnz by lia. destruct (Z.eqb_spec (is_use_gnu_hash (hash self1)) 1) as [E|]; [|done].
    rewrite Hnz by (specialize (Hbl E); lia). done. }
  rewrite Hcheck. cbn [Z.eqb negb]. exists self2. split; [done|].
  assert (Hpath : pathname self2 = Some path) by exact (f_equal pathname Hr).
  by split_and!.
Qed.


End Elf.

(** ** Witnesses *)

#[local] Existing Instance arm64.

(** A library image at 0x1000: two program headers, a dynamic section, the symbols
    [malloc], undefined, and [free], defined, in a GNU hash table of one bucket (and an
    ELF one the loader does not prefer), and a slot of [malloc] at 0x8010. *)
Definition demo_malloc : list Z := [109; 97; 108; 108; 111; 99].
Definition demo_free : list Z := [102; 114; 101; 101].
Definition demo_names : list (list Z) := [[]; demo_malloc; demo_free].

Definition demo_sym (name shndx value size : Z) : list Z :=
  le_bytes 4 name ++ [if shndx =? 0 then 0 else 0x12; 0] ++ le_bytes 2 shndx ++ le_bytes 8 value ++ le_bytes 8 size.
Definition demo_rela (offset info : Z) : list Z := le_bytes 8 offset ++ le_bytes 8 info ++ le_bytes 8 0.

Definition demo_phdr (s : seg) : list Z :=
  le_bytes 8 (s_type s) ++ le_bytes 8 (s_off s) ++ le_bytes 8 (s_vaddr s) ++ replicate 16 0 ++ le_bytes 8 (s_memsz s) ++
  replicate 8 0.
Definition demo_segs : list seg :=
  [ {| s_type := PT_LOAD; s_off := 0; s_vaddr := 0; s_memsz := 0x8000 |};
    {| s_type := PT_DYNAMIC; s_off := 0x200; s_vaddr := 0x200; s_memsz := 128 |} ].
Definition demo_dyn : list (Z * Z) :=
  [ (DT_STRTAB, 0x300); (DT_GNU_HASH, 0x400); (DT_SYMTAB, 0x340); (DT_HASH, 0x440); (DT_JMPREL, 0x500); (DT_PLTREL, DT_RELA);
    (DT_PLTRELSZ, 48) ].

Definition demo_lib : mem :=
  mem_at 0x1000 ([0x7f; 0x45; 0x4c; 0x46; 2; 1; 1] ++ replicate 9 0 ++ le_bytes 2 3 ++ le_bytes 2 183 ++ le_bytes 4 1 ++
    replicate 8 0 ++ le_bytes 8 64 ++ replicate 16 0 ++ le_bytes 2 2 ++ replicate 6 0 ++ mjoin (demo_phdr <$> demo_segs))
 (mem_at 0x1200 (mjoin ((fun e : Z * Z => le_bytes 8 e.1 ++ le_bytes 8 e.2) <$> demo_dyn) ++ le_bytes 8 DT_NULL)
 (mem_at 0x1300 (0 :: demo_malloc ++ 0 :: demo_free ++ [0])
 (mem_at 0x1340 (demo_sym 0 0 0 0 ++ demo_sym 1 0 0 0 ++ demo_sym 8 7 0x600 0x20)
 (mem_at 0x1400 (le_bytes 4 1 ++ le_bytes 4 1 ++ le_bytes 4 1 ++ le_bytes 4 5 ++ le_bytes 8 (2 ^ 64 - 1) ++ le_bytes 4 1 ++
                 le_bytes 4 (xh_elf_gnu_hash demo_malloc .& 0xfffffffe) ++ le_bytes 4 (xh_elf_gnu_hash demo_free .| 1))
 (mem_at 0x1440 (mjoin (le_bytes 4 <$> [1; 3; 1; 0; 2; 0]))
 (mem_at 0x1500 (demo_rela 0x7020 0x200000402 ++ demo_rela 0x7010 0x100000402 ++ demo_rela 0 0)
 (mem_at 0x8010 (le_bytes 8 0x5000) ∅))))))).

Definition demo_elf : xh_elf_t :=
  {| pathname := Some [47; 97; 46; 115; 111]; base_addr := 0x1000; bias_addr := 0x1000; ehdr := 0x1000; phdr := 0x1040;
     dyn := 0x1200; dyn_sz := 128;
     tabs := {| strtab := 0x1300; symtab := 0x1340; relplt := 0x1500; relplt_sz := 48; reldyn := 0; reldyn_sz := 0;
                relandroid := 0; relandroid_sz := 0; rela := 1 |};
     hash := {| bucket := 0x1418; bucket_cnt := 1; chain := 0x141c; chain_cnt := 0; symoffset := 1; bloom := 0x1410;
                bloom_sz := 1; bloom_shift := 5; is_use_gnu_hash := 1 |} |}.

(** The tables: all but the slot. *)
Definition demo_tables : mem := filter (fun b => b.1 < 0x2000) demo_lib.

Lemma demo_syms_ok : syms_ok demo_tables demo_elf demo_names.
Proof.
  intros [|[|[|i]]] name Hn; [apply (inj Some) in Hn as <-..|done].
  - split; [constructor|]. exists 0. split; vm_compute; reflexivity.
  - split; [repeat constructor; lia|]. exists 1. split; vm_compute; reflexivity.
  - split; [repeat constructor; lia|]. exists 8. split; vm_compute; reflexivity.
Qed.

Lemma demo_hashed i name :
  sym demo_names 1 i name -> (i = 1 /\ name = demo_malloc) \/ (i = 2 /\ name = demo_free).
Proof.
  intros Hs. pose proof (sym_bound _ _ _ _ Hs) as Hb. destruct Hs as (H1 & _ & Hn). cbn in Hb.
  assert (i = 1 \/ i = 2) as [->| ->] by lia; cbn in Hn; apply (inj Some) in Hn as <-; auto.
Qed.

Lemma demo_gnu_ok : gnu_hash_ok demo_tables demo_elf demo_names.
Proof.
  constructor.
  - done.
  - cbn. lia.
  - done.
  - split; [done|]. split; [cbn; lia|]. intros k Hk. cbn in Hk. assert (k = 0) as -> by lia.
    by vm_compute; eexists.
  - intros i name word Hs h. assert (Hk : h / ptr_bits mod bloom_sz (hash demo_elf) = 0) by apply Z.mod_1_r.
    rewrite Hk. intros Hw. assert (Hword : word = Z.ones 64).
    { apply (inj Some). rewrite <- Hw. vm_compute. reflexivity. }
    clear Hw. subst word. split; apply Z.ones_spec_low, Z.mod_pos_bound; lia.
  - intros b Hb. cbn in Hb. assert (b = 0) as -> by lia. exists 1. split; [vm_compute; reflexivity|]. right. split.
    + exists demo_malloc. split; [by split_and!|]. apply Z.mod_1_r.
    + intros j name [[-> _]|[-> _]]%demo_hashed _; lia.
  - intros i name [[-> ->]|[-> ->]]%demo_hashed.
    + eexists. split; [vm_compute; reflexivity|]. split; [vm_compute; reflexivity|]. cbn.
      exists demo_free. by split.
    + eexists. split; [vm_compute; reflexivity|]. split; [vm_compute; reflexivity|]. cbn.
      intros j name Hj [[-> _]|[-> _]]%demo_hashed; lia.
Qed.

Lemma demo_no_nul : no_nul demo_malloc.
Proof. repeat constructor; lia. Qed.

Lemma find_symidx_correct_witness :
  exists r, xh_elf_find_symidx_by_name 4 demo_tables demo_elf demo_malloc = Ok r /\ lookup_spec demo_names 0 demo_malloc r.
Proof.
  apply (find_symidx_correct 4 demo_tables demo_elf demo_names demo_malloc).
  - exact demo_syms_ok.
  - exact demo_gnu_ok.
  - exact demo_no_nul.
  - cbn. lia.
Defined.

(** A kernel with the mapping of the library's code and a data page of it, at 0x8000. *)
Definition demo_text : vma :=
  {| lo := 0x1000; hi := 0x8000; readable := true; writable := false; executable := true; private := true; width := 10;
     info := codes "00000000 fd:00 12 /a.so" |}.
Definition demo_page (w : bool * bool * bool) : vma :=
  {| lo := 0x8000; hi := 0x9000; readable := w.1.1; writable := w.1.2; executable := w.2; private := true; width := 10;
     info := codes "00007000 fd:00 12 /a.so" |}.
Definition demo_kernel : kernel (bool * bool * bool) :=
  {| proc_maps := fun w => Some (maps_text [demo_text; demo_page w]);
     mprotect := fun s n p w =>
       if (s =? 0x8000) && (n =? 0x1000)
       then (None, (truthy (p .& PROT_READ), truthy (p .& PROT_WRITE), truthy (p .& PROT_EXEC))) else (Some 12, w);
     byte_prot := fun w x => if (0x8000 <=? x) && (x <? 0x9000) then vma_prot (demo_page w) else 0 |}.
Definition demo_data (a : Z) : Prop := 0x8000 <= a /\ a + 8 <= 0x9000.

Lemma demo_data_page a : demo_data a -> PAGE_START a = 0x8000 /\ PAGE_COVER a = 0x1000.
Proof.
  intros [Ha1 Ha2]. pose proof (page_cover a) as Hc. cbn in Hc. unfold PAGE_SIZE in Hc.
  destruct Hc as (H1 & H2 & H3 & H4 & H5 & H6); [lia|lia|].
  assert (Hs : PAGE_START a = 0x8000).
  { rewrite page_start_spec by (cbn; lia). unfold PAGE_SIZE.
    assert (a / 4096 = 8) by (symmetry; apply Z.div_unique with (a - 0x8000); lia).
    pose proof (Z.div_mod a 4096 ltac:(lia)). lia. }
  split; [done|]. unfold PAGE_COVER, PAGE_END. cbn [ptr_size lp64 arm64].
  rewrite Hs. unfold up at 3. cbn [ptr_bits lp64 arm64]. rewrite uwrap_small by lia.
  rewrite page_start_spec by (cbn; lia). unfold PAGE_SIZE.
  assert ((a + 8 - 1) / 4096 = 8) by (symmetry; apply Z.div_unique with (a + 7 - 0x8000); lia).
  pose proof (Z.div_mod (a + 8 - 1) 4096 ltac:(lia)).
  replace (a + 8 - 1 - (a + 8 - 1) mod 4096) with 0x8000 by lia. reflexivity.
Qed.

Lemma demo_kernel_ok : kernel_ok demo_kernel [] (pathname demo_elf) demo_data.
Proof.
  constructor.
  - intros w a Ha. destruct (demo_data_page a Ha) as [_ _]. destruct Ha as [Ha1 Ha2].
    cbn [byte_prot demo_kernel proc_maps]. destruct (Z.leb_spec 0x8000 a), (Z.ltb_spec a 0x9000); try lia. cbn [andb].
    replace (vma_prot (demo_page w)) with (common_prot [demo_page w]) by (by apply land_7, vma_prot_range).
    apply (mem_protect_spec [demo_text] [demo_page w] []).
    + apply Forall_cons_2; [apply (bool_decide_unpack _); vm_compute; reflexivity|]. apply Forall_cons_2; [|apply Forall_nil_2].
      destruct w as [[[] []] []]; apply (bool_decide_unpack _); vm_compute; reflexivity.
    + apply Forall_cons_2; [left; cbn; lia|apply Forall_nil_2].
    + cbn [covered demo_page lo hi private]. unfold up. rewrite uwrap_small by (cbn; lia).
      split; [lia|]. split; [done|]. split; [destruct w as [[[] []] []]; reflexivity|].
      cbn [ptr_size lp64 arm64]. destruct (Z.leb_spec (a + 8) 0x9000); [done|lia].
  - intros w a. cbn [byte_prot demo_kernel]. destruct (_ && _); [apply vma_prot_range|lia].
  - intros w a x Ha. destruct (demo_data_page a Ha) as [-> ->]. destruct Ha as [Ha1 Ha2]. intros Hx.
    cbn [byte_prot demo_kernel].
    destruct (Z.leb_spec 0x8000 a), (Z.ltb_spec a 0x9000), (Z.leb_spec 0x8000 x), (Z.ltb_spec x 0x9000); lia || done.
  - intros w a p Ha Hp. destruct (demo_data_page a Ha) as [-> ->]. cbn [mprotect demo_kernel Z.eqb Pos.eqb andb].
    eexists. split; [done|]. intros x. cbn [byte_prot demo_kernel]. case_decide as Hx.
    + destruct (Z.leb_spec 0x8000 x), (Z.ltb_spec x 0x9000); try lia. cbn [andb].
      assert (Hall : (vma_prot (demo_page (truthy (p .& PROT_READ), truthy (p .& PROT_WRITE), truthy (p .& PROT_EXEC))) =? p) = true)
        by by_range p 8%nat.
      by apply Z.eqb_eq.
    + destruct (Z.leb_spec 0x8000 x), (Z.ltb_spec x 0x9000); lia || done.
Qed.

Lemma demo_library :
  library 4 demo_tables demo_elf demo_names [(0x7010, 0x100000402); (0, 0)] [] [].
Proof.
  constructor.
  - by eexists.
  - exact demo_syms_ok.
  - exact demo_gnu_ok.
  - cbn. lia.
  - right. split; [done|]. split; [done|].
    intros [|[|k]] r Hr; [apply (inj Some) in Hr as <-..|done]; vm_compute; reflexivity.
  - by left.
  - by left.
Qed.

Lemma demo_good : good demo_elf demo_data demo_tables demo_lib 0x8010.
Proof.
  split; [|split].
  - split_and!; try done. apply mapped_check. vm_compute. reflexivity.
  - done.
  - intros b Hb. unfold in_slot in Hb. cbn in Hb. apply map_lookup_filter_None. right. cbn. lia.
Qed.

Lemma hook_replaces_slots_witness :
  exists st', xh_elf_hook demo_kernel [] 4 demo_elf (Some demo_malloc) 0x6000 true
      {| hmem := demo_lib; world := (true, false, false); old_func := None; flushed := [] |} = Ok (0, st') /\
    replaced demo_kernel 0x6000 true [0x8010]
      {| hmem := demo_lib; world := (true, false, false); old_func := None; flushed := [] |} st'.
Proof.
  assert (Hslots : slots demo_elf [(0x7010, 0x100000402); (0, 0)] [] [] 1 = [0x8010]) by (vm_compute; reflexivity).
  rewrite <- Hslots.
  apply (hook_replaces_slots demo_kernel [] 4 demo_elf demo_data demo_tables demo_names
    [(0x7010, 0x100000402); (0, 0)] [] [] demo_malloc (Some 1) 0x6000 true
    {| hmem := demo_lib; world := (true, false, false); old_func := None; flushed := [] |}).
  - exact demo_library.
  - apply map_filter_subseteq.
  - apply mem_ok_check. vm_compute. reflexivity.
  - exact demo_kernel_ok.
  - cbn. lia.
  - exact demo_no_nul.
  - split; [by split_and!|].
    intros j Hj. pose proof (sym_bound _ _ _ _ Hj) as Hb. destruct Hj as (_ & _ & Hn). cbn in Hb.
    assert (j = 0 \/ j = 1 \/ j = 2) as [->|[->| ->]] by lia; cbn in Hn; done.
  - rewrite Hslots. apply Forall_cons_2; [exact demo_good|apply Forall_nil_2].
Defined.

Lemma init_reads_dynamic_witness :
  exists self', xh_elf_init demo_lib demo_elf 0x1000 (Some [47; 97; 46; 115; 111]) = Ok (0, self') /\
    pathname self' = Some [47; 97; 46; 115; 111] /\ base_addr self' = 0x1000 /\ bias_addr self' = 0x1000 - 0 /\
    tabs self' = skip_magic (dyn_tables (0x1000 - 0) demo_dyn) /\ dyn_hash demo_lib (0x1000 - 0) demo_dyn (hash self').
Proof.
  apply (init_reads_dynamic demo_lib demo_elf 0x1000 [47; 97; 46; 115; 111] 64 demo_segs
    {| s_type := PT_LOAD; s_off := 0; s_vaddr := 0; s_memsz := 0x8000 |}
    {| s_type := PT_DYNAMIC; s_off := 0x200; s_vaddr := 0x200; s_memsz := 128 |} demo_dyn).
  - apply mem_ok_check. vm_compute. reflexivity.
  - cbn. lia.
  - vm_compute. reflexivity.
  - vm_compute. reflexivity.
  - vm_compute. discriminate.
  - intros [|[|k]] s Hk; [apply (inj Some) in Hk as <-..|done]; split_and!; vm_compute; reflexivity.
  - reflexivity.
  - reflexivity.
  - cbn. lia.
  - split; [|right; split; [vm_compute; lia|vm_compute; reflexivity]].
    intros k tag val Hk. do 7 (destruct k as [|k]; [apply (inj Some), pair_equal_spec in Hk as [<- <-];
      split; vm_compute; reflexivity|]). done.
  - assert (Hwords : forall raw, raw = 0x1400 \/ raw = 0x1440 -> forall k, 0 <= k < 4 -> is_Some (load32 demo_lib (raw + 4 * k))).
    { intros raw Hraw k Hk. apply load_mapped. intros i Hi. replace (raw + 4 * k + i) with (raw + (4 * k + i)) by lia.
      assert (Hmap : mapped demo_lib 0x1400 16 /\ mapped demo_lib 0x1440 16)
        by (split; apply mapped_check; vm_compute; reflexivity).
      destruct Hraw as [->| ->]; apply Hmap; lia. }
    unfold demo_dyn. repeat (apply Forall_cons_2; [split; [done|split; [intros _; vm_compute; discriminate|]]|]); try apply Forall_nil_2;
      intros Htag; try (exfalso; revert Htag; apply (bool_decide_unpack _); vm_compute; reflexivity).
    + apply Hwords. by left.
    + apply Hwords. by right.
  - by eexists.
  - by eexists.
  - left. by eexists.
  - by intros [].
Defined.
