(* ===== verification/XdlIterate.v ===== *)
(** xDL/xdl_iterate.c and xdl_util.c: walking the libraries of the process, by the
    linker's [dl_iterate_phdr] or, on Android 4.x, by the maps file, and finding
    the full path of a library in the maps file. *)
From S2P Require Import Prelude Memory CString XhReloc XhUtil XhElf.

Definition XDL_WITH_LINKER : Z := 1.
Definition XDL_FULL_PATHNAME : Z := 2.
Definition ANDROID_API_J : Z := 16.
Definition ANDROID_API_L : Z := 21.
Definition ANDROID_API_O_MR1 : Z := 27.

Section Xdl.
Context `{Arch}.

(** [UINTPTR_MAX] *)
Definition UINTPTR_MAX : Z := 2 ^ ptr_bits - 1.

(** [struct dl_phdr_info] *)
Record dl_phdr_info := { dlpi_addr : Z; dlpi_name : option (list Z); dlpi_phdr : Z; dlpi_phnum : Z }.

Definition XDL_CONST_PATHNAME_LINKER : list Z :=
  if lp64 then codes "/system/bin/linker64" else codes "/system/bin/linker".

(** ** xdl_util.c *)

Fixpoint xdl_util_starts_with (str start : list Z) : bool :=
  match start, str with
  | [], _ => true
  | c :: start', d :: str' => (d =? c) && xdl_util_starts_with str' start'
  | _ :: _, [] => false
  end.

Definition xdl_util_ends_with (str ending : list Z) : bool :=
  if (length str <? length ending)%nat then false
  else bool_decide (drop (length str - length ending) str = ending).

(** The string without its trailing blanks. *)
Fixpoint xdl_util_trim_ending (s : list Z) : list Z :=
  match s with
  | [] => []
  | c :: s' => match xdl_util_trim_ending s' with
               | [] => if is_space c then [] else [c]
               | t => c :: t
               end
  end.

(** [atoi]: [(int) strtol(s, NULL, 10)]. *)
Definition atoi (s : list Z) : Z :=
  let '(neg, d) := sign (skip_spaces s) in
  let v := digits 10 0 d in
  s32 (if neg then Z.max (- v) (- 2 ^ (ptr_bits - 1)) else Z.min v (2 ^ (ptr_bits - 1) - 1)).

Definition sdk_prop : list Z := codes "ro.build.version.sdk=".

(** The first of the lines with the property. *)
Fixpoint find_sdk (lines : list (list Z)) : Z :=
  match lines with
  | [] => -1
  | buf :: lines => if xdl_util_starts_with buf sdk_prop then atoi (drop 21 buf) else find_sdk lines
  end.
(** [build_prop]: the file, when it can be opened. *)
Definition xdl_util_get_api_level_from_build_prop (build_prop : option (list Z)) : Z :=
  let api_level := match build_prop with None => -1 | Some file => find_sdk (fgets_all 127 [] file) end in
  if 0 <? api_level then api_level else -1.

(** The result and [xdl_util_api_level]; [device]: [android_get_device_api_level()]. *)
Definition xdl_util_get_api_level (device : Z) (build_prop : option (list Z)) (xdl_util_api_level : Z) : Z * Z :=
  if xdl_util_api_level <? 0 then
    let api_level := device in
    let api_level := if api_level <? 0 then xdl_util_get_api_level_from_build_prop build_prop else api_level in
    let api_level := if api_level <? ANDROID_API_J then ANDROID_API_J else api_level in
    (api_level, api_level)
  else (xdl_util_api_level, xdl_util_api_level).

(** ** The maps file *)

(** The least [p_vaddr] of the load segments among the [n] headers left. *)
Fixpoint min_vaddr_loop (n : nat) (m : mem) (phdr min_vaddr : Z) : res Z :=
  match n with
  | O => Ok min_vaddr
  | S n' =>
      let! t := of_opt (p_type m phdr) in
      let! min_vaddr := (if t =? PT_LOAD
                         then let! v := of_opt (p_vaddr m phdr) in Ok (if v <? min_vaddr then v else min_vaddr)
                         else Ok min_vaddr) in
      min_vaddr_loop n' m (phdr + phdr_size) min_vaddr
  end.
Definition xdl_iterate_get_min_vaddr (m : mem) (info : dl_phdr_info) : res Z :=
  min_vaddr_loop (Z.to_nat (dlpi_phnum info)) m (dlpi_phdr info) UINTPTR_MAX.

(** [sscanf(line, "%"SCNxPTR"-%"SCNxPTR" r", &start, &end)] with result 2. *)
Definition sscanf_range (line : list Z) : option (Z * Z) :=
  match scan_hex line with
  | Some (start, s) =>
      match scan_lit 45 s with
      | Some s => match scan_hex s with Some (end_, _) => Some (start, end_) | None => None end
      | None => None
      end
  | None => None
  end.

(** [strchr(line, c)] *)
Fixpoint strchr (c : Z) (s : list Z) : option (list Z) :=
  match s with [] => None | d :: s' => if d =? c then Some s else strchr c s' end.

(** The loop over the lines: the path of the region that holds [base]. *)
Fixpoint find_pathname (base : Z) (lines : list (list Z)) : option (list Z) :=
  match lines with
  | [] => None
  | line :: lines' =>
      match sscanf_range line with
      | None => find_pathname base lines'
      | Some (start, end_) =>
          if base <? start then None
          else if end_ <=? base then find_pathname base lines'
          else xdl_util_trim_ending <$> strchr 47 line
      end
  end.

(** [None]: failed; [buf_len] is 512 for its caller. *)
Definition xdl_iterate_get_pathname_from_maps (m : mem) (maps : option (list Z)) (info : dl_phdr_info) (buf_len : nat)
    : res (option (list Z)) :=
  let! min_vaddr := xdl_iterate_get_min_vaddr m info in
  if min_vaddr =? UINTPTR_MAX then Ok None
  else
    let base := up (dlpi_addr info + min_vaddr) in
    match maps with
    | None => Ok None
    | Some file => Ok (take (buf_len - 1) <$> find_pathname base (fgets_all 1023 [] file))
    end.

(** [sscanf(line, "%"SCNxPTR"-%*"SCNxPTR" r-xp %"SCNxPTR" ", &base, &offset)] with
    result 2. *)
Fixpoint scan_lits (cs s : list Z) : option (list Z) :=
  match cs with
  | [] => Some s
  | c :: cs' => match scan_lit c s with Some s => scan_lits cs' s | None => None end
  end.
Definition sscanf_code (line : list Z) : option (Z * Z) :=
  match scan_hex line with
  | Some (base, s) =>
      match scan_lit 45 s with
      | Some s =>
          match scan_hex s with
          | Some (_, s) =>
              match scan_lits (codes "r-xp") (skip_spaces s) with
              | Some s => match scan_hex s with Some (offset, _) => Some (base, offset) | None => None end
              | None => None
              end
          | None => None
          end
      | None => None
      end
  | None => None
  end.

Definition elf_magic (m : mem) (base : Z) : res bool :=
  let! w := of_opt (load32 m base) in Ok (w =? 0x464c457f).

Fixpoint find_linker_loop (m : mem) (lines : list (list Z)) : res Z :=
  match lines with
  | [] => Ok 0
  | line :: lines' =>
      let line := xdl_util_trim_ending line in
      if negb (xdl_util_ends_with line (32 :: XDL_CONST_PATHNAME_LINKER)) then find_linker_loop m lines'
      else
        match sscanf_code line with
        | None => find_linker_loop m lines'
        | Some (base, offset) =>
            if negb (offset =? 0) then find_linker_loop m lines'
            else let! ok := elf_magic m base in if ok : bool then Ok base else find_linker_loop m lines'
        end
  end.
Definition xdl_iterate_find_linker_base (m : mem) (maps : option (list Z)) : res Z :=
  match maps with None => Ok 0 | Some file => find_linker_loop m (fgets_all 1023 [] file) end.

(** ** Walking the libraries

    [C] is the state the callback changes, the memory and the maps file among it. *)

Context {C : Type} (cmem : C -> mem) (cmaps : C -> option (list Z)) (cb : dl_phdr_info -> C -> res (Z * C)).

Definition xdl_iterate_do_callback (base : Z) (pathname : list Z) (s : C) : res (Z * option Z * C) :=
  let! phoff := of_opt (e_phoff (cmem s) base) in
  let! phnum := of_opt (e_phnum (cmem s) base) in
  let info a := {| dlpi_addr := a; dlpi_name := Some pathname; dlpi_phdr := up (base + phoff); dlpi_phnum := phnum |} in
  let! min_vaddr := xdl_iterate_get_min_vaddr (cmem s) (info 0) in
  if min_vaddr =? UINTPTR_MAX then Ok (0, None, s)
  else
    let load_bias := up (base - min_vaddr) in
    let! (r, s) := cb (info load_bias) s in
    Ok (r, Some load_bias, s).

(** The program headers from memory, when the linker does not give them. *)
Definition fix_phdr (m : mem) (info : dl_phdr_info) : res dl_phdr_info :=
  if (dlpi_phdr info =? 0) || (dlpi_phnum info =? 0) then
    let! phoff := of_opt (e_phoff m (dlpi_addr info)) in
    let! phnum := of_opt (e_phnum m (dlpi_addr info)) in
    Ok {| dlpi_addr := dlpi_addr info; dlpi_name := dlpi_name info; dlpi_phdr := up (dlpi_addr info + phoff);
          dlpi_phnum := phnum |}
  else Ok info.

Definition xdl_iterate_by_linker_cb (linker_load_bias flags : Z) (info : dl_phdr_info) (s : C) : res (Z * C) :=
  match dlpi_name info with
  | None => Ok (0, s)
  | Some name =>
      if (dlpi_addr info =? 0) || bool_decide (name = []) then Ok (0, s)
      else if linker_load_bias =? dlpi_addr info then Ok (0, s)
      else
        let! info := fix_phdr (cmem s) info in
        if negb (bool_decide (head name = Some 47)) && negb (bool_decide (head name = Some 91)) &&
           truthy (flags .& XDL_FULL_PATHNAME)
        then
          let! pathname := xdl_iterate_get_pathname_from_maps (cmem s) (cmaps s) info 512 in
          match pathname with
          | None => Ok (0, s)
          | Some p => cb {| dlpi_addr := dlpi_addr info; dlpi_name := Some p; dlpi_phdr := dlpi_phdr info;
                            dlpi_phnum := dlpi_phnum info |} s
          end
        else cb info s
  end.

(** [dl_iterate_phdr] calls back for each library of the linker's list until the
    callback returns something else than 0. *)
Fixpoint dl_iterate_phdr (f : dl_phdr_info -> C -> res (Z * C)) (libs : list dl_phdr_info) (s : C) : res (Z * C) :=
  match libs with
  | [] => Ok (0, s)
  | info :: libs' =>
      let! (r, s) := f info s in
      if r =? 0 then dl_iterate_phdr f libs' s else Ok (r, s)
  end.

(** [libs]: the linker's list; [None] when the C library has no [dl_iterate_phdr]. *)
Definition xdl_iterate_by_linker (api_level : Z) (libs : option (list dl_phdr_info)) (flags : Z) (s : C) : res (Z * C) :=
  match libs with
  | None => Ok (-1, s)
  | Some libs =>
      let! (stop, linker_load_bias, s) :=
        (if truthy (flags .& XDL_WITH_LINKER) && (api_level <? ANDROID_API_O_MR1) then
           let! base := xdl_iterate_find_linker_base (cmem s) (cmaps s) in
           if base =? 0 then Ok (0, 0, s)
           else let! (r, bias, s) := xdl_iterate_do_callback base XDL_CONST_PATHNAME_LINKER s in
                Ok (r, default 0 bias, s)
         else Ok (0, 0, s)) in
      if negb (stop =? 0) then Ok (0, s)
      else let! (_, s) := dl_iterate_phdr (xdl_iterate_by_linker_cb linker_load_bias flags) libs s in Ok (0, s)
  end.

(** Android 4.x *)
Fixpoint by_maps_loop (lines : list (list Z)) (s : C) : res C :=
  match lines with
  | [] => Ok s
  | line :: lines' =>
      match sscanf_code line with
      | None => by_maps_loop lines' s
      | Some (base, offset) =>
          if negb (offset =? 0) then by_maps_loop lines' s
          else
            let! ok := elf_magic (cmem s) base in
            if negb ok then by_maps_loop lines' s
            else
              match strchr 47 line with
              | None => Ok s
              | Some pathname =>
                  let! (r, _, s) := xdl_iterate_do_callback base (xdl_util_trim_ending pathname) s in
                  if r =? 0 then by_maps_loop lines' s else Ok s
              end
      end
  end.
Definition xdl_iterate_by_maps (s : C) : res (Z * C) :=
  match cmaps s with
  | None => Ok (0, s)
  | Some file => let! s := by_maps_loop (fgets_all 1023 [] file) s in Ok (0, s)
  end.

Definition xdl_iterate_phdr_impl (api_level : Z) (libs : option (list dl_phdr_info)) (flags : Z) (s : C) : res (Z * C) :=
  if negb lp64 && (api_level <? ANDROID_API_L) then xdl_iterate_by_maps s
  else xdl_iterate_by_linker api_level libs flags s.

(** ** The path of a library *)

Lemma sscanf_range_vma v : vma_ok v -> sscanf_range (text_line (vma_text v)) = Some (lo v, hi v).
Proof.
  intros [(Hw & Hlo & Hlt & Hhi & Hp & _) _]. unfold sscanf_range, text_line, vma_text.
  rewrite <- !app_assoc. rewrite hex_scan by (done || lia). cbn [app scan_lit Z.eqb Pos.eqb].
  rewrite <- !app_assoc. by rewrite hex_scan by (done || lia).
Qed.

Lemma strchr_app c a b : c ∉ a -> strchr c (a ++ b) = strchr c b.
Proof.
  induction a as [|d a IH]; intros Hc; [done|]. cbn [app strchr]. apply not_elem_of_cons in Hc as [Hne Hc].
  destruct (Z.eqb_spec d c); [congruence|by apply IH].
Qed.

Lemma hex_no_slash n v : 47 ∉ hex_of n v.
Proof.
  pose proof (hex_of_digits n v) as Hd. intros Hin. rewrite Forall_forall in Hd. specialize (Hd 47 Hin).
  apply digit_of_16 in Hd. lia.
Qed.

(** The first slash of a line of the maps file starts the path. *)
Lemma strchr_vma v pre path :
  info v = pre ++ path -> head path = Some 47 -> 47 ∉ pre ->
  strchr 47 (text_line (vma_text v)) = Some (path ++ [NL]).
Proof.
  intros Hinfo Hhead Hpre. unfold text_line, vma_text. rewrite Hinfo.
  assert (Hperms : 47 ∉ perms v).
  { unfold perms. destruct (readable v), (writable v), (executable v), (private v); apply (bool_decide_unpack _); by vm_compute. }
  rewrite <- !app_assoc, strchr_app by apply hex_no_slash. cbn [app strchr Z.eqb Pos.eqb].
  rewrite <- !app_assoc, strchr_app by apply hex_no_slash. cbn [app strchr Z.eqb Pos.eqb].
  rewrite <- !app_assoc, strchr_app by done. cbn [app strchr Z.eqb Pos.eqb].
  rewrite <- app_assoc, strchr_app by done. destruct path as [|c path]; [done|]. cbn in Hhead. apply (inj Some) in Hhead as ->.
  done.
Qed.

Lemma trim_text s : (forall c, last s = Some c -> is_space c = false) -> xdl_util_trim_ending (s ++ [NL]) = s.
Proof.
  induction s as [|c s IH]; intros Hl; [done|]. cbn [app xdl_util_trim_ending].
  destruct s as [|d s].
  - cbn. by rewrite (Hl c).
  - rewrite IH; [done|]. intros c' Hc'. apply Hl. by rewrite last_cons_cons.
Qed.

Lemma find_pathname_vma before v after base pre path :
  Forall vma_ok (before ++ v :: after) -> Forall (fun v => hi v <= base) before -> lo v <= base < hi v ->
  info v = pre ++ path -> head path = Some 47 -> 47 ∉ pre -> (forall c, last path = Some c -> is_space c = false) ->
  find_pathname base (text_line <$> (vma_text <$> (before ++ v :: after))) = Some path.
Proof.
  intros Hok Hbefore Hin Hinfo Hhead Hpre Hlast. revert Hok. induction Hbefore as [|b before Hb Hbefore IH]; cbn [app]; intros Hok;
    apply Forall_cons in Hok as [Hhere Hok]; cbn [fmap list_fmap find_pathname]; rewrite sscanf_range_vma by done.
  - destruct (Z.ltb_spec base (lo v)); [lia|]. destruct (Z.leb_spec (hi v) base); [lia|].
    rewrite (strchr_vma v pre path) by done.
    change (xdl_util_trim_ending <$> Some (path ++ [NL])) with (Some (xdl_util_trim_ending (path ++ [NL]))).
    by rewrite trim_text.
  - destruct Hhere as [(_ & _ & Hlt & _) _].
    destruct (Z.ltb_spec base (lo b)) as [Hl|_].
    { exfalso. lia. }
    destruct (Z.leb_spec (hi b) base); [|lia]. by apply IH.
Qed.



(** *** The API level *)

Lemma starts_with_spec str start : xdl_util_starts_with str start = bool_decide (take (length start) str = start).
Proof.
  revert str. induction start as [|c start IH]; intros str; cbn [xdl_util_starts_with length take].
  - rewrite take_0, bool_decide_true by done. by destruct str.
  - destruct str as [|d str]; [done|]. cbn [xdl_util_starts_with take]. rewrite IH. destruct (Z.eqb_spec d c) as [->|Hne]; cbn [andb].
    + apply bool_decide_ext. split; [by intros ->|congruence].
    + rewrite bool_decide_false by congruence. done.
Qed.

Lemma atoi_digits d s :
  d <> [] -> Forall (fun c => 48 <= c <= 57) d -> digits 10 0 d < 2 ^ 31 -> match s with c :: _ => digit_of 10 c = None | [] => True end ->
  atoi (d ++ s) = digits 10 0 d.
Proof.
  intros Hne Hd Hv Hs. assert (Hdig : forall acc, 0 <= acc -> digits 10 acc (d ++ s) = digits 10 acc d /\ 0 <= digits 10 acc d).
  { clear Hne Hv. induction Hd as [|c d Hc Hd IH]; intros acc Hacc; cbn [app digits].
    - destruct s as [|c s]; [done|]. cbn [digits]. by rewrite Hs.
    - assert (Hdc : digit_of 10 c = Some (c - 48)).
      { unfold digit_of. destruct (Z.leb_spec 48 c), (Z.leb_spec c 57); try lia. cbn [andb].
        destruct (Z.ltb_spec (c - 48) 10); [done|lia]. }
      rewrite Hdc. apply IH. lia. }
  destruct (Hdig 0 ltac:(lia)) as [He H0]. clear Hdig.
  assert (Hstart : sign (skip_spaces (d ++ s)) = (false, d ++ s)).
  { destruct d as [|c d]; [done|]. apply Forall_cons in Hd as [Hc _]. cbn [app skip_spaces]. unfold is_space, SPACE.
    destruct (Z.eqb_spec c 32), (Z.leb_spec 9 c), (Z.leb_spec c 13); try lia; cbn [orb andb];
      unfold sign; repeat case_match; simplify_eq; lia || done. }
  unfold atoi. rewrite Hstart, He.
  assert (Hp : 2 ^ 31 <= 2 ^ (ptr_bits - 1)) by (unfold ptr_bits; by destruct lp64).
  rewrite Z.min_l by lia. apply swrap_small; lia.
Qed.

(** The level of build.prop is the number of the first line with the property. *)
Lemma build_prop_level before d rest :
  Forall (fun l => Forall (fun c => c <> NL) l /\ (length l < 127)%nat /\ take 21 l <> sdk_prop) before ->
  d <> [] -> Forall (fun c => 48 <= c <= 57) d -> (length d < 100)%nat -> 0 < digits 10 0 d < 2 ^ 31 ->
  xdl_util_get_api_level_from_build_prop (Some (mjoin (text_line <$> before) ++ text_line (sdk_prop ++ d) ++ rest)) = digits 10 0 d.
Proof.
  intros Hb Hne Hd Hlen Hv. unfold xdl_util_get_api_level_from_build_prop.
  assert (Hf : find_sdk (fgets_all 127 [] (mjoin (text_line <$> before) ++ text_line (sdk_prop ++ d) ++ rest)) = digits 10 0 d).
  { induction Hb as [|l before (Hnl & Hl & Hp) Hb IH]; cbn [fmap list_fmap mjoin list_join app].
    - rewrite fgets_all_line.
      + cbn [find_sdk app]. rewrite starts_with_spec. unfold text_line. rewrite <- app_assoc, take_app_length.
        rewrite bool_decide_true by done. rewrite (drop_app_length' sdk_prop) by done. apply atoi_digits; done || lia.
      + apply Forall_app. split; [repeat constructor; done|]. eapply Forall_impl; [exact Hd|]. unfold NL. cbn. lia.
      + rewrite length_app. change (length sdk_prop) with 21%nat. cbn [length]. lia.
    - rewrite <- app_assoc, fgets_all_line by (done || (cbn [length]; lia)). cbn [find_sdk app]. rewrite starts_with_spec.
      change (length sdk_prop) with 21%nat. rewrite bool_decide_false; [exact IH|].
      unfold text_line. intros Ht. assert (Hcase : (length l < 21)%nat \/ (21 <= length l)%nat) by lia.
      destruct Hcase as [Hc|Hc].
      + assert (Hin : NL ∈ take 21 (l ++ [NL])).
        { rewrite take_ge by (rewrite length_app; cbn; lia). apply elem_of_app. right. by left. }
        rewrite Ht in Hin. revert Hin. apply (bool_decide_unpack _). vm_compute. exact I.
      + rewrite take_app_le in Ht by lia. done. }
  rewrite Hf. destruct (Z.ltb_spec 0 (digits 10 0 d)); [done|lia].
Qed.

(** The level is asked for once. *)
Lemma api_level_once device device' file file' level :
  let '(level, static) := xdl_util_get_api_level device file level in
  xdl_util_get_api_level device' file' static = (level, static).
Proof.
  unfold xdl_util_get_api_level at 1. destruct (Z.ltb_spec level 0); unfold xdl_util_get_api_level;
    [|destruct (Z.ltb_spec level 0); [lia|done]].
  destruct (Z.ltb_spec device 0); [destruct (Z.ltb_spec (xdl_util_get_api_level_from_build_prop file) ANDROID_API_J)|
    destruct (Z.ltb_spec device ANDROID_API_J)]; unfold ANDROID_API_J in *; zbool; done.
Qed.
End Xdl.

(** ** Looking for one library

    The libraries a walk goes over, and a walk that stops at the first library
    [g] takes. *)
Section FirstMatch.
Context `{Arch} (m : mem) (maps : option (list Z)) {X : Type} (g : dl_phdr_info -> res (option X)).

Definition collect (info : dl_phdr_info) (l : list dl_phdr_info) : res (Z * list dl_phdr_info) := Ok (0, l ++ [info]).
Definition stop_at (info : dl_phdr_info) (s : option X) : res (Z * option X) :=
  let! o := g info in Ok (match o with Some x => (1, Some x) | None => (0, s) end).

Definition libraries (api_level : Z) (libs : option (list dl_phdr_info)) (flags : Z) : res (list dl_phdr_info) :=
  let! (_, l) := xdl_iterate_phdr_impl (fun _ => m) (fun _ => maps) collect api_level libs flags [] in Ok l.

Definition decided (l : list dl_phdr_info) : Prop := Forall (fun info => exists o, g info = Ok o) l.
Fixpoint first_taken (l : list dl_phdr_info) : option X :=
  match l with
  | [] => None
  | info :: l' => match g info with Ok (Some x) => Some x | _ => first_taken l' end
  end.
(** The result of the walk over [l]. *)
Definition outcome (l : list dl_phdr_info) : Z * option X :=
  match first_taken l with Some x => (1, Some x) | None => (0, None) end.

(** A step [a] of the walk over all the libraries, and the same step [b] of the walk
    that stops. *)
Definition walks (a : list dl_phdr_info -> res (Z * list dl_phdr_info)) (b : res (Z * option X)) : Prop :=
  forall l0 z l1, a l0 = Ok (z, l1) -> z = 0 /\ exists l, l1 = l0 ++ l /\ (decided l -> b = Ok (outcome l)).

(** A callback that stops at the first library [g] takes. *)
Context (cb : dl_phdr_info -> option X -> res (Z * option X)) (cb_stop : forall info, cb info None = stop_at info None).

Lemma first_taken_app l1 l2 :
  first_taken (l1 ++ l2) = match first_taken l1 with Some x => Some x | None => first_taken l2 end.
Proof. induction l1 as [|i l1 IH]; [done|]. cbn [app first_taken]. destruct (g i) as [[x|]| |]; done || apply IH. Qed.

Lemma walks_nothing : walks (fun l => Ok (0, l)) (Ok (0, None)).
Proof. intros l0 z l1 [= <- <-]. split; [done|]. exists []. by rewrite app_nil_r. Qed.

Lemma stop_outcome info : decided [info] -> cb info None = Ok (outcome [info]).
Proof.
  intros Hd. apply Forall_cons in Hd as [[o Ho] _]. rewrite cb_stop. unfold stop_at, outcome. cbn [first_taken]. rewrite Ho. by destruct o.
Qed.

Lemma walks_cb info : walks (collect info) (cb info None).
Proof. intros l0 z l1 [= <- <-]. split; [done|]. exists [info]. split; [done|]. apply stop_outcome. Qed.

Lemma walks_bind {A} (x : res A) a b :
  (forall v, x = Ok v -> walks (a v) (b v)) -> walks (fun l => let! v := x in a v l) (let! v := x in b v).
Proof. destruct x as [v| |]; cbn [rbind]; intros Hv; [by apply Hv|by intros ???..]. Qed.

(** A step, then the rest of the walk unless the step stopped it. *)
Lemma walks_seq a b a' b' :
  walks a b -> walks a' (b' None) ->
  walks (fun l => let! (r, l) := a l in if r =? 0 then a' l else Ok (r, l))
        (let! (r, s) := b in if r =? 0 then b' s else Ok (r, s)).
Proof.
  intros Ha Ha' l0 z l1. destruct (a l0) as [[r l]| |] eqn:E; cbn [rbind]; [|done..].
  destruct (Ha _ _ _ E) as (-> & k & -> & Hk). cbn [Z.eqb]. intros E'. destruct (Ha' _ _ _ E') as (-> & k' & -> & Hk').
  split; [done|]. exists (k ++ k'). split; [by rewrite app_assoc|]. intros [Hd Hd']%Forall_app.
  rewrite (Hk Hd). unfold outcome at 1. unfold outcome. rewrite first_taken_app.
  destruct (first_taken k) as [x|]; cbn [rbind Z.eqb]; [done|]. by rewrite (Hk' Hd').
Qed.

Lemma walks_linker_cb bias flags info :
  walks (xdl_iterate_by_linker_cb (fun _ => m) (fun _ => maps) collect bias flags info)
        (xdl_iterate_by_linker_cb (fun _ => m) (fun _ => maps) cb bias flags info None).
Proof.
  unfold xdl_iterate_by_linker_cb. destruct (dlpi_name info) as [name|]; [|apply walks_nothing].
  do 2 (case_match; [apply walks_nothing|]). apply walks_bind. intros info' _.
  case_match; [|apply walks_cb]. apply walks_bind. intros [p|] _; [apply walks_cb|apply walks_nothing].
Qed.

Lemma walks_dl_iterate bias flags infos :
  walks (dl_iterate_phdr (xdl_iterate_by_linker_cb (fun _ => m) (fun _ => maps) collect bias flags) infos)
        (dl_iterate_phdr (xdl_iterate_by_linker_cb (fun _ => m) (fun _ => maps) cb bias flags) infos None).
Proof.
  induction infos as [|info infos IH]; [apply walks_nothing|].
  apply (walks_seq _ _ _ (dl_iterate_phdr (xdl_iterate_by_linker_cb (fun _ => m) (fun _ => maps) cb bias flags) infos));
    [apply walks_linker_cb|exact IH].
Qed.

Lemma walks_do_callback base path l0 z bias l1 :
  xdl_iterate_do_callback (fun _ => m) collect base path l0 = Ok (z, bias, l1) ->
  z = 0 /\ exists l, l1 = l0 ++ l /\
    (decided l -> xdl_iterate_do_callback (fun _ => m) cb base path None =
                  Ok ((outcome l).1, bias, (outcome l).2)).
Proof.
  unfold xdl_iterate_do_callback. destruct (of_opt (e_phoff m base)); cbn [rbind]; [|done..].
  destruct (of_opt (e_phnum m base)); cbn [rbind]; [|done..].
  destruct (xdl_iterate_get_min_vaddr _ _); cbn [rbind]; [|done..].
  case_match; [intros [= <- <- <-]; split; [done|]; exists []; by rewrite app_nil_r|].
  cbn [collect rbind]. intros [= <- <- <-]. split; [done|]. eexists. split; [done|]. intros Hd.
  rewrite (stop_outcome _ Hd). cbn [rbind]. by destruct (outcome _).
Qed.

Lemma walks_by_maps lines l0 l1 :
  by_maps_loop (fun _ => m) collect lines l0 = Ok l1 ->
  exists l, l1 = l0 ++ l /\ (decided l -> by_maps_loop (fun _ => m) cb lines None = Ok (outcome l).2).
Proof.
  assert (Hnil : forall l0, exists l, l0 = l0 ++ l /\ (decided l -> Ok None = Ok (outcome l).2)).
  { intros l. exists []. by rewrite app_nil_r. }
  revert l0. induction lines as [|line lines IH]; intros l0; cbn [by_maps_loop]; [by intros [= <-]|].
  destruct (sscanf_code line) as [[base off]|]; [|apply IH]. case_match; [apply IH|].
  destruct (elf_magic m base) as [ok| |]; cbn [rbind]; [|done..]. case_match; [apply IH|].
  destruct (strchr 47 line) as [path|]; [|by intros [= <-]].
  destruct (xdl_iterate_do_callback _ collect _ _ _) as [[[z bias] l]| |] eqn:E; cbn [rbind]; [|done..].
  destruct (walks_do_callback _ _ _ _ _ _ E) as (-> & k & -> & Hk). cbn [Z.eqb]. intros E'.
  destruct (IH _ E') as (k' & -> & Hk'). exists (k ++ k'). split; [by rewrite app_assoc|].
  intros [Hd Hd']%Forall_app. rewrite (Hk Hd). unfold outcome at 1 2 3. unfold outcome. rewrite first_taken_app.
  destruct (first_taken k) as [x|]; cbn [fst snd rbind Z.eqb]; [done|]. by rewrite (Hk' Hd').
Qed.

Lemma outcome_snd l : (outcome l).2 = first_taken l.
Proof. unfold outcome. by destruct (first_taken l). Qed.

(** The list of the linker, after the linker itself. *)
Lemma walks_tail bias flags infos l0 z l1 :
  (let! (_, s) := dl_iterate_phdr (xdl_iterate_by_linker_cb (fun _ => m) (fun _ => maps) collect bias flags) infos l0
   in Ok (0, s)) = Ok (z, l1) ->
  exists k, l1 = l0 ++ k /\ (decided k ->
    dl_iterate_phdr (xdl_iterate_by_linker_cb (fun _ => m) (fun _ => maps) cb bias flags) infos None = Ok (outcome k)).
Proof.
  destruct (dl_iterate_phdr _ _ _) as [[z' l']| |] eqn:E; cbn [rbind]; [|done..].
  intros [= <- <-]. destruct (walks_dl_iterate _ _ _ _ _ _ E) as (_ & k & -> & Hk). by exists k.
Qed.

Lemma walks_by_linker api_level libs flags z l :
  xdl_iterate_by_linker (fun _ => m) (fun _ => maps) collect api_level libs flags [] = Ok (z, l) -> decided l ->
  exists z, xdl_iterate_by_linker (fun _ => m) (fun _ => maps) cb api_level libs flags None = Ok (z, first_taken l).
Proof.
  unfold xdl_iterate_by_linker. destruct libs as [infos|]; [|intros [= <- <-] _; by eexists].
  assert (Htail : forall bias k z l, first_taken k = None ->
    (let! (_, s) := dl_iterate_phdr (xdl_iterate_by_linker_cb (fun _ => m) (fun _ => maps) collect bias flags) infos k
     in Ok (0, s)) = Ok (z, l) -> decided l -> exists z,
    (let! (_, s) := dl_iterate_phdr (xdl_iterate_by_linker_cb (fun _ => m) (fun _ => maps) cb bias flags) infos None
     in Ok (0, s)) = Ok (z, first_taken l)).
  { intros bias k z' l' Hn Ht. destruct (walks_tail _ _ _ _ _ _ Ht) as (k' & -> & Hk'). intros [_ Hd]%Forall_app.
    exists 0. rewrite (Hk' Hd), first_taken_app, Hn, <- outcome_snd. by destruct (outcome k'). }
  case_match; [|by apply (Htail 0 [])].
  destruct (xdl_iterate_find_linker_base m maps) as [base| |]; cbn [rbind]; [|done..].
  case_match; [by apply (Htail 0 [])|].
  destruct (xdl_iterate_do_callback _ collect _ _ _) as [[[r bias] k]| |] eqn:E; cbn [rbind]; [|done..].
  destruct (walks_do_callback _ _ _ _ _ _ E) as (-> & k' & -> & Hk). cbn [Z.eqb negb app]. intros Ht Hd.
  destruct (walks_tail _ _ _ _ _ _ Ht) as (k'' & -> & Hk''). apply Forall_app in Hd as [Hd Hd''].
  rewrite (Hk Hd). cbn [rbind]. rewrite outcome_snd. unfold outcome. destruct (first_taken k') as [x|] eqn:Ex; cbn [fst Z.eqb negb].
  - rewrite first_taken_app, Ex. by eexists.
  - rewrite (Hk'' Hd''), first_taken_app, Ex, <- outcome_snd. exists 0. by destruct (outcome k'').
Qed.

(** The walk finds the first library [g] takes. *)
Lemma walks_all api_level libs flags l :
  libraries api_level libs flags = Ok l -> decided l ->
  exists z, xdl_iterate_phdr_impl (fun _ => m) (fun _ => maps) cb api_level libs flags None = Ok (z, first_taken l).
Proof.
  unfold libraries, xdl_iterate_phdr_impl, xdl_iterate_by_maps. case_match.
  - destruct maps as [file|]; cbn [rbind]; [|intros [= <-] _; by eexists].
    destruct (by_maps_loop _ collect _ _) as [l1| |] eqn:E; cbn [rbind]; [|done..]. intros [= <-] Hd.
    destruct (walks_by_maps _ _ _ E) as (k & -> & Hk). rewrite (Hk Hd), outcome_snd. cbn [rbind app]. by eexists.
  - destruct (xdl_iterate_by_linker _ _ collect _ _ _ _) as [[z l1]| |] eqn:E; cbn [rbind]; [|done..].
    intros [= <-]. by apply (walks_by_linker _ _ _ z).
Qed.
End FirstMatch.

(** ** Witnesses *)

#[local] Existing Instance arm64.

(** One load segment; the library is mapped at 0x7000002000. *)
Definition demo_header : mem := mem_at 0x2000 (le_bytes 4 1 ++ replicate 52 0) ∅.
Definition demo_info : dl_phdr_info :=
  {| dlpi_addr := 0x7000002000; dlpi_name := Some (codes "b.so"); dlpi_phdr := 0x2000; dlpi_phnum := 1 |}.
Definition demo_before : list vma := [demo_vma 0x7000000000 0x7000002000 false true (codes "0 /a.so")].
Definition demo_here : vma := demo_vma 0x7000002000 0x7000003000 true false (codes "0 /lib/b.so").

