(* ===== verification/Xdl.v ===== *)
(** xDL/xdl.c and xdl_lzma.c: opening a loaded library, finding the address of a
    symbol in .dynsym or in the .symtab of its file (or of its compressed
    .gnu_debugdata), and finding the library and symbol of an address, with the
    handles kept in a cache. *)
From S2P Require Import Prelude Memory CString XhReloc XhUtil XhElf XdlIterate.

#[local] Arguments rbind {_ _} !_ _ /.

(** ** xdl_lzma.c *)

(** A heap pointer: NULL, a block of these bytes, or a block already freed. *)
Inductive buffer := NoBuffer | Buffer (data : list Z) | Dangling.

Section Lzma.
(** The decoder of the system's liblzma: [lzma_code] decodes from the source into so
    much room and returns its result, the bytes written, the number of bytes read
    and the status; before Android Q it has no argument for the end of the source
    ([lzma_code_q] has).  [lzma_found] says that its functions were found,
    [realloc_ok] that a size can be allocated. *)
Context `{Arch} {L : Type} (lzma_found : bool) (lzma_construct : L)
  (lzma_code : L -> Z -> list Z -> Z * L * list Z * nat * Z)
  (lzma_code_q : L -> Z -> list Z -> Z -> Z * L * list Z * nat * Z)
  (lzma_free : L -> L) (lzma_isfinished : L -> bool) (realloc_ok : Z -> bool) (api_level : Z).

Definition ANDROID_API_Q : Z := 29.
Definition SZ_OK : Z := 0.
Definition CODER_STATUS_NOT_FINISHED : Z := 2.

Definition lzma_step (state : L) (room : Z) (src : list Z) : Z * L * list Z * nat * Z :=
  if ANDROID_API_Q <=? api_level then lzma_code_q state room src 1 else lzma_code state room src.

(** The loop; the results are those of the function with [*dst]. *)
Fixpoint lzma_loop (fuel : nat) (state : L) (src dst : list Z) (dst_size : Z) : res (Z * buffer) :=
  match fuel with
  | O => NoFuel
  | S fuel' =>
      let dst_size := up (dst_size * 2) in
      if negb (realloc_ok dst_size) then Ok (-1, NoBuffer)
      else
        let '(result, state, out, used, status) := lzma_step state (up (dst_size - Z.of_nat (length dst))) src in
        if negb (result =? SZ_OK) then Ok (-1, Dangling)
        else
          let dst := dst ++ out in
          if status =? CODER_STATUS_NOT_FINISHED then lzma_loop fuel' state (drop used src) dst dst_size
          else if negb (lzma_isfinished (lzma_free state)) then Ok (-1, Dangling)
          else Ok (0, Buffer dst)
  end.
Definition xdl_lzma_decompress (fuel : nat) (src : list Z) (src_size : Z) (dst : buffer) : res (Z * buffer) :=
  if negb lzma_found then Ok (-1, dst) else lzma_loop fuel lzma_construct src [] (up (2 * src_size)).

(** ** Decompression terminates with the whole output

    [R st src plain]: in the state [st] the source left decodes to [plain]. *)

(** What [XzUnpacker_Code] does with a whole stream: it writes as much as there is room for; it is
    not finished while output is left, may be so or not when the output has just fitted, and
    with room to spare reaches the end of the stream, whose status is any other one
    (liblzma's is CODER_STATUS_NEEDS_MORE_INPUT: another stream may follow). *)
Record decoder_ok (R : L -> list Z -> list Z -> Prop) : Prop := {
  d_step : forall st src plain room, R st src plain -> 0 <= room ->
    exists st' used status, lzma_step st room src = (SZ_OK, st', take (Z.to_nat room) plain, used, status) /\
      (room < Z.of_nat (length plain) -> status = CODER_STATUS_NOT_FINISHED) /\
      (Z.of_nat (length plain) < room -> status <> CODER_STATUS_NOT_FINISHED) /\
      (if status =? CODER_STATUS_NOT_FINISHED then R st' (drop used src) (drop (Z.to_nat room) plain)
       else lzma_isfinished (lzma_free st') = true)
}.

Lemma lzma_loop_ok R fuel st src plain dst size :
  decoder_ok R -> R st src plain -> (forall n, realloc_ok n = true) -> 0 < size -> Z.of_nat (length dst) <= size ->
  Z.of_nat (length dst + length plain) < size * 2 ^ Z.of_nat fuel < 2 ^ ptr_bits -> (0 < fuel)%nat ->
  lzma_loop fuel st src dst size = Ok (0, Buffer (dst ++ plain)).
Proof.
  intros HR Hst Hre. revert st src plain dst size Hst.
  induction fuel as [|fuel IH]; intros st src plain dst size Hst Hs Hd Hb Hf; [lia|]. cbn [lzma_loop].
  rewrite Nat2Z.inj_succ, Z.pow_succ_r, Z.mul_assoc in Hb by lia.
  assert (1 <= 2 ^ Z.of_nat fuel) by (apply (Z.pow_le_mono_r 2 0); lia).
  assert (Hup : up (size * 2) = size * 2) by (apply up_small; nia).
  assert (Hroom : up (size * 2 - Z.of_nat (length dst)) = size * 2 - Z.of_nat (length dst)) by (apply up_small; nia).
  rewrite Hup, Hre, Hroom. cbn [negb].
  destruct (d_step R HR st src plain (size * 2 - Z.of_nat (length dst)) Hst) as (st' & used & status & -> & Hlt & Hgt & Hst'); [lia|].
  cbn [Z.eqb negb SZ_OK]. destruct (Z.eqb_spec status CODER_STATUS_NOT_FINISHED) as [Hnf|Hnf].
  - assert (Hfull : size * 2 - Z.of_nat (length dst) <= Z.of_nat (length plain)) by (apply Z.nlt_ge; intros Hlt'; by apply Hgt).
    destruct fuel as [|fuel']; [cbn in Hb; lia|].
    rewrite (IH st' _ _ _ _ Hst'); rewrite ?length_app, ?length_take, ?length_drop; [by rewrite <- app_assoc, take_drop|lia..].
  - assert (Hfit : Z.of_nat (length plain) <= size * 2 - Z.of_nat (length dst)) by (apply Z.nlt_ge; intros Hlt'; by apply Hnf, Hlt).
    rewrite Hst'. cbn [negb]. by rewrite take_ge by lia.
Qed.

(** C27: Decompression: with liblzma's functions found, a decoder that decodes the source, a whole stream, to [plain], however much
    room it needs and whatever status but "not finished" it ends with, a source that is not empty and memory for the blocks
    ([realloc] does not fail, and a size_t holds their sizes), the function returns 0 and a block of exactly
    [plain]; the buffer doubles, so the number of turns is bounded by the logarithm of its length. *)
Theorem decompress_all R fuel src size plain dst :
  decoder_ok R -> R lzma_construct src plain -> lzma_found = true -> (forall n, realloc_ok n = true) -> 0 < size ->
  Z.of_nat (length plain) < 2 * size * 2 ^ Z.of_nat fuel < 2 ^ ptr_bits -> (0 < fuel)%nat ->
  xdl_lzma_decompress fuel src size dst = Ok (0, Buffer plain).
Proof.
  intros HR Hst Hl Hre Hs Hb Hf. unfold xdl_lzma_decompress. rewrite Hl. cbn [negb].
  assert (1 <= 2 ^ Z.of_nat fuel) by (apply (Z.pow_le_mono_r 2 0); lia).
  rewrite up_small by nia. rewrite (lzma_loop_ok R fuel _ _ plain); try done; cbn; lia.
Qed.
End Lzma.

(** ** ELF structures *)

Definition SHT_PROGBITS : Z := 1.
Definition SHT_SYMTAB : Z := 2.
Definition SHT_STRTAB : Z := 3.
Definition SHN_UNDEF : Z := 0.
Definition SHN_LORESERVE : Z := 0xff00.
Definition SHN_HIRESERVE : Z := 0xffff.
Definition STT_TLS : Z := 6.

Definition XDL_DYNSYM_IS_EXPORT_SYM (shndx : Z) : bool := negb (shndx =? SHN_UNDEF).
Definition XDL_SYMTAB_IS_EXPORT_SYM (shndx : Z) : bool :=
  negb (shndx =? SHN_UNDEF) && negb ((SHN_LORESERVE <=? shndx) && (shndx <=? SHN_HIRESERVE)).

Section Xdl.
Context `{Arch}.

Definition e_shoff (m : mem) (ehdr : Z) : option Z := load_ptr m (ehdr + if lp64 then 40 else 32).
Definition e_shentsize (m : mem) (ehdr : Z) : option Z := load16 m (ehdr + if lp64 then 58 else 46).
Definition e_shnum (m : mem) (ehdr : Z) : option Z := load16 m (ehdr + if lp64 then 60 else 48).
Definition e_shstrndx (m : mem) (ehdr : Z) : option Z := load16 m (ehdr + if lp64 then 62 else 50).
Definition shdr_size : Z := if lp64 then 64 else 40.
Definition sh_name (m : mem) (shdr : Z) : option Z := load32 m shdr.
Definition sh_type (m : mem) (shdr : Z) : option Z := load32 m (shdr + 4).
Definition sh_offset (m : mem) (shdr : Z) : option Z := load_ptr m (shdr + if lp64 then 24 else 16).
Definition sh_size (m : mem) (shdr : Z) : option Z := load_ptr m (shdr + if lp64 then 32 else 20).
Definition sh_link (m : mem) (shdr : Z) : option Z := load32 m (shdr + if lp64 then 40 else 24).
Definition sh_entsize (m : mem) (shdr : Z) : option Z := load_ptr m (shdr + if lp64 then 56 else 36).

(** Fields of the symbol at an address. *)
Definition sym_name (m : mem) (sym : Z) : option Z := load32 m sym.
Definition st_info (m : mem) (sym : Z) : option Z := load8 m (sym + if lp64 then 4 else 12).
Definition st_shndx (m : mem) (sym : Z) : option Z := load16 m (sym + if lp64 then 6 else 14).
Definition st_value (m : mem) (sym : Z) : option Z := load_ptr m (sym + if lp64 then 8 else 4).
Definition st_size (m : mem) (sym : Z) : option Z := load_ptr m (sym + if lp64 then 16 else 8).

(** ** [xdl_t] *)

Record sysv_hash_t := { s_buckets : Z; s_buckets_cnt : Z; s_chains : Z; s_chains_cnt : Z }.
Record gnu_hash_t := {
  n_buckets : Z; n_buckets_cnt : Z; n_chains : Z; n_symoffset : Z; n_bloom : Z; n_bloom_cnt : Z; n_bloom_shift : Z
}.

(** .dynsym, and .symtab; the tables of the latter are heap blocks, as memories of
    their own from address 0 on. *)
Record dynsym_t := { dynsym : Z; dynstr : Z; sysv_hash : sysv_hash_t; gnu_hash : gnu_hash_t }.
Record symtab_t := { x_symtab : mem; symtab_cnt : Z; x_strtab : mem; strtab_sz : Z }.

(** [symtab] is [None] while [self->symtab] is NULL. *)
Record xdl_t := {
  x_pathname : list Z;
  load_bias : Z;
  x_phdr : Z;
  x_phnum : Z;
  dynsym_try_load : bool;
  dyns : dynsym_t;
  symtab_try_load : bool;
  debugdata : buffer;
  symtab : option symtab_t
}.

Definition no_dynsym : dynsym_t :=
  {| dynsym := 0; dynstr := 0;
     sysv_hash := {| s_buckets := 0; s_buckets_cnt := 0; s_chains := 0; s_chains_cnt := 0 |};
     gnu_hash := {| n_buckets := 0; n_buckets_cnt := 0; n_chains := 0; n_symoffset := 0; n_bloom := 0; n_bloom_cnt := 0;
                    n_bloom_shift := 0 |} |}.

(** The fresh [xdl_t] the callbacks make for a library with a name. *)
Definition new_xdl (info : dl_phdr_info) (name : list Z) : xdl_t :=
  {| x_pathname := name; load_bias := dlpi_addr info; x_phdr := dlpi_phdr info; x_phnum := dlpi_phnum info;
     dynsym_try_load := false; dyns := no_dynsym; symtab_try_load := false; debugdata := NoBuffer; symtab := None |}.

Definition set_dyns (d : dynsym_t) (self : xdl_t) : xdl_t :=
  {| x_pathname := x_pathname self; load_bias := load_bias self; x_phdr := x_phdr self; x_phnum := x_phnum self;
     dynsym_try_load := true; dyns := d; symtab_try_load := symtab_try_load self; debugdata := debugdata self;
     symtab := symtab self |}.
Definition set_symtab_load (b : buffer) (t : option symtab_t) (self : xdl_t) : xdl_t :=
  {| x_pathname := x_pathname self; load_bias := load_bias self; x_phdr := x_phdr self; x_phnum := x_phnum self;
     dynsym_try_load := dynsym_try_load self; dyns := dyns self; symtab_try_load := true; debugdata := b; symtab := t |}.

Definition set_symtab_addr (a : Z) (d : dynsym_t) : dynsym_t :=
  {| dynsym := a; dynstr := dynstr d; sysv_hash := sysv_hash d; gnu_hash := gnu_hash d |}.
Definition set_strtab_addr (a : Z) (d : dynsym_t) : dynsym_t :=
  {| dynsym := dynsym d; dynstr := a; sysv_hash := sysv_hash d; gnu_hash := gnu_hash d |}.
Definition set_sysv (h : sysv_hash_t) (d : dynsym_t) : dynsym_t :=
  {| dynsym := dynsym d; dynstr := dynstr d; sysv_hash := h; gnu_hash := gnu_hash d |}.
Definition set_gnu (h : gnu_hash_t) (d : dynsym_t) : dynsym_t :=
  {| dynsym := dynsym d; dynstr := dynstr d; sysv_hash := sysv_hash d; gnu_hash := h |}.

(** ** [xdl_dynsym_load] *)

(** The address of the dynamic section: the first of the [n] headers left. *)
Fixpoint find_dynamic (n : nat) (m : mem) (load_bias phdr : Z) : res (option Z) :=
  match n with
  | O => Ok None
  | S n' =>
      let! t := of_opt (p_type m phdr) in
      if t =? PT_DYNAMIC then let! v := of_opt (p_vaddr m phdr) in Ok (Some (up (load_bias + v)))
      else find_dynamic n' m load_bias (phdr + phdr_size)
  end.

Definition dynsym_entry (m : mem) (load_bias tag val : Z) (d : dynsym_t) : res dynsym_t :=
  let a := up (load_bias + val) in
  let word k := of_opt (load32 m (a + 4 * k)) in
  if tag =? DT_SYMTAB then Ok (set_symtab_addr a d)
  else if tag =? DT_STRTAB then Ok (set_strtab_addr a d)
  else if tag =? DT_HASH then
    let! n := word 0 in
    let! c := word 1 in
    Ok (set_sysv {| s_buckets := a + 8; s_buckets_cnt := n; s_chains := a + 8 + 4 * n; s_chains_cnt := c |} d)
  else if tag =? DT_GNU_HASH then
    let! n := word 0 in
    let! o := word 1 in
    let! z := word 2 in
    let! s := word 3 in
    let buckets := a + 16 + ptr_size * z in
    Ok (set_gnu {| n_buckets := buckets; n_buckets_cnt := n; n_chains := buckets + 4 * n; n_symoffset := o;
                   n_bloom := a + 16; n_bloom_cnt := z; n_bloom_shift := s |} d)
  else Ok d.

(** The section ends with DT_NULL only; [fuel] bounds its entries. *)
Fixpoint dynsym_loop (fuel : nat) (m : mem) (load_bias entry : Z) (d : dynsym_t) : res dynsym_t :=
  match fuel with
  | O => NoFuel
  | S fuel' =>
      let! tag := of_opt (d_tag m entry) in
      if tag =? DT_NULL then Ok d
      else
        let! val := of_opt (d_val m entry) in
        let! d := dynsym_entry m load_bias tag val d in
        dynsym_loop fuel' m load_bias (entry + dyn_size) d
  end.

(** Without the tables the counts are reset (the other fields keep their values). *)
Definition dynsym_fail (d : dynsym_t) : dynsym_t :=
  let s := sysv_hash d in let g := gnu_hash d in
  {| dynsym := 0; dynstr := 0;
     sysv_hash := {| s_buckets := s_buckets s; s_buckets_cnt := 0; s_chains := s_chains s; s_chains_cnt := s_chains_cnt s |};
     gnu_hash := {| n_buckets := n_buckets g; n_buckets_cnt := 0; n_chains := n_chains g; n_symoffset := n_symoffset g;
                    n_bloom := n_bloom g; n_bloom_cnt := n_bloom_cnt g; n_bloom_shift := n_bloom_shift g |} |}.

Definition xdl_dynsym_load (fuel : nat) (m : mem) (self : xdl_t) : res (Z * xdl_t) :=
  let! dynamic := find_dynamic (Z.to_nat (x_phnum self)) m (load_bias self) (x_phdr self) in
  match dynamic with
  | None => Ok (-1, set_dyns (dyns self) self)
  | Some dynamic =>
      let! d := (if dynamic =? 0 then Ok (dyns self) else dynsym_loop fuel m (load_bias self) dynamic (dyns self)) in
      if (dynsym d =? 0) || (dynstr d =? 0) || ((s_buckets_cnt (sysv_hash d) =? 0) && (n_buckets_cnt (gnu_hash d) =? 0))
      then Ok (-1, set_dyns (dynsym_fail d) self)
      else Ok (0, set_dyns d self)
  end.

(** Loading is tried once only. *)
Definition try_dynsym (fuel : nat) (m : mem) (self : xdl_t) : res (Z * xdl_t) :=
  if dynsym_try_load self then Ok (0, self) else xdl_dynsym_load fuel m self.

(** ** Symbols by name *)

Definition sysv_hash_step (h c : Z) : Z :=
  let h := u32 (u32 (h .<< 4) + c) in
  let g := h .& 0xf0000000 in
  let h := h .^ g in
  h .^ (g .>> 24).
Definition xdl_sysv_hash (name : list Z) : Z := fold_left sysv_hash_step name 0.
Definition xdl_gnu_hash (name : list Z) : Z := fold_left (fun h c => u32 (h + u32 (u32 (h .<< 5) + c))) name 5381.

Definition dyn_at (d : dynsym_t) (i : Z) : Z := dynsym d + i * sym_size.
Definition dynsym_at (self : xdl_t) (i : Z) : Z := dyn_at (dyns self) i.

Definition dynsym_is (m : mem) (self : xdl_t) (name : list Z) (i : Z) : res bool :=
  let! off := of_opt (sym_name m (dynsym_at self i)) in strcmp_eq m name (dynstr (dyns self) + off).

Fixpoint sysv_chain (fuel : nat) (m : mem) (self : xdl_t) (name : list Z) (i : Z) : res (option Z) :=
  match fuel with
  | O => NoFuel
  | S fuel' =>
      if i =? 0 then Ok None
      else
        let! found := dynsym_is m self name i in
        if found : bool then Ok (Some (dynsym_at self i))
        else
          let! i := of_opt (load32 m (s_chains (sysv_hash (dyns self)) + 4 * i)) in
          sysv_chain fuel' m self name i
  end.
Definition xdl_dynsym_find_symbol_use_sysv_hash (fuel : nat) (m : mem) (self : xdl_t) (name : list Z) : res (option Z) :=
  let h := sysv_hash (dyns self) in
  let! b := umod (xdl_sysv_hash name) (s_buckets_cnt h) in
  let! i := of_opt (load32 m (s_buckets h + 4 * b)) in
  sysv_chain fuel m self name i.

Fixpoint gnu_hash_chain (fuel : nat) (m : mem) (self : xdl_t) (name : list Z) (hash i : Z) : res (option Z) :=
  match fuel with
  | O => NoFuel
  | S fuel' =>
      let h := gnu_hash (dyns self) in
      let! sym_hash := of_opt (load32 m (n_chains h + 4 * u32 (i - n_symoffset h))) in
      let! found := (if (hash .| 1) =? (sym_hash .| 1) then dynsym_is m self name i else Ok false) in
      if found : bool then Ok (Some (dynsym_at self i))
      else if truthy (sym_hash .& 1) then Ok None
      else gnu_hash_chain fuel' m self name hash (u32 (i + 1))
  end.
Definition xdl_dynsym_find_symbol_use_gnu_hash (fuel : nat) (m : mem) (self : xdl_t) (name : list Z) : res (option Z) :=
  let h := gnu_hash (dyns self) in
  let hash := xdl_gnu_hash name in
  let! k := umod (hash / ptr_bits) (n_bloom_cnt h) in
  let! word := of_opt (load_ptr m (n_bloom h + ptr_size * k)) in
  if 32 <=? n_bloom_shift h then Fault
  else
    let mask := (1 .<< (hash mod ptr_bits)) .| (1 .<< ((hash .>> n_bloom_shift h) mod ptr_bits)) in
    if negb ((word .& mask) =? mask) then Ok None
    else
      let! b := umod hash (n_buckets_cnt h) in
      let! i := of_opt (load32 m (n_buckets h + 4 * b)) in
      if i <? n_symoffset h then Ok None else gnu_hash_chain fuel m self name hash i.

(** The lookup of [xdl_sym] once the tables are there. *)
Definition dynsym_find (fuel : nat) (m : mem) (self : xdl_t) (name : list Z) : res (option Z) :=
  let! sym := (if 0 <? n_buckets_cnt (gnu_hash (dyns self)) then xdl_dynsym_find_symbol_use_gnu_hash fuel m self name
               else Ok None) in
  match sym with
  | Some sym => Ok (Some sym)
  | None => if 0 <? s_buckets_cnt (sysv_hash (dyns self)) then xdl_dynsym_find_symbol_use_sysv_hash fuel m self name
            else Ok None
  end.

(** The address of a symbol, 0 when it is not found. *)
Definition xdl_sym (fuel : nat) (m : mem) (self : xdl_t) (name : list Z) : res (Z * xdl_t) :=
  let! (r, self) := try_dynsym fuel m self in
  if negb (r =? 0) then Ok (0, self)
  else if dynsym (dyns self) =? 0 then Ok (0, self)
  else
    let! sym := dynsym_find fuel m self name in
    match sym with
    | None => Ok (0, self)
    | Some sym =>
        let! shndx := of_opt (st_shndx m sym) in
        if negb (XDL_DYNSYM_IS_EXPORT_SYM shndx) then Ok (0, self)
        else let! v := of_opt (st_value m sym) in Ok (up (load_bias self + v), self)
    end.

(** ** [.symtab] *)

(** A block of memory of its own. *)
Definition block (bytes : list Z) : mem := mem_at 0 bytes ∅.

(** The bytes of a file or of the decompressed data; NULL when out of range.  The sum
    of offset and length may wrap around: reading the file then fails, in memory it
    goes unnoticed and the block is whatever follows the offset. *)
Definition xdl_read_file_to_heap (file : list Z) (data_offset data_len : Z) : option (list Z) :=
  let file_sz := Z.of_nat (length file) in
  if data_len =? 0 then None
  else if file_sz <=? data_offset then None
  else if file_sz <? up (data_offset + data_len) then None
  else
    let data := take (Z.to_nat data_len) (drop (Z.to_nat data_offset) file) in
    if Z.of_nat (length data) =? data_len then Some data else None.
Definition xdl_read_memory (data : list Z) (data_offset data_len : Z) : option (list Z) :=
  let mem_sz := Z.of_nat (length data) in
  if data_len =? 0 then None
  else if mem_sz <=? data_offset then None
  else if mem_sz <? up (data_offset + data_len) then None
  else Some (drop (Z.to_nat data_offset) data).

Section Symtab.
(** [open]: the file at a path; [decompress]: [xdl_lzma_decompress] on a block and the
    pointer it is to set. *)
Context (open : list Z -> option (list Z)) (decompress : list Z -> Z -> buffer -> res (Z * buffer)).

Definition symtab_name : list Z := codes ".symtab".
Definition debugdata_name : list Z := codes ".gnu_debugdata".

Section Sections.
(** [read]: how the bytes of a section are got; [shdrs], [shstrtab]: the section headers
    and the names, as blocks. *)
Context (read : Z -> Z -> option (list Z)) (shdrs shstrtab : mem) (shnum : Z).

Definition read_by_section (shdr : Z) : res (option (list Z)) :=
  let! off := of_opt (sh_offset shdrs shdr) in
  let! size := of_opt (sh_size shdrs shdr) in
  Ok (read off size).

(** The symbol table and its strings; [None]: [continue]. *)
Definition take_symtab (shdr : Z) : res (option symtab_t) :=
  let! link := of_opt (sh_link shdrs shdr) in
  if shnum <=? link then Ok None
  else
    let str := link * shdr_size in
    let! t := of_opt (sh_type shdrs str) in
    if negb (t =? SHT_STRTAB) then Ok None
    else
      let! symtab := read_by_section shdr in
      let! strtab := (match symtab with None => Ok None | Some _ => read_by_section str end) in
      match symtab, strtab with
      | Some symtab, Some strtab =>
          let! size := of_opt (sh_size shdrs shdr) in
          let! entsize := of_opt (sh_entsize shdrs shdr) in
          let! strsize := of_opt (sh_size shdrs str) in
          if entsize =? 0 then Fault
          else Ok (Some {| x_symtab := block symtab; symtab_cnt := size / entsize; x_strtab := block strtab; strtab_sz := strsize |})
      | _, _ => Ok None
      end.

Definition is_section (shdr type : Z) (name : list Z) : res bool :=
  let! off := of_opt (sh_name shdrs shdr) in
  let! t := of_opt (sh_type shdrs shdr) in
  if t =? type then strcmp_eq shstrtab name off else Ok false.
End Sections.

(** The loop over the [n] section headers left of the decompressed data. *)
Fixpoint debugdata_loop (n : nat) (data : list Z) (shdrs shstrtab : mem) (shnum shdr : Z) : res (option symtab_t) :=
  match n with
  | O => Ok None
  | S n' =>
      let! hit := is_section shdrs shstrtab shdr SHT_SYMTAB symtab_name in
      let! found := (if hit : bool then take_symtab (xdl_read_memory data) shdrs shnum shdr else Ok None) in
      match found with
      | Some t => Ok (Some t)
      | None => debugdata_loop n' data shdrs shstrtab shnum (shdr + shdr_size)
      end
  end.

(** The section headers and their names, of an ELF header in the memory [m]. *)
Definition section_headers (m : mem) (ehdr : Z) (read : Z -> Z -> option (list Z)) : res (option (mem * mem * Z)) :=
  let! shnum := of_opt (e_shnum m ehdr) in
  let! entsize := of_opt (e_shentsize m ehdr) in
  if (shnum =? 0) || negb (entsize =? shdr_size) then Ok None
  else
    let! off := of_opt (e_shoff m ehdr) in
    match read off (entsize * shnum) with
    | None => Ok None
    | Some shdrs =>
        let! strndx := of_opt (e_shstrndx m ehdr) in
        if (strndx =? SHN_UNDEF) || (shnum <=? strndx) then Ok None
        else
          let! names := read_by_section read (block shdrs) (strndx * shdr_size) in
          match names with
          | None => Ok None
          | Some names => Ok (Some (block shdrs, block names, shnum))
          end
    end.

(** [free(p)] *)
Definition free_buffer (b : buffer) : res buffer := match b with Dangling => Fault | _ => Ok NoBuffer end.

(** The symbol table, and [self->debugdata] afterwards. *)
Definition xdl_symtab_load_from_debugdata (file : list Z) (shdrs : mem) (shdr : Z) (b : buffer)
    : res (option symtab_t * buffer) :=
  let! zip := read_by_section (xdl_read_file_to_heap file) shdrs shdr in
  match zip with
  | None => Ok (None, b)
  | Some zip =>
      let! size := of_opt (sh_size shdrs shdr) in
      let! (r, b) := decompress zip size b in
      let! found := (match b with
                     | Buffer data =>
                         if negb (r =? 0) then Ok None
                         else
                           let! h := section_headers (block data) 0 (xdl_read_memory data) in
                           match h with
                           | None => Ok None
                           | Some (shdrs, shstrtab, shnum) => debugdata_loop (Z.to_nat shnum) data shdrs shstrtab shnum 0
                           end
                     | _ => if r =? 0 then Fault else Ok None
                     end) in
      match found with
      | Some t => Ok (Some t, b)
      | None => let! b := free_buffer b in Ok (None, b)
      end
  end.

Fixpoint symtab_loop (n : nat) (file : list Z) (shdrs shstrtab : mem) (shnum shdr : Z) (b : buffer)
    : res (option symtab_t * buffer) :=
  match n with
  | O => Ok (None, b)
  | S n' =>
      let! hit := is_section shdrs shstrtab shdr SHT_SYMTAB symtab_name in
      let! (found, b) :=
        (if hit : bool then let! found := take_symtab (xdl_read_file_to_heap file) shdrs shnum shdr in Ok (found, b)
         else
           let! hit := is_section shdrs shstrtab shdr SHT_PROGBITS debugdata_name in
           if hit : bool then xdl_symtab_load_from_debugdata file shdrs shdr b else Ok (None, b)) in
      match found with
      | Some t => Ok (Some t, b)
      | None => symtab_loop n' file shdrs shstrtab shnum (shdr + shdr_size) b
      end
  end.

(** The ELF header is read in memory, the section headers in the file. *)
Definition xdl_symtab_load (m : mem) (self : xdl_t) : res (Z * xdl_t) :=
  let fail := Ok (-1, set_symtab_load (debugdata self) None self) in
  let! vaddr_min := min_vaddr_loop (Z.to_nat (x_phnum self)) m (x_phdr self) UINTPTR_MAX in
  if vaddr_min =? UINTPTR_MAX then fail
  else
    match open (x_pathname self) with
    | None => fail
    | Some file =>
        let! h := section_headers m (up (load_bias self + vaddr_min)) (xdl_read_file_to_heap file) in
        match h with
        | None => fail
        | Some (shdrs, shstrtab, shnum) =>
            let! (found, b) := symtab_loop (Z.to_nat shnum) file shdrs shstrtab shnum 0 (debugdata self) in
            Ok (match found with Some _ => 0 | None => -1 end, set_symtab_load b found self)
        end
    end.
Definition try_symtab (m : mem) (self : xdl_t) : res (Z * xdl_t) :=
  if symtab_try_load self then Ok (0, self) else xdl_symtab_load m self.

(** [0 == strncmp(a, s, n)] *)
Fixpoint strncmp_eq (m : mem) (a n : Z) (s : list Z) : res bool :=
  if n =? 0 then Ok true
  else
    let! c := of_opt (load8 m a) in
    match s with
    | [] => Ok (c =? 0)
    | d :: s' => if c =? d then strncmp_eq m (a + 1) (n - 1) s' else Ok false
    end.

Fixpoint dsym_loop (n : nat) (t : symtab_t) (name : list Z) (sym : Z) : res (option Z) :=
  match n with
  | O => Ok None
  | S n' =>
      let! shndx := of_opt (st_shndx (x_symtab t) sym) in
      let! found := (if XDL_SYMTAB_IS_EXPORT_SYM shndx then
                       let! off := of_opt (sym_name (x_symtab t) sym) in
                       strncmp_eq (x_strtab t) off (up (strtab_sz t - off)) name
                     else Ok false) in
      if found : bool then Ok (Some sym) else dsym_loop n' t name (sym + sym_size)
  end.
Definition xdl_dsym (m : mem) (self : xdl_t) (name : list Z) : res (Z * xdl_t) :=
  let! (r, self) := try_symtab m self in
  if negb (r =? 0) then Ok (0, self)
  else
    match symtab self with
    | None => Ok (0, self)
    | Some t =>
        let! sym := dsym_loop (Z.to_nat (symtab_cnt t)) t name 0 in
        match sym with
        | None => Ok (0, self)
        | Some sym => let! v := of_opt (st_value (x_symtab t) sym) in Ok (up (load_bias self + v), self)
        end
    end.

(** ** Symbols by address *)

(** The tests of [st_shndx] have no [return] and no effect. *)
Definition xdl_sym_is_match (m : mem) (sym offset : Z) (is_symtab : bool) : res bool :=
  let! shndx := of_opt (st_shndx m sym) in
  let! info := of_opt (st_info m sym) in
  if (info .& 0xf) =? STT_TLS then Ok false
  else
    let! v := of_opt (st_value m sym) in
    if negb (v <=? offset) then Ok false
    else let! size := of_opt (st_size m sym) in Ok (offset <? up (v + size)).

Fixpoint gnu_addr_chain (fuel : nat) (m : mem) (d : dynsym_t) (offset n : Z) : res (option Z) :=
  match fuel with
  | O => NoFuel
  | S fuel' =>
      let! hit := xdl_sym_is_match m (dyn_at d n) offset false in
      if hit : bool then Ok (Some (dyn_at d n))
      else
        let h := gnu_hash d in
        let! c := of_opt (load32 m (n_chains h + 4 * (n - n_symoffset h))) in
        if (c .& 1) =? 0 then gnu_addr_chain fuel' m d offset (u32 (n + 1)) else Ok None
  end.
Fixpoint gnu_addr_loop (fuel n : nat) (m : mem) (d : dynsym_t) (offset i : Z) : res (option Z) :=
  match n with
  | O => Ok None
  | S n' =>
      let h := gnu_hash d in
      let! b := of_opt (load32 m (n_buckets h + 4 * i)) in
      let! found := (if b <? n_symoffset h then Ok None else gnu_addr_chain fuel m d offset b) in
      match found with
      | Some sym => Ok (Some sym)
      | None => gnu_addr_loop fuel n' m d offset (i + 1)
      end
  end.
Fixpoint addr_loop (n : nat) (m : mem) (offset : Z) (is_symtab : bool) (sym : Z) : res (option Z) :=
  match n with
  | O => Ok None
  | S n' =>
      let! hit := xdl_sym_is_match m sym offset is_symtab in
      if hit : bool then Ok (Some sym) else addr_loop n' m offset is_symtab (sym + sym_size)
  end.

(** The search of [xdl_sym_by_addr] once the tables are there. *)
Definition dynsym_search (fuel : nat) (m : mem) (d : dynsym_t) (offset : Z) : res (option Z) :=
  if 0 <? n_buckets_cnt (gnu_hash d) then gnu_addr_loop fuel (Z.to_nat (n_buckets_cnt (gnu_hash d))) m d offset 0
  else if 0 <? s_chains_cnt (sysv_hash d) then
    addr_loop (Z.to_nat (s_chains_cnt (sysv_hash d))) m offset false (dynsym d)
  else Ok None.
Definition xdl_sym_by_addr (fuel : nat) (m : mem) (self : xdl_t) (addr : Z) : res (option Z * xdl_t) :=
  let! (r, self) := try_dynsym fuel m self in
  if negb (r =? 0) then Ok (None, self)
  else if dynsym (dyns self) =? 0 then Ok (None, self)
  else let! sym := dynsym_search fuel m (dyns self) (up (addr - load_bias self)) in Ok (sym, self).
Definition xdl_dsym_by_addr (m : mem) (self : xdl_t) (addr : Z) : res (option Z * xdl_t) :=
  let! (r, self) := try_symtab m self in
  if negb (r =? 0) then Ok (None, self)
  else
    match symtab self with
    | None => Ok (None, self)
    | Some t =>
        let! sym := addr_loop (Z.to_nat (symtab_cnt t)) (x_symtab t) (up (addr - load_bias self)) true 0 in
        Ok (sym, self)
    end.

(** ** Opening a library *)

Fixpoint elf_match_loop (n : nat) (m : mem) (phdr vaddr : Z) : res bool :=
  match n with
  | O => Ok false
  | S n' =>
      let! t := of_opt (p_type m phdr) in
      let! hit := (if t =? PT_LOAD then
                    let! v := of_opt (p_vaddr m phdr) in
                    if v <=? vaddr then let! size := of_opt (p_memsz m phdr) in Ok (vaddr <? up (v + size)) else Ok false
                  else Ok false) in
      if hit : bool then Ok true else elf_match_loop n' m (phdr + phdr_size) vaddr
  end.
Definition xdl_elf_is_match (m : mem) (load_bias phdr phnum addr : Z) : res bool :=
  if addr <? load_bias then Ok false else elf_match_loop (Z.to_nat phnum) m phdr (addr - load_bias).

(** The libraries: the linker's list, the maps file and the API level. *)
Context (libs : option (list dl_phdr_info)) (maps : option (list Z)) (api_level : Z).

Definition iterate_phdr (m : mem) (cb : dl_phdr_info -> option xdl_t -> res (Z * option xdl_t)) (flags : Z)
    : res (option xdl_t) :=
  let! (_, self) := xdl_iterate_phdr_impl (fun _ => m) (fun _ => maps) cb api_level libs flags None in Ok self.

Definition xdl_open_iterate_cb (filename : list Z) (info : dl_phdr_info) (self : option xdl_t)
    : res (Z * option xdl_t) :=
  match dlpi_name info with
  | None => Ok (0, self)
  | Some name =>
      if dlpi_addr info =? 0 then Ok (0, self)
      else if bool_decide (head filename = Some 47) || bool_decide (head filename = Some 91) then
        if bool_decide (name = filename) then Ok (1, Some (new_xdl info name)) else Ok (0, self)
      else if (length name <? 1 + length filename)%nat then Ok (0, self)
      else if negb (bool_decide (drop (length name - length filename) name = filename)) then Ok (0, self)
      else if negb (bool_decide (name !! (length name - length filename - 1)%nat = Some 47)) then Ok (0, self)
      else Ok (1, Some (new_xdl info name))
  end.

Definition XDL_CONST_BASENAME_LINKER : list Z := if lp64 then codes "linker64" else codes "linker".

Definition xdl_open (m : mem) (filename : option (list Z)) : res (option xdl_t) :=
  match filename with
  | None => Ok None
  | Some f =>
      iterate_phdr m (xdl_open_iterate_cb f)
        (if xdl_util_ends_with f XDL_CONST_BASENAME_LINKER then XDL_FULL_PATHNAME .| XDL_WITH_LINKER else XDL_FULL_PATHNAME)
  end.

Definition xdl_open_by_addr_iterate_cb (m : mem) (addr : Z) (info : dl_phdr_info) (self : option xdl_t)
    : res (Z * option xdl_t) :=
  let! hit := xdl_elf_is_match m (dlpi_addr info) (dlpi_phdr info) (dlpi_phnum info) addr in
  if hit : bool then
    let! name := of_opt (dlpi_name info) in Ok (1, Some (new_xdl info name))
  else Ok (0, self).

Definition xdl_open_by_addr (m : mem) (addr : Z) : res (option xdl_t) :=
  if addr =? 0 then Ok None
  else iterate_phdr m (xdl_open_by_addr_iterate_cb m addr) (XDL_FULL_PATHNAME .| XDL_WITH_LINKER).

(** ** [xdl_addr] *)

(** A name: in the memory of the process, or in the string table of a handle. *)
Inductive name_ref := InDynstr (a : Z) | InStrtab (strtab : mem) (off : Z).
Record addr_info := { i_fbase : Z; i_fname : list Z; i_sname : option name_ref; i_saddr : Z }.

(** The first handle of the cache that holds the address, with those before and
    after it. *)
Fixpoint find_handle (m : mem) (addr : Z) (cache : list xdl_t) : res (option (list xdl_t * xdl_t * list xdl_t)) :=
  match cache with
  | [] => Ok None
  | h :: cache' =>
      let! hit := xdl_elf_is_match m (load_bias h) (x_phdr h) (x_phnum h) addr in
      if hit : bool then Ok (Some ([], h, cache'))
      else
        let! r := find_handle m addr cache' in
        Ok (match r with Some (pre, x, post) => Some (h :: pre, x, post) | None => None end)
  end.

Definition addr_in_handle (fuel : nat) (m : mem) (addr : Z) (h : xdl_t) : res (addr_info * xdl_t) :=
  let info name a := {| i_fbase := load_bias h; i_fname := x_pathname h; i_sname := name; i_saddr := a |} in
  let! (sym, h1) := xdl_sym_by_addr fuel m h addr in
  match sym with
  | Some sym =>
      let! off := of_opt (sym_name m sym) in
      let! v := of_opt (st_value m sym) in
      Ok (info (Some (InDynstr (dynstr (dyns h1) + off))) (up (load_bias h1 + v)), h1)
  | None =>
      let! (sym, h2) := xdl_dsym_by_addr m h1 addr in
      match sym, symtab h2 with
      | Some sym, Some t =>
          let! off := of_opt (sym_name (x_symtab t) sym) in
          let! v := of_opt (st_value (x_symtab t) sym) in
          Ok (info (Some (InStrtab (x_strtab t) off)) (up (load_bias h2 + v)), h2)
      | _, _ => Ok (info None 0, h2)
      end
  end.

(** The cache lists the handles from the newest on. *)
Definition xdl_addr (fuel : nat) (m : mem) (addr : Z) (cache : list xdl_t) : res (option addr_info * list xdl_t) :=
  if addr =? 0 then Ok (None, cache)
  else
    let! found := find_handle m addr cache in
    match found with
    | Some (pre, h, post) =>
        let! (i, h) := addr_in_handle fuel m addr h in Ok (Some i, pre ++ h :: post)
    | None =>
        let! h := xdl_open_by_addr m addr in
        match h with
        | None => Ok (None, cache)
        | Some h => let! (i, h) := addr_in_handle fuel m addr h in Ok (Some i, h :: cache)
        end
    end.

(** [xdl_close]: the blocks of a handle are freed. *)
Definition xdl_close (self : xdl_t) : res unit := let! b := free_buffer (debugdata self) in Ok tt.
Fixpoint xdl_addr_clean (cache : list xdl_t) : res unit :=
  match cache with [] => Ok tt | h :: cache' => let! u := xdl_close h in xdl_addr_clean cache' end.

(** ** xdl_lzma.c: finding liblzma *)

Definition XDL_CONST_PATHNAME_LZMA : list Z :=
  if lp64 then codes "/system/lib64/liblzma.so" else codes "/system/lib/liblzma.so".
Definition lzma_syms : list (list Z) :=
  [ codes "CrcGenerateTable"; codes "Crc64GenerateTable"; codes "XzUnpacker_Construct";
    codes "XzUnpacker_IsStreamWasFinished"; codes "XzUnpacker_Free"; codes "XzUnpacker_Code" ].

(** The addresses of the functions, in order, up to the first that is not found. *)
Fixpoint lzma_sym_loop (fuel : nat) (m : mem) (lzma : xdl_t) (syms : list (list Z)) : res (list Z) :=
  match syms with
  | [] => Ok []
  | name :: syms' =>
      let! (a, lzma) := xdl_sym fuel m lzma name in
      if a =? 0 then Ok [] else let! l := lzma_sym_loop fuel m lzma syms' in Ok (a :: l)
  end.
(** The result: [xdl_lzma_code] is set, and the tables are made. *)
Definition xdl_lzma_init (fuel : nat) (m : mem) : res bool :=
  let! lzma := xdl_open m (Some XDL_CONST_PATHNAME_LZMA) in
  match lzma with
  | None => Ok false
  | Some lzma =>
      let! l := lzma_sym_loop fuel m lzma lzma_syms in Ok (length l =? length lzma_syms)%nat
  end.

End Symtab.

(** ** Symbols by name are found as in the hash tables of xh_elf.c

    The tables of a handle in the form of XhElf.v, with either hash table. *)

Definition hash_view (self : xdl_t) (gnu : bool) : hash_table :=
  let s := sysv_hash (dyns self) in let g := gnu_hash (dyns self) in
  if gnu
  then {| bucket := n_buckets g; bucket_cnt := n_buckets_cnt g; chain := n_chains g; chain_cnt := 0;
          symoffset := n_symoffset g; bloom := n_bloom g; bloom_sz := n_bloom_cnt g; bloom_shift := n_bloom_shift g;
          is_use_gnu_hash := 1 |}
  else {| bucket := s_buckets s; bucket_cnt := s_buckets_cnt s; chain := s_chains s; chain_cnt := s_chains_cnt s;
          symoffset := 0; bloom := 0; bloom_sz := 0; bloom_shift := 0; is_use_gnu_hash := 0 |}.
Definition elf_view (self : xdl_t) (gnu : bool) : xh_elf_t :=
  with_hash (hash_view self gnu)
    (with_tables (set_strtab (dynstr (dyns self)) (set_symtab (dynsym (dyns self)) no_tables)) (elf_reset 0 None)).

Lemma dynsym_is_view m self gnu name i : dynsym_is m self name i = sym_is m (elf_view self gnu) name i.
Proof. reflexivity. Qed.

(** An answer of the reference is the same answer of xdl, as an address. *)
Definition same_answer (self : xdl_t) (x : res (option Z)) (y : res (option Z)) : Prop :=
  forall r, x = Ok r -> y = Ok (dynsym_at self <$> r).

Lemma sysv_chain_view fuel m self name i :
  same_answer self (hash_chain fuel m (elf_view self false) name i) (sysv_chain fuel m self name i).
Proof.
  revert i. induction fuel as [|fuel IH]; intros i r; cbn [hash_chain sysv_chain]; [done|].
  case_match; [by intros [= <-]|]. rewrite (dynsym_is_view m self false).
  destruct (sym_is _ _ _ _) as [[]| |]; cbn [rbind]; [by intros [= <-]| |done..].
  unfold chain_at. change (chain (hash (elf_view self false))) with (s_chains (sysv_hash (dyns self))).
  destruct (of_opt _); cbn [rbind]; [apply IH|done..].
Qed.

Lemma sysv_lookup_view fuel m self name :
  same_answer self (xh_elf_hash_lookup fuel m (elf_view self false) name)
    (xdl_dynsym_find_symbol_use_sysv_hash fuel m self name).
Proof.
  intros r. unfold xh_elf_hash_lookup, xdl_dynsym_find_symbol_use_sysv_hash, bucket_at.
  change (bucket_cnt (hash (elf_view self false))) with (s_buckets_cnt (sysv_hash (dyns self))).
  change (bucket (hash (elf_view self false))) with (s_buckets (sysv_hash (dyns self))).
  change (xdl_sysv_hash name) with (xh_elf_hash name).
  destruct (umod _ _); cbn [rbind]; [|done..]. destruct (of_opt _); cbn [rbind]; [apply sysv_chain_view|done..].
Qed.

Lemma gnu_chain_view fuel m self name h i :
  same_answer self (gnu_chain fuel m (elf_view self true) name h i) (gnu_hash_chain fuel m self name h i).
Proof.
  revert i. induction fuel as [|fuel IH]; intros i r; cbn [gnu_chain gnu_hash_chain]; [done|].
  unfold chain_at, dynsym_is.
  change (chain (hash (elf_view self true))) with (n_chains (gnu_hash (dyns self))).
  change (symoffset (hash (elf_view self true))) with (n_symoffset (gnu_hash (dyns self))).
  change (strtab (tabs (elf_view self true))) with (dynstr (dyns self)).
  change (st_name m (XhElf.symtab (tabs (elf_view self true))) i) with (sym_name m (dynsym_at self i)).
  destruct (of_opt (sym_name m _)) as [off| |]; cbn [rbind]; [|done..].
  destruct (of_opt _) as [sh| |]; cbn [rbind]; [|done..].
  destruct (if _ : bool then _ else _) as [[]| |]; cbn [rbind]; [by intros [= <-]| |done..].
  case_match; [by intros [= <-]|apply IH].
Qed.

Lemma gnu_lookup_view fuel m self name :
  same_answer self (xh_elf_gnu_hash_lookup_def fuel m (elf_view self true) name)
    (xdl_dynsym_find_symbol_use_gnu_hash fuel m self name).
Proof.
  intros r. unfold xh_elf_gnu_hash_lookup_def, xdl_dynsym_find_symbol_use_gnu_hash, bloom_test, bucket_at.
  change (bloom_sz (hash (elf_view self true))) with (n_bloom_cnt (gnu_hash (dyns self))).
  change (bloom (hash (elf_view self true))) with (n_bloom (gnu_hash (dyns self))).
  change (bloom_shift (hash (elf_view self true))) with (n_bloom_shift (gnu_hash (dyns self))).
  change (bucket_cnt (hash (elf_view self true))) with (n_buckets_cnt (gnu_hash (dyns self))).
  change (bucket (hash (elf_view self true))) with (n_buckets (gnu_hash (dyns self))).
  change (symoffset (hash (elf_view self true))) with (n_symoffset (gnu_hash (dyns self))).
  change (xdl_gnu_hash name) with (xh_elf_gnu_hash name).
  destruct (umod _ _); cbn [rbind]; [|done..]. destruct (of_opt _); cbn [rbind]; [|done..].
  case_match; cbn [rbind]; [done|]. case_match; [by intros [= <-]|].
  destruct (umod _ _); cbn [rbind]; [|done..]. destruct (of_opt _); cbn [rbind]; [|done..].
  case_match; [by intros [= <-]|apply gnu_chain_view].
Qed.

(** The hash tables that are there are well formed for these symbols. *)
Definition dynsym_ok (m : mem) (self : xdl_t) (names : list (list Z)) : Prop :=
  dynsym (dyns self) <> 0 /\ syms_ok m (elf_view self true) names /\
  (0 < n_buckets_cnt (gnu_hash (dyns self)) -> gnu_hash_ok m (elf_view self true) names) /\
  (0 < s_buckets_cnt (sysv_hash (dyns self)) -> elf_hash_ok m (elf_view self false) names) /\
  (0 < n_buckets_cnt (gnu_hash (dyns self)) \/ 0 < s_buckets_cnt (sysv_hash (dyns self))) /\
  forall i, 0 <= i < Z.of_nat (length names) ->
    is_Some (st_shndx m (dynsym_at self i)) /\ is_Some (st_value m (dynsym_at self i)).

(** The index of the first symbol the lookup can miss none of. *)
Definition first_hashed (self : xdl_t) : Z :=
  if 0 <? s_buckets_cnt (sysv_hash (dyns self)) then 1 else n_symoffset (gnu_hash (dyns self)).

Lemma sym_weaken names first i name : sym names first i name -> sym names 0 i name.
Proof. intros (? & ? & ?). by split_and!. Qed.

Lemma dynsym_find_spec fuel m self names name :
  dynsym_ok m self names -> no_nul name -> (length names < fuel)%nat ->
  exists r, dynsym_find fuel m self name = Ok (dynsym_at self <$> r) /\
    match r with
    | Some i => sym names 0 i name
    | None => forall i, ~ sym names (first_hashed self) i name
    end.
Proof.
  intros (_ & Hsyms & Hgnu & Hsysv & Hone & _) Hn Hf. unfold dynsym_find, first_hashed.
  assert (Hs : 0 < s_buckets_cnt (sysv_hash (dyns self)) ->
    exists r, xdl_dynsym_find_symbol_use_sysv_hash fuel m self name = Ok (dynsym_at self <$> r) /\
      lookup_spec names 1 name r).
  { intros H'. destruct (hash_lookup_spec fuel m (elf_view self false) names name) as (r & Hr & Hspec); auto.
    exists r. split; [by apply sysv_lookup_view|done]. }
  destruct (Z.ltb_spec 0 (n_buckets_cnt (gnu_hash (dyns self)))) as [Hg|Hg]; cbn [rbind].
  - destruct (gnu_lookup_def_spec fuel m (elf_view self true) names name) as (r & Hr & Hspec); auto.
    rewrite (gnu_lookup_view _ _ _ _ _ Hr). cbn [rbind]. destruct r as [i|]; cbn [fmap option_fmap option_map].
    { exists (Some i). split; [done|]. by eapply sym_weaken. }
    destruct (Z.ltb_spec 0 (s_buckets_cnt (sysv_hash (dyns self)))) as [H'|_]; [|by exists None].
    destruct (Hs H') as (r & Hr' & Hspec'). exists r. split; [done|].
    destruct r; [by eapply sym_weaken|done].
  - destruct (Z.ltb_spec 0 (s_buckets_cnt (sysv_hash (dyns self)))) as [H'|]; [|lia].
    destruct (Hs H') as (r & Hr' & Hspec'). exists r. split; [done|].
    destruct r; [by eapply sym_weaken|done].
Qed.

(** The address of the symbol of index [i], when it is defined. *)
Definition export_addr (m : mem) (self : xdl_t) (i : Z) : Z :=
  match st_shndx m (dynsym_at self i), st_value m (dynsym_at self i) with
  | Some shndx, Some v => if shndx =? SHN_UNDEF then 0 else up (load_bias self + v)
  | _, _ => 0
  end.

(** What looking a name up answers. *)
Definition sym_answer (m : mem) (self : xdl_t) (names : list (list Z)) (name : list Z) (a : Z) : Prop :=
  (exists i, sym names 0 i name /\ a = export_addr m self i) \/
  (a = 0 /\ forall i, ~ sym names (first_hashed self) i name).

Lemma xdl_sym_loaded fuel m self names name :
  dynsym_try_load self = true -> dynsym_ok m self names -> no_nul name -> (length names < fuel)%nat ->
  exists a, xdl_sym fuel m self name = Ok (a, self) /\ sym_answer m self names name a.
Proof.
  intros Ht Hok Hn Hf. unfold xdl_sym, try_dynsym. rewrite Ht. cbn [rbind Z.eqb negb].
  destruct (dynsym_find_spec fuel m self names name Hok Hn Hf) as (r & -> & Hr).
  destruct Hok as (Hd & _ & _ & _ & _ & Hrd). rewrite (proj2 (Z.eqb_neq _ _) Hd). cbn [rbind].
  destruct r as [i|]; cbn [fmap option_fmap option_map]; [|by eexists; split; [done|right]].
  destruct (Hrd i (sym_bound _ _ _ _ Hr)) as [[shndx Hsh] [v Hv]]. rewrite Hsh, Hv. cbn [of_opt rbind].
  unfold XDL_DYNSYM_IS_EXPORT_SYM. rewrite negb_involutive. case_match eqn:E; eexists; (split; [done|]); left; exists i;
    unfold export_addr; rewrite Hsh, Hv, E; done.
Qed.

Lemma dynsym_loaded fuel m self r self' : xdl_dynsym_load fuel m self = Ok (r, self') -> exists d, self' = set_dyns d self.
Proof.
  unfold xdl_dynsym_load. destruct (find_dynamic _ _ _ _) as [[a|]| |]; cbn [rbind]; [| |done..].
  - destruct (if _ : bool then _ else _) as [d| |]; cbn [rbind]; [|done..].
    case_match; intros [= <- <-]; by eexists.
  - intros [= <- <-]. by eexists.
Qed.

(** C25: Looking a name up in a library whose dynamic section has been read (the first
    lookup reads it, the next ones do not and answer the same) terminates without a
    fault.  With the well-formed hash tables the section has, GNU, SYSV or both, the
    result is the load bias plus the value of a symbol of that name, or NULL when
    that symbol is undefined; when no hashed symbol has the name it is NULL. *)
Theorem xdl_sym_correct fuel m self self' names name :
  dynsym_try_load self = false -> xdl_dynsym_load fuel m self = Ok (0, self') ->
  dynsym_ok m self' names -> no_nul name -> (length names < fuel)%nat ->
  exists a, xdl_sym fuel m self name = Ok (a, self') /\ xdl_sym fuel m self' name = Ok (a, self') /\
    sym_answer m self' names name a.
Proof.
  intros Ht Hl Hok Hn Hf. assert (Ht' : dynsym_try_load self' = true) by (by destruct (dynsym_loaded _ _ _ _ _ Hl) as [d ->]).
  destruct (xdl_sym_loaded fuel m self' names name Ht' Hok Hn Hf) as (a & Ha & Hspec).
  exists a. split_and!; [|done..]. unfold xdl_sym, try_dynsym in *. rewrite Ht' in Ha. by rewrite Ht, Hl.
Qed.

Lemma gnu_hash_same m self self' names :
  hash self = hash self' -> gnu_hash_ok m self names -> gnu_hash_ok m self' names.
Proof. intros He []. constructor; unfold gnu_bucket, bucket_at, chain_at in *; rewrite <- ?He; done. Qed.

(** ** A failure of the decoder

    [xdl_lzma_decompress] frees the block but leaves the pointer to it set. *)

(** When liblzma fails at the first piece of .gnu_debugdata, the block
    [self->debugdata] points to is freed by the decompression and then again by the
    caller's clean-up: the program is stopped (a double free) where the failure was
    to be reported. *)
Theorem debugdata_double_free {L : Type} (construct : L) code code_q lfree finished realloc_ok api_level
    fuel file shdrs shdr b zip size :
  read_by_section (xdl_read_file_to_heap file) shdrs shdr = Ok (Some zip) -> sh_size shdrs shdr = Some size ->
  realloc_ok (up (up (2 * size) * 2)) = true ->
  (lzma_step code code_q api_level construct (up (up (up (2 * size) * 2) - 0)) zip).1.1.1.1 <> SZ_OK ->
  xdl_symtab_load_from_debugdata
    (xdl_lzma_decompress true construct code code_q lfree finished realloc_ok api_level (S fuel)) file shdrs shdr b = Fault.
Proof.
  intros Hzip Hsize Hre Hbad. unfold xdl_symtab_load_from_debugdata. rewrite Hzip. cbn [rbind]. rewrite Hsize.
  cbn [of_opt rbind]. unfold xdl_lzma_decompress. cbn [negb lzma_loop length Z.of_nat]. rewrite Hre. cbn [negb].
  destruct (lzma_step _ _ _ _ _ _) as [[[[r st] out] used] status]. cbn in Hbad.
  rewrite (proj2 (Z.eqb_neq _ _) Hbad). reflexivity.
Qed.

(** ** The cache of [xdl_addr] *)

Section AddrCache.
Context (open : list Z -> option (list Z)) (decompress : list Z -> Z -> buffer -> res (Z * buffer))
  (libs : option (list dl_phdr_info)) (maps : option (list Z)) (api_level : Z) (fuel : nat) (m : mem).

(** The handles of one library, whatever has been loaded of it. *)
Definition same_lib (x h : xdl_t) : Prop :=
  x_pathname x = x_pathname h /\ load_bias x = load_bias h /\ x_phdr x = x_phdr h /\ x_phnum x = x_phnum h.

(** What loading leaves in a fresh handle. *)
Definition dynsym_result (x : xdl_t) : res dynsym_t := let! (_, h) := xdl_dynsym_load fuel m x in Ok (dyns h).
Definition symtab_result (x : xdl_t) : res (buffer * option symtab_t) :=
  let! (_, h) := xdl_symtab_load open decompress m x in Ok (debugdata h, symtab h).

Definition fresh (x : xdl_t) : Prop :=
  dynsym_try_load x = false /\ dyns x = no_dynsym /\ symtab_try_load x = false /\ debugdata x = NoBuffer /\ symtab x = None.

(** [h] is the fresh handle [x], with what has been loaded since. *)
Record settled (x h : xdl_t) : Prop := {
  s_fresh : fresh x;
  s_same : same_lib x h;
  s_dyn : if dynsym_try_load h then dynsym_result x = Ok (dyns h) else dyns h = no_dynsym;
  s_sym : if symtab_try_load h then symtab_result x = Ok (debugdata h, symtab h)
          else debugdata h = NoBuffer /\ symtab h = None
}.

Lemma settled_fresh x : fresh x -> settled x x.
Proof. intros Hf. pose proof Hf as (H1 & H2 & H3 & H4 & H5). constructor; rewrite ?H1, ?H3; done. Qed.

Lemma dynsym_load_same x h :
  same_lib x h -> dyns x = dyns h ->
  xdl_dynsym_load fuel m h = let! (r, x') := xdl_dynsym_load fuel m x in Ok (r, set_dyns (dyns x') h).
Proof.
  intros (_ & Hb & Hp & Hn) Hd. unfold xdl_dynsym_load. rewrite Hb, Hp, Hn, Hd.
  destruct (find_dynamic _ _ _ _) as [[a|]| |]; cbn [rbind]; try done.
  destruct (if _ : bool then _ else _); cbn [rbind]; try done. by case_match.
Qed.

Lemma dynsym_load_fail x r h :
  dyns x = no_dynsym -> xdl_dynsym_load fuel m x = Ok (r, h) -> r <> 0 -> dynsym (dyns h) = 0.
Proof.
  intros Hd. unfold xdl_dynsym_load. destruct (find_dynamic _ _ _ _) as [[a|]| |]; cbn [rbind]; try done.
  - destruct (if _ : bool then _ else _); cbn [rbind]; try done. case_match; by intros [= <- <-].
  - intros [= <- <-] _. by rewrite Hd.
Qed.

Lemma symtab_load_same x h :
  same_lib x h -> debugdata x = debugdata h ->
  xdl_symtab_load open decompress m h =
    let! (r, x') := xdl_symtab_load open decompress m x in Ok (r, set_symtab_load (debugdata x') (symtab x') h).
Proof.
  intros (Hpath & Hb & Hp & Hn) Hd. unfold xdl_symtab_load. rewrite Hpath, Hb, Hp, Hn, Hd.
  destruct (min_vaddr_loop _ _ _ _); cbn [rbind]; try done. case_match; [done|].
  destruct (open _) as [file|]; [|done]. destruct (section_headers _ _ _) as [[[[shdrs names] n]|]| |]; cbn [rbind]; try done.
  by destruct (symtab_loop _ _ _ _ _ _ _ _) as [[? ?]| |].
Qed.

Lemma symtab_load_fail x r h : xdl_symtab_load open decompress m x = Ok (r, h) -> r <> 0 -> symtab h = None.
Proof.
  unfold xdl_symtab_load. destruct (min_vaddr_loop _ _ _ _); cbn [rbind]; try done.
  case_match; [by intros [= <- <-]|]. destruct (open _) as [file|]; [|by intros [= <- <-]].
  destruct (section_headers _ _ _) as [[[[shdrs names] n]|]| |]; cbn [rbind]; try done; [|by intros [= <- <-]].
  destruct (symtab_loop _ _ _ _ _ _ _ _) as [[[t|] b]| |]; cbn [rbind]; try done; by intros [= <- <-].
Qed.

Lemma try_dynsym_ok x h :
  settled x h -> forall d, dynsym_result x = Ok d ->
  exists r h', try_dynsym fuel m h = Ok (r, h') /\ settled x h' /\ dyns h' = d /\ (r <> 0 -> dynsym d = 0).
Proof.
  intros [Hf Hs Hd Hsy] d Hr. unfold try_dynsym. destruct (dynsym_try_load h) eqn:Et.
  - rewrite Hr in Hd. injection Hd as ->. exists 0, h. split_and!; try done. constructor; try done. by rewrite Et.
  - destruct Hf as (H1 & H2 & H3 & H4 & H5). rewrite (dynsym_load_same x h Hs) by congruence. unfold dynsym_result in Hr.
    destruct (xdl_dynsym_load fuel m x) as [[r x']| |] eqn:El; cbn [rbind] in *; try done. injection Hr as <-.
    exists r, (set_dyns (dyns x') h). split_and!; [done| |done|by apply (dynsym_load_fail x)].
    constructor; [by split_and!|done| |exact Hsy]. cbn. unfold dynsym_result. by rewrite El.
Qed.

Lemma try_symtab_ok x h :
  settled x h -> forall b t, symtab_result x = Ok (b, t) ->
  exists r h', try_symtab open decompress m h = Ok (r, h') /\ settled x h' /\ symtab h' = t /\ (r <> 0 -> t = None).
Proof.
  intros [Hf Hs Hd Hsy] b t Hr. unfold try_symtab. destruct (symtab_try_load h) eqn:Et.
  - rewrite Hr in Hsy. injection Hsy as -> ->. exists 0, h. split_and!; try done. constructor; try done. by rewrite Et.
  - destruct Hf as (H1 & H2 & H3 & H4 & H5), Hsy as [H6 H7]. rewrite (symtab_load_same x h Hs) by congruence.
    unfold symtab_result in Hr.
    destruct (xdl_symtab_load open decompress m x) as [[r x']| |] eqn:El; cbn [rbind] in *; try done. injection Hr as <- <-.
    exists r, (set_symtab_load (debugdata x') (symtab x') h). split_and!; [done| |done|by apply (symtab_load_fail x)].
    constructor; [by split_and!|done|exact Hd|]. cbn. unfold symtab_result. by rewrite El.
Qed.

(** The search by address, of .dynsym and of .symtab, given what loading leaves. *)
Lemma sym_by_addr_ok x h a d sym :
  settled x h -> dynsym_result x = Ok d ->
  (if dynsym d =? 0 then Ok None else dynsym_search fuel m d (up (a - load_bias x))) = Ok sym ->
  exists h', xdl_sym_by_addr fuel m h a = Ok (sym, h') /\ settled x h' /\ dyns h' = d.
Proof.
  intros Hst Hr Hs. destruct (try_dynsym_ok x h Hst d Hr) as (r & h' & Ht & Hst' & Hd & Hz).
  exists h'. split_and!; try done. unfold xdl_sym_by_addr. rewrite Ht. cbn [rbind].
  destruct (Z.eqb_spec r 0); cbn [negb].
  - rewrite Hd. destruct (s_same _ _ Hst') as (_ & <- & _ & _). case_match; [by injection Hs as <-|by rewrite Hs].
  - rewrite (Hz n) in Hs. cbn in Hs. by injection Hs as <-.
Qed.
Lemma dsym_by_addr_ok x h a b t sym :
  settled x h -> symtab_result x = Ok (b, t) ->
  match t with
  | Some t => addr_loop (Z.to_nat (symtab_cnt t)) (x_symtab t) (up (a - load_bias x)) true 0
  | None => Ok None
  end = Ok sym ->
  exists h', xdl_dsym_by_addr open decompress m h a = Ok (sym, h') /\ settled x h' /\ symtab h' = t.
Proof.
  intros Hst Hr Hs. destruct (try_symtab_ok x h Hst b t Hr) as (r & h' & Ht & Hst' & Hsy & Hz).
  exists h'. split_and!; try done. unfold xdl_dsym_by_addr. rewrite Ht. cbn [rbind].
  destruct (Z.eqb_spec r 0); cbn [negb].
  - rewrite Hsy. destruct (s_same _ _ Hst') as (_ & <- & _ & _). destruct t; [by rewrite Hs|by injection Hs as <-].
  - rewrite (Hz n) in Hs. by injection Hs as <-.
Qed.

(** Conversely, from a fresh handle. *)
Lemma sym_by_addr_fresh x a sym h :
  fresh x -> xdl_sym_by_addr fuel m x a = Ok (sym, h) ->
  exists d, dynsym_result x = Ok d /\ symtab_try_load h = false /\
    (if dynsym d =? 0 then Ok None else dynsym_search fuel m d (up (a - load_bias x))) = Ok sym.
Proof.
  intros (H1 & H2 & H3 & _). unfold xdl_sym_by_addr, try_dynsym, dynsym_result. rewrite H1.
  destruct (xdl_dynsym_load fuel m x) as [[r x']| |] eqn:El; cbn [rbind]; [|done..]. intros Hx.
  destruct (dynsym_loaded _ _ _ _ _ El) as [d Hd]. exists d. split; [by rewrite Hd|].
  destruct (Z.eqb_spec r 0); cbn [negb] in *.
  - revert Hx. subst x'. cbn. case_match; [by intros [= <- <-]|].
    by destruct (dynsym_search _ _ _ _); cbn; [intros [= <- <-]|..].
  - pose proof (dynsym_load_fail _ _ _ H2 El n) as Hz. rewrite Hd in Hz. cbn in Hz. rewrite Hz. injection Hx as <- <-.
    by rewrite Hd.
Qed.
Lemma dsym_by_addr_fresh x h a sym h' :
  settled x h -> symtab_try_load h = false -> xdl_dsym_by_addr open decompress m h a = Ok (sym, h') ->
  exists b t, symtab_result x = Ok (b, t) /\
    match t with
    | Some t => addr_loop (Z.to_nat (symtab_cnt t)) (x_symtab t) (up (a - load_bias x)) true 0
    | None => Ok None
    end = Ok sym.
Proof.
  intros [Hf Hs _ Hsy] Ht. rewrite Ht in Hsy. destruct Hsy as [Hb _]. unfold xdl_dsym_by_addr, try_symtab, symtab_result.
  rewrite Ht, (symtab_load_same x h Hs) by (destruct Hf as (_ & _ & _ & -> & _); done).
  destruct (xdl_symtab_load open decompress m x) as [[r x']| |] eqn:El; cbn [rbind]; [|done..]. intros Hx.
  exists (debugdata x'), (symtab x'). split; [done|]. destruct Hs as (_ & -> & _). revert Hx.
  destruct (Z.eqb_spec r 0); cbn [negb].
  - cbn [set_symtab_load symtab load_bias]. destruct (symtab x') as [t|]; [|by intros [= <- _]].
    by destruct (addr_loop _ _ _ _ _); cbn [rbind]; [intros [= <- _]|..].
  - intros [= <- _]. by rewrite (symtab_load_fail _ _ _ El n).
Qed.

(** An address is described the same, whatever has been loaded before. *)
Lemma addr_in_handle_ok x h a i x' :
  settled x h -> addr_in_handle open decompress fuel m a x = Ok (i, x') ->
  exists h', addr_in_handle open decompress fuel m a h = Ok (i, h') /\ settled x h'.
Proof.
  intros Hst. pose proof (settled_fresh x (s_fresh _ _ Hst)) as Hx.
  assert (Hsame : forall h, settled x h -> x_pathname h = x_pathname x /\ load_bias h = load_bias x).
  { intros k [_ (-> & -> & _) _ _]. done. }
  destruct (Hsame h Hst) as [Hn Hb]. unfold addr_in_handle.
  destruct (xdl_sym_by_addr fuel m x a) as [[sym x1]| |] eqn:E1; cbn [rbind]; [|done..].
  destruct (sym_by_addr_fresh x a sym x1 (s_fresh _ _ Hst) E1) as (d & Hd & Ht & Hs1).
  destruct (sym_by_addr_ok x x a d sym Hx Hd Hs1) as (x1' & E1' & Hx1 & Hdx). rewrite E1 in E1'. injection E1' as <-.
  destruct (sym_by_addr_ok x h a d sym Hst Hd Hs1) as (h1 & -> & Hh1 & Hdh). cbn [rbind].
  destruct (Hsame _ Hx1) as [_ Hb1], (Hsame _ Hh1) as [_ Hb1']. rewrite Hn, Hb, Hdh, Hdx, Hb1, Hb1'.
  destruct sym as [sym|].
  { destruct (of_opt (sym_name m sym)); cbn [rbind]; [|done..]. destruct (of_opt (st_value m sym)); cbn [rbind]; [|done..].
    intros [= <- <-]. by exists h1. }
  destruct (xdl_dsym_by_addr open decompress m x1 a) as [[sym x2]| |] eqn:E2; cbn [rbind]; [|done..].
  destruct (dsym_by_addr_fresh x x1 a sym x2 Hx1 Ht E2) as (b & t & Hr & Hs2).
  destruct (dsym_by_addr_ok x x1 a b t sym Hx1 Hr Hs2) as (x2' & E2' & Hx2 & Htx). rewrite E2 in E2'. injection E2' as <-.
  destruct (dsym_by_addr_ok x h1 a b t sym Hh1 Hr Hs2) as (h2 & -> & Hh2 & Hth). cbn [rbind].
  destruct (Hsame _ Hx2) as [_ Hb2], (Hsame _ Hh2) as [_ Hb2']. rewrite Hth, Htx, Hb2, Hb2'.
  destruct sym as [sym|], t as [t|]; try (intros [= <- <-]; by exists h2).
  destruct (of_opt (sym_name _ sym)); cbn [rbind]; [|done..]. destruct (of_opt (st_value _ sym)); cbn [rbind]; [|done..].
  intros [= <- <-]. by exists h2.
Qed.

(** The libraries of the process [l], whose load segments are apart. *)
Definition in_library (a : Z) (info : dl_phdr_info) : Prop :=
  xdl_elf_is_match m (dlpi_addr info) (dlpi_phdr info) (dlpi_phnum info) a = Ok true.
Definition phdrs_readable (phdr : Z) (n : nat) : Prop :=
  forall k, (k < n)%nat -> let p := phdr + phdr_size * Z.of_nat k in
    is_Some (p_type m p) /\ is_Some (p_vaddr m p) /\ is_Some (p_memsz m p).
Record libs_ok (l : list dl_phdr_info) : Prop := {
  lo_list : libraries m maps api_level libs (XDL_FULL_PATHNAME .| XDL_WITH_LINKER) = Ok l;
  lo_named : forall info, info ∈ l -> is_Some (dlpi_name info);
  lo_phdrs : forall info, info ∈ l -> phdrs_readable (dlpi_phdr info) (Z.to_nat (dlpi_phnum info));
  lo_apart : forall i j info info' a, l !! i = Some info -> l !! j = Some info' ->
    in_library a info -> in_library a info' -> i = j
}.

Lemma elf_match_total n phdr v : phdrs_readable phdr n -> exists b, elf_match_loop n m phdr v = Ok b.
Proof.
  revert phdr. induction n as [|n IH]; intros phdr Hr; [by eexists|]. cbn [elf_match_loop].
  destruct (Hr 0%nat) as ([t Ht] & [w Hw] & [z Hz]); [lia|]. cbn [Z.of_nat] in Ht, Hw, Hz.
  rewrite Z.mul_0_r, Z.add_0_r in Ht, Hw, Hz. rewrite Ht, Hw, Hz. cbn [of_opt rbind].
  assert (Hn : phdrs_readable (phdr + phdr_size) n).
  { intros k Hk. specialize (Hr (S k)). rewrite Nat2Z.inj_succ, Z.mul_succ_r in Hr.
    replace (phdr + phdr_size + phdr_size * Z.of_nat k) with (phdr + (phdr_size * Z.of_nat k + phdr_size)) by lia. apply Hr. lia. }
  destruct (IH _ Hn) as [b Hb]. case_match; cbn [rbind]; [|by exists b]. case_match; cbn [rbind]; [|by exists b].
  case_match; [by eexists|by exists b].
Qed.
Lemma is_match_total bias phdr phnum a :
  phdrs_readable phdr (Z.to_nat phnum) -> exists b, xdl_elf_is_match m bias phdr phnum a = Ok b.
Proof. intros Hr. unfold xdl_elf_is_match. case_match; [by eexists|by apply elf_match_total]. Qed.

(** What the callback of [xdl_open_by_addr] takes. *)
Definition takes (a : Z) (info : dl_phdr_info) : res (option xdl_t) :=
  let! hit := xdl_elf_is_match m (dlpi_addr info) (dlpi_phdr info) (dlpi_phnum info) a in
  if hit : bool then let! name := of_opt (dlpi_name info) in Ok (Some (new_xdl info name)) else Ok None.

Lemma open_by_addr_takes a info :
  xdl_open_by_addr_iterate_cb m a info None = stop_at (takes a) info None.
Proof.
  unfold xdl_open_by_addr_iterate_cb, stop_at, takes. destruct (xdl_elf_is_match _ _ _ _ _) as [[]| |]; cbn [rbind]; try done.
  by destruct (of_opt _).
Qed.

Lemma takes_total l a : libs_ok l -> decided (takes a) l.
Proof.
  intros Hl. unfold decided. rewrite Forall_forall. intros info Hin. unfold takes.
  destruct (is_match_total (dlpi_addr info) _ _ a (lo_phdrs _ Hl _ Hin)) as [b ->]. cbn [rbind].
  destruct (lo_named _ Hl _ Hin) as [name ->]. destruct b; by eexists.
Qed.

Lemma open_by_addr_first l a :
  libs_ok l -> a <> 0 -> xdl_open_by_addr libs maps api_level m a = Ok (first_taken (takes a) l).
Proof.
  intros Hl Ha. unfold xdl_open_by_addr, iterate_phdr. rewrite (proj2 (Z.eqb_neq _ _) Ha).
  destruct (walks_all m maps (takes a) _ (open_by_addr_takes a) _ _ _ _ (lo_list _ Hl) (takes_total _ a Hl)) as [z ->].
  done.
Qed.

Lemma first_taken_some a l x :
  first_taken (takes a) l = Some x ->
  exists info name, info ∈ l /\ in_library a info /\ dlpi_name info = Some name /\ x = new_xdl info name.
Proof.
  induction l as [|info l IH]; cbn [first_taken]; [done|].
  assert (Hrest : first_taken (takes a) l = Some x -> exists info' name, info' ∈ info :: l /\ in_library a info' /\
    dlpi_name info' = Some name /\ x = new_xdl info' name).
  { intros Hx. destruct (IH Hx) as (i & n & Hi & Hr). exists i, n. split; [by right|done]. }
  unfold takes at 1. destruct (xdl_elf_is_match _ _ _ _ _) as [[]| |] eqn:Em; cbn [rbind]; try done.
  destruct (dlpi_name info) as [name|] eqn:En; cbn [of_opt rbind]; [|done]. intros [= <-].
  exists info, name. split_and!; [by left|done..].
Qed.

(** The first library that holds the address is the only one. *)
Lemma first_taken_unique l a info name :
  libs_ok l -> info ∈ l -> in_library a info -> dlpi_name info = Some name ->
  first_taken (takes a) l = Some (new_xdl info name).
Proof.
  intros Hl Hin Ha Hn. destruct (first_taken (takes a) l) as [x|] eqn:E.
  - destruct (first_taken_some a l x E) as (info' & name' & Hin' & Ha' & Hn' & ->).
    apply list_elem_of_lookup in Hin as [i Hi], Hin' as [j Hj].
    pose proof (lo_apart _ Hl i j info info' a Hi Hj Ha Ha'). subst j. congruence.
  - exfalso. clear Hl. induction l as [|k l IH]; [by apply not_elem_of_nil in Hin|]. cbn [first_taken] in E.
    apply elem_of_cons in Hin as [->|Hin].
    + unfold takes in E. unfold in_library in Ha. rewrite Ha, Hn in E. done.
    + destruct (takes a k) as [[?|]| |]; try done; by apply IH.
Qed.

(** The handles of the cache belong to the libraries. *)
Definition cache_ok (l : list dl_phdr_info) (cache : list xdl_t) : Prop :=
  Forall (fun h => exists info name, info ∈ l /\ dlpi_name info = Some name /\ settled (new_xdl info name) h) cache.

Lemma find_handle_ok l a cache :
  libs_ok l -> cache_ok l cache ->
  exists r, find_handle m a cache = Ok r /\
    match r with
    | Some (pre, h, post) => cache = pre ++ h :: post /\ xdl_elf_is_match m (load_bias h) (x_phdr h) (x_phnum h) a = Ok true
    | None => True
    end.
Proof.
  intros Hl. induction cache as [|h cache IH]; intros Hc; [by exists None|].
  apply Forall_cons in Hc as [(info & name & Hin & _ & Hst) Hc]. destruct (IH Hc) as (r & Hr & Hspec). cbn [find_handle].
  destruct (is_match_total (load_bias h) (x_phdr h) (x_phnum h) a) as [b Hb].
  { destruct (s_same _ _ Hst) as (_ & _ & <- & <-). exact (lo_phdrs _ Hl _ Hin). }
  rewrite Hb. cbn [rbind]. destruct b; [by exists (Some ([], h, cache))|]. rewrite Hr. cbn [rbind].
  destruct r as [[[pre x] post]|]; [|by exists None]. destruct Hspec as [-> Hx].
  by exists (Some (h :: pre, x, post)).
Qed.

(** One lookup. *)
Lemma addr_once l a cache i c :
  libs_ok l -> cache_ok l cache -> xdl_addr open decompress libs maps api_level fuel m a [] = Ok (i, c) ->
  exists cache', xdl_addr open decompress libs maps api_level fuel m a cache = Ok (i, cache') /\ cache_ok l cache'.
Proof.
  intros Hl Hc. unfold xdl_addr. destruct (Z.eqb_spec a 0) as [_|Ha]; [intros [= <- _]; by exists cache|].
  cbn [find_handle rbind]. rewrite (open_by_addr_first l a Hl Ha). cbn [rbind].
  destruct (find_handle_ok l a cache Hl Hc) as (r & -> & Hr). cbn [rbind]. destruct r as [[[pre h] post]|].
  - destruct Hr as [-> Hm]. apply Forall_app in Hc as [Hpre [(info & name & Hin & Hn & Hst) Hpost]%Forall_cons].
    assert (Hx : first_taken (takes a) l = Some (new_xdl info name)).
    { apply first_taken_unique; try done. unfold in_library. destruct (s_same _ _ Hst) as (_ & Hb & Hp & Hnum).
      cbn in Hb, Hp, Hnum. by rewrite Hb, Hp, Hnum. }
    rewrite Hx. destruct (addr_in_handle _ _ _ _ _ (new_xdl info name)) as [[i' x']| |] eqn:E; cbn [rbind]; [|done..].
    destruct (addr_in_handle_ok _ _ _ _ _ Hst E) as (h' & -> & Hst'). intros [= <- _]. cbn [rbind].
    exists (pre ++ h' :: post). split; [done|]. apply Forall_app. split; [done|]. apply Forall_cons. split; [|done].
    by exists info, name.
  - destruct (first_taken (takes a) l) as [x|] eqn:Ex; [|intros [= <- _]; by exists cache].
    destruct (first_taken_some a l x Ex) as (info & name & Hin & _ & Hn & ->).
    destruct (addr_in_handle _ _ _ _ _ _) as [[i' x']| |] eqn:E; cbn [rbind]; [|done..]. intros [= <- _].
    exists (x' :: cache). split; [done|]. apply Forall_cons. split; [|done]. exists info, name. split_and!; [done..|].
    assert (Hf : fresh (new_xdl info name)) by done.
    destruct (addr_in_handle_ok _ _ _ _ _ (settled_fresh _ Hf) E) as (h' & E' & Hst'). congruence.
Qed.

(** The lookups of a report, one cache for all of them. *)
Fixpoint xdl_addrs (addrs : list Z) (cache : list xdl_t) : res (list (option addr_info) * list xdl_t) :=
  match addrs with
  | [] => Ok ([], cache)
  | a :: addrs' =>
      let! (i, cache) := xdl_addr open decompress libs maps api_level fuel m a cache in
      let! (is_, cache) := xdl_addrs addrs' cache in
      Ok (i :: is_, cache)
  end.

Lemma addrs_ok l addrs is_ cache :
  libs_ok l -> cache_ok l cache ->
  Forall2 (fun a i => exists c, xdl_addr open decompress libs maps api_level fuel m a [] = Ok (i, c)) addrs is_ ->
  exists cache', xdl_addrs addrs cache = Ok (is_, cache') /\ cache_ok l cache'.
Proof.
  intros Hl Hc Ha. revert cache Hc. induction Ha as [|a i addrs is_ [c Hac] _ IH]; intros cache Hc; [by exists cache|].
  destruct (addr_once l a cache i c Hl Hc Hac) as (c1 & H1 & Hc1). destruct (IH c1 Hc1) as (c2 & H2 & Hc2).
  exists c2. cbn [xdl_addrs]. rewrite H1. cbn [rbind]. rewrite H2. by split.
Qed.

(** No handle of the cache points to a freed block. *)
Lemma debugdata_alive file shdrs shdr b t b' :
  b <> Dangling -> xdl_symtab_load_from_debugdata decompress file shdrs shdr b = Ok (t, b') -> b' <> Dangling.
Proof.
  intros Hb. unfold xdl_symtab_load_from_debugdata. destruct (read_by_section _ _ _) as [[zip|]| |]; cbn [rbind]; try done.
  2:{ by intros [= _ <-]. }
  destruct (of_opt _); cbn [rbind]; try done. destruct (decompress _ _ _) as [[r k]| |]; cbn [rbind]; try done.
  destruct k; cbn [rbind]; [by case_match; cbn [rbind free_buffer]; [|intros [= _ <-]]| |by case_match].
  destruct (if _ : bool then _ else _) as [[u|]| |]; cbn [rbind]; try done; by intros [= _ <-].
Qed.

Lemma symtab_loop_alive n file shdrs names shnum shdr b t b' :
  b <> Dangling -> symtab_loop decompress n file shdrs names shnum shdr b = Ok (t, b') -> b' <> Dangling.
Proof.
  revert shdr b. induction n as [|n IH]; intros shdr b Hb; cbn [symtab_loop]; [by intros [= _ <-]|].
  destruct (is_section _ _ _ _ _) as [hit| |]; cbn [rbind]; try done.
  match goal with |- rbind ?x _ = _ -> _ => assert (Hx : forall f c, x = Ok (f, c) -> c <> Dangling) end.
  { intros f c. destruct hit; [destruct (take_symtab _ _ _ _); cbn [rbind]; try done; by intros [= _ <-]|].
    destruct (is_section _ _ _ _ _) as [[]| |]; cbn [rbind]; try done; [by apply debugdata_alive|by intros [= _ <-]]. }
  destruct (if _ : bool then _ else _) as [[[u|] c]| |]; cbn [rbind]; try done.
  - intros [= _ <-]. by eapply Hx.
  - apply IH. by eapply Hx.
Qed.

Lemma settled_alive x h : settled x h -> debugdata h <> Dangling.
Proof.
  intros [(_ & _ & _ & Hb & _) _ _ Hsy]. destruct (symtab_try_load h); [|by destruct Hsy as [-> _]].
  revert Hsy. unfold symtab_result, xdl_symtab_load. destruct (min_vaddr_loop _ _ _ _); cbn [rbind]; try done.
  rewrite Hb. case_match; [by intros [= <- _]|]. destruct (open _) as [file|]; [|by intros [= <- _]].
  destruct (section_headers _ _ _) as [[[[shdrs names] n]|]| |]; cbn [rbind]; try done; [|by intros [= <- _]].
  destruct (symtab_loop _ _ _ _ _ _ _ _) as [[t b]| |] eqn:E; cbn [rbind]; try done. intros [= <- _].
  by eapply symtab_loop_alive, E.
Qed.

Lemma clean_ok l cache : cache_ok l cache -> xdl_addr_clean cache = Ok tt.
Proof.
  induction 1 as [|h cache (info & name & _ & _ & Hst) _ IH]; [done|]. cbn [xdl_addr_clean]. unfold xdl_close.
  pose proof (settled_alive _ _ Hst). by destruct (debugdata h).
Qed.

(** C26: The cache of handles is invisible: the lookups of a whole report with one cache
    give for each address what a lookup with an empty cache gives, the library found,
    its name, the symbol found by .dynsym or else by .symtab, whatever tables earlier
    lookups loaded or failed to load; and cleaning the cache frees each block once. *)
Theorem addr_cache_transparent l addrs is_ :
  libs_ok l ->
  Forall2 (fun a i => exists c, xdl_addr open decompress libs maps api_level fuel m a [] = Ok (i, c)) addrs is_ ->
  exists cache, xdl_addrs addrs [] = Ok (is_, cache) /\ xdl_addr_clean cache = Ok tt.
Proof.
  intros Hl Ha. destruct (addrs_ok l addrs is_ [] Hl) as (c & Hc & Hok); [by constructor|done|].
  exists c. split; [done|by apply (clean_ok l)].
Qed.

End AddrCache.

End Xdl.


(** ** The library of XhElf.v as a handle *)

#[local] Existing Instance arm64.

Definition demo_info : dl_phdr_info :=
  {| dlpi_addr := 0x1000; dlpi_name := Some (codes "/a.so"); dlpi_phdr := 0x1040; dlpi_phnum := 2 |}.
Definition demo_dyns : dynsym_t :=
  {| dynsym := 0x1340; dynstr := 0x1300;
     sysv_hash := {| s_buckets := 0x1448; s_buckets_cnt := 1; s_chains := 0x144c; s_chains_cnt := 3 |};
     gnu_hash := {| n_buckets := 0x1418; n_buckets_cnt := 1; n_chains := 0x141c; n_symoffset := 1; n_bloom := 0x1410;
                    n_bloom_cnt := 1; n_bloom_shift := 5 |} |}.
Definition demo_xdl : xdl_t := new_xdl demo_info (codes "/a.so").

Lemma demo_sysv_ok : elf_hash_ok demo_tables (elf_view (set_dyns demo_dyns demo_xdl) false) demo_names.
Proof.
  split; [done|]. intros b Hb. cbn in Hb. assert (b = 0) as -> by lia. exists 1, [1; 2]. split_and!.
  - vm_compute. reflexivity.
  - cbn [chain_path]. split_and!; [done..|]. exists 2. split; [vm_compute; reflexivity|]. split_and!; [done..|].
    exists 0. split; vm_compute; reflexivity.
  - repeat constructor; set_solver.
  - repeat constructor; cbn; lia.
  - intros j name [[-> _]|[-> _]]%demo_hashed _; set_solver.
Qed.

Lemma demo_dynsym_ok : dynsym_ok demo_tables (set_dyns demo_dyns demo_xdl) demo_names.
Proof.
  split_and!; [done|exact demo_syms_ok| | |by left|].
  - intros _. by apply (gnu_hash_same _ demo_elf), demo_gnu_ok.
  - intros _. exact demo_sysv_ok.
  - intros i Hi. cbn in Hi. assert (i = 0 \/ i = 1 \/ i = 2) as [->|[->| ->]] by lia; split; by vm_compute; eexists.
Qed.

Lemma xdl_sym_correct_witness :
  exists a, xdl_sym 8 demo_tables demo_xdl demo_free = Ok (a, set_dyns demo_dyns demo_xdl) /\
    xdl_sym 8 demo_tables (set_dyns demo_dyns demo_xdl) demo_free = Ok (a, set_dyns demo_dyns demo_xdl) /\
    sym_answer demo_tables (set_dyns demo_dyns demo_xdl) demo_names demo_free a.
Proof.
  apply (xdl_sym_correct 8 demo_tables demo_xdl (set_dyns demo_dyns demo_xdl) demo_names demo_free).
  - reflexivity.
  - vm_compute. reflexivity.
  - exact demo_dynsym_ok.
  - repeat constructor; lia.
  - cbn. lia.
Defined.

(** [free] is defined at 0x600 of the library, [malloc] is undefined. *)
Example demo_free_addr :
  xdl_sym 8 demo_tables demo_xdl demo_free = Ok (0x1600, set_dyns demo_dyns demo_xdl) /\
  xdl_sym 8 demo_tables demo_xdl demo_malloc = Ok (0, set_dyns demo_dyns demo_xdl).
Proof. split; vm_compute; reflexivity. Qed.

(** A decoder whose state is the number of zeros left to write. *)
Definition zeros_code (k : nat) (room : Z) (src : list Z) : Z * nat * list Z * nat * Z :=
  (0, (k - Z.to_nat room)%nat, take (Z.to_nat room) (replicate k 0), length src, if room <=? Z.of_nat k then 2 else 3).

Lemma zeros_decoder : decoder_ok zeros_code (fun k r s _ => zeros_code k r s) id (Nat.eqb 0) 29 (fun k src plain => plain = replicate k 0).
Proof.
  constructor.
  intros k src plain room -> Hr. eexists _, _, _. split; [done|]. rewrite length_replicate, drop_replicate.
  destruct (Z.leb_spec room (Z.of_nat k)); split_and!; try (done || lia).
  cbn. by replace (k - Z.to_nat room)%nat with 0%nat by lia.
Qed.

(** 20 zeros from one byte: the block grows to 4, 8, 16 and 32 bytes. *)
Lemma decompress_all_witness :
  xdl_lzma_decompress true 20%nat zeros_code (fun k r s _ => zeros_code k r s) id (Nat.eqb 0) (fun _ => true) 29 4 [7] 1 NoBuffer =
    Ok (0, Buffer (replicate 20 0)).
Proof.
  apply (decompress_all _ _ _ _ _ _ _ _ (fun k src plain => plain = replicate k 0) 4 [7] 1 (replicate 20 0)); try done.
  - exact zeros_decoder.
  - lia.
Defined.

(** A section of four bytes at offset 0 that is not a compressed stream. *)
Definition demo_bad_zip : mem := mem_at 0 (le_bytes 4 1 ++ le_bytes 4 1 ++ replicate 24 0 ++ le_bytes 8 4) ∅.
Lemma debugdata_double_free_witness :
  xdl_symtab_load_from_debugdata
    (xdl_lzma_decompress true tt (fun _ _ _ => (16, tt, [], O, 0)) (fun _ _ _ _ => (16, tt, [], O, 0)) id (fun _ => true)
       (fun _ => true) 29 2) [1; 2; 3; 4] demo_bad_zip 0 NoBuffer = Fault.
Proof.
  apply (debugdata_double_free tt (fun _ _ _ => (16, tt, [], O, 0)) (fun _ _ _ _ => (16, tt, [], O, 0)) id (fun _ => true)
           (fun _ => true) 29 1 [1; 2; 3; 4] demo_bad_zip 0 NoBuffer [1; 2; 3; 4] 4).
  - vm_compute. reflexivity.
  - vm_compute. reflexivity.
  - reflexivity.
  - done.
Defined.

(** Two lookups in the library, which is opened once: inside [free], and past it. *)
Definition demo_fail (src : list Z) (n : Z) (b : buffer) : res (Z * buffer) := Ok (-1, b).
Definition demo_linker_list : list dl_phdr_info := [demo_info].
Definition demo_answer (s : option name_ref) (a : Z) : addr_info :=
  {| i_fbase := 0x1000; i_fname := codes "/a.so"; i_sname := s; i_saddr := a |}.

Lemma demo_libs_ok : libs_ok (Some demo_linker_list) None 30 demo_tables demo_linker_list.
Proof.
  constructor.
  - vm_compute. reflexivity.
  - intros info ->%list_elem_of_singleton. by eexists.
  - intros info ->%list_elem_of_singleton k Hk. cbn in Hk. destruct k as [|[|k]]; [..|lia]; split_and!; vm_compute; by eexists.
  - intros [|i] [|j] info info' a Hi Hj; done.
Qed.

Lemma addr_cache_transparent_witness :
  exists cache, xdl_addrs (fun _ => None) demo_fail (Some demo_linker_list) None 30 8 demo_tables [0x1610; 0x1700; 0x100000] [] =
    Ok ([Some (demo_answer (Some (InDynstr 0x1308)) 0x1600); Some (demo_answer None 0); None], cache) /\ xdl_addr_clean cache = Ok tt.
Proof.
  apply (addr_cache_transparent (fun _ => None) demo_fail (Some demo_linker_list) None 30 8 demo_tables demo_linker_list).
  - exact demo_libs_ok.
  - repeat constructor; (eexists; vm_compute; reflexivity).
Defined.
