(* ===== verification/PltGot.v ===== *)
(** cpp/PltGotHookProxy.h: hooking the allocator functions through the relocation
    tables of every loaded library, now and whenever a library is loaded. *)
From S2P Require Import Prelude Memory CString XhReloc XhUtil XhElf XdlIterate.

Definition ANDROID_API_N : Z := 24.
Definition ANDROID_API_O : Z := 26.

Definition SO_SELF : list Z := codes "libraphael.so".
Definition SO_LIBDL : list Z := codes "libdl.so".
Definition SO_LOAD_SYMBOL_O_1 : list Z := codes "__loader_android_dlopen_ext".
Definition SO_LOAD_SYMBOL_O_2 : list Z := codes "__loader_dlopen".
Definition SO_LOAD_SYMBOL_N_1 : list Z := codes "android_dlopen_ext".
Definition SO_LOAD_SYMBOL_N_2 : list Z := codes "dlopen".
Definition SO_LOAD_SYMBOL : list Z := codes "dlopen".

(** The functions of [sPltGot] (HookProxy.h), and those of [sSoLoad_O], [sSoLoad_N]
    and [sSoLoad]. *)
Definition sPltGot : list (list Z) :=
  [ codes "malloc"; codes "calloc"; codes "realloc"; codes "memalign"; codes "free"; codes "mmap"; codes "mmap64";
    codes "munmap"; codes "pthread_exit" ].
Definition sSoLoad_O : list (list Z) := [SO_LOAD_SYMBOL_O_1; SO_LOAD_SYMBOL_O_2].
Definition sSoLoad_N : list (list Z) := [SO_LOAD_SYMBOL_N_1; SO_LOAD_SYMBOL_N_2].
Definition sSoLoad : list (list Z) := [SO_LOAD_SYMBOL].

(** ** Names *)

Definition is_so_name (name : option (list Z)) : bool :=
  match name with
  | None => false
  | Some n =>
      let len := length n in
      if (3 <? len)%nat
      then bool_decide (n !! (len - 1)%nat = Some 111) && bool_decide (n !! (len - 2)%nat = Some 115) &&
           bool_decide (n !! (len - 3)%nat = Some 46)
      else false
  end.

Definition is_self_so (name : option (list Z)) : bool :=
  match name with None => false | Some n => strstr n SO_SELF end.

(** From the last slash on; the loop's [index] goes down from the length. *)
Fixpoint last_slash (index : nat) (filename : list Z) : nat :=
  match index with
  | O => O
  | S index' => if bool_decide (filename !! index' = Some 47) then index else last_slash index' filename
  end.
Definition pretty_name (filename : list Z) : list Z :=
  match strchr 47 filename with
  | None => filename
  | Some _ => drop (last_slash (length filename) filename - 1) filename
  end.

Section PltGot.
Context `{Arch}.

Definition INTPTR_MAX : Z := 2 ^ (ptr_bits - 1) - 1.

Fixpoint so_base_loop (n : nat) (m : mem) (phdr min_vaddr : Z) : res Z :=
  match n with
  | O => Ok min_vaddr
  | S n' =>
      let! t := of_opt (p_type m phdr) in
      let! min_vaddr := (if negb (t =? PT_LOAD) then Ok min_vaddr
                         else let! v := of_opt (p_vaddr m phdr) in Ok (if min_vaddr <=? v then min_vaddr else v)) in
      so_base_loop n' m (phdr + phdr_size) min_vaddr
  end.
Definition get_so_base (m : mem) (info : dl_phdr_info) : res Z :=
  let! min_vaddr := so_base_loop (Z.to_nat (dlpi_phnum info)) m (dlpi_phdr info) INTPTR_MAX in
  Ok (if min_vaddr =? INTPTR_MAX then 0 else up (dlpi_addr info + min_vaddr)).

(** [R]: compiled regular expressions; [proxy_of]: the addresses of the proxies;
    [loaded]: the linker's list of libraries; [call]: a call of the linker's
    function at an address, which may load libraries; [fuel] bounds the symbols and
    packed relocations of a library. *)
Context {W R : Type} (K : kernel W) (raw_perm : list Z) (fuel : nat) (proxy_of : list Z -> Z)
  (regexec : R -> list Z -> bool) (regcomp : list Z -> option R) (loaded : W -> option (list dl_phdr_info)).
Abbreviation hook_state := (hook_state (W := W)).

(** The static variables: [use_regex] with [focused_regex], and the [*_origin*]
    pointers by the symbol they belong to. *)
Record globals := {
  api_level : Z;
  focused_regex : option R;
  is_hook_libdl_success : bool;
  g_dl_mutex : Z;
  dlopen_ext_N : Z;
  origins : gmap (list Z) Z
}.
Record pltgot := { hooks : hook_state; glob : globals }.

Definition set_libdl (g : globals) : globals :=
  {| api_level := api_level g; focused_regex := focused_regex g; is_hook_libdl_success := true;
     g_dl_mutex := g_dl_mutex g; dlopen_ext_N := dlopen_ext_N g; origins := origins g |}.
Definition set_origin (symbol : list Z) (old : option Z) (g : globals) : globals :=
  match old with
  | None => g
  | Some f => {| api_level := api_level g; focused_regex := focused_regex g;
                 is_hook_libdl_success := is_hook_libdl_success g; g_dl_mutex := g_dl_mutex g;
                 dlopen_ext_N := dlopen_ext_N g; origins := <[symbol := f]> (origins g) |}
  end.

(** [xh_elf_hook(&elf, symbol, proxy, old_func)] with the result ignored. *)
Definition hook_symbol (elf : xh_elf_t) (save_old_func : bool) (symbol : list Z) (s : pltgot) : res pltgot :=
  let st := {| hmem := hmem (hooks s); world := world (hooks s); old_func := None; flushed := flushed (hooks s) |} in
  let! (_, st) := xh_elf_hook K raw_perm fuel elf (Some symbol) (proxy_of symbol) save_old_func st in
  Ok {| hooks := st; glob := set_origin symbol (old_func st) (glob s) |}.

Fixpoint hook_symbols (elf : xh_elf_t) (save_old_func : bool) (symbols : list (list Z)) (s : pltgot) : res pltgot :=
  match symbols with
  | [] => Ok s
  | symbol :: symbols' =>
      let! s := hook_symbol elf save_old_func symbol s in hook_symbols elf save_old_func symbols' s
  end.

Definition tryHookAllFunc (elf : xh_elf_t) (s : pltgot) : res pltgot := hook_symbols elf false sPltGot s.

Definition elf_name (elf : xh_elf_t) : list Z := default [] (pathname elf).

Definition tryHookSoLoadFunc (elf : xh_elf_t) (save_old_func : bool) (s : pltgot) : res pltgot :=
  if ANDROID_API_O <=? api_level (glob s) then
    if negb (is_hook_libdl_success (glob s)) && strstr (elf_name elf) SO_LIBDL then
      let! s := hook_symbols elf save_old_func sSoLoad_O s in
      Ok {| hooks := hooks s; glob := set_libdl (glob s) |}
    else Ok s
  else if ANDROID_API_N <=? api_level (glob s) then
    if truthy (g_dl_mutex (glob s)) && truthy (dlopen_ext_N (glob s)) then hook_symbols elf save_old_func sSoLoad_N s
    else Ok s
  else hook_symbols elf save_old_func sSoLoad s.

(** [!use_regex || regexec(..) == 0] *)
Definition is_focused (g : globals) (name : list Z) : bool :=
  match focused_regex g with None => true | Some r => regexec r name end.

(** The uninitialised local [elf]. *)
Definition raw_elf : xh_elf_t := elf_reset 0 None.

Definition default_callback (name : list Z) (base : Z) (s : pltgot) : res (Z * pltgot) :=
  let! (r, elf) := xh_elf_init (hmem (hooks s)) raw_elf base (Some name) in
  if negb (r =? 0) then Ok (0, s)
  else
    let! s := (if is_focused (glob s) name then tryHookAllFunc elf s else Ok s) in
    let! s := tryHookSoLoadFunc elf true s in
    Ok (0, s).

Definition so_load_callback (name : list Z) (base : Z) (filename : list Z) (s : pltgot) : res (Z * pltgot) :=
  if strstr name filename || strstr filename name then
    let! (r, elf) := xh_elf_init (hmem (hooks s)) raw_elf base (Some name) in
    if negb (r =? 0) then Ok (1, s)
    else
      let! s := tryHookAllFunc elf s in
      let! s := tryHookSoLoadFunc elf false s in
      Ok (1, s)
  else Ok (0, s).

(** [data]: the name a library is being loaded by. *)
Definition common_callback (name : option (list Z)) (base : Z) (data : option (list Z)) (s : pltgot)
    : res (Z * pltgot) :=
  match name with
  | None => Ok (0, s)
  | Some n =>
      if base =? 0 then Ok (0, s)
      else if negb (is_so_name name) then Ok (0, s)
      else if is_self_so name then Ok (0, s)
      else match data with
           | None => default_callback n base s
           | Some filename => so_load_callback n base filename s
           end
  end.

Definition dl_iterate_callback (data : option (list Z)) (info : dl_phdr_info) (s : pltgot) : res (Z * pltgot) :=
  let! base := get_so_base (hmem (hooks s)) info in
  common_callback (dlpi_name info) base data s.

(** [xdl_util_get_api_level], the device's level being known: at least 16 (Android 4.1). *)
Definition xdl_api (s : pltgot) : Z := Z.max 16 (api_level (glob s)).

Definition iterate (data : option (list Z)) (s : pltgot) : res pltgot :=
  let! (_, s) := xdl_iterate_phdr_impl (fun s => hmem (hooks s)) (fun s => proc_maps W K (world (hooks s)))
                   (dl_iterate_callback data) (xdl_api s) (loaded (world (hooks s))) XDL_FULL_PATHNAME s in
  Ok s.

Definition try_pltgot_hook_on_soload (filename : option (list Z)) (s : pltgot) : res pltgot :=
  match filename with
  | None => Ok s
  | Some f =>
      if negb (is_so_name filename) then Ok s
      else if is_focused (glob s) f then iterate (Some (pretty_name f)) s
      else Ok s
  end.

(** ** The proxies of the linker's functions *)

Context (call : Z -> option (list Z) -> pltgot -> Z * pltgot).

(** A call through a pointer that is still NULL is a fault. *)
Definition call_origin (symbol : list Z) (filename : option (list Z)) (s : pltgot) : res (Z * pltgot) :=
  match origins (glob s) !! symbol with None => Fault | Some f => Ok (call f filename s) end.

(** The proxy of the linker's function [symbol]. *)
Definition proxy_dlopen (symbol : list Z) (filename : option (list Z)) (s : pltgot) : res (Z * pltgot) :=
  let! (result, s) := call_origin symbol filename s in
  let! s := (if truthy result then try_pltgot_hook_on_soload filename s else Ok s) in
  Ok (result, s).
Definition dlopen_proxy_O := proxy_dlopen SO_LOAD_SYMBOL_O_2.
Definition android_dlopen_proxy_O := proxy_dlopen SO_LOAD_SYMBOL_O_1.
Definition dlopen_proxy := proxy_dlopen SO_LOAD_SYMBOL.

(** On Android 7: when the linker refuses the caller's namespace, ask again under
    the linker's lock with the caller's address. *)
Definition proxy_dlopen_N (symbol : list Z) (filename : option (list Z)) (s : pltgot) : res (Z * pltgot) :=
  let! (result, s) := call_origin symbol filename s in
  let '(result, s) := if truthy result then (result, s) else call (dlopen_ext_N (glob s)) filename s in
  let! s := (if truthy result then try_pltgot_hook_on_soload filename s else Ok s) in
  Ok (result, s).
Definition dlopen_proxy_N := proxy_dlopen_N SO_LOAD_SYMBOL_N_2.
Definition android_dlopen_proxy_N := proxy_dlopen_N SO_LOAD_SYMBOL_N_1.

(** ** [registerSoLoadProxy]

    [level]: the device's API level; [linker_syms]: what [xdl_open] and [xdl_sym]
    find in the linker. *)
Definition registerSoLoadProxy (level : Z) (focused : option (list Z)) (linker_syms : option (Z * Z)) (s : pltgot)
    : res (Z * pltgot) :=
  let g := glob s in
  let '(ext, mutex) :=
    if (ANDROID_API_N <=? level) && (level <? ANDROID_API_O)
    then match linker_syms with Some p => p | None => (dlopen_ext_N g, g_dl_mutex g) end
    else (dlopen_ext_N g, g_dl_mutex g) in
  let g := {| api_level := level;
              focused_regex := match focused with None => focused_regex g | Some f => regcomp f end;
              is_hook_libdl_success := is_hook_libdl_success g; g_dl_mutex := mutex; dlopen_ext_N := ext;
              origins := origins g |} in
  let! s := iterate None {| hooks := hooks s; glob := g |} in
  Ok (0, s).

(** ** Every focused library is hooked *)

(** The writes [l], slot and value in order, have been made, and nothing else. *)
Record patched (l : list (Z * Z)) (st st' : hook_state) : Prop := {
  p_new : forall a v, (a, v) ∈ l -> (forall v', (a, v') ∈ l -> v' = v) -> load_ptr (hmem st') a = Some v;
  p_rest : forall b, (forall a v, (a, v) ∈ l -> ~ in_slot a b) -> hmem st' !! b = hmem st !! b;
  p_prot : forall b, byte_prot W K (world st') b = byte_prot W K (world st) b
}.

Definition aligned (l : list (Z * Z)) : Prop := Forall (fun w => w.1 mod ptr_size = 0) l.

Lemma patched_nil st : patched [] st st.
Proof. constructor; try done. intros a v Ha. by apply elem_of_nil in Ha. Qed.

(** What a write list does not touch it keeps. *)
Lemma patched_keeps l st st' a :
  aligned l -> a mod ptr_size = 0 -> patched l st st' -> (forall v, (a, v) ∉ l) ->
  load_ptr (hmem st') a = load_ptr (hmem st) a.
Proof.
  intros Hal Ha Hp Hno. apply load_ptr_ext. intros b Hb. apply (p_rest _ _ _ Hp). intros a' v Hin Hb'.
  unfold aligned in Hal. rewrite Forall_forall in Hal. specialize (Hal _ Hin). cbn [fst] in Hal.
  assert (Hne : a' <> a) by (intros ->; by apply (Hno v)).
  destruct (aligned_apart a' a Hal Ha Hne); unfold in_slot in *; lia.
Qed.

Lemma patched_app l1 l2 st st1 st2 :
  aligned (l1 ++ l2) -> patched l1 st st1 -> patched l2 st1 st2 -> patched (l1 ++ l2) st st2.
Proof.
  intros Hal Hp1 Hp2. pose proof Hal as [Hal1 Hal2]%Forall_app. constructor.
  - intros a v Hin Huniq. destruct (decide (Exists (fun w => w.1 = a) l2)) as [Hex|Hno].
    + apply Exists_exists in Hex as ([a' v'] & Hin' & Heq). cbn [fst] in Heq. subst a'.
      assert (v' = v) as -> by (apply Huniq, elem_of_app; by right).
      apply (p_new _ _ _ Hp2 a v Hin'). intros v'' Hin''. apply Huniq, elem_of_app. by right.
    + assert (Hno' : forall v', (a, v') ∉ l2).
      { intros v' Hin'. apply Hno, Exists_exists. by exists (a, v'). }
      apply elem_of_app in Hin as [Hin|Hin]; [|by destruct (Hno' v)].
      rewrite (patched_keeps l2 st1 st2 a Hal2) by
        (done || (unfold aligned in Hal1; rewrite Forall_forall in Hal1; by apply (Hal1 _ Hin))).
      apply (p_new _ _ _ Hp1 a v Hin). intros v' Hin'. apply Huniq, elem_of_app. by left.
  - intros b Hb. rewrite (p_rest _ _ _ Hp2), (p_rest _ _ _ Hp1); [done|..];
      intros a v Hin; apply (Hb a v), elem_of_app; auto.
  - intros b. by rewrite (p_prot _ _ _ Hp2), (p_prot _ _ _ Hp1).
Qed.

(** A library the linker has loaded. *)
Record so := {
  so_info : dl_phdr_info; so_name : list Z; so_base : Z; so_elf : xh_elf_t; so_names : list (list Z);
  so_lib : Z -> Prop;
  so_plt : list (Z * Z); so_dyn : list (Z * Z); so_packed : list (Z * Z);
  so_index : list Z -> option Z
}.

Definition so_slots (x : so) (symbol : list Z) : list Z :=
  match so_index x symbol with Some i => slots (so_elf x) (so_plt x) (so_dyn x) (so_packed x) i | None => [] end.
(** The slots of the symbols and their proxies. *)
Definition so_writes (x : so) (symbols : list (list Z)) : list (Z * Z) :=
  mjoin ((fun symbol => (fun a => (a, proxy_of symbol)) <$> so_slots x symbol) <$> symbols).

(** A shared library with a name, that is not the detector itself. *)
Definition selected (x : so) : bool := is_so_name (Some (so_name x)) && negb (is_self_so (Some (so_name x))).

Definition all_symbols : list (list Z) := sPltGot ++ sSoLoad_O.

(** The memory [T] holds the tables of all libraries; [m0] is the memory before
    hooking. *)
Record so_ok (T m0 : mem) (x : so) : Prop := {
  x_name : dlpi_name (so_info x) = Some (so_name x);
  x_path : head (so_name x) = Some 47 \/ head (so_name x) = Some 91;
  x_addr : dlpi_addr (so_info x) <> 0 /\ dlpi_phdr (so_info x) <> 0 /\ dlpi_phnum (so_info x) <> 0;
  x_base : get_so_base T (so_info x) = Ok (so_base x) /\ (selected x = true -> so_base x <> 0);
  x_init : selected x = true -> exists t, t ⊆ T /\ xh_elf_init t raw_elf (so_base x) (Some (so_name x)) = Ok (0, so_elf x) /\
    library fuel t (so_elf x) (so_names x) (so_plt x) (so_dyn x) (so_packed x);
  x_elf : selected x = true -> pathname (so_elf x) = Some (so_name x);
  x_kernel : selected x = true -> kernel_ok K raw_perm (pathname (so_elf x)) (so_lib x);
  x_index : selected x = true -> forall symbol, symbol ∈ all_symbols ->
    symbol_index (so_elf x) (so_names x) symbol (so_index x symbol);
  x_slots : selected x = true -> forall symbol, symbol ∈ all_symbols ->
    Forall (good (so_elf x) (so_lib x) T m0) (so_slots x symbol)
}.

Lemma mono_so_base info : mono (fun m => get_so_base m info).
Proof.
  unfold get_so_base. apply mono_bind; [|intros; apply mono_const].
  generalize (Z.to_nat (dlpi_phnum info)) (dlpi_phdr info) INTPTR_MAX. intros n.
  induction n as [|n IH]; intros phdr mv; cbn [so_base_loop]; solve_mono; by apply mono_load.
Qed.

Abbreviation linker_cb data := (xdl_iterate_by_linker_cb (fun s => hmem (hooks s))
  (fun s => proc_maps W K (world (hooks s))) (dl_iterate_callback data) 0 XDL_FULL_PATHNAME).

Section Register.
Context (T m0 : mem).
Hypothesis proxies : forall symbol, symbol ∈ all_symbols -> 0 < proxy_of symbol < 2 ^ ptr_bits.

(** The part of the globals hooking a symbol does not change. *)
Definition same_glob (g g' : globals) : Prop :=
  api_level g' = api_level g /\ focused_regex g' = focused_regex g /\
  is_hook_libdl_success g' = is_hook_libdl_success g.

Lemma same_glob_trans g1 g2 g3 : same_glob g1 g2 -> same_glob g2 g3 -> same_glob g1 g3.
Proof. unfold same_glob. intros (-> & -> & ->) (-> & -> & ->). done. Qed.

Lemma all_symbols_no_nul symbol : symbol ∈ all_symbols -> no_nul symbol.
Proof.
  revert symbol. apply Forall_forall. unfold no_nul. apply (bool_decide_unpack _). vm_compute. reflexivity.
Qed.

Lemma good_aligned_writes x symbols :
  so_ok T m0 x -> selected x = true -> symbols ⊆ all_symbols -> aligned (so_writes x symbols).
Proof.
  intros Hx Hsel Hsub. unfold aligned. apply Forall_forall. intros w Hw. unfold so_writes in Hw.
  apply list_elem_of_join in Hw as (ws & Hw & Hws). apply list_elem_of_fmap in Hws as (symbol & -> & Hs).
  apply list_elem_of_fmap in Hw as (a & -> & Ha). cbn [fst].
  pose proof (x_slots _ _ _ Hx Hsel symbol (Hsub _ Hs)) as Hg. rewrite Forall_forall in Hg.
  by destruct (Hg a Ha) as ((_ & ? & _) & _).
Qed.

Lemma replaced_patched new want l st st' :
  replaced K new want l st st' -> patched ((fun a => (a, new)) <$> l) st st'.
Proof.
  intros Hr. constructor.
  - intros a v Hin _. apply list_elem_of_fmap in Hin as (a' & [= <- ->] & Ha). by apply (r_new _ _ _ _ _ _ Hr).
  - intros b Hb. apply (r_rest _ _ _ _ _ _ Hr). intros a Ha. apply (Hb a new). apply list_elem_of_fmap. by exists a.
  - apply (r_prot _ _ _ _ _ _ Hr).
Qed.

Lemma good_weaken elf lib t a : t ⊆ T -> good elf lib T m0 a -> good elf lib t m0 a.
Proof.
  intros Ht (Hs & Hb & Hno). split_and!; [done..|]. intros b Hin. specialize (Hno b Hin).
  destruct (t !! b) as [x|] eqn:Hx; [|done]. by rewrite (lookup_weaken _ _ _ _ Hx Ht) in Hno.
Qed.

Lemma valid_weaken t (st : hook_state) : t ⊆ T -> valid T m0 st -> valid t m0 st.
Proof. intros Ht [Hok Htabs Hdom]. constructor; try done. by transitivity T. Qed.

Lemma hook_symbol_ok x save symbol s :
  so_ok T m0 x -> selected x = true -> symbol ∈ all_symbols -> valid T m0 (hooks s) ->
  exists s', hook_symbol (so_elf x) save symbol s = Ok s' /\ patched (so_writes x [symbol]) (hooks s) (hooks s') /\
    valid T m0 (hooks s') /\ same_glob (glob s) (glob s').
Proof.
  intros Hx Hsel Hs Hv. destruct (x_init _ _ _ Hx Hsel) as (t & Ht & _ & Hlib).
  pose proof (x_slots _ _ _ Hx Hsel symbol Hs) as Hgood.
  set (st0 := {| hmem := hmem (hooks s); world := world (hooks s); old_func := None; flushed := flushed (hooks s) |}).
  assert (Hv0 : valid T m0 st0) by (destruct Hv; by constructor).
  destruct (hook_ok K raw_perm fuel (so_elf x) (so_lib x) t m0 (so_names x) (so_plt x) (so_dyn x) (so_packed x) symbol
    (so_index x symbol) (proxy_of symbol) save st0 Hlib (x_kernel _ _ _ Hx Hsel) (proxies symbol Hs)
    (all_symbols_no_nul symbol Hs) (x_index _ _ _ Hx Hsel symbol Hs) (valid_weaken t st0 Ht Hv0)) as (st & He & Hr & _).
  { eapply Forall_impl; [exact Hgood|]. intros a. by apply good_weaken. }
  fold (so_slots x symbol) in Hr. unfold hook_symbol. fold st0. rewrite He. cbn [rbind].
  eexists. split; [done|]. cbn [hooks glob]. split; [|split].
  - unfold so_writes. cbn [fmap list_fmap mjoin list_join]. rewrite app_nil_r. apply replaced_patched in Hr.
    destruct Hr as [H1 H2 H3]. by constructor.
  - eapply valid_replaced; [exact Hgood|exact Hv0|exact Hr].
  - unfold set_origin. by destruct (old_func st).
Qed.

Lemma hook_symbols_ok x save symbols s :
  so_ok T m0 x -> selected x = true -> symbols ⊆ all_symbols -> valid T m0 (hooks s) ->
  exists s', hook_symbols (so_elf x) save symbols s = Ok s' /\ patched (so_writes x symbols) (hooks s) (hooks s') /\
    valid T m0 (hooks s') /\ same_glob (glob s) (glob s').
Proof.
  intros Hx Hsel. revert s. induction symbols as [|symbol symbols IH]; intros s Hsub Hv; cbn [hook_symbols].
  - exists s. split; [done|]. split; [apply patched_nil|]. by split.
  - destruct (hook_symbol_ok x save symbol s Hx Hsel) as (s1 & -> & Hp1 & Hv1 & Hg1); [apply Hsub; by left|done|].
    cbn [rbind]. destruct (IH s1) as (s2 & He & Hp2 & Hv2 & Hg2); [intros y Hy; apply Hsub; by right|done|].
    exists s2. split; [exact He|]. split; [|split; [done|by eapply same_glob_trans]].
    assert (Hw : so_writes x (symbol :: symbols) = so_writes x [symbol] ++ so_writes x symbols).
    { unfold so_writes. cbn [fmap list_fmap mjoin list_join]. by rewrite app_nil_r. }
    rewrite Hw. eapply patched_app; [|exact Hp1|exact Hp2]. rewrite <- Hw. by apply good_aligned_writes.
Qed.

(** What [default_callback] writes for a library: the allocator functions when it is
    focused, the linker's functions in the first one named like libdl. *)
Definition callback_writes (g : globals) (x : so) : list (Z * Z) :=
  (if is_focused g (so_name x) then so_writes x sPltGot else []) ++
  (if negb (is_hook_libdl_success g) && strstr (so_name x) SO_LIBDL then so_writes x sSoLoad_O else []).

Definition next_glob (g g' : globals) (x : so) : Prop :=
  api_level g' = api_level g /\ focused_regex g' = focused_regex g /\
  is_hook_libdl_success g' = is_hook_libdl_success g || strstr (so_name x) SO_LIBDL.

Lemma sPltGot_symbols : sPltGot ⊆ all_symbols.
Proof. unfold all_symbols. set_solver. Qed.
Lemma sSoLoad_O_symbols : sSoLoad_O ⊆ all_symbols.
Proof. unfold all_symbols. set_solver. Qed.

Lemma hook_focused_ok x s :
  so_ok T m0 x -> selected x = true -> valid T m0 (hooks s) ->
  exists s', (if is_focused (glob s) (so_name x) then tryHookAllFunc (so_elf x) s else Ok s) = Ok s' /\
    patched (if is_focused (glob s) (so_name x) then so_writes x sPltGot else []) (hooks s) (hooks s') /\
    valid T m0 (hooks s') /\ same_glob (glob s) (glob s').
Proof.
  intros Hx Hsel Hv. destruct (is_focused _ _).
  - apply hook_symbols_ok; try done. apply sPltGot_symbols.
  - exists s. split; [done|]. split; [apply patched_nil|done].
Qed.

Lemma hook_libdl_ok x save s :
  so_ok T m0 x -> selected x = true -> valid T m0 (hooks s) -> ANDROID_API_O <= api_level (glob s) ->
  exists s', tryHookSoLoadFunc (so_elf x) save s = Ok s' /\
    patched (if negb (is_hook_libdl_success (glob s)) && strstr (so_name x) SO_LIBDL then so_writes x sSoLoad_O else [])
      (hooks s) (hooks s') /\
    valid T m0 (hooks s') /\ next_glob (glob s) (glob s') x.
Proof.
  intros Hx Hsel Hv Hapi. unfold tryHookSoLoadFunc.
  assert (elf_name (so_elf x) = so_name x) as -> by (unfold elf_name; by rewrite (x_elf _ _ _ Hx Hsel)).
  rewrite (proj2 (Z.leb_le _ _) Hapi). unfold next_glob.
  destruct (is_hook_libdl_success (glob s)) eqn:Hdone; cbn [negb andb orb].
  { exists s. split; [done|]. split; [apply patched_nil|]. by rewrite Hdone. }
  destruct (strstr (so_name x) SO_LIBDL).
  - destruct (hook_symbols_ok x save sSoLoad_O s Hx Hsel sSoLoad_O_symbols Hv) as (s' & -> & Hp & Hv' & Hg1 & Hg2 & _).
    cbn [rbind]. eexists. split; [done|]. cbn [hooks glob]. done.
  - exists s. split; [done|]. split; [apply patched_nil|]. by rewrite Hdone.
Qed.

Lemma callback_aligned g x : so_ok T m0 x -> selected x = true -> aligned (callback_writes g x).
Proof.
  intros Hx Hsel. unfold callback_writes. apply Forall_app. split.
  - destruct (is_focused _ _); [by apply good_aligned_writes, sPltGot_symbols|by apply Forall_nil_2].
  - destruct (negb _ && _); [by apply good_aligned_writes, sSoLoad_O_symbols|by apply Forall_nil_2].
Qed.

Lemma default_callback_ok x s :
  so_ok T m0 x -> selected x = true -> valid T m0 (hooks s) -> ANDROID_API_O <= api_level (glob s) ->
  exists s', default_callback (so_name x) (so_base x) s = Ok (0, s') /\
    patched (callback_writes (glob s) x) (hooks s) (hooks s') /\ valid T m0 (hooks s') /\ next_glob (glob s) (glob s') x.
Proof.
  intros Hx Hsel Hv Hapi. destruct (x_init _ _ _ Hx Hsel) as (t & Ht & Hinit & _). unfold default_callback.
  rewrite (mono_init _ _ _ t (hmem (hooks s)) _ (transitivity Ht (v_tabs _ _ _ Hv)) Hinit). cbn [rbind negb Z.eqb].
  destruct (hook_focused_ok x s Hx Hsel Hv) as (s1 & -> & Hp1 & Hv1 & Hg1a & Hg1b & Hg1c). cbn [rbind].
  destruct (hook_libdl_ok x true s1 Hx Hsel Hv1) as (s2 & -> & Hp2 & Hv2 & Hg2a & Hg2b & Hg2c); [by rewrite Hg1a|].
  cbn [rbind]. exists s2. split; [done|]. split; [|split; [done|]].
  - rewrite Hg1c in Hp2. eapply patched_app; [|exact Hp1|exact Hp2].
    by apply callback_aligned.
  - unfold next_glob. by rewrite Hg2a, Hg2b, Hg2c, Hg1a, Hg1b, Hg1c.
Qed.

(** One library of the linker's list. *)
Definition step_writes (g : globals) (x : so) : list (Z * Z) := if selected x then callback_writes g x else [].
Definition step_glob (g g' : globals) (x : so) : Prop :=
  api_level g' = api_level g /\ focused_regex g' = focused_regex g /\
  is_hook_libdl_success g' = is_hook_libdl_success g || (selected x && strstr (so_name x) SO_LIBDL).

(** What the callback comes down to for a library. *)
Lemma cb_enter data x s :
  so_ok T m0 x -> T ⊆ hmem (hooks s) ->
  linker_cb data (so_info x) s =
  if selected x then match data with
                     | None => default_callback (so_name x) (so_base x) s
                     | Some filename => so_load_callback (so_name x) (so_base x) filename s
                     end
  else Ok (0, s).
Proof.
  intros Hx HT. destruct (x_addr _ _ _ Hx) as (Haddr & Hphdr & Hnum). destruct (x_base _ _ _ Hx) as [Hbase Hne].
  assert (Hnn : so_name x <> []) by (intros He; destruct (x_path _ _ _ Hx) as [Hp|Hp]; by rewrite He in Hp).
  unfold xdl_iterate_by_linker_cb, fix_phdr. rewrite (x_name _ _ _ Hx), (Z.eqb_sym 0), bool_decide_eq_false_2 by done.
  rewrite !(proj2 (Z.eqb_neq _ 0)) by done. cbn [orb rbind].
  assert (negb (bool_decide (head (so_name x) = Some 47)) && negb (bool_decide (head (so_name x) = Some 91)) = false)
    as -> by (by destruct (x_path _ _ _ Hx) as [->| ->]).
  cbn [andb]. unfold dl_iterate_callback. rewrite (mono_so_base _ T _ _ HT Hbase). cbn [rbind].
  rewrite (x_name _ _ _ Hx). cbn [common_callback]. destruct (selected x) eqn:Hsel; pose proof Hsel as Hsel'; unfold selected in Hsel'.
  - apply andb_true_iff in Hsel' as [-> ->%negb_true_iff].
    by rewrite (proj2 (Z.eqb_neq (so_base x) 0)) by (by apply Hne).
  - destruct (so_base x =? 0); [done|]. destruct (is_so_name _); [|done]. by destruct (is_self_so _).
Qed.

Lemma xdl_cb_ok x s :
  so_ok T m0 x -> valid T m0 (hooks s) -> ANDROID_API_O <= api_level (glob s) ->
  exists s', linker_cb None (so_info x) s = Ok (0, s') /\
    patched (step_writes (glob s) x) (hooks s) (hooks s') /\ valid T m0 (hooks s') /\ step_glob (glob s) (glob s') x.
Proof.
  intros Hx Hv Hapi. rewrite (cb_enter None x s Hx (v_tabs _ _ _ Hv)). unfold step_writes, step_glob.
  destruct (selected x) eqn:Hsel; [by apply default_callback_ok|].
  exists s. split; [done|]. split; [apply patched_nil|]. by rewrite orb_false_r.
Qed.

(** The writes for the list of libraries, the linker's functions only once. *)
Fixpoint load_writes (g : globals) (xs : list so) : list (Z * Z) :=
  match xs with
  | [] => []
  | x :: xs' =>
      step_writes g x ++ load_writes (if selected x && strstr (so_name x) SO_LIBDL then set_libdl g else g) xs'
  end.

Lemma step_writes_ext g g' x :
  focused_regex g' = focused_regex g -> is_hook_libdl_success g' = is_hook_libdl_success g ->
  step_writes g' x = step_writes g x.
Proof. intros Hf Hl. unfold step_writes, callback_writes, is_focused. by rewrite Hf, Hl. Qed.

Lemma load_writes_ext g g' xs :
  focused_regex g' = focused_regex g -> is_hook_libdl_success g' = is_hook_libdl_success g ->
  load_writes g' xs = load_writes g xs.
Proof.
  revert g g'. induction xs as [|x xs IH]; intros g g' Hf Hl; cbn [load_writes]; [done|].
  rewrite (step_writes_ext g g') by done. f_equal. by apply IH; destruct (_ && _).
Qed.

Lemma load_aligned g xs : Forall (so_ok T m0) xs -> aligned (load_writes g xs).
Proof.
  intros Hxs. revert g. induction Hxs as [|x xs Hx _ IH]; intros g; cbn [load_writes]; [by apply Forall_nil_2|].
  apply Forall_app. split; [|apply IH]. unfold step_writes.
  destruct (selected x) eqn:Hsel; [by apply callback_aligned|by apply Forall_nil_2].
Qed.

Lemma walk_ok xs s :
  Forall (so_ok T m0) xs -> valid T m0 (hooks s) -> ANDROID_API_O <= api_level (glob s) ->
  exists s', dl_iterate_phdr (linker_cb None) (so_info <$> xs) s = Ok (0, s') /\
    patched (load_writes (glob s) xs) (hooks s) (hooks s').
Proof.
  intros Hxs. revert s. induction Hxs as [|x xs Hx Hxs IH]; intros s Hv Hapi.
  - exists s. split; [done|apply patched_nil].
  - rewrite fmap_cons. cbn [dl_iterate_phdr load_writes].
    destruct (xdl_cb_ok x s Hx Hv Hapi) as (s1 & -> & Hp1 & Hv1 & Hg1a & Hg1b & Hg1c). cbn [rbind Z.eqb].
    destruct (IH s1 Hv1) as (s2 & -> & Hp2); [by rewrite Hg1a|]. exists s2. split; [done|].
    eapply patched_app; [|exact Hp1|].
    { apply Forall_app. split; [|by apply load_aligned]. unfold step_writes.
      destruct (selected x) eqn:Hsel; [by apply callback_aligned|by apply Forall_nil_2]. }
    rewrite (load_writes_ext (glob s1)); [done|by destruct (_ && _)|].
    rewrite Hg1c. destruct (selected x && _); [by rewrite orb_true_r|by rewrite orb_false_r].
Qed.

(** The library a name is looked up for: [filename] is the name from the last slash on. *)
Definition names_match (name filename : list Z) : bool := strstr name filename || strstr filename name.
Definition matches (filename : list Z) (x : so) : bool := selected x && names_match (so_name x) filename.

Lemma so_load_walk pre x post filename s :
  Forall (so_ok T m0) (pre ++ x :: post) -> valid T m0 (hooks s) -> ANDROID_API_O <= api_level (glob s) ->
  is_hook_libdl_success (glob s) = true ->
  Forall (fun y => matches filename y = false) pre -> matches filename x = true ->
  exists s', dl_iterate_phdr (linker_cb (Some filename)) (so_info <$> pre ++ x :: post) s = Ok (1, s') /\
    patched (so_writes x sPltGot) (hooks s) (hooks s') /\ same_glob (glob s) (glob s').
Proof.
  intros Hxs Hv Hapi Hdone Hpre Hmatch. induction Hpre as [|y pre Hy Hpre IH].
  - rewrite app_nil_l, fmap_cons in *. apply Forall_cons in Hxs as [Hx _]. cbn [dl_iterate_phdr].
    rewrite (cb_enter (Some filename) x s Hx (v_tabs _ _ _ Hv)). apply andb_true_iff in Hmatch as [Hsel Hname].
    rewrite Hsel. unfold so_load_callback. fold (names_match (so_name x) filename). rewrite Hname.
    destruct (x_init _ _ _ Hx Hsel) as (t & Ht & Hinit & _).
    rewrite (mono_init _ _ _ t (hmem (hooks s)) _ (transitivity Ht (v_tabs _ _ _ Hv)) Hinit). cbn [rbind negb Z.eqb].
    destruct (hook_symbols_ok x false sPltGot s Hx Hsel sPltGot_symbols Hv) as (s1 & He & Hp1 & Hv1 & Hg1).
    unfold tryHookAllFunc. rewrite He. cbn [rbind]. unfold tryHookSoLoadFunc. destruct Hg1 as (Ha & Hf & Hl).
    rewrite Ha, (proj2 (Z.leb_le _ _) Hapi), Hl, Hdone. cbn [negb andb rbind Z.eqb]. by exists s1.
  - cbn [app] in *. rewrite fmap_cons. apply Forall_cons in Hxs as [Hyok Hxs]. cbn [dl_iterate_phdr].
    rewrite (cb_enter (Some filename) y s Hyok (v_tabs _ _ _ Hv)).
    assert ((if selected y then so_load_callback (so_name y) (so_base y) filename s else Ok (0, s)) = Ok (0, s)) as ->.
    { unfold matches, names_match in Hy. unfold so_load_callback. destruct (selected y); [|done].
      cbn [andb] in Hy. by rewrite Hy. }
    cbn [rbind Z.eqb]. by apply IH.
Qed.

End Register.

Lemma iterate_O data s libs :
  ANDROID_API_O <= api_level (glob s) -> loaded (world (hooks s)) = Some libs ->
  iterate data s = (let! (_, s) := dl_iterate_phdr (linker_cb data) libs s in Ok s).
Proof.
  unfold ANDROID_API_O. intros Hapi Hloaded. unfold iterate, xdl_iterate_phdr_impl, xdl_api. rewrite Hloaded.
  replace (_ && _) with false; [|symmetry; apply andb_false_intro2, Z.ltb_ge; unfold ANDROID_API_L; lia].
  unfold xdl_iterate_by_linker.
  replace (truthy (XDL_FULL_PATHNAME .& XDL_WITH_LINKER)) with false by reflexivity. cbn [andb rbind negb Z.eqb].
  by destruct (dl_iterate_phdr _ _ _) as [[? ?]| |].
Qed.

(** C19: From Android 8.0 on [registerSoLoadProxy] goes through every library the
    linker has loaded, all of them well formed ([so_ok]): in each shared library but the detector itself whose name
    matches the filter it replaces the slots of the allocator functions, and in the
    first one named like libdl the slots of the linker's functions, in the libraries'
    order.  They are the slots of the relocations that the iterators of xh_elf.c visit, which is not the first one
    of .rel(a).plt and of .rel(a).dyn but is the entry behind each of these tables
    ([XhReloc.plain_iterator_shifted]).  Bytes of no such slot and all protections stay as they
    were. *)
Theorem register_hooks_all (T : mem) (xs : list so) level focused linker_syms (s : pltgot) :
  ANDROID_API_O <= level ->
  (forall symbol, symbol ∈ all_symbols -> 0 < proxy_of symbol < 2 ^ ptr_bits) ->
  loaded (world (hooks s)) = Some (so_info <$> xs) -> Forall (so_ok T (hmem (hooks s))) xs ->
  T ⊆ hmem (hooks s) -> mem_ok (hmem (hooks s)) ->
  let g := {| api_level := level;
              focused_regex := match focused with None => focused_regex (glob s) | Some f => regcomp f end;
              is_hook_libdl_success := is_hook_libdl_success (glob s); g_dl_mutex := g_dl_mutex (glob s);
              dlopen_ext_N := dlopen_ext_N (glob s); origins := origins (glob s) |} in
  exists s', registerSoLoadProxy level focused linker_syms s = Ok (0, s') /\
    patched (load_writes g xs) (hooks s) (hooks s').
Proof.
  intros Hapi Hproxies Hloaded Hxs HT Hok g. unfold ANDROID_API_O in Hapi. unfold registerSoLoadProxy.
  unfold ANDROID_API_O at 1. rewrite (proj2 (Z.ltb_ge level 26)), andb_false_r by lia. cbv zeta. fold g.
  set (s0 := {| hooks := hooks s; glob := g |}).
  destruct (walk_ok T (hmem (hooks s)) Hproxies xs s0 Hxs) as (s' & He & Hp); [by constructor|done|].
  exists s'. split; [|exact Hp]. by rewrite (iterate_O None s0 _ Hapi Hloaded), He.
Qed.

(** C20: From Android 8.0 on, once libdl is hooked, a load through a hooked
    function of the linker hands the caller the linker's result.  If the library was loaded, the name asked for
    is that of a shared library and the filter matches that name, the slots of the allocator
    functions are replaced (in the relocations the iterators visit, see [register_hooks_all]) of the
    first shared library of the linker's list whose name contains, or is contained in, the name
    asked for, and nothing else is written.  Otherwise nothing changes at all.  The libraries are well formed
    ([so_ok]) and the list has such a library. *)
Theorem dlopen_hooks_library (T : mem) (pre post : list so) x symbol filename origin result s s1 :
  origins (glob s) !! symbol = Some origin -> call origin (Some filename) s = (result, s1) ->
  ANDROID_API_O <= api_level (glob s1) -> is_hook_libdl_success (glob s1) = true ->
  (forall symbol, symbol ∈ all_symbols -> 0 < proxy_of symbol < 2 ^ ptr_bits) ->
  loaded (world (hooks s1)) = Some (so_info <$> pre ++ x :: post) ->
  Forall (so_ok T (hmem (hooks s1))) (pre ++ x :: post) ->
  T ⊆ hmem (hooks s1) -> mem_ok (hmem (hooks s1)) ->
  Forall (fun y => matches (pretty_name filename) y = false) pre -> matches (pretty_name filename) x = true ->
  exists s', proxy_dlopen symbol (Some filename) s = Ok (result, s') /\
    if truthy result && is_so_name (Some filename) && is_focused (glob s1) filename
    then patched (so_writes x sPltGot) (hooks s1) (hooks s') else s' = s1.
Proof.
  intros Ho Hcall Hapi Hdone Hproxies Hloaded Hxs HT Hok Hpre Hx.
  unfold proxy_dlopen, call_origin. rewrite Ho, Hcall. cbn [rbind].
  unfold try_pltgot_hook_on_soload. destruct (truthy result); [cbn [andb]|by exists s1].
  destruct (is_so_name (Some filename)); [cbn [negb andb]|by exists s1].
  destruct (is_focused (glob s1) filename); [|by exists s1].
  destruct (so_load_walk T (hmem (hooks s1)) Hproxies pre x post (pretty_name filename) s1 Hxs) as (s' & He & Hp & _);
    [by constructor|done..|].
  exists s'. split; [|exact Hp]. by rewrite (iterate_O _ s1 _ Hapi Hloaded), He.
Qed.

End PltGot.

(** ** Witnesses *)

#[local] Existing Instance arm64.

(** The library of XhElf.v as the only one loaded, on Android 8.0; all names are
    focused, every proxy is at 0x6000. *)
Definition demo_path : list Z := [47; 97; 46; 115; 111].
Definition demo_info : dl_phdr_info :=
  {| dlpi_addr := 0x1000; dlpi_name := Some demo_path; dlpi_phdr := 0x1040; dlpi_phnum := 2 |}.
Definition demo_so : so :=
  {| so_info := demo_info; so_name := demo_path; so_base := 0x1000; so_elf := demo_elf; so_names := demo_names;
     so_lib := demo_data; so_plt := [(0x7010, 0x100000402); (0, 0)]; so_dyn := []; so_packed := [];
     so_index := fun symbol => if bool_decide (symbol = demo_malloc) then Some 1
                               else if bool_decide (symbol = demo_free) then Some 2 else None |}.
Definition demo_globals : globals (R := unit) :=
  {| api_level := 26; focused_regex := None; is_hook_libdl_success := true; g_dl_mutex := 0; dlopen_ext_N := 0;
     origins := {[ SO_LOAD_SYMBOL_O_2 := 0x9900 ]} |}.
Definition demo_state : pltgot (W := bool * bool * bool) (R := unit) :=
  {| hooks := {| hmem := demo_lib; world := (true, false, false); old_func := None; flushed := [] |};
     glob := demo_globals |}.
Definition demo_loaded (_ : bool * bool * bool) : option (list dl_phdr_info) := Some [demo_info].
Definition demo_proxy (_ : list Z) : Z := 0x6000.

Lemma demo_index symbol : symbol <> [] -> symbol_index demo_elf demo_names symbol (so_index demo_so symbol).
Proof.
  intros Hne.
  assert (Hall : forall j name, sym demo_names 0 j name ->
    (j = 0 /\ name = []) \/ (j = 1 /\ name = demo_malloc) \/ (j = 2 /\ name = demo_free)).
  { intros j name Hj. pose proof (sym_bound _ _ _ _ Hj) as Hb. destruct Hj as (_ & _ & Hn). cbn in Hb.
    assert (j = 0 \/ j = 1 \/ j = 2) as [->|[->| ->]] by lia; cbn in Hn; apply (inj Some) in Hn as <-; auto. }
  cbn [so_index demo_so]. repeat case_bool_decide; subst; cbn [symbol_index].
  - split; [by split_and!|]. by intros j [[-> ?]|[[-> ?]|[-> ?]]]%Hall.
  - split; [by split_and!|]. by intros j [[-> ?]|[[-> ?]|[-> ?]]]%Hall.
  - intros j [[-> ->]|[[-> ->]|[-> ->]]]%Hall; try done.
Qed.

Lemma demo_so_ok : so_ok demo_kernel [] 4 demo_tables demo_lib demo_so.
Proof.
  constructor.
  - done.
  - by left.
  - done.
  - split; [vm_compute; reflexivity|done].
  - intros _. exists demo_tables. split; [done|]. split; [vm_compute; reflexivity|exact demo_library].
  - done.
  - intros _. exact demo_kernel_ok.
  - intros _ symbol Hs. apply demo_index. intros ->. revert Hs. apply (bool_decide_unpack _). vm_compute. reflexivity.
  - intros _ symbol _.
    assert (Hslots : so_slots demo_so symbol = if bool_decide (symbol = demo_malloc) then [0x8010] else []).
    { unfold so_slots. cbn [so_index demo_so]. repeat case_bool_decide; vm_compute; reflexivity. }
    rewrite Hslots. case_bool_decide; [|apply Forall_nil_2]. apply Forall_cons_2; [|apply Forall_nil_2].
    apply demo_good.
Qed.

Lemma demo_sos_ok : Forall (so_ok demo_kernel [] 4 demo_tables demo_lib) [demo_so].
Proof. apply Forall_cons_2; [exact demo_so_ok|apply Forall_nil_2]. Qed.

Lemma register_hooks_all_witness :
  exists s', registerSoLoadProxy demo_kernel [] 4 demo_proxy (fun _ _ => true) (fun _ => None) demo_loaded 26 None None
      demo_state = Ok (0, s') /\
    patched demo_kernel [(0x8010, 0x6000)] (hooks demo_state) (hooks s').
Proof.
  replace [(0x8010, 0x6000)] with (load_writes demo_proxy (fun _ _ => true) demo_globals [demo_so])
    by (vm_compute; reflexivity).
  apply (register_hooks_all demo_kernel [] 4 demo_proxy (fun _ _ => true) (fun _ => None) demo_loaded demo_tables [demo_so]
    26 None None demo_state).
  - done.
  - intros symbol _. vm_compute. by split.
  - done.
  - exact demo_sos_ok.
  - apply map_filter_subseteq.
  - apply mem_ok_check. vm_compute. reflexivity.
Defined.

Lemma dlopen_hooks_library_witness :
  exists s', proxy_dlopen demo_kernel [] 4 demo_proxy (fun _ _ => true) demo_loaded (fun _ _ s => (0x77, s))
      SO_LOAD_SYMBOL_O_2 (Some (codes "/data/lib/a.so")) demo_state = Ok (0x77, s') /\
    if truthy 0x77 && is_so_name (Some (codes "/data/lib/a.so")) && is_focused (fun _ _ => true) (glob demo_state) (codes "/data/lib/a.so")
    then patched demo_kernel (so_writes demo_proxy demo_so sPltGot) (hooks demo_state) (hooks s') else s' = demo_state.
Proof.
  apply (dlopen_hooks_library demo_kernel [] 4 demo_proxy (fun _ _ => true) (fun _ => None) demo_loaded (fun _ _ s => (0x77, s))
    demo_tables [] [] demo_so SO_LOAD_SYMBOL_O_2 (codes "/data/lib/a.so") 0x9900 0x77 demo_state demo_state).
  - vm_compute. reflexivity.
  - done.
  - done.
  - done.
  - intros symbol _. vm_compute. by split.
  - done.
  - exact demo_sos_ok.
  - apply map_filter_subseteq.
  - apply mem_ok_check. vm_compute. reflexivity.
  - apply Forall_nil_2.
  - vm_compute. reflexivity.
Defined.
