(* ===== verification/InlineProxy.v ===== *)
(** The inline half of HookProxy.h: the table [sInline], [invoke_je_free], which looks
    jemalloc's [je_free] up, and [registerInlineProxy], which redirects the nine
    functions to the proxies, on 32-bit ARM through inlineHook.c (InlineHook32.v), on
    arm64 through And64InlineHook.cpp (A64Hook.v). *)
From Stdlib Require Import List.
From S2P Require Import Prelude Memory CString StackRange32 Relocate32 InlineHook32 A64Hook A64Rehook Backtrace64 XdlIterate Xdl PltGot.

#[local] Arguments rbind {_ _} !_ _ /.

(** One row of [sInline]: the name, the function, its proxy, and the address of the
    variable ([malloc_origin], ..) that gets the trampoline. *)
Record inline_entry := { i_symbol : list Z; i_target : Z; i_proxy : Z; i_origin : Z }.

Definition set_target (a : Z) (e : inline_entry) : inline_entry :=
  {| i_symbol := i_symbol e; i_target := a; i_proxy := i_proxy e; i_origin := i_origin e |}.

(** [sInline] has the functions of [sPltGot], in this order. *)
Definition sInline (targets proxies origins : list Z) : list inline_entry :=
  (fun '(s, t, p, o) => {| i_symbol := s; i_target := t; i_proxy := p; i_origin := o |}) <$>
    zip (zip (zip sPltGot targets) proxies) origins.

Section JeFree.
(** The libraries [dl_iterate_phdr] lists, the maps file, the API level, and the fuel
    of the walks through a library's tables. *)
Context `{Arch} (libs : option (list dl_phdr_info)) (maps : option (list Z)) (api_level : Z) (fuel : nat).

Definition libc_path : list Z :=
  if api_level <? ANDROID_API_Q
  then if lp64 then codes "/system/lib64/libc.so" else codes "/system/lib/libc.so"
  else if lp64 then codes "/apex/com.android.runtime/lib64/bionic/libc.so"
       else codes "/apex/com.android.runtime/lib/bionic/libc.so".

Definition invoke_je_free (m : mem) (tbl : list inline_entry) : res (list inline_entry) :=
  if api_level <? ANDROID_API_O then Ok tbl
  else
    let! handle := xdl_open libs maps api_level m (Some libc_path) in
    match handle with
    | None => Ok tbl
    | Some handle =>
        let! (target, handle) := xdl_sym fuel m handle (codes "je_free") in
        let tbl := if target =? 0 then tbl else alter (set_target target) 4%nat tbl in
        let! closed := xdl_close handle in
        Ok tbl
    end.

End JeFree.

(** ** arm64 *)

(** [__index] of the trampoline pool, the unwinder's keys, and the memory. *)
Record process64 := { rows64 : list inline_entry; index64 : Z; unwinder : unwind_state; memory64 : mem }.

Section Arm64.
Context (make_rwx : Z -> Z -> bool) (insns_pool : Z).

Fixpoint hook_rows64 (rows : list inline_entry) (index : Z) (m : mem) : res (Z * mem) :=
  match rows with
  | [] => Ok (index, m)
  | e :: rows' =>
      let! (index, m) := A64HookFunction make_rwx insns_pool (i_target e) (i_proxy e) (i_origin e) index m in
      hook_rows64 rows' index m
  end.

(** [created1], [created2]: whether the two [pthread_key_create] of
    [init_arm64_unwind] succeed. *)
Definition registerInlineProxy64 (libs : option (list dl_phdr_info)) (maps : option (list Z)) (api_level : Z) (fuel : nat)
    (created1 created2 : bool) (p : process64) : res process64 :=
  let! rows := invoke_je_free (H := arm64) libs maps api_level fuel (memory64 p) (rows64 p) in
  let us := init_arm64_unwind created1 created2 (unwinder p) in
  let! (index, m) := hook_rows64 rows (index64 p) (memory64 p) in
  Ok {| rows64 := rows; index64 := index; unwinder := us; memory64 := m |}.

End Arm64.

(** ** 32-bit ARM *)

Record process32 := { rows32 : list inline_entry; registry : state }.

Section Arm32.
Context (maps : option (list Z)) (mmap_page : mem -> option Z).

(** A registration that fails is only logged. *)
Fixpoint register_rows (rows : list inline_entry) (st : state) : res state :=
  match rows with
  | [] => Ok st
  | e :: rows' =>
      let! (c, st) := registerInlineHook maps mmap_page (u32 (i_target e)) (u32 (i_proxy e)) (i_origin e) st in
      register_rows rows' st
  end.

Definition registerInlineProxy32 (libs : option (list dl_phdr_info)) (api_level : Z) (fuel : nat) (p : process32) : res process32 :=
  let! rows := invoke_je_free (H := arm32) libs maps api_level fuel (memory (registry p)) (rows32 p) in
  let! st := register_rows rows (registry p) in
  let! st := inlineHookAll st in
  Ok {| rows32 := rows; registry := st |}.

End Arm32.

(** ** The functions of arm64 are redirected *)

Section Redirected.
Context (make_rwx : Z -> Z -> bool) (insns_pool : Z).

(** The trampoline of index [i]: five instructions take at most 200 bytes. *)
Definition slot (i : Z) : Z := insns_pool + i * 200.

Definition code (e : inline_entry) (a : Z) : Prop := i_target e <= a < i_target e + 20.
Definition cell (e : inline_entry) (a : Z) : Prop := i_origin e <= a < i_origin e + 8.
Definition in_pool (a : Z) : Prop := insns_pool <= a < insns_pool + 256 * 200.
Definition same_dom (m m' : mem) : Prop := forall a, is_Some (m' !! a) <-> is_Some (m !! a).

Definition row_count (e : inline_entry) : Z := Z.of_nat (hook_count (i_target e) (i_proxy e)).

(** A function of 20 mapped bytes, a proxy elsewhere, and a variable for the trampoline. *)
Record row_fits (m : mem) (e : inline_entry) : Prop := {
  row_aligned : i_target e mod 4 = 0 /\ i_proxy e mod 4 = 0;
  row_target : 0 <= i_target e /\ i_target e + 20 < 2 ^ 64;
  row_proxy : is_word 64 (i_proxy e) /\ ~ code e (i_proxy e) /\ ~ in_pool (i_proxy e);
  row_origin : i_origin e <> 0 /\ mapped m (i_origin e) 8 /\ forall a, cell e a -> ~ code e a /\ ~ in_pool a;
  row_mapped : mapped m (i_target e) 20 /\ forall a, code e a -> ~ in_pool a;
  row_rwx : make_rwx (i_target e) (if (hook_count (i_target e) (i_proxy e) =? 1)%nat then 4 else 20) = true
}.

(** Two rows that do not touch each other's memory. *)
Definition rows_apart (e f : inline_entry) : Prop :=
  forall a, ~ (code e a /\ code f a) /\ ~ (cell e a /\ cell f a) /\ ~ (cell e a /\ code f a) /\ ~ (code e a /\ cell f a).

Record pool_ok (m : mem) (index : Z) (n : nat) : Prop := {
  pool_aligned : insns_pool mod 4 = 0;
  pool_range : 0 < insns_pool /\ insns_pool + 256 * 200 <= 2 ^ 64;
  pool_mapped : mapped m (slot (index + 1)) (200 * Z.of_nat n);
  pool_index : -1 <= index /\ index + Z.of_nat n < 256
}.

Lemma row_fits_dom m m' e : row_fits m e -> same_dom m m' -> row_fits m' e.
Proof.
  intros [Hal Htg Hpr (Ho & Hom & Hoa) [Hm Hma] Hrwx] Hdom.
  split; try done; split_and!; try done; intros j Hj; apply Hdom; [by apply Hom|by apply Hm].
Qed.

Lemma slot_ok m index n i :
  pool_ok m index n -> index < i <= index + Z.of_nat n ->
  0 < slot i /\ slot i mod 4 = 0 /\ mapped m (slot i) 200 /\ (forall a, slot i <= a < slot i + 200 -> in_pool a).
Proof.
  intros [Hal Hr Hm Hi] Hin. unfold slot, in_pool. split_and!; [lia| | |lia].
  - rewrite Z.add_mod, Hal, Z.mul_mod by lia. change (200 mod 4) with 0. by rewrite Z.mul_0_r.
  - intros j Hj. replace (insns_pool + i * 200 + j) with (slot (index + 1) + ((i - index - 1) * 200 + j)) by (unfold slot; lia).
    apply Hm. lia.
Qed.

Lemma pool_sub m m' index n k n' :
  pool_ok m index n -> same_dom m m' -> (k + n' <= n)%nat -> pool_ok m' (index + Z.of_nat k) n'.
Proof.
  intros [Hal Hr Hm Hi] Hdom Hk. split; [done|done| |lia]. intros j Hj. apply Hdom.
  replace (slot (index + Z.of_nat k + 1) + j) with (slot (index + 1) + (200 * Z.of_nat k + j)) by (unfold slot; lia). apply Hm. lia.
Qed.

Lemma code_apart m e t :
  row_fits m e -> (forall a, t <= a < t + 200 -> in_pool a) -> i_target e + 20 <= t \/ t + 200 <= i_target e.
Proof.
  intros He Ht. destruct (row_mapped _ _ He) as [_ Hma]. destruct (decide (i_target e + 20 <= t)); [by left|right].
  apply Z.nlt_ge. intros Hlt. apply (Hma (Z.max (i_target e) t)); [unfold code; lia|apply Ht; lia].
Qed.

(** What hooking a row takes and leaves: [pre] holds before, [post] between the memory
    before and after, with the trampoline; both look only at the places of the row. *)
Class HookKind (pre : mem -> inline_entry -> Prop) (post : mem -> mem -> inline_entry -> Z -> Prop) : Prop := {
  pre_fits m e : pre m e -> row_fits m e;
  pre_ext m m' e : pre m e -> same_dom m m' -> (forall a, code e a -> m' !! a = m !! a) -> pre m' e;
  post_ext m0 m0' m m' e t :
    post m0 m e t -> (forall a, code e a -> m' !! a = m !! a) -> (forall a, t <= a < t + 200 -> m' !! a = m !! a) ->
    (forall a, code e a -> m0' !! a = m0 !! a) -> post m0' m' e t;
  hook_kind m e t :
    pre m e -> 0 < t -> t mod 4 = 0 -> mapped m t 200 -> i_target e + 20 <= t \/ t + 200 <= i_target e ->
    exists m', A64HookFunctionV make_rwx (i_target e) (i_proxy e) t 50 m = Ok (t, m') /\ post m m' e t /\
      (forall a, ~ code e a -> ~ t <= a < t + 200 -> m' !! a = m !! a) /\ same_dom m m'
}.

Section Rows.
Context (pre : mem -> inline_entry -> Prop) (post : mem -> mem -> inline_entry -> Z -> Prop) `{!HookKind pre post}.

(** The row [e] between [m0] and [m], with the trampoline [t]. *)
Definition row_hooked (m0 m : mem) (e : inline_entry) (t : Z) : Prop := load64 m (i_origin e) = Some t /\ post m0 m e t.

(** One row: the variable, the function and one trampoline change. *)
Lemma hook_row e index m :
  pre m e -> pool_ok m index 1 ->
  exists m', A64HookFunction make_rwx insns_pool (i_target e) (i_proxy e) (i_origin e) index m = Ok (index + 1, m') /\
    row_hooked m m' e (slot (index + 1)) /\ same_dom m m' /\
    forall a, ~ code e a -> ~ cell e a -> ~ slot (index + 1) <= a < slot (index + 1) + 200 -> m' !! a = m !! a.
Proof.
  intros Hrow Hpool. pose proof (pre_fits _ _ Hrow) as Hfits. destruct (row_origin _ _ Hfits) as (Ho & Hom & Hoa).
  destruct (slot_ok m index 1 (index + 1) Hpool) as (Ht0 & Ht4 & Htm & Htp); [lia|]. destruct Hpool as [_ Hpr _ Hpi].
  unfold A64HookFunction, truthy. rewrite (proj2 (Z.eqb_neq _ _) Ho). cbn [negb].
  unfold FastAllocateTrampoline, A64_MAX_BACKUPS. rewrite swrap_small by lia.
  rewrite (proj2 (Z.leb_le 0 _)), (proj2 (Z.ltb_lt _ _)) by lia. cbn [andb].
  change (Z.of_nat A64_MAX_INSTRUCTIONS * 10 * 4) with 200. change (insns_pool + (index + 1) * 200) with (slot (index + 1)).
  change (Z.of_nat A64_MAX_INSTRUCTIONS * 10) with 50. set (t := slot (index + 1)) in *.
  destruct (store_bytes_mapped m (i_origin e) (le_bytes 8 t)) as [m1 Hm1]; [by rewrite le_bytes_length|].
  unfold store. rewrite Hm1. cbn [of_opt rbind]. rewrite (proj2 (Z.eqb_neq t 0)) by lia.
  pose proof (store_bytes_lookup _ _ _ _ Hm1) as Hl1. rewrite le_bytes_length in Hl1.
  assert (Hcode : forall a, code e a -> m1 !! a = m !! a).
  { intros a Ha. rewrite Hl1, decide_False; [done|]. intros Hc. by destruct (Hoa a Hc). }
  assert (Hdom : same_dom m m1) by (intros a; apply (store_bytes_dom _ _ _ _ a Hm1)).
  destruct (hook_kind m1 e t) as (m2 & -> & Hh & Hext & Hdom2).
  - by eapply pre_ext.
  - done.
  - done.
  - intros j Hj. apply Hdom. by apply Htm.
  - by eapply code_apart.
  - cbn [rbind]. rewrite (proj2 (Z.eqb_neq t 0)) by lia. cbn [rbind]. exists m2. split; [done|]. split; [split|split].
    + assert (Hw : load64 m1 (i_origin e) = Some (uwrap 64 t)) by (by eapply (store_load m 8)).
      assert (Htop : in_pool (t + 199)) by (apply Htp; lia).
      rewrite uwrap_small in Hw by (unfold in_pool in Htop; lia). rewrite <- Hw. unfold load. f_equal.
      apply load_bytes_ext. intros j Hj. destruct (Hoa (i_origin e + j)) as [Hc Hp]; [unfold cell; lia|].
      apply Hext; [done|]. intros Hs. by apply Hp, Htp.
    + apply (post_ext m1 m m2 m2); [exact Hh|done|done|]. intros a Ha. symmetry. by apply Hcode.
    + intros a. by rewrite (Hdom2 a), (Hdom a).
    + intros a Ha Hc Hs. rewrite Hext by done. rewrite Hl1, decide_False; [done|]. unfold cell in Hc. lia.
Qed.

(** All rows, one after the other: no hook disturbs another. *)
Lemma hook_rows_ok rows index m :
  Forall (pre m) rows -> ForallOrdPairs rows_apart rows -> pool_ok m index (length rows) ->
  exists m', hook_rows64 make_rwx insns_pool rows index m = Ok (index + Z.of_nat (length rows), m') /\
    (forall k e, rows !! k = Some e -> row_hooked m m' e (slot (index + 1 + Z.of_nat k))) /\ same_dom m m' /\
    forall a, Forall (fun e => ~ code e a /\ ~ cell e a) rows ->
      ~ slot (index + 1) <= a < slot (index + 1 + Z.of_nat (length rows)) -> m' !! a = m !! a.
Proof.
  intros Hall Hap Hpool. revert index m Hall Hpool. induction Hap as [|e rows He Hap IH]; intros index m Hall Hpool.
  { exists m. cbn [length hook_rows64]. rewrite Z.add_0_r. by split_and!. }
  apply Forall_cons in Hall as [Hrow Hall]. cbn [length] in *.
  assert (Hpool1 : pool_ok m index 1) by (rewrite <- (Z.add_0_r index); apply (pool_sub m m index (S (length rows)) 0 1); (done || lia)).
  destruct (hook_row e index m Hrow Hpool1) as (m1 & H1 & (Ht & Hh) & Hdom & Hext).
  destruct (slot_ok m index 1 (index + 1) Hpool1) as (_ & _ & _ & Hslot); [lia|].
  pose proof (pre_fits _ _ Hrow) as Hfits. destruct (row_origin _ _ Hfits) as (_ & _ & Hoa), (row_mapped _ _ Hfits) as (_ & Hma).
  rewrite List.Forall_forall in He. setoid_rewrite <- list_elem_of_In in He. rewrite Forall_forall in Hall.
  assert (Hfit : forall f, f ∈ rows -> row_fits m f) by (intros f Hf; by eapply pre_fits, Hall).
  assert (Hcode : forall f a, f ∈ rows -> code f a -> m1 !! a = m !! a).
  { intros f a Hf Ha. destruct (He f Hf a) as (Hcc & _ & Hoc & _), (row_mapped _ _ (Hfit f Hf)) as [_ Hfp].
    apply Hext; [by intros ?; apply Hcc|by intros ?; apply Hoc|]. intros Hs. by apply (Hfp a Ha), Hslot. }
  destruct (IH (index + 1) m1) as (m2 & H2 & Hrows & Hdom2 & Hext2).
  - rewrite Forall_forall. intros f Hf. eapply pre_ext; [by apply Hall|done|]. intros a. by apply Hcode.
  - apply (pool_sub m m1 index (S (length rows)) 1); (done || lia).
  - assert (Hkeep : forall a, code e a \/ cell e a \/ slot (index + 1) <= a < slot (index + 1) + 200 -> m2 !! a = m1 !! a).
    { intros a Ha. apply Hext2; [|destruct Hpool; unfold slot, code, cell, in_pool in *; specialize (Hoa a); specialize (Hma a); lia].
      rewrite Forall_forall. intros f Hf. destruct (He f Hf a) as (Hcc & Hoo & Hoc & Hco).
      destruct (row_mapped _ _ (Hfit f Hf)) as [_ Hfp], (row_origin _ _ (Hfit f Hf)) as (_ & _ & Hfo).
      destruct Ha as [Ha|[Ha|Ha%Hslot]]; [by split; intros ?; [apply Hcc|apply Hco]|by split; intros ?; [apply Hoc|apply Hoo]|].
      split; intros Hf'; [by apply (Hfp a)|by apply (Hfo a)]. }
    exists m2. split; [|split; [|split]].
    + cbn [hook_rows64]. rewrite H1. cbn [rbind]. rewrite H2. do 2 f_equal. lia.
    + intros [|k] f Hk; cbn in Hk.
      * injection Hk as <-. rewrite Z.add_0_r. split.
        -- rewrite <- Ht. unfold load. f_equal. apply load_bytes_ext. intros j Hj. apply Hkeep. unfold cell. lia.
        -- apply (post_ext m m m1 m2); [exact Hh| | |done]; intros a Ha; apply Hkeep; [by left|by right; right].
      * destruct (Hrows k f Hk) as (Hl & Hh'). replace (index + 1 + Z.of_nat (S k)) with (index + 1 + 1 + Z.of_nat k) by lia.
        split; [done|]. apply (post_ext m1 m m2 m2); [exact Hh'|done|done|]. intros a Ha. symmetry.
        apply (Hcode f); [by eapply list_elem_of_lookup_2|done].
    + intros a. by rewrite (Hdom2 a), (Hdom a).
    + intros a [[Hc Ho] Ha]%Forall_cons Hs. unfold slot in *. rewrite Hext2, Hext; (done || lia).
Qed.

End Rows.

(** *** The first registration *)

Definition row_ok (m : mem) (e : inline_entry) : Prop :=
  row_fits m e /\
  forall k, 0 <= k < row_count e -> exists w, load32 m (i_target e + 4 * k) = Some w /\ plain w = true.
Definition redirected (m0 m : mem) (e : inline_entry) (t : Z) : Prop := hooked m0 m (i_target e) (i_proxy e) t.

#[export] Instance first_hook : HookKind row_ok redirected.
Proof.
  split.
  - by intros m e [? _].
  - intros m m' e [Hf Hpl] Hdom Hext. split; [by eapply row_fits_dom|]. intros k Hk. destruct (Hpl k Hk) as (w & Hw & Hp).
    exists w. split; [|done]. rewrite <- Hw. unfold load. f_equal. apply load_bytes_ext. intros j Hj. apply Hext.
    unfold code. unfold row_count in Hk. pose proof (hook_count_bound (i_target e) (i_proxy e)). lia.
  - intros m0 m0' m m' e t Hh Hc Ht H0. by apply (hooked_ext m0 m0' m m').
  - intros m e t [Hf Hpl] Ht Ht4 Htm Hap. destruct Hf as [_ Htg _ _ [Hm _] Hrwx].
    pose proof (hook_count_bound (i_target e) (i_proxy e)).
    destruct (hook_function_bytes make_rwx (i_target e) (i_proxy e) t 50 m) as (m' & HV & Hh & Hext & Hdom); try (done || lia).
    exists m'. split_and!; try done. intros a Ha Hs. apply Hext; [unfold code in Ha; lia|done].
Qed.

(** *** A second one *)

Definition row_again (m : mem) (e : inline_entry) : Prop :=
  row_fits m e /\ address_plain (i_target e) (i_proxy e) /\ jumps_to m (i_target e) (i_proxy e).
Definition bounced (m0 m : mem) (e : inline_entry) (t : Z) : Prop := bounces m (i_proxy e) t.

#[export] Instance second_hook : HookKind row_again bounced.
Proof.
  split.
  - by intros m e [? _].
  - intros m m' e (Hf & Hpl & Hh) Hdom Hext. split; [by eapply row_fits_dom|]. split; [done|]. by eapply jumps_ext.
  - intros m0 m0' m m' e t (bs & Hl & Hlen & Hj) _ Ht _. exists bs. split; [|done]. rewrite <- Hl. apply load_bytes_ext.
    intros j Hj'. apply Ht. lia.
  - intros m e t (Hf & Hpl & Hh) Ht Ht4 Htm Hap. destruct Hf as [[Hal1 Hal2] Htg (Hpx & Hpe & _) _ [Hm _] Hrwx].
    pose proof (hook_count_bound (i_target e) (i_proxy e)).
    destruct (hook_again_bytes make_rwx (i_target e) (i_proxy e) t 50 m) as (m' & HV & Hb & Hext & Hdom); try (done || lia).
    exists m'. done.
Qed.

(** On arm64 [registerInlineProxy] redirects every function of the table, with
    [je_free] in place of [free] where libc has it: the function's first instruction
    leads to its proxy, and the variable of the proxy's original function holds a
    trampoline of its own, which executes the instructions the hook overwrote and
    goes on behind them.  No hook disturbs an earlier one. *)
Theorem arm64_rows_redirected libs maps api_level fuel created1 created2 p rows tk :
  invoke_je_free (H := arm64) libs maps api_level fuel (memory64 p) (rows64 p) = Ok rows ->
  Forall (row_ok (memory64 p)) rows -> ForallOrdPairs rows_apart rows ->
  pool_ok (memory64 p) (index64 p) (length rows) -> mem_ok (memory64 p) ->
  exists p', registerInlineProxy64 make_rwx insns_pool libs maps api_level fuel created1 created2 p = Ok p' /\
    rows64 p' = rows /\ index64 p' = index64 p + Z.of_nat (length rows) /\
    forall k e, rows !! k = Some e ->
      exists t hi, load64 (memory64 p') (i_origin e) = Some t /\ t = slot (index64 p + 1 + Z.of_nat k) /\
        leaves tk (memory64 p') (i_target e) (i_target e + 4 * row_count e) (i_proxy e) 0 /\
        (forall j, 0 <= j < row_count e -> load32 (memory64 p') (t + 4 * j) = load32 (memory64 p) (i_target e + 4 * j)) /\
        hi <= t + 200 /\ leaves tk (memory64 p') (t + 4 * row_count e) hi (i_target e + 4 * row_count e) 0.
Proof.
  intros Hje Hall Hap Hpool Hbytes. destruct (hook_rows_ok _ _ rows (index64 p) (memory64 p) Hall Hap Hpool) as (m' & Hh & Hrows & _).
  unfold registerInlineProxy64. rewrite Hje. cbn [rbind]. rewrite Hh. eexists. split; [done|]. split; [done|]. split; [done|].
  cbn [memory64]. intros k e Hk. destruct (Hrows k e Hk) as (Ht & Hhk). pose proof (lookup_lt_Some _ _ _ Hk).
  destruct (slot_ok _ _ _ (index64 p + 1 + Z.of_nat k) Hpool) as (Ht0 & Ht4 & _ & Htp); [lia|].
  rewrite Forall_forall in Hall. destruct (Hall e) as [Hf _]; [by eapply list_elem_of_lookup_2|].
  pose proof (code_apart _ _ _ Hf Htp). destruct Hf as [[Hal1 Hal2] Htg (Hpx & Hpe & _) _ _ _].
  destruct (hooked_runs (memory64 p) m' (i_target e) (i_proxy e) (slot (index64 p + 1 + Z.of_nat k)) tk) as (Hl & hi & Hw & Hhi & Hb); try done.
  by exists (slot (index64 p + 1 + Z.of_nat k)), hi.
Qed.

(** When [registerInlineProxy] runs a second time on arm64 (a session was
    stopped, which removes no hook, and another is started), each variable of an
    original function gets a trampoline that goes to the proxy: the proxy calls
    itself without end instead of the original function. *)
Theorem arm64_restart_recurses libs maps api_level fuel created1 created2 p rows tk :
  let register := registerInlineProxy64 make_rwx insns_pool libs maps api_level fuel created1 created2 in
  invoke_je_free (H := arm64) libs maps api_level fuel (memory64 p) (rows64 p) = Ok rows ->
  (forall p1, register p = Ok p1 -> invoke_je_free (H := arm64) libs maps api_level fuel (memory64 p1) rows = Ok rows) ->
  Forall (row_ok (memory64 p)) rows -> ForallOrdPairs rows_apart rows ->
  Forall (fun e => address_plain (i_target e) (i_proxy e)) rows -> pool_ok (memory64 p) (index64 p) (2 * length rows) ->
  exists p1 p2, register p = Ok p1 /\ register p1 = Ok p2 /\
    forall k e, rows !! k = Some e ->
      exists t hi, load64 (memory64 p2) (i_origin e) = Some t /\ hi <= t + 200 /\ leaves tk (memory64 p2) t hi (i_proxy e) 0.
Proof.
  intros register Hje Hje1 Hall Hap Hpl Hpool.
  destruct (hook_rows_ok _ _ rows (index64 p) (memory64 p) Hall Hap) as (m1 & H1 & Hrows1 & Hdom1 & _).
  { rewrite <- (Z.add_0_r (index64 p)). apply (pool_sub (memory64 p) (memory64 p) _ (2 * length rows) 0); (done || lia). }
  assert (Hr1 : exists us, register p = Ok {| rows64 := rows; index64 := index64 p + Z.of_nat (length rows); unwinder := us; memory64 := m1 |}).
  { unfold register, registerInlineProxy64. rewrite Hje. cbn [rbind]. rewrite H1. by eexists. }
  destruct Hr1 as [us Hr1]. specialize (Hje1 _ Hr1). cbn [memory64] in Hje1. rewrite Forall_forall in Hall, Hpl.
  destruct (hook_rows_ok row_again bounced rows (index64 p + Z.of_nat (length rows)) m1) as (m2 & H2 & Hrows2 & _ & _).
  - rewrite Forall_forall. intros e He. split; [by eapply row_fits_dom; [apply Hall|]|]. split; [by apply Hpl|].
    apply list_elem_of_lookup in He as [k Hk]. destruct (Hrows1 k e Hk) as [_ Hh]. by eapply hooked_jumps.
  - done.
  - apply (pool_sub (memory64 p) m1 _ (2 * length rows)); (done || lia).
  - eexists. exists {| rows64 := rows; index64 := index64 p + Z.of_nat (length rows) + Z.of_nat (length rows);
      unwinder := init_arm64_unwind created1 created2 us; memory64 := m2 |}. split; [exact Hr1|]. split.
    { unfold register, registerInlineProxy64. cbn [memory64 rows64 index64]. rewrite Hje1. cbn [rbind]. by rewrite H2. }
    intros k e Hk. destruct (Hrows2 k e Hk) as (Ht & Hb). pose proof (lookup_lt_Some _ _ _ Hk).
    destruct (slot_ok _ _ _ (index64 p + Z.of_nat (length rows) + 1 + Z.of_nat k) Hpool) as (Ht0 & Ht4 & _ & Htp); [lia|].
    destruct (Hall e) as [[[_ Hal] _ (Hpx & _ & Hpp) _ _ _] _]; [by eapply list_elem_of_lookup_2|].
    destruct (bounces_runs m2 (i_proxy e) (slot (index64 p + Z.of_nat (length rows) + 1 + Z.of_nat k)) tk)
      as (hi & Hhi & Hl); try done; [intros Hin; by apply Hpp, Htp|].
    by exists (slot (index64 p + Z.of_nat (length rows) + 1 + Z.of_nat k)), hi.
Qed.

End Redirected.

(** ** jemalloc's [free] *)

Lemma invoke_je_free_found `{Arch} libs maps api_level fuel m tbl h h' names :
  ANDROID_API_O <= api_level -> xdl_open libs maps api_level m (Some (libc_path api_level)) = Ok (Some h) ->
  dynsym_try_load h = false -> xdl_dynsym_load fuel m h = Ok (0, h') -> dynsym_ok m h' names -> (length names < fuel)%nat ->
  debugdata h = NoBuffer ->
  exists a, sym_answer m h' names (codes "je_free") a /\
    invoke_je_free libs maps api_level fuel m tbl = Ok (if a =? 0 then tbl else alter (set_target a) 4%nat tbl).
Proof.
  intros Hapi Hopen Ht Hl Hok Hf Hd. destruct (dynsym_loaded _ _ _ _ _ Hl) as [d Hd'].
  assert (Ht' : dynsym_try_load h' = true) by by rewrite Hd'.
  destruct (xdl_sym_loaded fuel m h' names (codes "je_free") Ht' Hok) as (a & Ha & Hspec); [repeat constructor; done|done|].
  exists a. split; [done|]. unfold invoke_je_free. rewrite (proj2 (Z.ltb_ge _ _) Hapi), Hopen. cbn [rbind].
  unfold xdl_sym, try_dynsym in *. rewrite Ht' in Ha. rewrite Ht, Hl, Ha. cbn [rbind]. unfold xdl_close.
  replace (debugdata h') with NoBuffer by by rewrite Hd'. done.
Qed.

(** ** Witnesses: two functions, one hooked through X17, one by a direct branch *)

Definition demo_rows : list inline_entry :=
  [ {| i_symbol := codes "malloc"; i_target := 0x10000; i_proxy := 0x7f12345678; i_origin := 0x30000 |};
    {| i_symbol := codes "free"; i_target := 0x10100; i_proxy := 0x60000; i_origin := 0x30008 |} ].
Definition demo_process : mem :=
  mem_at 0x10000 (words demo_plain) (mem_at 0x10100 (words demo_plain) (mem_at 0x30000 (replicate 16 0)
    (mem_at 0x40000 (replicate 800 0) ∅))).
Definition demo_unwinder : unwind_state :=
  {| fp_main_thread_stack_low := 0; fp_main_thread_stack_high := 0; thread_t_key := 0; thread_b_key := 0; use_thread_local := false |}.
Definition demo_start : process64 :=
  {| rows64 := demo_rows; index64 := -1; unwinder := demo_unwinder; memory64 := demo_process |}.

Lemma demo_pool (n : nat) : (n <= 4)%nat -> pool_ok 0x40000 demo_process (-1) n.
Proof.
  intros Hn. assert (H4 : pool_ok 0x40000 demo_process (-1) 4) by (split; [done|done|apply mapped_check; vm_compute; reflexivity|lia]).
  exact (pool_sub _ _ _ _ 4 0 n H4 (fun a => iff_refl _) Hn).
Qed.

Lemma demo_row_ok e : e ∈ demo_rows -> row_ok (fun _ _ => true) 0x40000 demo_process e.
Proof.
  intros [->|[->|[]%elem_of_nil]%elem_of_cons]%elem_of_cons; split.
  1,3: split; unfold code, cell, in_pool; cbn [i_target i_proxy i_origin];
    repeat match goal with |- _ /\ _ => split end; try (apply mapped_check; vm_compute; reflexivity);
    (reflexivity || lia || (intros; lia) || (by vm_compute)).
  - intros k Hk. change (row_count _) with 4 in Hk. assert (Hcases : k = 0 \/ k = 1 \/ k = 2 \/ k = 3) by lia.
    destruct Hcases as [-> | [-> | [-> | ->]]]; (eexists; split; [vm_compute; reflexivity|reflexivity]).
  - intros k Hk. change (row_count _) with 1 in Hk. assert (k = 0) as -> by lia.
    eexists; split; [vm_compute; reflexivity|reflexivity].
Qed.

Lemma demo_rows_apart : ForallOrdPairs rows_apart demo_rows.
Proof. repeat constructor; unfold code, cell in *; cbn in *; lia. Qed.

Lemma arm64_rows_redirected_witness :
  exists p', registerInlineProxy64 (fun _ _ => true) 0x40000 None None 25 8 true true demo_start = Ok p' /\
    rows64 p' = demo_rows /\ index64 p' = index64 demo_start + Z.of_nat (length demo_rows) /\
    forall k e, demo_rows !! k = Some e ->
      exists t hi, load64 (memory64 p') (i_origin e) = Some t /\ t = slot 0x40000 (index64 demo_start + 1 + Z.of_nat k) /\
        leaves true (memory64 p') (i_target e) (i_target e + 4 * row_count e) (i_proxy e) 0 /\
        (forall j, 0 <= j < row_count e -> load32 (memory64 p') (t + 4 * j) = load32 (memory64 demo_start) (i_target e + 4 * j)) /\
        hi <= t + 200 /\ leaves true (memory64 p') (t + 4 * row_count e) hi (i_target e + 4 * row_count e) 0.
Proof.
  apply (arm64_rows_redirected (fun _ _ => true) 0x40000 None None 25 8 true true demo_start demo_rows true).
  - reflexivity.
  - rewrite Forall_forall. exact demo_row_ok.
  - exact demo_rows_apart.
  - apply (demo_pool 2). lia.
  - apply mem_ok_check. vm_compute. reflexivity.
Defined.

Lemma arm64_restart_recurses_witness :
  exists p1 p2, registerInlineProxy64 (fun _ _ => true) 0x40000 None None 25 8 true true demo_start = Ok p1 /\
    registerInlineProxy64 (fun _ _ => true) 0x40000 None None 25 8 true true p1 = Ok p2 /\
    forall k e, demo_rows !! k = Some e ->
      exists t hi, load64 (memory64 p2) (i_origin e) = Some t /\ hi <= t + 200 /\ leaves true (memory64 p2) t hi (i_proxy e) 0.
Proof.
  apply (arm64_restart_recurses (fun _ _ => true) 0x40000 None None 25 8 true true demo_start demo_rows true).
  - reflexivity.
  - intros p1 _. reflexivity.
  - rewrite Forall_forall. exact demo_row_ok.
  - exact demo_rows_apart.
  - repeat constructor; reflexivity.
  - apply (demo_pool 4). lia.
Defined.
