(* ===== verification/InlineProxy32.v ===== *)
(** [registerInlineProxy] on 32-bit ARM: every function of [sInline] is redirected
    through inlineHook.c. *)
From Stdlib Require Import List.
From S2P Require Import Prelude Memory CString StackRange32 Relocate32 InlineHook32 XdlIterate Xdl PltGot InlineProxy.

#[local] Arguments rbind {_ _} !_ _ /.

(** ** The functions of 32-bit ARM are redirected *)

Lemma mono_relocate target orig len b : mono (fun m => relocateInstruction m target orig len b).
Proof.
  assert (H16 : forall pc i, mono (fun m => relocateInstructionInThumb16 m pc i)).
  { intros pc i. unfold relocateInstructionInThumb16. solve_mono. }
  assert (H32 : forall pc h l, mono (fun m => relocateInstructionInThumb32 m pc h l)).
  { intros pc h l. unfold relocateInstructionInThumb32. solve_mono. }
  assert (Ha : forall pc i, mono (fun m => relocate_arm m pc i)).
  { intros pc i. unfold relocate_arm. solve_mono. }
  assert (Ht : forall fuel orig len pc pos tr b, mono (fun m => thumb_loop fuel m orig len pc pos tr b)).
  { intros fuel. induction fuel as [|fuel IH]; intros; cbn [thumb_loop]; solve_mono. }
  assert (Hl : forall orig pc pos tr b, mono (fun m => arm_loop m orig pc pos tr b)).
  { intros l. induction l as [|i l IH]; intros; cbn [arm_loop]; solve_mono. }
  unfold relocateInstruction, relocateInstructionInThumb, relocateInstructionInArm. solve_mono.
Qed.

Section Redirected32.
Context (maps : option (list Z)) (mmap_page : mem -> option Z) (m0 : mem).
Context (mmap_fresh : mmap_contract mmap_page) (mmap_total : forall m, is_Some (mmap_page m)).

Definition target32 (e : inline_entry) : Z := u32 (i_target e).
Definition len32 (t : Z) : Z := if TEST_BIT0 t then 12 else 8.
Definition code32 (e : inline_entry) (a : Z) : Prop :=
  CLEAR_BIT0 (target32 e) <= a < CLEAR_BIT0 (target32 e) + len32 (target32 e).
Definition cell32 (e : inline_entry) (a : Z) : Prop := i_origin e <= a < i_origin e + 4.

(** A relocation of the function's first bytes. *)
Definition relocated (t : Z) (tramp : list Z) : Prop :=
  exists orig b, load_bytes m0 (CLEAR_BIT0 t) (Z.to_nat (len32 t)) = Some orig /\
    relocateInstruction m0 t orig (len32 t) new_boundaries = Ok (tramp, b).

(** What a row needs: executable code whose first instructions can be relocated, and a
    variable elsewhere. *)
Record row32_ok (e : inline_entry) : Prop := {
  r_exec : isExecutableAddr maps (target32 e) = true /\ isExecutableAddr maps (u32 (i_proxy e)) = true;
  r_origin : i_origin e <> 0 /\ mapped m0 (i_origin e) 4 /\ forall a, cell32 e a -> ~ code32 e a;
  r_code : mapped m0 (CLEAR_BIT0 (target32 e)) (len32 (target32 e));
  r_reloc : exists tramp, relocated (target32 e) tramp
}.

Definition rows_apart32 (e f : inline_entry) : Prop :=
  forall a, ~ (code32 e a /\ code32 f a) /\ ~ (cell32 e a /\ cell32 f a) /\ ~ (cell32 e a /\ code32 f a) /\ ~ (code32 e a /\ cell32 f a).

(** The item made of a row: it points to a page that starts with the relocated code. *)
Record row_item (m : mem) (e : inline_entry) (it : inlineHookItem) : Prop := {
  ri_target : target_addr it = target32 e;
  ri_new : new_addr it = u32 (i_proxy e);
  ri_proto : proto_addr it = i_origin e;
  ri_tramp : exists tramp, relocated (target32 e) tramp /\
    load_bytes m (trampoline_instructions it) (length tramp) = Some tramp /\ Z.of_nat (length tramp) <= PAGE_SIZE
}.

Lemma row_item_mono m m' e it : m ⊆ m' -> row_item m e it -> row_item m' e it.
Proof. intros Hm [? ? ? (tr & ? & ? & ?)]. split; try done. exists tr. split_and!; try done. by eapply load_bytes_mono. Qed.

Lemma active_add st it m :
  0 <= size st -> (Z.to_nat (size st) < length (item st))%nat ->
  active (set_memory m (set_item (Z.to_nat (size st)) it (set_size (size st + 1) st))) = active st ++ [it].
Proof.
  intros Hs Hl. unfold active. cbn. replace (Z.to_nat (size st + 1)) with (S (Z.to_nat (size st))) by lia.
  rewrite (take_S_r _ _ it); [by rewrite take_insert_ge by lia|]. by apply list_lookup_insert_eq.
Qed.

(** No slot past [size] has ever been used. *)
Definition unused (st : state) : Prop :=
  forall k it, size st <= Z.of_nat k -> item st !! k = Some it -> bounds it = new_boundaries.

Context (P : Z -> Prop) (P_mapped : forall a, P a -> is_Some (m0 !! a)).

Lemma register_row e st :
  inv m0 P st -> m0 ⊆ memory st -> unused st -> size st < 1024 -> row32_ok e ->
  separate P (target32 e) (i_origin e) st -> target32 e ∉ target_addr <$> active st ->
  exists st' it, registerInlineHook maps mmap_page (target32 e) (u32 (i_proxy e)) (i_origin e) st = Ok (ELE7EN_OK, st') /\
    inv m0 P st' /\ active st' = active st ++ [it] /\ row_item (memory st') e it /\ status it = REGISTERED /\
    memory st ⊆ memory st' /\ unused st' /\ size st' = size st + 1.
Proof.
  intros Hi Hsub Hun Hsz [[Hx1 Hx2] _ _ (tramp & orig & b & Horig & Hrel)] Hsep Hnew. set (t := target32 e) in *.
  pose proof (inv_slots _ _ _ Hi) as Hslots. pose proof (inv_size _ _ _ Hi) as Hs.
  destruct (lookup_lt_is_Some_2 (item st) (Z.to_nat (size st))) as [old Hold]; [lia|].
  destruct (mmap_total (memory st)) as [page Hpage]. pose proof (mmap_fresh _ _ Hpage) as Hfree.
  set (m1 := mem_at page (replicate (Z.to_nat PAGE_SIZE) 0) (memory st)).
  assert (Hm1 : memory st ⊆ m1).
  { apply map_subseteq_spec. intros a x Ha. unfold m1. rewrite mem_at_lookup, decide_False; [done|].
    rewrite length_replicate. intros Hr. rewrite Hfree in Ha; [done|]. revert Hr. unfold PAGE_SIZE. lia. }
  assert (Hrel1 : relocateInstruction m1 t orig (len32 t) new_boundaries = Ok (tramp, b)).
  { eapply mono_relocate; [|exact Hrel]. by etrans. }
  assert (Hfit : (length tramp <= 4096)%nat).
  { eapply trampoline_fits; [|exact Hrel]. unfold len32. destruct (TEST_BIT0 t); auto. }
  destruct (store_bytes_mapped m1 page tramp) as [m2 Hm2].
  { intros j Hj. unfold m1. rewrite mem_at_lookup, length_replicate, decide_True by (unfold PAGE_SIZE; lia).
    rewrite lookup_replicate_2 by (unfold PAGE_SIZE; lia). by eexists. }
  set (it := {| target_addr := t; new_addr := u32 (i_proxy e); proto_addr := i_origin e; orig_instructions := orig;
    bounds := b; trampoline_instructions := page; length_ := len32 t; status := REGISTERED |}).
  set (st' := set_memory m2 (set_item (Z.to_nat (size st)) it (set_size (size st + 1) st))).
  assert (Hreg : registerInlineHook maps mmap_page t (u32 (i_proxy e)) (i_origin e) st = Ok (ELE7EN_OK, st')).
  { unfold registerInlineHook. rewrite Hx1, Hx2. cbn [negb orb]. unfold findInlineHookItem.
    pose proof (find_index_spec t (active st) 0) as Hf. destruct (find_index t (active st) 0) as [pos|].
    { destruct Hf as (i & _ & Hl & <-). destruct Hnew. by eapply list_elem_of_fmap_2, list_elem_of_lookup_2. }
    unfold addInlineHookItem. rewrite (proj2 (Z.leb_gt _ _) Hsz). cbn [item set_size memory]. rewrite Hold. cbn [of_opt rbind].
    fold (len32 t). rewrite (load_bytes_mono _ _ _ _ _ Hsub Horig). cbn [of_opt rbind]. rewrite Hpage. cbn [of_opt rbind].
    fold m1. rewrite (Hun (Z.to_nat (size st)) old ltac:(lia) Hold), Hrel1. cbn [rbind]. by rewrite Hm2. }
  exists st', it. split; [done|]. split.
  { eapply (registerInlineHook_inv maps mmap_page m0 P); [exact mmap_fresh|exact Hi|exact Hsep| |exact Hreg].
    apply uwrap_range. lia. }
  assert (Hsub' : memory st ⊆ memory st').
  { apply map_subseteq_spec. intros a x Ha. cbn [memory st' set_memory]. rewrite (store_bytes_lookup _ _ _ _ Hm2), decide_False.
    - by eapply lookup_weaken.
    - intros Hr. rewrite Hfree in Ha; [done|]. unfold PAGE_SIZE. lia. }
  split; [apply active_add; lia|]. split; [|split; [done|split; [done|split; [|done]]]].
  - split; try done. exists tramp. split; [by exists orig, b|]. split; [by eapply store_bytes_load|]. unfold PAGE_SIZE. lia.
  - intros k i Hk Hl. cbn in Hk, Hl. rewrite list_lookup_insert_ne in Hl by lia. apply (Hun k); [lia|done].
Qed.

Lemma row_in_code e it a :
  target_addr it = target32 e -> item_ok m0 P it -> in_code it a <-> code32 e a.
Proof. intros Ht Hok. unfold in_code, code32, code_addr, len32. by rewrite (ok_length _ _ _ Hok), Ht. Qed.

Lemma code32_nonempty e : code32 e (CLEAR_BIT0 (target32 e)).
Proof. unfold code32, len32. destruct (TEST_BIT0 _); lia. Qed.

(** The registrations: an item for each row, in the order of the table. *)
Lemma register_rows_ok rows st :
  inv m0 P st -> m0 ⊆ memory st -> unused st -> size st + Z.of_nat (length rows) <= 1024 ->
  Forall row32_ok rows -> ForallOrdPairs rows_apart32 rows ->
  Forall (fun e => forall i, 0 <= i < 4 -> P (i_origin e + i)) rows -> Forall (fun e => forall a, code32 e a -> ~ P a) rows ->
  (forall e it a, e ∈ rows -> it ∈ active st -> code32 e a -> ~ in_code it a) ->
  exists st' items, register_rows maps mmap_page rows st = Ok st' /\ inv m0 P st' /\
    active st' = active st ++ items /\ Forall2 (row_item (memory st')) rows items /\
    Forall (fun it => status it = REGISTERED) items /\ memory st ⊆ memory st'.
Proof.
  intros Hi Hsub Hun Hsz Hok Hap. revert st Hi Hsub Hun Hsz.
  induction Hap as [|e rows He Hap IH]; intros st Hi Hsub Hun Hsz HPo HPc Hother.
  { exists st, []. cbn [register_rows]. rewrite app_nil_r. by split_and!. }
  apply Forall_cons in Hok as [Hrow Hok], HPo as [HPo HPos], HPc as [HPc HPcs]. cbn [length] in Hsz.
  assert (Hsep : separate P (target32 e) (i_origin e) st).
  { split; [apply uwrap_range; lia|]. split; [by right|]. intros a Ha. change (code32 e a) in Ha. split; [by apply HPc|].
    intros it Hit. split; [by apply (Hother e it a); [left|..]|]. intros Hp.
    assert (Hito : item_ok m0 P it) by (by eapply Forall_forall, Hit; apply Hi).
    pose proof (r_code _ Hrow (a - CLEAR_BIT0 (target32 e))) as Hm. unfold code32 in Ha.
    replace (CLEAR_BIT0 (target32 e) + (a - CLEAR_BIT0 (target32 e))) with a in Hm by lia.
    destruct Hm as [x Hx]; [lia|]. by rewrite (ok_page _ _ _ Hito a Hp) in Hx. }
  assert (Hnew : target32 e ∉ target_addr <$> active st).
  { intros (it & Heq & Hit)%list_elem_of_fmap. assert (Hito : item_ok m0 P it) by (by eapply Forall_forall, Hit; apply Hi).
    eapply (Hother e it); [by left|done|apply code32_nonempty|]. eapply row_in_code; [by symmetry|done|]. apply code32_nonempty. }
  destruct (register_row e st Hi Hsub Hun ltac:(lia) Hrow Hsep Hnew)
    as (st1 & it & Hr & Hi1 & Ha1 & Hri & Hst & Hsub1 & Hun1 & Hsz1).
  rewrite List.Forall_forall in He. setoid_rewrite <- list_elem_of_In in He.
  destruct (IH Hok st1 Hi1) as (st2 & items & Hr2 & Hi2 & Ha2 & Hri2 & Hst2 & Hsub2); try done; [by etrans|lia| |].
  { intros f i a Hf Hin Hc. rewrite Ha1, elem_of_app, list_elem_of_singleton in Hin. destruct Hin as [Hin| ->].
    - apply (Hother f); [by right|done..].
    - assert (Hito : item_ok m0 P it) by (eapply Forall_forall; [apply Hi1|rewrite Ha1, elem_of_app, list_elem_of_singleton; by right]).
      rewrite (row_in_code e) by (by apply Hri || done). intros Hc'. destruct (He f Hf a) as [Hcc _]. by apply Hcc. }
  exists st2, (it :: items). cbn [register_rows]. fold (target32 e). rewrite Hr. cbn [rbind]. split; [exact Hr2|].
  split; [done|]. split; [by rewrite Ha2, Ha1, <- app_assoc|]. split; [|split].
  - constructor; [|done]. by eapply row_item_mono.
  - by constructor.
  - by etrans.
Qed.

(** What is put in the variable: the trampoline, with the Thumb bit. *)
Definition entry (it : inlineHookItem) : Z :=
  if TEST_BIT0 (target_addr it) then SET_BIT0 (trampoline_instructions it) else trampoline_instructions it.
Definition in_cell (it : inlineHookItem) (a : Z) : Prop := proto_addr it <= a < proto_addr it + 4.

(** The stores of one hook. *)
Lemma hook_memory pos it st st' :
  item st !! pos = Some it -> item_ok m0 P it -> proto_addr it <> 0 -> (forall a, in_cell it a -> ~ in_code it a) ->
  doInlineHook pos st = Ok st' ->
  load32 (memory st') (proto_addr it) = Some (u32 (entry it)) /\
  forall a, ~ in_cell it a -> ~ in_code it a -> memory st' !! a = memory st !! a.
Proof.
  intros Hit Hok Hproto Hself. unfold doInlineHook. rewrite Hit. cbn [of_opt rbind].
  rewrite (proj2 (Z.eqb_neq _ _) Hproto). cbn [negb]. fold (entry it). intros H.
  apply rbind_Ok in H as (m1 & Hm1%of_opt_Ok & H). rewrite patch_stored in H by apply Hok.
  apply rbind_Ok in H as (m2 & Hm2%of_opt_Ok & H). injection H as <-.
  pose proof (patch_fits _ _ _ Hok) as Hfit. cbn [memory cacheflush set_item set_memory]. split.
  - pose proof (store_load _ 4 _ _ _ Hm1) as Hl. etransitivity; [|exact Hl]. unfold load. f_equal.
    apply load_bytes_ext. intros j Hj. rewrite (store_bytes_lookup _ _ _ _ Hm2), decide_False; [done|].
    specialize (Hself (proto_addr it + j)). unfold in_cell, in_code in Hself. lia.
  - intros a Hc Ha. rewrite (store_bytes_lookup _ _ _ _ Hm2), decide_False by (unfold in_code in Ha; lia).
    apply (store_lookup_ne _ _ _ _ _ _ Hm1). exact Hc.
Qed.

Definition items_apart (i j : inlineHookItem) : Prop :=
  forall a, ~ (in_cell i a /\ in_cell j a) /\ ~ (in_cell i a /\ in_code j a) /\ ~ (in_code i a /\ in_cell j a).
Definition cell_free (it : inlineHookItem) : Prop := proto_addr it <> 0 /\ forall a, in_cell it a -> ~ in_code it a.

Lemma hook_loop_memory n i st st' :
  inv m0 P st -> Z.of_nat i + Z.of_nat n = size st -> Forall (fun it => status it = REGISTERED) (drop i (active st)) ->
  Forall cell_free (drop i (active st)) -> ForallOrdPairs items_apart (drop i (active st)) -> hook_loop n i st = Ok st' ->
  (forall it, it ∈ drop i (active st) -> load32 (memory st') (proto_addr it) = Some (u32 (entry it))) /\
  forall a, Forall (fun it => ~ in_cell it a /\ ~ in_code it a) (drop i (active st)) -> memory st' !! a = memory st !! a.
Proof.
  revert i st. induction n as [|n IH]; intros i st Hi Hn Hreg Hfree Hap; cbn [hook_loop].
  - intros [= <-]. rewrite drop_ge by (unfold active; rewrite length_take; lia). split; [|done]. intros it Hit. by apply elem_of_nil in Hit.
  - destruct (active_item st i) as (it & Hact & Hit); [apply Hi|apply Hi|lia|]. rewrite Hit. cbn [of_opt rbind].
    rewrite (drop_S _ _ _ Hact) in *. inversion_clear Hap as [|? ? Hhd Htl]. rewrite List.Forall_forall in Hhd.
    setoid_rewrite <- list_elem_of_In in Hhd.
    apply Forall_cons in Hreg as [Hr Hreg], Hfree as [[Hp0 Hself] Hfree]. rewrite Hr.
    destruct (doInlineHook_inv m0 P P_mapped st i it Hi Hact Hr) as (st1 & Hd & Hi1 & Ha1 & Hs1). rewrite Hd. cbn [rbind].
    assert (Hok : item_ok m0 P it) by (eapply Forall_forall; [apply Hi|by eapply list_elem_of_lookup_2]).
    destruct (hook_memory i it st st1 Hit Hok Hp0 Hself Hd) as [Hl Hm]. intros Hh.
    assert (Hdrop : drop (S i) (active st1) = drop (S i) (active st)) by (rewrite Ha1; apply drop_insert_lt; lia).
    destruct (IH (S i) st1) as [Hls Hms]; rewrite ?Hdrop; try done; [lia|]. rewrite Hdrop in *. split.
    + intros j [-> |Hj]%elem_of_cons; [|by apply Hls]. rewrite <- Hl. unfold load. f_equal. apply load_bytes_ext.
      intros k Hk. apply Hms. rewrite Forall_forall. intros j Hj.
      destruct (Hhd j Hj (proto_addr it + k)) as (Hcc & Hco & _). assert (Hc : in_cell it (proto_addr it + k)) by (unfold in_cell; lia).
      split; intros ?; [by apply Hcc|by apply Hco].
    + intros a [[Hc Ha] Hall]%Forall_cons. rewrite Hms by done. by apply Hm.
Qed.

(** The items inherit what the rows have. *)
Lemma items_free m rows items :
  Forall row32_ok rows -> ForallOrdPairs rows_apart32 rows -> Forall2 (row_item m) rows items -> Forall (item_ok m0 P) items ->
  Forall cell_free items /\ ForallOrdPairs items_apart items.
Proof.
  intros Hok Hap Hri. revert Hok Hap. induction Hri as [|e it rows items He Hri IH]; intros Hok Hap Hit; [by split; constructor|].
  inversion_clear Hap as [|? ? Hhd Htl]. apply Forall_cons in Hok as [Hr Hok], Hit as [Hi Hit].
  destruct (IH Hok Htl Hit) as [Hcf Hia]. destruct (r_origin _ Hr) as (Hp0 & _ & Hself).
  assert (Hcell : forall f i a, row_item m f i -> in_cell i a <-> cell32 f a).
  { intros f i a Hfi. unfold in_cell, cell32. by rewrite (ri_proto _ _ _ Hfi). }
  split; constructor; try done.
  - split; [by rewrite (ri_proto _ _ _ He)|]. intros a. rewrite (Hcell e), (row_in_code e) by (done || apply He). apply Hself.
  - rewrite List.Forall_forall in Hhd |- *. intros j Hj%list_elem_of_In a. apply list_elem_of_lookup in Hj as [k Hk].
    destruct (Forall2_lookup_r _ _ _ _ _ Hri Hk) as (f & Hf & Hfj). rewrite Forall_forall in Hit.
    assert (Hjo : item_ok m0 P j) by (apply Hit; by eapply list_elem_of_lookup_2).
    destruct (Hhd f) with (a := a) as (_ & Hoo & Hoc & Hco); [by eapply list_elem_of_In, list_elem_of_lookup_2|].
    rewrite (Hcell e it), (Hcell f j), (row_in_code e it), (row_in_code f j) by (done || apply He || apply Hfj). done.
Qed.

Lemma all_hooked_jump st st' it :
  inv m0 P st -> inlineHookAll st = Ok st' -> it ∈ active st -> fetch_jump (memory st') (target_addr it) = Some (new_addr it).
Proof.
  intros Hi Hh [k Hk]%list_elem_of_lookup. destruct (inlineHookAll_total m0 P P_mapped st Hi) as (st2 & Hh2 & Hi2 & _ & Hall & Heq).
  rewrite Hh in Hh2. injection Hh2 as <-. assert (Hit2 : set_hooked <$> active st' !! k = Some (set_hooked it)).
  { by rewrite <- list_lookup_fmap, Heq, list_lookup_fmap, Hk. }
  apply fmap_Some in Hit2 as (it2 & Hit2 & He2). assert (Hin2 : it2 ∈ active st') by by eapply list_elem_of_lookup_2.
  assert (Hs2 : status it2 = HOOKED) by by eapply Forall_forall in Hall. rewrite (set_hooked_id _ Hs2) in He2.
  assert (Hj : fetch_jump (memory st') (target_addr it2) = Some (new_addr it2)).
  { eapply patch_jumps; [by eapply Forall_forall, Hin2; apply Hi2|]. by apply (inv_hooked _ _ _ Hi2). }
  by rewrite <- He2 in Hj.
Qed.

(** No hook writes to a trampoline. *)
Lemma page_kept m rows items it a :
  (forall e a, e ∈ rows -> cell32 e a -> P a) -> Forall2 (row_item m) rows items -> Forall (item_ok m0 P) items ->
  it ∈ items -> in_page it a -> Forall (fun i => ~ in_cell i a /\ ~ in_code i a) items.
Proof.
  intros HP Hri Hok Hin Ha. rewrite Forall_forall in Hok |- *. intros i Hi.
  assert (Hpage : m0 !! a = None) by by apply (Hok it Hin). split; intros Hc.
  - destruct (P_mapped a) as [x Hx]; [|congruence].
    apply list_elem_of_lookup in Hi as [k Hk]. destruct (Forall2_lookup_r _ _ _ _ _ Hri Hk) as (f & Hf & Hfi).
    apply (HP f); [by eapply list_elem_of_lookup_2|]. unfold cell32. rewrite <- (ri_proto _ _ _ Hfi). exact Hc.
  - destruct (code_mapped m0 P i _ (Hok i Hi) Hc) as [x Hx]. congruence.
Qed.

Lemma code_not_cell rows e f a :
  Forall row32_ok rows -> ForallOrdPairs rows_apart32 rows -> e ∈ rows -> f ∈ rows -> code32 e a -> ~ cell32 f a.
Proof.
  intros Hok Hap He%list_elem_of_In Hf%list_elem_of_In Hc Ho. rewrite List.Forall_forall in Hok.
  destruct (ForallOrdPairs_In Hap e f He Hf) as [-> |[Hx|Hx]]; [|destruct (Hx a) as (_ & _ & H3 & H4)..]; [|by apply H4|by apply H3].
  destruct (r_origin _ (Hok f Hf)) as (_ & _ & Hs). by apply (Hs a).
Qed.

(** Rows that are registered already are refused, and hooked items are left alone. *)
Lemma register_rows_known rows st :
  inv m0 P st -> Forall row32_ok rows -> Forall (fun e => target32 e ∈ target_addr <$> active st) rows ->
  register_rows maps mmap_page rows st = Ok st.
Proof.
  intros Hi Hok Hin. induction Hok as [|e rows [[Hx1 Hx2] _ _ _] Hok IH]; [done|]. apply Forall_cons in Hin as [He Hin].
  cbn [register_rows]. fold (target32 e). unfold registerInlineHook. rewrite Hx1, Hx2. cbn [negb orb].
  unfold findInlineHookItem. pose proof (find_index_spec (target32 e) (active st) 0) as Hf.
  destruct (find_index (target32 e) (active st) 0) as [pos|]; [|done]. destruct Hf as (it & _ & Hit & _).
  rewrite Nat.sub_0_r in Hit. unfold active in Hit. apply lookup_take_Some in Hit as [-> _]. cbn [of_opt rbind]. by apply IH.
Qed.

Lemma hook_loop_hooked n i st :
  inv m0 P st -> Z.of_nat i + Z.of_nat n = size st -> Forall (fun it => status it = HOOKED) (active st) -> hook_loop n i st = Ok st.
Proof.
  intros Hi. revert i. induction n as [|n IH]; intros i Hn Hall; cbn [hook_loop]; [done|].
  destruct (active_item st i) as (it & Hact & ->); [apply Hi|apply Hi|lia|]. cbn [of_opt rbind].
  rewrite Forall_forall in Hall. rewrite (Hall it) by by eapply list_elem_of_lookup_2. cbn [rbind].
  apply IH; [lia|by apply Forall_forall].
Qed.

Lemma register_again libs api_level fuel rows items st1 st2 :
  inv m0 P st2 -> Forall row32_ok rows -> Forall2 (row_item (memory st1)) rows items -> active st1 = items ->
  Forall (fun it => status it = HOOKED) (active st2) -> set_hooked <$> active st2 = set_hooked <$> active st1 ->
  invoke_je_free (H := arm32) libs maps api_level fuel (memory st2) rows = Ok rows ->
  registerInlineProxy32 maps mmap_page libs api_level fuel {| rows32 := rows; registry := st2 |} =
    Ok {| rows32 := rows; registry := st2 |}.
Proof.
  intros Hi Hok Hri <- Hall Heq Hje. unfold registerInlineProxy32. cbn [registry rows32]. rewrite Hje. cbn [rbind].
  assert (Htargets : target_addr <$> active st2 = target_addr <$> active st1).
  { apply (f_equal (fmap target_addr)) in Heq. by rewrite <- !list_fmap_compose in Heq. }
  rewrite register_rows_known; [|done..|].
  - cbn [rbind]. unfold inlineHookAll. rewrite hook_loop_hooked; [done|done| |done]. pose proof (inv_size _ _ _ Hi). lia.
  - rewrite Htargets. apply Forall_forall. intros e [k Hk]%list_elem_of_lookup.
    destruct (Forall2_lookup_l _ _ _ _ _ Hri Hk) as (it & Hit & [Ht _ _ _]). rewrite <- Ht.
    by eapply list_elem_of_fmap_2, list_elem_of_lookup_2.
Qed.

End Redirected32.

Definition initial32 (m0 : mem) (st : state) : Prop := initial m0 st /\ unused st.

(** C14: On 32-bit ARM [registerInlineProxy] redirects every function of a table it can hook, with
    [je_free] in place of [free] where libc has it: the processor goes from the
    function to its proxy, and the variable of the original function points to a page
    that starts with the function's first instructions, relocated.  A second registration
    (a session that is started again), if it finds the same [je_free], finds every function hooked and changes
    nothing.  The table ([row32_ok], [rows_apart32]): at most 1024 rows, whose functions and proxies are
    executable by the maps file; the code of a function and the variables do not overlap those of
    another row; and [relocateInstruction] succeeds on the first 8 bytes (12 of a Thumb
    function), which it does not on more than four Thumb instructions ([thumb_boundaries_overflow]).  Nothing
    is hooked before, and mmap always finds a fresh page. *)
Theorem arm32_rows_redirected maps mmap_page libs api_level fuel m0 p rows :
  mmap_contract mmap_page -> (forall m, is_Some (mmap_page m)) -> initial32 m0 (registry p) ->
  invoke_je_free (H := arm32) libs maps api_level fuel m0 (rows32 p) = Ok rows ->
  Forall (row32_ok maps m0) rows -> ForallOrdPairs rows_apart32 rows -> Z.of_nat (length rows) <= 1024 ->
  exists p', registerInlineProxy32 maps mmap_page libs api_level fuel p = Ok p' /\ rows32 p' = rows /\
    (forall e, e ∈ rows ->
      fetch_jump (memory (registry p')) (target32 e) = Some (u32 (i_proxy e)) /\
      exists page tramp, load32 (memory (registry p')) (i_origin e) =
          Some (u32 (if TEST_BIT0 (target32 e) then SET_BIT0 page else page)) /\
        relocated m0 (target32 e) tramp /\ load_bytes (memory (registry p')) page (length tramp) = Some tramp) /\
    (invoke_je_free (H := arm32) libs maps api_level fuel (memory (registry p')) rows = Ok rows ->
      registerInlineProxy32 maps mmap_page libs api_level fuel p' = Ok p').
Proof.
  intros Hmf Hmt [Hinit Hun] Hje Hok Hap Hlen. pose proof Hinit as (Hl0 & Hs0 & Hm0).
  set (P := fun a => exists e, e ∈ rows /\ cell32 e a).
  assert (HPm : forall a, P a -> is_Some (m0 !! a)).
  { intros a (e & He & Ha). rewrite Forall_forall in Hok. destruct (r_origin _ _ _ (Hok e He)) as (_ & Hm & _).
    unfold cell32 in Ha. replace a with (i_origin e + (a - i_origin e)) by lia. apply Hm. lia. }
  pose proof (initial_inv m0 P _ Hinit) as Hi0. assert (Ha0 : active (registry p) = []) by (unfold active; by rewrite Hs0).
  destruct (register_rows_ok maps mmap_page m0 Hmf Hmt P rows (registry p))
    as (st1 & items & Hr & Hi1 & Ha1 & Hri & Hreg & _); try done.
  { by rewrite Hm0. }
  { lia. }
  { rewrite Forall_forall. intros e He i Hi. exists e. split; [done|]. unfold cell32. lia. }
  { rewrite Forall_forall. intros e He a Ha (f & Hf & Hc). by apply (code_not_cell maps m0 rows e f a). }
  { intros e it a _ Hin. rewrite Ha0 in Hin. by apply elem_of_nil in Hin. }
  rewrite Ha0 in Ha1. cbn [app] in Ha1. pose proof (inv_items _ _ _ Hi1) as Hitems. rewrite Ha1 in Hitems.
  destruct (items_free maps m0 P (memory st1) rows items Hok Hap Hri Hitems) as [Hfree Hiap].
  destruct (inlineHookAll_total m0 P HPm st1 Hi1) as (st2 & Hh & Hi2 & _ & Hall & Heq).
  destruct (hook_loop_memory m0 P HPm (Z.to_nat (size st1)) 0 st1 st2 Hi1) as [Hcells Hkeep]; rewrite ?drop_0, ?Ha1; try done.
  { pose proof (inv_size _ _ _ Hi1). lia. }
  rewrite drop_0, Ha1 in Hcells, Hkeep. unfold registerInlineProxy32. rewrite Hm0, Hje. cbn [rbind]. rewrite Hr. cbn [rbind].
  rewrite Hh. cbn [rbind]. eexists. split; [done|]. split; [done|]. cbn [registry rows32]. split;
    [|by apply (register_again maps mmap_page m0 P libs api_level fuel rows items st1 st2)].
  intros e [k Hk]%list_elem_of_lookup.
  destruct (Forall2_lookup_l _ _ _ _ _ Hri Hk) as (it & Hit & [Ht Hn Hp (tramp & Hrel & Htr & Hfit)]).
  assert (Hin : it ∈ items) by by eapply list_elem_of_lookup_2. rewrite <- Ht, <- Hn, <- Hp. split.
  - apply (all_hooked_jump m0 P HPm st1); [done..|]. by rewrite Ha1.
  - exists (trampoline_instructions it), tramp. split; [by apply (Hcells it)|]. split; [by rewrite Ht|].
    rewrite <- Htr. apply load_bytes_ext. intros j Hj. apply Hkeep.
    apply (page_kept m0 P HPm (memory st1) rows items it); try done; [|unfold in_page; lia]. intros f a Hf Hc. by exists f.
Qed.

(** ** Witness: an ARM and a Thumb function *)

Lemma max_key (m : mem) a : is_Some (m !! a) -> a <= map_fold (fun k _ acc => Z.max k acc) 0 m.
Proof.
  revert a. induction m as [|k x m Hk Hf IH] using map_first_key_ind; intros a; [by rewrite lookup_empty; intros []|].
  rewrite map_fold_insert_first_key by done. destruct (decide (k = a)) as [->|Hne]; [lia|].
  rewrite lookup_insert_ne by done. intros Ha%IH. lia.
Qed.

(** [mmap]: the page after the highest address in use. *)
Definition demo_pages (m : mem) : option Z := Some ((map_fold (fun k _ acc => Z.max k acc) 0 m / PAGE_SIZE + 1) * PAGE_SIZE).

Lemma demo_pages_fresh : mmap_contract demo_pages.
Proof.
  intros m page Hs a Ha. injection Hs as <-. destruct (m !! a) as [x|] eqn:Hx; [|done].
  pose proof (max_key m a ltac:(by eexists)) as Hle. unfold PAGE_SIZE in Ha. Z.to_euclidean_division_equations. lia.
Qed.

Definition demo_memory32 : mem :=
  mem_at 0x8000 (le_bytes 4 0xE92D4010 ++ le_bytes 4 0xE1A04000) (mem_at 0x8010 (mjoin (le_bytes 2 <$> demo_thumb))
    (mem_at 0x9000 (replicate 8 0) ∅)).
Definition demo_rows32 : list inline_entry :=
  [ {| i_symbol := codes "malloc"; i_target := 0x8000; i_proxy := 0x8100; i_origin := 0x9000 |};
    {| i_symbol := codes "free"; i_target := 0x8011; i_proxy := 0x8201; i_origin := 0x9004 |} ].
Definition demo_start32 : process32 :=
  {| rows32 := demo_rows32; registry := {| item := replicate 1024 demo_item; size := 0; memory := demo_memory32; flushed := [] |} |}.

Lemma demo_places : 
  CLEAR_BIT0 (u32 0x8000) = 0x8000 /\ CLEAR_BIT0 (u32 0x8011) = 0x8010 /\
  TEST_BIT0 (u32 0x8000) = false /\ TEST_BIT0 (u32 0x8011) = true.
Proof. by vm_compute. Qed.

Lemma relocated_check m t :
  match load_bytes m (CLEAR_BIT0 t) (Z.to_nat (len32 t)) with
  | Some orig => match relocateInstruction m t orig (len32 t) new_boundaries with Ok _ => true | _ => false end
  | None => false
  end = true -> exists tramp, relocated m t tramp.
Proof.
  destruct (load_bytes _ _ _) as [orig|] eqn:Ho; [|done]. destruct (relocateInstruction _ _ _ _ _) as [[tramp b]| |] eqn:Hr; [|done..].
  intros _. by exists tramp, orig, b.
Qed.

Lemma demo_row32_ok e : e ∈ demo_rows32 -> row32_ok demo_maps demo_memory32 e.
Proof.
  intros [->|[->|[]%elem_of_nil]%elem_of_cons]%elem_of_cons; split.
  1,5: split; vm_compute; reflexivity.
  1,4: split; [done|]; split; [apply mapped_check; vm_compute; reflexivity|]; unfold cell32, code32, target32, len32;
    cbn [i_origin i_target]; destruct demo_places as (H1 & H2 & H3 & H4); rewrite ?H1, ?H2, ?H3, ?H4; lia.
  1,3: apply mapped_check; vm_compute; reflexivity.
  all: apply relocated_check; vm_compute; reflexivity.
Qed.

Lemma arm32_rows_redirected_witness :
  exists p', registerInlineProxy32 demo_maps demo_pages None 25 8 demo_start32 = Ok p' /\ rows32 p' = demo_rows32 /\
    (forall e, e ∈ demo_rows32 ->
      fetch_jump (memory (registry p')) (target32 e) = Some (u32 (i_proxy e)) /\
      exists page tramp, load32 (memory (registry p')) (i_origin e) =
          Some (u32 (if TEST_BIT0 (target32 e) then SET_BIT0 page else page)) /\
        relocated demo_memory32 (target32 e) tramp /\ load_bytes (memory (registry p')) page (length tramp) = Some tramp) /\
    (invoke_je_free (H := arm32) None demo_maps 25 8 (memory (registry p')) demo_rows32 = Ok demo_rows32 ->
      registerInlineProxy32 demo_maps demo_pages None 25 8 p' = Ok p').
Proof.
  apply (arm32_rows_redirected demo_maps demo_pages None 25 8 demo_memory32 demo_start32 demo_rows32).
  - exact demo_pages_fresh.
  - intros m. by eexists.
  - split; [split; [apply length_replicate|by split]|]. intros k it _ Hk. by apply lookup_replicate in Hk as [-> _].
  - reflexivity.
  - rewrite Forall_forall. exact demo_row32_ok.
  - constructor; [|constructor; [constructor|constructor]]. constructor; [|constructor].
    intros a. unfold code32, cell32, target32, len32. cbn [i_origin i_target].
    destruct demo_places as (-> & -> & -> & ->). lia.
  - cbn. lia.
Defined.
