(* ===== verification/XhCore.v ===== *)
(** xHook/xh_core.c: the registry of hook and ignore requests, the refresh of the
    hooks over the libraries of the maps file, and the thread that refreshes in the
    background.  With the component's two users in cpp/: [registerPltGotProxy]
    registers and refreshes, [Raphael::stop] clears. *)
From S2P Require Import Prelude Memory CString XhReloc XhUtil XhElf XdlIterate PltGot.

#[local] Arguments rbind {_ _} !_ _ /.

(** ** A line of the maps file *)

Section Line.
Context `{Arch}.

(** [%*d]: the rest. *)
Definition scan_dec (s : list Z) : option (list Z) :=
  let d := snd (sign (skip_spaces s)) in
  match d with
  | c :: _ => if bool_decide (is_Some (digit_of 10 c)) then Some (skip_digits 10 d) else None
  | [] => None
  end.

(** [%*x:%*x %*d] *)
Definition scan_device (s : list Z) : option (list Z) :=
  match scan_hex s with
  | Some (_, s) =>
      match scan_lit 58 s with
      | Some s => match scan_hex s with Some (_, s) => scan_dec s | None => None end
      | None => None
      end
  | None => None
  end.

(** The locals of the loop: the line buffer and [perm], with what earlier lines left
    in them, and [pathname_pos], [None] before [%n] is first reached. *)
Record scan := { buf : list Z; perm : list Z; pathname_pos : option Z }.

(** [sscanf(line, "%"PRIxPTR"-%*lx %4s %lx %*x:%*x %*d%n", ..)]: [base_addr] and [offset] when
    it converts three. *)
Definition sscanf_map (line : list Z) (sc : scan) : option (Z * Z) * scan :=
  match scan_hex line with
  | Some (base_addr, s) =>
      match scan_lit 45 s with
      | Some s =>
          match scan_hex s with
          | Some (_, s) =>
              match scan_word 4 (skip_spaces s) with
              | Some (w, s) =>
                  let sc := {| buf := buf sc; perm := w ++ 0 :: drop (S (length w)) (perm sc);
                               pathname_pos := pathname_pos sc |} in
                  match scan_hex s with
                  | Some (offset, s) =>
                      (Some (base_addr, offset),
                       match scan_device s with
                       | Some s => {| buf := buf sc; perm := perm sc;
                                      pathname_pos := Some (Z.of_nat (length line) - Z.of_nat (length s)) |}
                       | None => sc
                       end)
                  | None => (None, sc)
                  end
              | None => (None, sc)
              end
          | None => (None, sc)
          end
      | None => (None, sc)
      end
  | None => (None, sc)
  end.

Definition LINE_SIZE : nat := 512.

(** [fgets(line, sizeof(line), fp)] *)
Definition set_line (line : list Z) (sc : scan) : scan :=
  {| buf := line ++ 0 :: drop (S (length line)) (buf sc); perm := perm sc; pathname_pos := pathname_pos sc |}.

(** The number of blanks a text starts with. *)
Fixpoint blanks (s : list Z) : nat := match s with [] => O | c :: s' => if is_space c then S (blanks s') else O end.

(** The path from [pathname_pos] on, without its newline, and the buffer. *)
Definition line_pathname (sc : scan) : res (option (list Z) * scan) :=
  let! pos := of_opt (pathname_pos sc) in
  let last := (LINE_SIZE - 1)%nat in
  let pos := (Z.to_nat pos + blanks (take (last - Z.to_nat pos) (drop (Z.to_nat pos) (buf sc))))%nat in
  let sc := {| buf := buf sc; perm := perm sc; pathname_pos := Some (Z.of_nat pos) |} in
  if (last <=? pos)%nat then Ok (None, sc)
  else if negb (existsb (Z.eqb 0) (drop pos (buf sc))) then Fault
  else
    let pathname := until_nul (drop pos (buf sc)) in
    match rev pathname with
    | [] => Ok (None, sc)
    | c :: r =>
        let sc := {| buf := if c =? NL then <[(pos + length r)%nat := 0]> (buf sc) else buf sc; perm := perm sc;
                     pathname_pos := pathname_pos sc |} in
        let pathname := if c =? NL then rev r else pathname in
        if bool_decide (pathname = []) then Ok (None, sc)
        else if bool_decide (head pathname = Some 91) then Ok (None, sc)
        else Ok (Some pathname, sc)
    end.

(** The base address and path of a line that may start with an ELF header. *)
Definition scan_map (line : list Z) (sc : scan) : res (option (Z * list Z) * scan) :=
  let '(r, sc) := sscanf_map line (set_line line sc) in
  match r with
  | None => Ok (None, sc)
  | Some (base_addr, offset) =>
      if negb (has_perm (perm sc) 0 114) then Ok (None, sc)
      else if negb (has_perm (perm sc) 3 112) then Ok (None, sc)
      else if negb (offset =? 0) then Ok (None, sc)
      else
        let! (pathname, sc) := line_pathname sc in
        Ok (match pathname with Some p => Some (base_addr, p) | None => None end, sc)
  end.
End Line.

(** ** The registry *)

Section Core.
Context `{Arch}.

(** [R]: compiled regular expressions. *)
Context {W R : Type} (K : kernel W) (raw_perm : list Z) (fuel : nat)
  (regexec : R -> list Z -> bool) (regcomp : list Z -> option R).

(** [hi_old_func] is a pointer, 0 when NULL; [ii_symbol] is [None] for all symbols. *)
Record hook_info := { hi_regex : R; hi_symbol : list Z; hi_new_func : Z; hi_old_func : Z }.
Record ignore_info := { ii_regex : R; ii_symbol : option (list Z) }.

(** What a thread in [xh_core_refresh_thread_func] does next: take the mutex and look
    for work, or refresh. *)
Inductive thread_pc := AtWait | AtRefresh.

(** The static variables.  Of an [xh_core_map_info_t] the map keeps the base address by
    the path; its [elf] is set up again at each use.  [handler]: the SIGSEGV handler is
    installed.  [thread]: the refresh thread, while there is one. *)
Record core := {
  hook_infos : list hook_info;
  ignore_infos : list ignore_info;
  map_infos : gmap (list Z) Z;
  sigsegv_enable : bool;
  handler : bool;
  inited : bool;
  init_ok : bool;
  async_inited : bool;
  async_init_ok : bool;
  thread_running : bool;
  thread_do : bool;
  thread : option thread_pc
}.

(** The process: memory and kernel, and what was stored through the [old_func]s. *)
Record process := { hooks : hook_state (W := W); old_funcs : gmap Z Z }.

Definition set_infos (his : list hook_info) (iis : list ignore_info) (c : core) : core :=
  {| hook_infos := his; ignore_infos := iis; map_infos := map_infos c; sigsegv_enable := sigsegv_enable c;
     handler := handler c; inited := inited c; init_ok := init_ok c; async_inited := async_inited c;
     async_init_ok := async_init_ok c; thread_running := thread_running c; thread_do := thread_do c; thread := thread c |}.
Definition set_maps (maps : gmap (list Z) Z) (c : core) : core :=
  {| hook_infos := hook_infos c; ignore_infos := ignore_infos c; map_infos := maps; sigsegv_enable := sigsegv_enable c;
     handler := handler c; inited := inited c; init_ok := init_ok c; async_inited := async_inited c;
     async_init_ok := async_init_ok c; thread_running := thread_running c; thread_do := thread_do c; thread := thread c |}.
Definition set_init (h i ok : bool) (c : core) : core :=
  {| hook_infos := hook_infos c; ignore_infos := ignore_infos c; map_infos := map_infos c;
     sigsegv_enable := sigsegv_enable c; handler := h; inited := i; init_ok := ok; async_inited := async_inited c;
     async_init_ok := async_init_ok c; thread_running := thread_running c; thread_do := thread_do c; thread := thread c |}.
Definition set_async (i ok running : bool) (t : option thread_pc) (c : core) : core :=
  {| hook_infos := hook_infos c; ignore_infos := ignore_infos c; map_infos := map_infos c;
     sigsegv_enable := sigsegv_enable c; handler := handler c; inited := inited c; init_ok := init_ok c;
     async_inited := i; async_init_ok := ok; thread_running := running; thread_do := thread_do c; thread := t |}.
Definition set_thread (d : bool) (t : option thread_pc) (c : core) : core :=
  {| hook_infos := hook_infos c; ignore_infos := ignore_infos c; map_infos := map_infos c;
     sigsegv_enable := sigsegv_enable c; handler := handler c; inited := inited c; init_ok := init_ok c;
     async_inited := async_inited c; async_init_ok := async_init_ok c; thread_running := thread_running c;
     thread_do := d; thread := t |}.

Definition xh_core_register (pathname_regex_str symbol : option (list Z)) (new_func old_func : Z) (c : core) : Z * core :=
  match pathname_regex_str, symbol with
  | Some str, Some symbol =>
      if new_func =? 0 then (XH_ERRNO_INVAL, c)
      else if inited c then (XH_ERRNO_INVAL, c)
      else
        match regcomp str with
        | None => (XH_ERRNO_INVAL, c)
        | Some regex =>
            let hi := {| hi_regex := regex; hi_symbol := symbol; hi_new_func := new_func; hi_old_func := old_func |} in
            (0, set_infos (hook_infos c ++ [hi]) (ignore_infos c) c)
        end
  | _, _ => (XH_ERRNO_INVAL, c)
  end.

Definition xh_core_ignore (pathname_regex_str symbol : option (list Z)) (c : core) : Z * core :=
  match pathname_regex_str with
  | None => (XH_ERRNO_INVAL, c)
  | Some str =>
      if inited c then (XH_ERRNO_INVAL, c)
      else
        match regcomp str with
        | None => (XH_ERRNO_INVAL, c)
        | Some regex =>
            (0, set_infos (hook_infos c) (ignore_infos c ++ [{| ii_regex := regex; ii_symbol := symbol |}]) c)
        end
  end.

Definition xh_core_enable_sigsegv_protection (flag : Z) (c : core) : core :=
  {| hook_infos := hook_infos c; ignore_infos := ignore_infos c; map_infos := map_infos c;
     sigsegv_enable := truthy flag; handler := handler c; inited := inited c; init_ok := init_ok c;
     async_inited := async_inited c; async_init_ok := async_init_ok c; thread_running := thread_running c;
     thread_do := thread_do c; thread := thread c |}.

(** ** Hooking one library *)

(** Reading the header faults when the mapping is not readable any more: the handler
    jumps back. *)
Definition xh_core_check_elf_header (c : core) (m : mem) (base_addr : Z) : res Z :=
  match xh_elf_check_elfheader m base_addr with
  | Fault => if sigsegv_enable c then Ok XH_ERRNO_SEGVERR else Fault
  | r => r
  end.

(** The search of the ignore requests for a hook request: none applies, one for the
    symbol applies, or one for all symbols. *)
Inductive verdict := NotIgnored | IgnoreSymbol | IgnoreAll.
Fixpoint find_ignore (iis : list ignore_info) (pathname symbol : list Z) : verdict :=
  match iis with
  | [] => NotIgnored
  | ii :: iis' =>
      if regexec (ii_regex ii) pathname then
        match ii_symbol ii with
        | None => IgnoreAll
        | Some s => if bool_decide (s = symbol) then IgnoreSymbol else find_ignore iis' pathname symbol
        end
      else find_ignore iis' pathname symbol
  end.

(** [xh_elf_hook(&(mi->elf), hi->symbol, hi->new_func, hi->old_func)] *)
Definition hook_one (elf : xh_elf_t) (hi : hook_info) (p : process) : res process :=
  let st := {| hmem := hmem (hooks p); world := world (hooks p); old_func := None; flushed := flushed (hooks p) |} in
  let! (_, st) := xh_elf_hook K raw_perm fuel elf (Some (hi_symbol hi)) (hi_new_func hi) (truthy (hi_old_func hi)) st in
  Ok {| hooks := st;
        old_funcs := match old_func st with Some f => <[hi_old_func hi := f]> (old_funcs p) | None => old_funcs p end |}.

Fixpoint hook_loop (iis : list ignore_info) (his : list hook_info) (elf : xh_elf_t) (pathname : list Z) (p : process)
    : res process :=
  match his with
  | [] => Ok p
  | hi :: his' =>
      if regexec (hi_regex hi) pathname then
        match find_ignore iis pathname (hi_symbol hi) with
        | IgnoreAll => Ok p
        | IgnoreSymbol => hook_loop iis his' elf pathname p
        | NotIgnored => let! p := hook_one elf hi p in hook_loop iis his' elf pathname p
        end
      else hook_loop iis his' elf pathname p
  end.

(** The [elf] of a map item before it is set up. *)
Definition raw_elf : xh_elf_t := elf_reset 0 None.

(** [xh_core_hook] with [xh_core_hook_impl]: a fault of [xh_elf_init], which only reads, is
    caught; one of [xh_elf_hook], which may have written some slots, is not modelled
    further. *)
Definition xh_core_hook (c : core) (base_addr : Z) (pathname : list Z) (p : process) : res process :=
  match xh_elf_init (hmem (hooks p)) raw_elf base_addr (Some pathname) with
  | Fault => if sigsegv_enable c then Ok p else Fault
  | NoFuel => NoFuel
  | Ok (r, elf) =>
      if negb (r =? 0) then Ok p else hook_loop (ignore_infos c) (hook_infos c) elf pathname p
  end.

(** ** Refreshing *)

(** "if we need to hook this elf?" *)
Fixpoint check_pathname (iis : list ignore_info) (his : list hook_info) (pathname : list Z) : bool :=
  match his with
  | [] => false
  | hi :: his' =>
      if regexec (hi_regex hi) pathname
      then match find_ignore iis pathname (hi_symbol hi) with NotIgnored => true | _ => false end
      else check_pathname iis his' pathname
  end.

(** The two trees, the items of the last refresh not seen yet and those of this
    refresh, and the process. *)
Record refreshing := { old_maps : gmap (list Z) Z; refreshed : gmap (list Z) Z; proc : process }.

(** The rest of the loop's body, for a mapping that may start with a header. *)
Definition refresh_map (c : core) (base_addr : Z) (pathname : list Z) (s : refreshing) : res refreshing :=
  if negb (check_pathname (ignore_infos c) (hook_infos c) pathname) then Ok s
  else
    let! r := xh_core_check_elf_header c (hmem (hooks (proc s))) base_addr in
    if negb (r =? 0) then Ok s
    else
      let keep := {| old_maps := delete pathname (old_maps s); refreshed := <[pathname := base_addr]> (refreshed s);
                     proc := proc s |} in
      match old_maps s !! pathname, refreshed s !! pathname with
      | Some _, Some _ => Ok {| old_maps := delete pathname (old_maps s); refreshed := refreshed s; proc := proc s |}
      | None, Some _ => Ok s
      | Some base, None =>
          if base =? base_addr then Ok keep
          else let! p := xh_core_hook c base_addr pathname (proc s) in
               Ok {| old_maps := old_maps keep; refreshed := refreshed keep; proc := p |}
      | None, None =>
          let! p := xh_core_hook c base_addr pathname (proc s) in
          Ok {| old_maps := old_maps s; refreshed := refreshed keep; proc := p |}
      end.

Fixpoint refresh_loop (c : core) (lines : list (list Z)) (sc : scan) (s : refreshing) : res refreshing :=
  match lines with
  | [] => Ok s
  | line :: lines' =>
      let! (r, sc) := scan_map line sc in
      let! s := match r with Some (base_addr, pathname) => refresh_map c base_addr pathname s | None => Ok s end in
      refresh_loop c lines' sc s
  end.

(** [raw_buf], [raw_perm]: the uninitialised locals.  The file is read as it was when
    opened. *)
Definition xh_core_refresh_impl (raw_buf : list Z) (c : core) (p : process) : res (core * process) :=
  match proc_maps W K (world (hooks p)) with
  | None => Ok (c, p)
  | Some file =>
      let! s := refresh_loop c (fgets_all (LINE_SIZE - 1) [] file)
                  {| buf := raw_buf; perm := raw_perm; pathname_pos := None |}
                  {| old_maps := map_infos c; refreshed := ∅; proc := p |} in
      Ok (set_maps (refreshed s) c, proc s)
  end.

(** ** The interface *)

(** [sigaction_ok], [create_ok]: the system calls succeed. *)
Definition xh_core_init_once (sigaction_ok : bool) (c : core) : core :=
  if inited c then c
  else if sigsegv_enable c then set_init (handler c || sigaction_ok) true (init_ok c || sigaction_ok) c
  else set_init (handler c) true true c.

Definition xh_core_init_async_once (create_ok : bool) (c : core) : core :=
  if async_inited c then c
  else if create_ok then set_async true true true (Some AtWait) c
  else set_async true (async_init_ok c) false (thread c) c.

Definition xh_core_refresh (sigaction_ok create_ok : bool) (raw_buf : list Z) (async : Z) (c : core) (p : process)
    : res (Z * core * process) :=
  let c := xh_core_init_once sigaction_ok c in
  if negb (init_ok c) then Ok (XH_ERRNO_UNKNOWN, c, p)
  else if truthy async then
    let c := xh_core_init_async_once create_ok c in
    if negb (async_init_ok c) then Ok (XH_ERRNO_UNKNOWN, c, p) else Ok (0, set_thread true (thread c) c, p)
  else
    let! (c, p) := xh_core_refresh_impl raw_buf c p in
    Ok (0, c, p).

(** One turn of the refresh thread; [None]: it waits for the condition, or there is no
    thread. *)
Definition refresh_thread_step (raw_buf : list Z) (c : core) (p : process) : option (res (core * process)) :=
  match thread c with
  | None => None
  | Some AtWait =>
      if negb (thread_running c) then Some (Ok (set_thread (thread_do c) None c, p))
      else if thread_do c then Some (Ok (set_thread false (Some AtRefresh) c, p))
      else None
  | Some AtRefresh =>
      Some (let! (c, p) := xh_core_refresh_impl raw_buf c p in Ok (set_thread (thread_do c) (Some AtWait) c, p))
  end.

(** [pthread_join] once [xh_core_refresh_thread_running] is 0: the thread finishes the
    refresh it is in. *)
Definition join_thread (raw_buf : list Z) (c : core) (p : process) : res (core * process) :=
  match thread c with
  | Some AtRefresh =>
      let! (c, p) := xh_core_refresh_impl raw_buf c p in Ok (set_thread (thread_do c) None c, p)
  | _ => Ok (set_thread (thread_do c) None c, p)
  end.

Definition xh_core_clear (raw_buf : list Z) (c : core) (p : process) : res (core * process) :=
  let! (c, p) := (if async_init_ok c then
                    let! (c, p) := join_thread raw_buf (set_async (async_inited c) true false (thread c) c) p in
                    Ok (set_async (async_inited c) false false (thread c) c, p)
                  else Ok (c, p)) in
  let c := set_async false (async_init_ok c) (thread_running c) (thread c) c in
  let c := if init_ok c then set_init (if sigsegv_enable c then false else handler c) (inited c) false c else c in
  let c := set_init (handler c) false (init_ok c) c in
  Ok (set_infos [] [] (set_maps ∅ c), p).
(** ** The kernel's maps file *)

(** A mapping with the rest of its line. *)
Record mapping := { region : vma; offset : Z; major : Z; minor : Z; inode : list Z; pad : nat; path : list Z }.
Definition info_text (x : mapping) : list Z :=
  hex_of 8 (offset x) ++ 32 :: hex_of 2 (major x) ++ 58 :: hex_of 2 (minor x) ++ 32 :: inode x ++
  replicate (pad x) 32 ++ path x.
Definition mapping_form (x : mapping) : Prop :=
  vma_form (region x) /\ info (region x) = info_text x /\ 0 <= offset x < 16 ^ 8 /\ offset x < 2 ^ ptr_bits /\
  0 <= major x < 256 /\ 0 <= minor x < 256 /\ inode x <> [] /\ Forall (fun c => 48 <= c <= 57) (inode x) /\
  (0 < pad x)%nat /\ no_nul (path x) /\ match path x with c :: _ => is_space c = false | [] => True end.
#[export] Instance mapping_form_dec x : Decision (mapping_form x).
Proof. unfold mapping_form, no_nul. destruct (path x); apply _. Defined.
(** A line that fits the buffer of 512 characters. *)
Definition mapping_ok (x : mapping) : Prop := mapping_form x /\ (length (vma_text (region x)) < 511)%nat.
#[export] Instance mapping_ok_dec x : Decision (mapping_ok x).
Proof. unfold mapping_ok. apply _. Defined.

(** The base address and path of the mappings that may start with a header. *)
Definition candidate (x : mapping) : option (Z * list Z) :=
  let v := region x in
  if readable v && private v && (offset x =? 0) && negb (bool_decide (path x = [])) &&
     negb (bool_decide (head (path x) = Some 91))
  then Some (lo v, path x) else None.

Lemma hex_space n v s :
  (2 <= n)%nat -> 0 <= v < 16 ^ Z.of_nat n -> v < 2 ^ ptr_bits ->
  match s with c :: _ => digit_of 16 c = None | [] => True end -> scan_hex (32 :: hex_of n v ++ s) = Some (v, s).
Proof. intros. change (scan_hex (32 :: hex_of n v ++ s)) with (scan_hex (hex_of n v ++ s)). by apply hex_scan. Qed.

Lemma digit_of_10 c : 48 <= c <= 57 -> digit_of 10 c = Some (c - 48).
Proof.
  intros Hc. unfold digit_of. destruct (Z.leb_spec 48 c), (Z.leb_spec c 57); try lia. cbn [andb].
  destruct (Z.ltb_spec (c - 48) 10); [done|lia].
Qed.

Lemma skip_decimal d s :
  Forall (fun c => 48 <= c <= 57) d -> match s with c :: _ => digit_of 10 c = None | [] => True end ->
  skip_digits 10 (d ++ s) = s.
Proof.
  intros Hd Hs. induction Hd as [|a l Ha _ IH]; cbn [app skip_digits].
  - destruct s as [|a s]; [done|]. cbn [skip_digits]. by rewrite Hs.
  - by rewrite (digit_of_10 a Ha), bool_decide_true.
Qed.

Lemma dec_scan d s :
  d <> [] -> Forall (fun c => 48 <= c <= 57) d -> match s with c :: _ => digit_of 10 c = None | [] => True end ->
  scan_dec (32 :: d ++ s) = Some s.
Proof.
  intros Hne Hd Hs. pose proof (skip_decimal d s Hd Hs) as Hskip. destruct d as [|c d]; [done|].
  apply Forall_cons in Hd as [Hc _].
  assert (Hstart : snd (sign (skip_spaces (32 :: (c :: d) ++ s))) = (c :: d) ++ s).
  { cbn [skip_spaces is_space SPACE Z.eqb Pos.eqb orb app]. unfold is_space, SPACE.
    destruct (Z.eqb_spec c 32); [lia|]. destruct (Z.leb_spec 9 c), (Z.leb_spec c 13); try lia; cbn [orb andb];
    unfold sign; repeat case_match; simplify_eq; lia || done. }
  unfold scan_dec. rewrite Hstart. cbn [app] in *. by rewrite (digit_of_10 c Hc), bool_decide_true, Hskip.
Qed.

(** The text behind the inode. *)
Definition tail_text (x : mapping) : list Z := replicate (pad x) 32 ++ path x ++ [NL].

Lemma device_scan x :
  mapping_form x ->
  scan_device (32 :: hex_of 2 (major x) ++ 58 :: hex_of 2 (minor x) ++ 32 :: inode x ++ tail_text x) = Some (tail_text x).
Proof.
  intros (_ & _ & _ & _ & Hmaj & Hmin & Hne & Hd & Hpad & _). unfold scan_device.
  assert (Hb : 256 <= 2 ^ ptr_bits) by (unfold ptr_bits; by destruct lp64).
  rewrite hex_space by (done || cbn; lia). cbn [scan_lit Z.eqb Pos.eqb].
  rewrite hex_scan by (done || cbn; lia). apply dec_scan; [done..|].
  unfold tail_text. destruct (pad x); [lia|done].
Qed.

(** The line, up to the inode and from there on. *)
Definition head_text (x : mapping) : list Z :=
  let v := region x in
  hex_of (width v) (lo v) ++ 45 :: hex_of (width v) (hi v) ++ 32 :: perms v ++ 32 :: hex_of 8 (offset x) ++
  32 :: hex_of 2 (major x) ++ 58 :: hex_of 2 (minor x) ++ 32 :: inode x.
Lemma mapping_line x : mapping_form x -> text_line (vma_text (region x)) = head_text x ++ tail_text x.
Proof.
  intros (_ & Hi & _). unfold text_line, vma_text, head_text, tail_text. rewrite Hi. unfold info_text.
  repeat (rewrite <- !app_assoc; cbn [app]). done.
Qed.

Lemma sscanf_mapping x sc :
  mapping_form x ->
  sscanf_map (text_line (vma_text (region x))) sc =
  (Some (lo (region x), offset x),
   {| buf := buf sc; perm := perms (region x) ++ 0 :: drop 5 (perm sc);
      pathname_pos := Some (Z.of_nat (length (head_text x))) |}).
Proof.
  intros Hx. pose proof (device_scan x Hx) as Hdev. rewrite (mapping_line x Hx). destruct Hx as (Hv & Hi & Ho & Hop & _).
  destruct Hv as (Hw & Hlo & Hlt & Hhi & Hp & _). unfold sscanf_map.
  assert (Hlen : Z.of_nat (length (head_text x ++ tail_text x)) - Z.of_nat (length (tail_text x)) =
    Z.of_nat (length (head_text x))) by (rewrite length_app; lia).
  unfold head_text at 1.
  rewrite <- !app_assoc. rewrite hex_scan by (done || lia). cbn [app scan_lit Z.eqb Pos.eqb].
  rewrite <- !app_assoc. rewrite hex_scan by (done || lia). cbn [app].
  rewrite <- !app_assoc. cbn [app]. rewrite perms_word. rewrite <- !app_assoc.
  rewrite hex_space by (done || lia). cbn [app]. rewrite <- !app_assoc. cbn [app]. rewrite <- !app_assoc. cbn [app].
  by rewrite Hdev, Hlen.
Qed.


Lemma blanks_pad n s : blanks (replicate n 32 ++ s) = (n + blanks s)%nat.
Proof. induction n as [|n IH]; cbn; [done|by rewrite IH]. Qed.

Lemma mapping_lengths x :
  mapping_ok x -> (length (head_text x) + pad x + length (path x) < 511)%nat.
Proof.
  intros [Hx Hlen]. pose proof (mapping_line x Hx) as Hl.
  assert (Hll : length (text_line (vma_text (region x))) = length (head_text x ++ tail_text x)) by by rewrite Hl.
  unfold text_line, tail_text in Hll. rewrite !length_app, length_replicate in Hll. cbn in Hll. lia.
Qed.

Lemma line_pathname_mapping x sc rest :
  mapping_ok x -> buf sc = head_text x ++ tail_text x ++ 0 :: rest -> pathname_pos sc = Some (Z.of_nat (length (head_text x))) ->
  exists sc', line_pathname sc =
    Ok (if negb (bool_decide (path x = [])) && negb (bool_decide (head (path x) = Some 91)) then Some (path x) else None, sc').
Proof.
  intros Hx Hb Hp. pose proof (mapping_lengths x Hx) as Hlen.
  destruct Hx as [(_ & _ & _ & _ & _ & _ & _ & _ & Hpad & Hnul & Hfirst) _].
  unfold line_pathname. rewrite Hp. cbn [of_opt rbind]. rewrite Nat2Z.id.
  assert (Hd : forall k, drop (length (head_text x) + k) (buf sc) = drop k (tail_text x ++ 0 :: rest)).
  { intros k. by rewrite Hb, drop_app_add. }
  pose proof (Hd 0%nat) as Hd0. rewrite Nat.add_0_r in Hd0. rewrite Hd0, !Hd, drop_0. clear Hd0.
  change (LINE_SIZE - 1)%nat with 511%nat.
  assert (Ht : length (tail_text x) = (pad x + length (path x) + 1)%nat).
  { unfold tail_text. rewrite !length_app, length_replicate. cbn. lia. }
  rewrite take_app_ge by lia.
  assert (Hmore : blanks (take (511 - length (head_text x) - length (tail_text x)) (0 :: rest)) = 0%nat) by by destruct (_ - _)%nat.
  revert Hmore. generalize (take (511 - length (head_text x) - length (tail_text x)) (0 :: rest)). intros more Hmore.
  assert (Hbl : blanks (tail_text x ++ more) = (pad x + match path x with [] => 1 | _ => 0 end)%nat).
  { unfold tail_text. rewrite <- !app_assoc, blanks_pad. f_equal.
    destruct (path x) as [|c l]; cbn; [by rewrite Hmore|by rewrite Hfirst]. }
  assert (Hdrop : drop (pad x) (tail_text x ++ 0 :: rest) = path x ++ NL :: 0 :: rest).
  { unfold tail_text. rewrite <- !app_assoc. by rewrite drop_app_length' by by rewrite length_replicate. }
  rewrite Hbl. clear Hbl Hmore. destruct (path x) as [|c l] eqn:Epath.
  - rewrite <- drop_drop, Hdrop. cbn.
    by case_match; eexists.
  - cbn [length] in Hlen. rewrite Nat.add_0_r, Hdrop. destruct (Nat.leb_spec 511 (length (head_text x) + pad x)); [lia|].
    assert (Hu : until_nul ((c :: l) ++ NL :: 0 :: rest) = (c :: l) ++ [NL]).
    { change (NL :: 0 :: rest) with ([NL] ++ 0 :: rest). rewrite app_assoc, until_nul_app; [done|].
      apply Forall_app. split; [exact Hnul|]. by repeat constructor. }
    rewrite Hu, rev_app_distr. rewrite existsb_app. cbn [existsb rev app]. rewrite orb_true_r. cbn [negb Z.eqb].
    rewrite Z.eqb_refl. cbn [orb].
    change (rev l ++ [c]) with (rev (c :: l)). rewrite rev_involutive.
    rewrite !(bool_decide_false (c :: l = [])) by done. cbn [negb andb].
    case_bool_decide; by eexists.
Qed.

(** A line of the kernel's file gives the candidate, whatever the buffers hold. *)
Lemma scan_mapping x sc :
  mapping_ok x -> exists sc', scan_map (text_line (vma_text (region x))) sc = Ok (candidate x, sc').
Proof.
  intros Hx. unfold scan_map. rewrite (sscanf_mapping x _ (proj1 Hx)). cbn [perm].
  destruct (has_perms (region x) (drop 5 (perm (set_line (text_line (vma_text (region x))) sc)))) as (Hr & _ & _ & Hp).
  assert (Hp' : has_perm (perms (region x) ++ 0 :: drop 5 (perm (set_line (text_line (vma_text (region x))) sc))) 3 112 =
    private (region x)).
  { unfold has_perm. rewrite <- (negb_involutive (private _)), <- Hp. case_bool_decide as H1; case_bool_decide as H2; done. }
  rewrite Hr, Hp'. unfold candidate. destruct (readable (region x)); cbn [negb andb]; [|by eexists].
  destruct (private (region x)); cbn [negb andb]; [|by eexists].
  destruct (offset x =? 0); cbn [negb andb]; [|by eexists].
  edestruct (line_pathname_mapping x) as [sc' ->]; [exact Hx| |reflexivity|].
  { cbn [buf set_line]. rewrite (mapping_line x (proj1 Hx)), <- app_assoc. reflexivity. }
  cbn [rbind]. exists sc'. by destruct (negb _ && negb _).
Qed.

(** ** A library gets the requests that are not ignored *)

(** An ignore request applies to a symbol of the library. *)
Definition applies (pathname symbol : list Z) (ii : ignore_info) : bool :=
  regexec (ii_regex ii) pathname && match ii_symbol ii with None => true | Some s => bool_decide (s = symbol) end.
(** A hook request is for the library, and not ignored there. *)
Definition wanted (iis : list ignore_info) (pathname : list Z) (hi : hook_info) : bool :=
  regexec (hi_regex hi) pathname && negb (existsb (applies pathname (hi_symbol hi)) iis).

Lemma find_ignore_spec iis pathname symbol :
  match find_ignore iis pathname symbol with
  | NotIgnored => existsb (applies pathname symbol) iis = false
  | IgnoreSymbol => existsb (applies pathname symbol) iis = true
  | IgnoreAll => forall symbol, existsb (applies pathname symbol) iis = true
  end.
Proof.
  induction iis as [|ii iis IH]; [done|]. cbn [find_ignore existsb].
  assert (Hskip : applies pathname symbol ii = false ->
    match find_ignore iis pathname symbol with
    | NotIgnored => applies pathname symbol ii || existsb (applies pathname symbol) iis = false
    | IgnoreSymbol => applies pathname symbol ii || existsb (applies pathname symbol) iis = true
    | IgnoreAll => forall symbol, applies pathname symbol ii || existsb (applies pathname symbol) iis = true
    end).
  { intros ->. destruct (find_ignore iis pathname symbol); [done..|]. intros s. by rewrite IH, orb_true_r. }
  unfold applies in *. destruct (regexec (ii_regex ii) pathname); [|by apply Hskip].
  destruct (ii_symbol ii) as [s|]; [|done]. case_bool_decide; [done|by apply Hskip].
Qed.

Fixpoint hook_all (his : list hook_info) (elf : xh_elf_t) (p : process) : res process :=
  match his with [] => Ok p | hi :: his' => let! p := hook_one elf hi p in hook_all his' elf p end.

Lemma hook_loop_wanted iis his elf pathname p :
  hook_loop iis his elf pathname p = hook_all (List.filter (wanted iis pathname) his) elf p.
Proof.
  revert p. induction his as [|hi his IH]; intros p; [done|]. cbn [hook_loop List.filter]. unfold wanted at 1.
  destruct (regexec (hi_regex hi) pathname); cbn [andb]; [|apply IH].
  pose proof (find_ignore_spec iis pathname (hi_symbol hi)) as Hf. destruct (find_ignore _ _ _).
  - rewrite Hf. cbn [negb hook_all]. destruct (hook_one elf hi p); cbn [rbind]; [apply IH|done..].
  - rewrite Hf. apply IH.
  - assert (Hnone : List.filter (wanted iis pathname) his = []).
    { clear IH. induction his as [|h his IH]; [done|]. cbn [List.filter]. unfold wanted at 1. by rewrite Hf, andb_false_r. }
    rewrite Hf. cbn [negb]. by rewrite Hnone.
Qed.

(** The test of the refresh looks at the first request for the path only. *)
Lemma check_pathname_first iis his pathname :
  check_pathname iis his pathname =
  match head (List.filter (fun hi => regexec (hi_regex hi) pathname) his) with
  | Some hi => wanted iis pathname hi
  | None => false
  end.
Proof.
  induction his as [|hi his IH]; [done|]. cbn [check_pathname List.filter].
  destruct (regexec (hi_regex hi) pathname) eqn:E; [|apply IH].
  cbn [head hd_error]. unfold wanted. rewrite E. pose proof (find_ignore_spec iis pathname (hi_symbol hi)) as Hf.
  destruct (find_ignore _ _ _); by rewrite Hf.
Qed.

(** ** The refresh over the kernel's maps file *)

Definition maps_file (l : list mapping) : list Z := maps_text (region <$> l).

Fixpoint refresh_walk (c : core) (cs : list (Z * list Z)) (s : refreshing) : res refreshing :=
  match cs with
  | [] => Ok s
  | (base_addr, pathname) :: cs' => let! s := refresh_map c base_addr pathname s in refresh_walk c cs' s
  end.

Lemma refresh_loop_walk c l sc s :
  Forall mapping_ok l ->
  refresh_loop c (text_line <$> (vma_text <$> (region <$> l))) sc s = refresh_walk c (omap candidate l) s.
Proof.
  intros Hl. revert sc s. induction Hl as [|x l Hx _ IH]; intros sc s; [done|]. cbn [fmap list_fmap refresh_loop].
  destruct (scan_mapping x sc Hx) as [sc' ->]. cbn [rbind].
  destruct (candidate x) as [[b path]|] eqn:E; cbn [omap list_omap]; rewrite E; [|apply IH].
  cbn [refresh_walk]. destruct (refresh_map c b path s); cbn [rbind]; [apply IH|done..].
Qed.

Lemma maps_file_lines l :
  Forall mapping_ok l -> fgets_all (LINE_SIZE - 1) [] (maps_file l) = text_line <$> (vma_text <$> (region <$> l)).
Proof.
  intros Hl. unfold maps_file, maps_text. apply fgets_all_lines, maps_lines_ok; [unfold LINE_SIZE; lia|].
  apply Forall_fmap. eapply Forall_impl; [exact Hl|]. by intros x [[Hv _] Hlen].
Qed.

(** [hdr b]: there is an ELF header at [b].  Of the candidates, the libraries to hook:
    the first base address of each path. *)
Fixpoint first_bases (hdr : Z -> bool) (c : core) (cs : list (Z * list Z)) (m : gmap (list Z) Z) : list (Z * list Z) :=
  match cs with
  | [] => []
  | (b, path) :: cs' =>
      if check_pathname (ignore_infos c) (hook_infos c) path && hdr b && bool_decide (m !! path = None)
      then (b, path) :: first_bases hdr c cs' (<[path := b]> m)
      else first_bases hdr c cs' m
  end.
Definition add_base (m : gmap (list Z) Z) (i : Z * list Z) : gmap (list Z) Z := <[i.2 := i.1]> m.

(** Hooking those that were not there, at that address, at the last refresh. *)
Fixpoint hook_items (c : core) (old : gmap (list Z) Z) (items : list (Z * list Z)) (p : process) : res process :=
  match items with
  | [] => Ok p
  | (b, path) :: items' =>
      let! p := (if bool_decide (old !! path = Some b) then Ok p else xh_core_hook c b path p) in
      hook_items c old items' p
  end.

(** Over the states [P] the refresh goes through, the headers of the candidates stay as
    they are, and hooking the libraries [items] does not fault. *)
Record stable (c : core) (cs items : list (Z * list Z)) (hdr : Z -> bool) (P : process -> Prop) : Prop := {
  st_header : forall p b path, P p -> (b, path) ∈ cs -> check_pathname (ignore_infos c) (hook_infos c) path = true ->
    exists r, xh_core_check_elf_header c (hmem (hooks p)) b = Ok r /\ (r =? 0) = hdr b;
  st_hook : forall p b path, P p -> (b, path) ∈ items -> exists p', xh_core_hook c b path p = Ok p' /\ P p'
}.

(** The old tree has the items not seen yet. *)
Definition walk_inv (c : core) (s : refreshing) : Prop :=
  forall path, old_maps s !! path = match refreshed s !! path with Some _ => None | None => map_infos c !! path end.

Lemma refresh_map_ok c cs items hdr P b path s :
  stable c cs items hdr P -> (b, path) ∈ cs -> walk_inv c s -> P (proc s) ->
  (check_pathname (ignore_infos c) (hook_infos c) path && hdr b && bool_decide (refreshed s !! path = None) = true ->
   (b, path) ∈ items) ->
  exists s', refresh_map c b path s = Ok s' /\ walk_inv c s' /\ P (proc s') /\
    if check_pathname (ignore_infos c) (hook_infos c) path && hdr b && bool_decide (refreshed s !! path = None)
    then refreshed s' = <[path := b]> (refreshed s) /\
         (if bool_decide (map_infos c !! path = Some b) then Ok (proc s) else xh_core_hook c b path (proc s)) = Ok (proc s')
    else refreshed s' = refreshed s /\ proc s' = proc s.
Proof.
  intros Hst Hin Hinv HP Hitem. unfold refresh_map.
  destruct (check_pathname _ _ _) eqn:Echeck; cbn [negb andb] in *; [|by exists s].
  destruct (st_header _ _ _ _ _ Hst _ _ _ HP Hin Echeck) as (r & -> & Hr). cbn [rbind]. rewrite Hr.
  destruct (hdr b); cbn [negb andb] in *; [|by exists s].
  pose proof (Hinv path) as Hpath. destruct (refreshed s !! path) as [b0|] eqn:E; rewrite Hpath.
  { rewrite bool_decide_false by done. by exists s. }
  rewrite bool_decide_true in * by done.
  assert (Hinv' : forall p, walk_inv c {| old_maps := delete path (old_maps s); refreshed := <[path := b]> (refreshed s); proc := p |}).
  { intros p path'. cbn. destruct (decide (path' = path)) as [->|Hne];
      [by rewrite lookup_delete_eq, lookup_insert_eq|].
    rewrite lookup_delete_ne, lookup_insert_ne by done. apply Hinv. }
  destruct (st_hook _ _ _ _ _ Hst _ _ _ HP (Hitem eq_refl)) as (p' & Hh & HP').
  destruct (map_infos c !! path) as [old|] eqn:Ec.
  - destruct (Z.eqb_spec old b) as [->|Hne].
    + eexists. split; [reflexivity|]. split; [apply Hinv'|]. by rewrite bool_decide_true.
    + rewrite Hh. cbn [rbind old_maps refreshed]. eexists. split; [reflexivity|]. split; [apply Hinv'|].
      rewrite bool_decide_false by congruence. by split_and!.
  - rewrite Hh. cbn [rbind]. eexists. split; [reflexivity|]. rewrite bool_decide_false by done.
    split; [|by split_and!]. cbn [old_maps refreshed proc].
    assert (Hdel : delete path (old_maps s) = old_maps s) by (apply delete_id; by rewrite Hpath).
    rewrite <- Hdel. apply Hinv'.
Qed.

Lemma refresh_walk_ok c cs items hdr P s :
  stable c cs items hdr P -> first_bases hdr c cs (refreshed s) ⊆ items -> walk_inv c s -> P (proc s) ->
  exists s', refresh_walk c cs s = Ok s' /\ P (proc s') /\
    refreshed s' = foldl add_base (refreshed s) (first_bases hdr c cs (refreshed s)) /\
    hook_items c (map_infos c) (first_bases hdr c cs (refreshed s)) (proc s) = Ok (proc s').
Proof.
  revert s. induction cs as [|[b path] cs IH]; intros s Hst Hsub Hinv HP; [by exists s|]. cbn [refresh_walk first_bases] in *.
  destruct (refresh_map_ok c _ items hdr P b path s Hst) as (s1 & -> & Hinv1 & HP1 & Hs1); [by left|done|done| |].
  { intros E. rewrite E in Hsub. apply Hsub. by left. }
  cbn [rbind]. assert (Hst' : stable c cs items hdr P).
  { constructor; [|apply (st_hook _ _ _ _ _ Hst)]. intros p b' path' Hp Hin. apply (st_header _ _ _ _ _ Hst); [done|by right]. }
  destruct (check_pathname _ _ _ && _ && _); destruct Hs1 as [Hr1 Hh1].
  - destruct (IH s1 Hst') as (s2 & H2 & HP2 & Hr2 & Hh2); [rewrite Hr1; intros i Hi; apply Hsub; by right|done..|].
    rewrite Hr1 in Hr2, Hh2. exists s2. cbn [foldl hook_items]. rewrite Hh1. cbn [rbind]. split_and!; done.
  - destruct (IH s1 Hst') as (s2 & H2 & HP2 & Hr2 & Hh2); [by rewrite Hr1|done..|].
    rewrite Hr1 in Hr2, Hh2. exists s2. rewrite <- Hh1. split_and!; done.
Qed.

Lemma refresh_ok raw_buf c p l hdr P :
  Forall mapping_ok l -> proc_maps W K (world (hooks p)) = Some (maps_file l) ->
  stable c (omap candidate l) (first_bases hdr c (omap candidate l) ∅) hdr P -> P p ->
  exists p', hook_items c (map_infos c) (first_bases hdr c (omap candidate l) ∅) p = Ok p' /\ P p' /\
    xh_core_refresh_impl raw_buf c p = Ok (set_maps (foldl add_base ∅ (first_bases hdr c (omap candidate l) ∅)) c, p').
Proof.
  intros Hl Hm Hst HP. unfold xh_core_refresh_impl. rewrite Hm, maps_file_lines, refresh_loop_walk by done.
  destruct (refresh_walk_ok c (omap candidate l) _ hdr P {| old_maps := map_infos c; refreshed := ∅; proc := p |} Hst)
    as (s & -> & HP' & Hr & Hh); [done|intros path; by cbn; rewrite lookup_empty|done|].
  cbn [rbind]. exists (proc s). split_and!; [exact Hh|done|]. by rewrite Hr.
Qed.

Lemma first_bases_keep hdr c cs m path b :
  m !! path = Some b -> foldl add_base m (first_bases hdr c cs m) !! path = Some b.
Proof.
  revert m. induction cs as [|[b1 path1] cs IH]; intros m Hm; [done|]. cbn [first_bases].
  destruct (check_pathname _ _ _ && _); cbn [andb]; [|by apply IH]. case_bool_decide as Hn; [|by apply IH].
  cbn [foldl]. apply IH. unfold add_base. cbn. rewrite lookup_insert_ne; [done|]. intros ->. congruence.
Qed.

Lemma first_bases_known hdr c cs m b path :
  (b, path) ∈ first_bases hdr c cs m -> foldl add_base m (first_bases hdr c cs m) !! path = Some b.
Proof.
  revert m. induction cs as [|[b1 path1] cs IH]; intros m; [by intros ?%not_elem_of_nil|]. cbn [first_bases].
  destruct (check_pathname _ _ _ && _ && _); [|by apply IH]. cbn [foldl]. intros [[= -> ->]|Hin]%elem_of_cons.
  - apply first_bases_keep. unfold add_base. cbn. by rewrite lookup_insert_eq.
  - by apply IH.
Qed.

Lemma hook_items_known c old items p :
  (forall b path, (b, path) ∈ items -> old !! path = Some b) -> hook_items c old items p = Ok p.
Proof.
  induction items as [|[b path] items IH]; intros Hk; [done|]. cbn [hook_items].
  rewrite bool_decide_true by (apply Hk; by left). cbn [rbind]. apply IH. intros b' path' Hin. apply Hk. by right.
Qed.

Lemma first_bases_hooks hdr c m' cs m : first_bases hdr (set_maps m' c) cs m = first_bases hdr c cs m.
Proof. revert m. induction cs as [|[b path] cs IH]; intros m; [done|]. cbn [first_bases]. by rewrite !IH. Qed.

Lemma stable_maps c m' cs items hdr P : stable c cs items hdr P -> stable (set_maps m' c) cs items hdr P.
Proof. intros [H1 H2]. by constructor. Qed.

(** C29: Refreshing again while the same libraries are mapped changes nothing: no slot is
    written, no page's protection is touched, the table stays. *)
Theorem refresh_again raw_buf raw_buf' c p c' p' l l' hdr P :
  Forall mapping_ok l -> proc_maps W K (world (hooks p)) = Some (maps_file l) ->
  stable c (omap candidate l) (first_bases hdr c (omap candidate l) ∅) hdr P -> P p ->
  xh_core_refresh_impl raw_buf c p = Ok (c', p') ->
  Forall mapping_ok l' -> proc_maps W K (world (hooks p')) = Some (maps_file l') -> omap candidate l' = omap candidate l ->
  xh_core_refresh_impl raw_buf' c' p' = Ok (c', p').
Proof.
  intros Hl Hm Hst HP Hr Hl' Hm' Hsame. destruct (refresh_ok raw_buf c p l hdr P) as (q & _ & HP' & Hr'); try done.
  rewrite Hr' in Hr. injection Hr as <- <-.
  destruct (refresh_ok raw_buf' (set_maps (foldl add_base ∅ (first_bases hdr c (omap candidate l) ∅)) c) q l' hdr P)
    as (q2 & Hh & _ & ->); [done|done|rewrite Hsame, first_bases_hooks; by apply stable_maps|done|].
  rewrite Hsame, first_bases_hooks in *. cbn [set_maps map_infos] in *.
  rewrite hook_items_known in Hh by (intros b path Hin; by apply first_bases_known). by injection Hh as <-.
Qed.

(** ** What a refresh writes

    A library as in PltGot.v; [T] holds the tables of all libraries, [m0] is the memory
    before hooking. *)
Section Writes.
Context (T m0 : mem) (c : core).

Record lib_ok (x : so) : Prop := {
  lk_init : exists t, t ⊆ T /\ xh_elf_init t raw_elf (so_base x) (Some (so_name x)) = Ok (0, so_elf x) /\
    library fuel t (so_elf x) (so_names x) (so_plt x) (so_dyn x) (so_packed x);
  lk_kernel : kernel_ok K raw_perm (pathname (so_elf x)) (so_lib x);
  lk_request : forall hi, hi ∈ hook_infos c ->
    no_nul (hi_symbol hi) /\ 0 < hi_new_func hi < 2 ^ ptr_bits /\
    symbol_index (so_elf x) (so_names x) (hi_symbol hi) (so_index x (hi_symbol hi)) /\
    Forall (good (so_elf x) (so_lib x) T m0) (so_slots x (hi_symbol hi))
}.

(** The slots of the requests' symbols and their new functions. *)
Definition request_writes (x : so) (his : list hook_info) : list (Z * Z) :=
  mjoin ((fun hi => (fun a => (a, hi_new_func hi)) <$> so_slots x (hi_symbol hi)) <$> his).
Definition lib_writes (x : so) : list (Z * Z) :=
  request_writes x (List.filter (wanted (ignore_infos c) (so_name x)) (hook_infos c)).

Lemma request_aligned x his : lib_ok x -> his ⊆ hook_infos c -> aligned (request_writes x his).
Proof.
  intros Hx Hsub. unfold aligned. apply Forall_forall. intros w Hw.
  apply list_elem_of_join in Hw as (ws & Hw & Hws). apply list_elem_of_fmap in Hws as (hi & -> & Hhi).
  apply list_elem_of_fmap in Hw as (a & -> & Ha). destruct (lk_request _ Hx hi (Hsub _ Hhi)) as (_ & _ & _ & Hg).
  rewrite Forall_forall in Hg. by destruct (Hg a Ha) as ((_ & ? & _) & _).
Qed.

Lemma hook_one_ok x hi p :
  lib_ok x -> hi ∈ hook_infos c -> valid T m0 (hooks p) ->
  exists p', hook_one (so_elf x) hi p = Ok p' /\ patched K (request_writes x [hi]) (hooks p) (hooks p') /\
    valid T m0 (hooks p').
Proof.
  intros Hx Hhi Hv. destruct (lk_init _ Hx) as (t & Ht & _ & Hlib).
  destruct (lk_request _ Hx hi Hhi) as (Hn & Hnew & Hi & Hgood).
  set (st0 := {| hmem := hmem (hooks p); world := world (hooks p); old_func := None; flushed := flushed (hooks p) |}).
  assert (Hv0 : valid T m0 st0) by (destruct Hv; by constructor).
  destruct (hook_ok K raw_perm fuel (so_elf x) (so_lib x) t m0 (so_names x) (so_plt x) (so_dyn x) (so_packed x)
    (hi_symbol hi) (so_index x (hi_symbol hi)) (hi_new_func hi) (truthy (hi_old_func hi)) st0 Hlib (lk_kernel _ Hx) Hnew Hn Hi
    (valid_weaken T m0 t st0 Ht Hv0)) as (st & He & Hr & _).
  { eapply Forall_impl; [exact Hgood|]. intros a. by apply good_weaken. }
  fold (so_slots x (hi_symbol hi)) in Hr. unfold hook_one. fold st0. rewrite He. cbn [rbind].
  eexists. split; [done|]. cbn [hooks]. split.
  - unfold request_writes. cbn [fmap list_fmap mjoin list_join]. rewrite app_nil_r. apply replaced_patched in Hr.
    destruct Hr as [H1 H2 H3]. by constructor.
  - eapply valid_replaced; [exact Hgood|exact Hv0|exact Hr].
Qed.

Lemma hook_all_ok x his p :
  lib_ok x -> his ⊆ hook_infos c -> valid T m0 (hooks p) ->
  exists p', hook_all his (so_elf x) p = Ok p' /\ patched K (request_writes x his) (hooks p) (hooks p') /\
    valid T m0 (hooks p').
Proof.
  intros Hx. revert p. induction his as [|hi his IH]; intros p Hsub Hv; cbn [hook_all].
  { exists p. split; [done|]. split; [apply patched_nil|done]. }
  destruct (hook_one_ok x hi p Hx) as (p1 & -> & Hp1 & Hv1); [apply Hsub; by left|done|]. cbn [rbind].
  destruct (IH p1) as (p2 & He & Hp2 & Hv2); [intros h Hh; apply Hsub; by right|done|].
  exists p2. split; [exact He|]. split; [|done].
  assert (Hw : request_writes x (hi :: his) = request_writes x [hi] ++ request_writes x his).
  { unfold request_writes. cbn [fmap list_fmap mjoin list_join]. by rewrite app_nil_r. }
  rewrite Hw. eapply patched_app; [|exact Hp1|exact Hp2]. rewrite <- Hw. by apply request_aligned.
Qed.

Lemma filter_sub (f : hook_info -> bool) his : List.filter f his ⊆ his.
Proof. intros h. rewrite !list_elem_of_In, filter_In. by intros [? _]. Qed.

Lemma core_hook_ok x p :
  lib_ok x -> valid T m0 (hooks p) ->
  exists p', xh_core_hook c (so_base x) (so_name x) p = Ok p' /\ patched K (lib_writes x) (hooks p) (hooks p') /\
    valid T m0 (hooks p').
Proof.
  intros Hx Hv. destruct (lk_init _ Hx) as (t & Ht & Hinit & _). unfold xh_core_hook.
  rewrite (mono_init _ _ _ t (hmem (hooks p)) _ (transitivity Ht (v_tabs _ _ _ Hv)) Hinit). cbn [negb Z.eqb].
  rewrite hook_loop_wanted. apply hook_all_ok; [done|apply filter_sub|done].
Qed.

(** The libraries that are not in the table at their address. *)
Definition unknown (x : so) : bool := negb (bool_decide (map_infos c !! so_name x = Some (so_base x))).

Lemma lib_writes_aligned xs : Forall lib_ok xs -> aligned (mjoin (lib_writes <$> xs)).
Proof.
  unfold aligned. induction 1 as [|x xs Hx _ IH]; [by constructor|]. cbn [fmap list_fmap mjoin list_join].
  apply Forall_app. split; [|exact IH]. apply request_aligned; [done|apply filter_sub].
Qed.

Lemma hook_items_ok xs p :
  Forall lib_ok xs -> valid T m0 (hooks p) ->
  exists p', hook_items c (map_infos c) ((fun x => (so_base x, so_name x)) <$> xs) p = Ok p' /\
    patched K (mjoin (lib_writes <$> List.filter unknown xs)) (hooks p) (hooks p') /\ valid T m0 (hooks p').
Proof.
  intros Hxs. revert p. induction Hxs as [|x xs Hx Hxs IH]; intros p Hv; cbn [fmap list_fmap hook_items List.filter].
  { exists p. split; [done|]. split; [apply patched_nil|done]. }
  unfold unknown at 1. case_bool_decide; cbn [negb rbind].
  { exact (IH p Hv). }
  destruct (core_hook_ok x p Hx Hv) as (p1 & -> & Hp1 & Hv1). cbn [rbind].
  destruct (IH p1 Hv1) as (p2 & He & Hp2 & Hv2). exists p2. split; [exact He|]. split; [|done].
  cbn [fmap list_fmap mjoin list_join]. eapply patched_app; [|exact Hp1|exact Hp2].
  apply (lib_writes_aligned (x :: List.filter unknown xs)). constructor; [done|].
  apply Forall_forall. intros y Hy. apply list_elem_of_In, filter_In in Hy as [Hy _]. rewrite Forall_forall in Hxs.
  by apply Hxs, list_elem_of_In.
Qed.

Lemma mono_check_elfheader b : mono (fun m => xh_elf_check_elfheader m b).
Proof.
  unfold xh_elf_check_elfheader. generalize ((b, 4%nat, [0x464c457f]) :: [(b + 4, 1%nat, [ELFCLASS]); (b + 5, 1%nat, [1]);
      (b + 6, 1%nat, [1]); (b + 16, 2%nat, [2; 3]); (b + 18, 2%nat, [e_machine_ok]); (b + 20, 4%nat, [1])]).
  intros l. induction l as [|[[a n] vs] l IH]; cbn [check_fields]; solve_mono.
Qed.

(** The headers of the candidates a request is for, as [T] has them. *)
Definition headers_ok (cs : list (Z * list Z)) (hdr : Z -> bool) : Prop :=
  forall b path, (b, path) ∈ cs -> check_pathname (ignore_infos c) (hook_infos c) path = true ->
    exists r, xh_elf_check_elfheader T b = Ok r /\ (r =? 0) = hdr b.

Lemma libs_stable cs hdr xs :
  headers_ok cs hdr -> Forall lib_ok xs ->
  stable c cs ((fun x => (so_base x, so_name x)) <$> xs) hdr (fun p => valid T m0 (hooks p)).
Proof.
  intros Hh Hxs. constructor.
  - intros p b path Hv Hin Hcheck. destruct (Hh b path Hin Hcheck) as (r & Hr & Heq). exists r. split; [|done].
    unfold xh_core_check_elf_header. by rewrite (mono_check_elfheader _ T (hmem (hooks p)) r (v_tabs _ _ _ Hv) Hr).
  - intros p b path Hv Hin. apply list_elem_of_fmap in Hin as (x & [= -> ->] & Hx). rewrite Forall_forall in Hxs.
    destruct (core_hook_ok x p (Hxs x Hx) Hv) as (p' & He & _ & Hv'). by exists p'.
Qed.
End Writes.

(** C28: Refreshing over well-formed libraries and the kernel's maps file (of lines shorter than 511
    characters): of each path the first readable, private mapping of offset 0 with a header is the library, and it
    is refreshed when the first request that matches the path is not ignored there (a path whose first matching
    request is ignored is passed over, whatever else is asked for it: [first_request_blocks]).  In each such library
    that is not in the table at that address, the slots, in the relocations the iterators visit, of the symbols of
    all requests that match its path and are not ignored there get the request's function; no other byte of
    the memory nor any page's protection changes, and the table then holds these libraries. *)
Theorem refresh_patches raw_buf c p T l hdr xs :
  Forall mapping_ok l -> proc_maps W K (world (hooks p)) = Some (maps_file l) ->
  T ⊆ hmem (hooks p) -> mem_ok (hmem (hooks p)) ->
  headers_ok T c (omap candidate l) hdr ->
  first_bases hdr c (omap candidate l) ∅ = (fun x => (so_base x, so_name x)) <$> xs ->
  Forall (lib_ok T (hmem (hooks p)) c) xs ->
  exists p', xh_core_refresh_impl raw_buf c p =
      Ok (set_maps (foldl add_base ∅ ((fun x => (so_base x, so_name x)) <$> xs)) c, p') /\
    patched K (mjoin (lib_writes c <$> List.filter (unknown c) xs)) (hooks p) (hooks p').
Proof.
  intros Hl Hm HT Hok Hh Hxs Hlibs. assert (Hv : valid T (hmem (hooks p)) (hooks p)) by by constructor.
  pose proof (libs_stable T _ c _ hdr xs Hh Hlibs) as Hst. rewrite <- Hxs in Hst.
  destruct (refresh_ok raw_buf c p l hdr _ Hl Hm Hst Hv) as (p' & He & _ & Hr). rewrite Hxs in *.
  destruct (hook_items_ok T _ c xs p Hlibs Hv) as (p2 & He2 & Hp & _). rewrite He in He2. injection He2 as <-.
  exists p'. by split.
Qed.

(** The first request for the path decides: when it is ignored in a library, the
    library gets none of the requests, those that are wanted there neither. *)
Lemma first_request_blocks c base_addr pathname s hi his :
  List.filter (fun hi => regexec (hi_regex hi) pathname) (hook_infos c) = hi :: his ->
  wanted (ignore_infos c) pathname hi = false -> refresh_map c base_addr pathname s = Ok s.
Proof. intros Hf Hw. unfold refresh_map. by rewrite check_pathname_first, Hf; cbn; rewrite Hw. Qed.

(** ** The interface and the refresh thread

    Calls of the interface and turns of the thread, in any order; each holds the
    mutex, and clearing waits for the thread. *)

Definition init_core : core :=
  {| hook_infos := []; ignore_infos := []; map_infos := ∅; sigsegv_enable := true; handler := false; inited := false;
     init_ok := false; async_inited := false; async_init_ok := false; thread_running := false; thread_do := false;
     thread := None |}.

(** ** HookProxy.h: [registerPltGotProxy]

    [focused]: the characters of the [jstring]; [proxy_of]: the addresses of the proxies.
    The results are only logged. *)
Definition ignored_regex : list Z := codes ".*libraphael\.so$".
Fixpoint register_all (focused : list Z) (proxy_of : list Z -> Z) (symbols : list (list Z)) (c : core) : core :=
  match symbols with
  | [] => c
  | symbol :: symbols' =>
      register_all focused proxy_of symbols' (xh_core_register (Some focused) (Some symbol) (proxy_of symbol) 0 c).2
  end.
Fixpoint ignore_all (symbols : list (list Z)) (c : core) : core :=
  match symbols with
  | [] => c
  | symbol :: symbols' => ignore_all symbols' (xh_core_ignore (Some ignored_regex) (Some symbol) c).2
  end.
Definition registerPltGotProxy (sigaction_ok create_ok : bool) (raw_buf : list Z) (focused : list Z)
    (proxy_of : list Z -> Z) (c : core) (p : process) : res (core * process) :=
  let! (_, c, p) := xh_core_refresh sigaction_ok create_ok raw_buf 0
                      (ignore_all sPltGot (register_all focused proxy_of sPltGot c)) p in
  Ok (c, p).

Definition request (focused : R) (proxy_of : list Z -> Z) (symbol : list Z) : hook_info :=
  {| hi_regex := focused; hi_symbol := symbol; hi_new_func := proxy_of symbol; hi_old_func := 0 |}.

Lemma register_all_spec focused re proxy_of symbols c :
  inited c = false -> regcomp focused = Some re -> (forall symbol, symbol ∈ symbols -> proxy_of symbol <> 0) ->
  register_all focused proxy_of symbols c =
  set_infos (hook_infos c ++ (request re proxy_of <$> symbols)) (ignore_infos c) c.
Proof.
  intros Hi Hre. revert c Hi. induction symbols as [|symbol symbols IH]; intros c Hi Hne.
  { cbn. rewrite app_nil_r. by destruct c. }
  cbn [register_all]. unfold xh_core_register. rewrite Hi, Hre, (proj2 (Z.eqb_neq _ _)) by (apply Hne; by left).
  cbn [snd]. rewrite IH; [|done|intros s Hs; apply Hne; by right]. cbn. by rewrite <- app_assoc.
Qed.
Lemma ignore_all_spec re symbols c :
  inited c = false -> regcomp ignored_regex = Some re ->
  ignore_all symbols c =
  set_infos (hook_infos c) (ignore_infos c ++ ((fun s => {| ii_regex := re; ii_symbol := Some s |}) <$> symbols)) c.
Proof.
  intros Hi Hre. revert c Hi. induction symbols as [|symbol symbols IH]; intros c Hi.
  { cbn. rewrite app_nil_r. by destruct c. }
  cbn [ignore_all]. unfold xh_core_ignore. rewrite Hi, Hre. cbn [snd]. rewrite IH by done. cbn. by rewrite <- app_assoc.
Qed.

(** The libraries to hook are those the pattern is for, but not the detector's own; each
    gets all the proxies. *)
Lemma pltgot_wanted focused re ign proxy_of pathname :
  regcomp focused = Some re -> regcomp ignored_regex = Some ign -> (forall symbol, symbol ∈ sPltGot -> proxy_of symbol <> 0) ->
  let c := ignore_all sPltGot (register_all focused proxy_of sPltGot init_core) in
  let hooked := regexec re pathname && negb (regexec ign pathname) in
  check_pathname (ignore_infos c) (hook_infos c) pathname = hooked /\
  List.filter (wanted (ignore_infos c) pathname) (hook_infos c) =
    if hooked then request re proxy_of <$> sPltGot else [].
Proof.
  intros Hre Hign Hne c hooked. unfold c. rewrite (register_all_spec _ re) by done. rewrite (ignore_all_spec ign) by done.
  cbn [hook_infos ignore_infos set_infos init_core app].
  assert (Hw : forall symbol, symbol ∈ sPltGot ->
    wanted ((fun s => {| ii_regex := ign; ii_symbol := Some s |}) <$> sPltGot) pathname (request re proxy_of symbol) = hooked).
  { intros symbol Hs. unfold wanted, hooked, applies. cbn [hi_regex hi_symbol request]. f_equal. f_equal.
    destruct (regexec ign pathname) eqn:E.
    - apply existsb_exists. exists {| ii_regex := ign; ii_symbol := Some symbol |}. split.
      + apply list_elem_of_In, list_elem_of_fmap. by exists symbol.
      + cbn. rewrite E. by case_bool_decide.
    - apply not_true_iff_false. intros (ii & Hin & Happ)%existsb_exists.
      apply list_elem_of_In, list_elem_of_fmap in Hin as (s & -> & _). cbn in Happ. by rewrite E in Happ. }
  split.
  - assert (Hhead : head (List.filter (fun hi => regexec (hi_regex hi) pathname) (request re proxy_of <$> sPltGot)) =
      if regexec re pathname then Some (request re proxy_of (codes "malloc")) else None).
    { unfold sPltGot. cbn [fmap list_fmap List.filter hi_regex request]. by destruct (regexec re pathname). }
    rewrite check_pathname_first, Hhead. destruct (regexec re pathname) eqn:E; [apply Hw; by left|].
    unfold hooked. by rewrite ?E.
  - revert Hw. generalize ((fun s => {| ii_regex := ign; ii_symbol := Some s |}) <$> sPltGot). intros iis Hw.
    clear c Hne. induction sPltGot as [|s l IH]; [by destruct hooked|]. cbn [fmap list_fmap List.filter]. rewrite Hw by by left.
    rewrite IH by (intros; apply Hw; by right). by destruct hooked.
Qed.

Inductive core_step : core * process -> core * process -> Prop :=
  | step_register str symbol new old c p : core_step (c, p) ((xh_core_register str symbol new old c).2, p)
  | step_ignore str symbol c p : core_step (c, p) ((xh_core_ignore str symbol c).2, p)
  | step_enable flag c p : core_step (c, p) (xh_core_enable_sigsegv_protection flag c, p)
  | step_refresh sigaction_ok create_ok raw_buf async c p r c' p' :
      xh_core_refresh sigaction_ok create_ok raw_buf async c p = Ok (r, c', p') -> core_step (c, p) (c', p')
  | step_clear raw_buf c p c' p' : xh_core_clear raw_buf c p = Ok (c', p') -> core_step (c, p) (c', p')
  | step_thread raw_buf c p c' p' :
      refresh_thread_step raw_buf c p = Some (Ok (c', p')) -> core_step (c, p) (c', p')
  (* the rest of the program *)
  | step_process c p p' : core_step (c, p) (c, p').

Definition reachable (c : core) (p : process) : Prop := exists p0, rtc core_step (init_core, p0) (c, p).

Record core_inv (c : core) : Prop := {
  ci_thread : thread c <> None <-> async_init_ok c = true;
  ci_running : thread_running c = async_init_ok c;
  ci_async : async_init_ok c = true -> async_inited c = true /\ inited c = true;
  ci_async_inited : async_inited c = true -> inited c = true;
  ci_init : init_ok c = true -> inited c = true;
  ci_maps : inited c = false -> map_infos c = ∅
}.

Lemma refresh_impl_maps raw_buf c p c' p' :
  xh_core_refresh_impl raw_buf c p = Ok (c', p') -> exists maps, c' = set_maps maps c.
Proof.
  unfold xh_core_refresh_impl. destruct (proc_maps W K _).
  - destruct (refresh_loop _ _ _ _); cbn [rbind]; [|done..]. intros [= <- <-]. by eexists.
  - intros [= <- <-]. exists (map_infos c). by destruct c.
Qed.

#[local] Ltac flags := constructor; cbn; try assumption; intuition congruence.

Lemma init_core_inv : core_inv init_core.
Proof. by constructor. Qed.

Lemma init_once_inv ok c : core_inv c -> core_inv (xh_core_init_once ok c) /\ inited (xh_core_init_once ok c) = true.
Proof.
  intros Hi. pose proof Hi as [H1 H2 H3 H4 H5 H6]. unfold xh_core_init_once. destruct (inited c) eqn:E; [by split|].
  destruct (sigsegv_enable c); (split; [|done]); flags.
Qed.

Lemma init_async_once_inv ok c : core_inv c -> inited c = true -> core_inv (xh_core_init_async_once ok c).
Proof.
  intros [H1 H2 H3 H4 H5 H6] E. unfold xh_core_init_async_once. destruct (async_inited c) eqn:Ea; [by constructor|].
  destruct (async_init_ok c) eqn:Eo; [intuition congruence|]. destruct ok; flags.
Qed.

Lemma set_maps_inv maps c : core_inv c -> inited c = true -> core_inv (set_maps maps c).
Proof. intros [H1 H2 H3 H4 H5 H6] E. flags. Qed.

Lemma refresh_inv sa co raw_buf async c p r c' p' :
  core_inv c -> xh_core_refresh sa co raw_buf async c p = Ok (r, c', p') -> core_inv c'.
Proof.
  intros Hi. destruct (init_once_inv sa c Hi) as [Hi1 E]. unfold xh_core_refresh. case_match; [by intros [= <- <- <-]|].
  case_match.
  - pose proof (init_async_once_inv co _ Hi1 E) as Ha. case_match; intros [= <- <- <-]; [done|].
    destruct Ha. by constructor.
  - destruct (xh_core_refresh_impl _ _ _) as [[c1 p1]| |] eqn:Er; cbn [rbind]; [|done..].
    intros [= <- <- <-]. destruct (refresh_impl_maps _ _ _ _ _ Er) as [maps ->]. by apply set_maps_inv.
Qed.

(** The state [xh_core_clear] leaves. *)
Definition cleared (c : core) : core :=
  {| hook_infos := []; ignore_infos := []; map_infos := ∅; sigsegv_enable := sigsegv_enable c;
     handler := if init_ok c && sigsegv_enable c then false else handler c; inited := false; init_ok := false;
     async_inited := false; async_init_ok := false; thread_running := false; thread_do := thread_do c; thread := None |}.

Lemma clear_spec raw_buf c p c' p' :
  core_inv c -> xh_core_clear raw_buf c p = Ok (c', p') -> c' = cleared c.
Proof.
  intros [H1 H2 H3 H4 H5 H6]. unfold xh_core_clear, cleared. destruct (async_init_ok c) eqn:Ea; cbn [rbind].
  - assert (Hj : forall c1 p1, join_thread raw_buf (set_async (async_inited c) true false (thread c) c) p = Ok (c1, p1) ->
      exists maps, c1 = set_thread (thread_do c) None (set_maps maps (set_async (async_inited c) true false None c))).
    { intros c1 p1. unfold join_thread. cbn [thread set_async].
      destruct (thread c) as [[]|]; [intros [= <- _]; by exists (map_infos c)| |intros [= <- _]; by exists (map_infos c)].
      destruct (xh_core_refresh_impl _ _ _) as [[c2 p2]| |] eqn:Er; cbn [rbind]; [|done..]. intros [= <- _].
      destruct (refresh_impl_maps _ _ _ _ _ Er) as [maps ->]. by exists maps. }
    destruct (join_thread _ _ _) as [[c1 p1]| |]; cbn [rbind]; [|done..]. destruct (Hj c1 p1 eq_refl) as [maps ->].
    clear. intros [= <- _]. destruct c as [hi ii mi [] ha ini [] ai aio run do_ th]; reflexivity.
  - assert (Ht : thread c = None) by (destruct (thread c); [|done]; intuition congruence).
    clear H1 H3 H4 H5 H6. intros [= <- _].
    destruct c as [hi ii mi [] ha ini [] ai aio run do_ th]; cbn in Ea, Ht, H2; subst; reflexivity.
Qed.

Lemma core_inv_step s s' : core_step s s' -> core_inv s.1 -> core_inv s'.1.
Proof.
  intros Hstep. destruct Hstep as [str symbol new old c p|str symbol c p|flag c p|sa co raw async c p r c' p' Hr
    |raw c p c' p' Hr|raw c p c' p' Hr|c p p']; cbn [fst]; intros Hi.
  - unfold xh_core_register. repeat case_match; cbn; try exact Hi; destruct Hi; by constructor.
  - unfold xh_core_ignore. repeat case_match; cbn; try exact Hi; destruct Hi; by constructor.
  - destruct Hi as [H1 H2 H3 H4 H5 H6]. by constructor.
  - by eapply refresh_inv.
  - rewrite (clear_spec _ _ _ _ _ Hi Hr). by constructor.
  - revert Hr. unfold refresh_thread_step. pose proof Hi as [H1 H2 H3 H4 H5 H6].
    destruct (thread c) as [[]|] eqn:Et; [| |done].
    + assert (Ha : async_init_ok c = true) by by apply H1. rewrite H2, Ha. cbn [negb].
      case_match; [|done]. intros [= <- <-]. flags.
    + destruct (xh_core_refresh_impl _ _ _) as [[c1 p1]| |] eqn:Er; cbn [rbind]; [|done..]. intros [= <- <-].
      destruct (refresh_impl_maps _ _ _ _ _ Er) as [maps ->]. flags.
  - done.
Qed.

Lemma core_reachable_inv c p : reachable c p -> core_inv c.
Proof.
  intros [p0 Hr]. change c with (c, p).1. revert Hr. generalize (c, p). intros s Hr.
  assert (Hi : core_inv (init_core, p0).1) by exact init_core_inv. revert Hi.
  induction Hr as [|s1 s2 s3 Hs _ IH]; [done|]. intros Hi. by apply IH, (core_inv_step s1).
Qed.

(** The next turns of the thread begin a refresh and take the request off. *)
Definition serves (raw_buf : list Z) (c : core) (p : process) : Prop :=
  exists c1, refresh_thread_step raw_buf c p = Some (Ok (c1, p)) /\ thread c1 = Some AtRefresh /\ thread_do c1 = false.

Lemma pending_served raw_buf c p :
  core_inv c -> thread_do c = true -> async_init_ok c = true ->
  (thread c = Some AtWait -> serves raw_buf c p) /\
  (thread c = Some AtRefresh -> forall c1 p1, refresh_thread_step raw_buf c p = Some (Ok (c1, p1)) -> serves raw_buf c1 p1).
Proof.
  intros [H1 H2 H3 H4 H5 H6] Hd Ha. unfold serves, refresh_thread_step. split; intros ->.
  - rewrite H2, Ha, Hd. cbn. by eexists.
  - intros c1 p1. destruct (xh_core_refresh_impl _ _ _) as [[c2 p2]| |] eqn:Er; cbn [rbind]; [|done..]. intros [= <- <-].
    destruct (refresh_impl_maps _ _ _ _ _ Er) as [maps ->]. cbn. rewrite H2, Ha, Hd. cbn. by eexists.
Qed.

(** C30: A refresh requested asynchronously is done.  When the request succeeds it is
    pending and the thread is there; and whatever calls and turns follow, until the
    library is cleared the thread does not wait while a request is pending: its next
    turn begins a refresh, or the turn after the refresh it is in. *)
Theorem async_refresh_served sa co raw_buf c p c' p' :
  reachable c p -> xh_core_refresh sa co raw_buf 1 c p = Ok (0, c', p') ->
  thread_do c' = true /\ async_init_ok c' = true /\
  forall c p, reachable c p -> thread_do c = true -> async_init_ok c = true ->
    (thread c = Some AtWait /\ serves raw_buf c p) \/
    (thread c = Some AtRefresh /\
     forall c1 p1, refresh_thread_step raw_buf c p = Some (Ok (c1, p1)) -> serves raw_buf c1 p1).
Proof.
  intros _ Hr. split; [|split].
  1,2: revert Hr; unfold xh_core_refresh; case_match; [done|]; cbn [truthy Z.eqb negb];
    destruct (async_init_ok (xh_core_init_async_once _ _)) eqn:Ea; cbn [negb]; [|done]; intros [= <- <-]; done.
  clear. intros c p Hr Hd Ha. pose proof (core_reachable_inv c p Hr) as Hi.
  destruct (pending_served raw_buf c p Hi Hd Ha) as [Hw Hf]. pose proof (proj2 (ci_thread _ Hi) Ha) as Ht.
  destruct (thread c) as [[]|] eqn:E; [left|right|done]; (split; [done|]); [by apply Hw|by apply Hf].
Qed.

(** Clearing, in any reachable state, leaves no thread, no library and no request,
    so that the library can be set up again: a request registers. *)
Theorem clear_resets raw_buf c p c' p' str symbol new_func old_func regex :
  reachable c p -> xh_core_clear raw_buf c p = Ok (c', p') -> regcomp str = Some regex -> new_func <> 0 ->
  thread c' = None /\ map_infos c' = ∅ /\ hook_infos c' = [] /\ ignore_infos c' = [] /\
  (sigsegv_enable c = true -> init_ok c = true -> handler c' = false) /\
  let '(r, c'') := xh_core_register (Some str) (Some symbol) new_func old_func c' in
  r = 0 /\ hook_infos c'' = [{| hi_regex := regex; hi_symbol := symbol; hi_new_func := new_func; hi_old_func := old_func |}].
Proof.
  intros Hr Hc Hre Hnew. rewrite (clear_spec _ _ _ _ _ (core_reachable_inv c p Hr) Hc). cbn. split_and!; try done.
  - by intros -> ->.
  - rewrite (proj2 (Z.eqb_neq _ _) Hnew), Hre. done.
Qed.

End Core.

(** ** Witnesses *)

#[local] Existing Instance arm64.

(** The library of XhElf.v: [malloc] and [free] are to be hooked in every library, and
    [free] is ignored there. *)
Definition demo_hook (symbol : list Z) : hook_info (R := unit) :=
  {| hi_regex := tt; hi_symbol := symbol; hi_new_func := 0x6000; hi_old_func := 0x9000 |}.
Definition demo_core : core (R := unit) :=
  set_init true true true
    (set_infos [demo_hook demo_malloc; demo_hook demo_free] [{| ii_regex := tt; ii_symbol := Some demo_free |}] init_core).
Definition demo_process : process :=
  {| hooks := {| hmem := demo_lib; world := (true, false, false); old_func := None; flushed := [] |}; old_funcs := ∅ |}.
Definition demo_any (_ : unit) (_ : list Z) : bool := true.
Definition demo_mappings (w : bool * bool * bool) : list mapping :=
  [ {| region := demo_text; offset := 0; major := 0xfd; minor := 0; inode := codes "12"; pad := 1; path := demo_path |};
    {| region := demo_page w; offset := 0x7000; major := 0xfd; minor := 0; inode := codes "12"; pad := 1; path := demo_path |} ].
Definition demo_hdr (b : Z) : bool := b =? 0x1000.

Lemma demo_mappings_ok w : Forall mapping_ok (demo_mappings w).
Proof.
  apply Forall_cons_2; [|apply Forall_cons_2; [|apply Forall_nil_2]]; destruct w as [[[] []] []];
    apply (bool_decide_unpack _); vm_compute; reflexivity.
Qed.

Lemma demo_lib_ok : lib_ok demo_kernel [] 4 demo_tables demo_lib demo_core demo_so.
Proof.
  constructor.
  - exists demo_tables. split; [done|]. split; [vm_compute; reflexivity|exact demo_library].
  - exact demo_kernel_ok.
  - intros hi [->| ->%list_elem_of_singleton]%elem_of_cons; (split; [|split; [vm_compute; by split|split; [by apply demo_index|]]]).
    + exact demo_no_nul.
    + apply Forall_cons_2; [exact demo_good|apply Forall_nil_2].
    + repeat constructor; lia.
    + apply Forall_nil_2.
Qed.

Lemma demo_headers : headers_ok demo_any demo_tables demo_core (omap candidate (demo_mappings (true, false, false))) demo_hdr.
Proof.
  intros b path Hin _. assert (Hb : omap candidate (demo_mappings (true, false, false)) = [(0x1000, demo_path)]) by reflexivity.
  rewrite Hb in Hin. apply list_elem_of_singleton in Hin as [= -> _]. exists 0. split; [vm_compute; reflexivity|reflexivity].
Qed.

Lemma refresh_patches_witness :
  exists p', xh_core_refresh_impl demo_kernel [] 4 demo_any [] demo_core demo_process =
      Ok (set_maps (foldl add_base ∅ [(0x1000, demo_path)]) demo_core, p') /\
    patched demo_kernel [(0x8010, 0x6000)] (hooks demo_process) (hooks p').
Proof.
  replace [(0x8010, 0x6000)] with (mjoin (lib_writes demo_any demo_core <$> List.filter (unknown demo_core) [demo_so]))
    by (vm_compute; reflexivity).
  apply (refresh_patches demo_kernel [] 4 demo_any [] demo_core demo_process demo_tables (demo_mappings (true, false, false)) demo_hdr
    [demo_so]).
  - apply demo_mappings_ok.
  - vm_compute. reflexivity.
  - apply map_filter_subseteq.
  - apply mem_ok_check. vm_compute. reflexivity.
  - exact demo_headers.
  - reflexivity.
  - apply Forall_cons_2; [exact demo_lib_ok|apply Forall_nil_2].
Defined.

(** The state after a refresh. *)
Definition demo_after : core (R := unit) * process :=
  match xh_core_refresh_impl demo_kernel [] 4 demo_any [] demo_core demo_process with
  | Ok r => r
  | _ => (demo_core, demo_process)
  end.

Lemma demo_stable :
  stable demo_kernel [] 4 demo_any demo_core (omap candidate (demo_mappings (true, false, false)))
    (first_bases demo_any demo_hdr demo_core (omap candidate (demo_mappings (true, false, false))) ∅) demo_hdr
    (fun p => valid demo_tables demo_lib (hooks p)).
Proof.
  apply (libs_stable demo_kernel [] 4 demo_any demo_tables demo_lib demo_core _ demo_hdr [demo_so] demo_headers).
  apply Forall_cons_2; [exact demo_lib_ok|apply Forall_nil_2].
Qed.

Lemma refresh_again_witness :
  let '(c', p') := demo_after in
  xh_core_refresh_impl demo_kernel [] 4 demo_any [1; 2] c' p' = Ok (c', p').
Proof.
  rewrite (surjective_pairing demo_after).
  apply (refresh_again demo_kernel [] 4 demo_any [] [1; 2] demo_core demo_process (fst demo_after) (snd demo_after)
    (demo_mappings (true, false, false)) (demo_mappings (true, false, false)) demo_hdr
    (fun p => valid demo_tables demo_lib (hooks p))).
  - apply demo_mappings_ok.
  - vm_compute. reflexivity.
  - exact demo_stable.
  - constructor; [apply mem_ok_check; vm_compute; reflexivity|apply map_filter_subseteq|done].
  - vm_compute. reflexivity.
  - apply demo_mappings_ok.
  - vm_compute. reflexivity.
  - reflexivity.
Defined.

Definition demo_asked : core (R := unit) := set_thread true (Some AtWait) (set_async true true true (Some AtWait) (set_init true true true init_core)).

Lemma async_refresh_served_witness :
  thread_do demo_asked = true /\ async_init_ok demo_asked = true /\
  forall c p, reachable demo_kernel [] 4 demo_any (fun _ => Some tt) c p -> thread_do c = true -> async_init_ok c = true ->
    (thread c = Some AtWait /\ serves demo_kernel [] 4 demo_any [] c p) \/
    (thread c = Some AtRefresh /\
     forall c1 p1, refresh_thread_step demo_kernel [] 4 demo_any [] c p = Some (Ok (c1, p1)) ->
       serves demo_kernel [] 4 demo_any [] c1 p1).
Proof.
  apply (async_refresh_served demo_kernel [] 4 demo_any (fun _ => Some tt) true true [] init_core demo_process demo_asked demo_process).
  - exists demo_process. apply rtc_refl.
  - reflexivity.
Defined.

Lemma clear_resets_witness :
  let c' := cleared demo_asked in
  thread c' = None /\ map_infos c' = ∅ /\ hook_infos c' = [] /\ ignore_infos c' = [] /\
  (sigsegv_enable demo_asked = true -> init_ok demo_asked = true -> handler c' = false) /\
  let '(r, c'') := xh_core_register (fun _ => Some tt) (Some demo_path) (Some demo_malloc) 0x6000 0 c' in
  r = 0 /\ hook_infos c'' = [{| hi_regex := tt; hi_symbol := demo_malloc; hi_new_func := 0x6000; hi_old_func := 0 |}].
Proof.
  apply (clear_resets demo_kernel [] 4 demo_any (fun _ => Some tt) [] demo_asked demo_process (cleared demo_asked) demo_process).
  - exists demo_process. apply rtc_once.
    apply (step_refresh _ _ _ _ _ true true [] 1 init_core demo_process 0 demo_asked demo_process). reflexivity.
  - reflexivity.
  - reflexivity.
  - done.
Defined.
