(* ===== verification/MapData.v ===== *)
(** cpp/MapData.h and cpp/MapData.cpp: the address map.  An ordered set of the mappings of
    the maps file, filled when an address is not in it, and the load bias of a library, read
    from the ELF header in its memory when an address of it is asked for first. *)
From stdpp Require Import sorting.
From S2P Require Import Prelude Memory CString XhReloc XhUtil XhElf XdlIterate PltGot XhCore.

#[local] Arguments rbind {_ _} !_ _ /.

Section MapData.
Context `{Arch}.

(** [offset] and [load_base] are [None] until they are written. *)
Record MapEntry := { start : Z; end_ : Z; offset : option Z; load_base : option Z; load_base_read : bool; name : list Z }.
Definition set_load_base (b : Z) (e : MapEntry) : MapEntry :=
  {| start := start e; end_ := end_ e; offset := offset e; load_base := Some b; load_base_read := true; name := name e |}.
Definition new_entry (start end_ offset : Z) (name : list Z) : MapEntry :=
  {| start := start; end_ := end_; offset := Some offset; load_base := None; load_base_read := false; name := name |}.
Definition pc_entry (pc : Z) : MapEntry :=
  {| start := pc; end_ := pc; offset := None; load_base := None; load_base_read := false; name := [] |}.

Definition compare_entries (a b : MapEntry) : bool := end_ a <=? start b.

(** ** A line of the maps file *)

(** [name.rfind(p, pos)]: the last occurrence that does not begin behind [pos]. *)
Fixpoint rfind (s p : list Z) (pos : nat) : option nat :=
  if bool_decide (take (length p) (drop pos s) = p) then Some pos
  else match pos with O => None | S pos' => rfind s p pos' end.
Definition so_suffix : list Z := codes ".so".

(** The conversions behind the bounds, [" %4s %"PRIxPTR" %*x:%*x %*d %n"]: permissions, offset
    and what [name_pos] points at. *)
Definition scan_info (s : list Z) : option (list Z * Z * list Z) :=
  match scan_word 4 (skip_spaces s) with
  | Some (permissions, s) =>
      match scan_hex s with
      | Some (offset, s) => match scan_device s with Some s => Some (permissions, offset, skip_spaces s) | None => None end
      | None => None
      end
  | None => None
  end.

(** [None] is [nullptr], for a line without bounds.  The other locals have no value when
    [sscanf] does not reach [%n]. *)
Definition parse_line (line : list Z) : res (option MapEntry) :=
  match scan_hex (until_nul line) with
  | None => Ok None
  | Some (start, s) =>
      match scan_lit 45 s with
      | None => Ok None
      | Some s =>
          match scan_hex s with
          | None => Ok None
          | Some (end_, s) =>
              let! (permissions, offset, name) := of_opt (scan_info s) in
              let name := match rev name with c :: r => if c =? NL then rev r else name | [] => [] end in
              let name_len := length name in
              let entry := new_entry start end_ offset name in
              if negb (bool_decide (permissions !! 0%nat = Some 114)) || (name_len <? 3)%nat ||
                 negb (bool_decide (rfind name so_suffix (name_len - 3) = Some (name_len - 3)%nat))
              then Ok (Some (set_load_base 0 entry))
              else Ok (Some entry)
          end
      end
  end.

(** ** The load base *)

(** [get_val<T>] with [sizeof(T) = n]; [None] is [false]. *)
Definition get_val (m : mem) (entry : MapEntry) (n addr : Z) : res (option Z) :=
  if (addr <? start entry) || (end_ entry <? up (addr + n)) then Ok None
  else if negb (addr .& (n - 1) =? 0) then Ok None
  else let! v := of_opt (load m (Z.to_nat n) addr) in Ok (Some v).

(** The loop over [n] more program headers, with the [load_base] it ends with. *)
Fixpoint load_base_loop (n : nat) (m : mem) (entry : MapEntry) (addr : Z) : res Z :=
  match n with
  | O => Ok 0
  | S n' =>
      let! p_type := get_val m entry 4 addr in
      match p_type with
      | None => Ok 0
      | Some p_type =>
          let! p_offset := get_val m entry ptr_size (up (addr + ptr_size)) in
          match p_offset with
          | None => Ok 0
          | Some p_offset =>
              let! found := if p_type =? PT_LOAD then let! o := of_opt (offset entry) in Ok (p_offset =? o) else Ok false in
              if found : bool then
                let! p_vaddr := get_val m entry ptr_size (up (addr + 2 * ptr_size)) in
                match p_vaddr with None => Ok 0 | Some p_vaddr => Ok p_vaddr end
              else load_base_loop n' m entry (up (addr + phdr_size))
          end
      end
  end.
Definition read_loadbase (m : mem) (entry : MapEntry) : res MapEntry :=
  let addr := start entry in
  let! e_phnum := get_val m entry 2 (up (addr + if lp64 then 56 else 44)) in
  match e_phnum with
  | None => Ok (set_load_base 0 entry)
  | Some e_phnum =>
      let! e_phoff := get_val m entry ptr_size (up (addr + if lp64 then 32 else 28)) in
      match e_phoff with
      | None => Ok (set_load_base 0 entry)
      | Some e_phoff =>
          let! b := load_base_loop (Z.to_nat e_phnum) m entry (up (addr + e_phoff)) in
          Ok (set_load_base b entry)
      end
  end.

(** ** The set

    [std::set<MapEntry*, compare_entries>] as the list of its elements in their order. *)

Fixpoint lower_bound (k : MapEntry) (entries : list MapEntry) : nat :=
  match entries with [] => O | e :: es => if compare_entries e k then S (lower_bound k es) else O end.
Definition set_find (k : MapEntry) (entries : list MapEntry) : option nat :=
  let i := lower_bound k entries in
  match entries !! i with Some e => if compare_entries k e then None else Some i | None => None end.
Definition set_insert (k : MapEntry) (entries : list MapEntry) : list MapEntry :=
  match set_find k entries with
  | Some _ => entries
  | None => take (lower_bound k entries) entries ++ k :: drop (lower_bound k entries) entries
  end.

(** The loop of [ReadMaps] over the lines [fgets] returns. *)
Fixpoint read_lines (lines : list (list Z)) (entries_ : list MapEntry) : res (bool * list MapEntry) :=
  match lines with
  | [] => Ok (true, entries_)
  | line :: lines =>
      let! entry := parse_line line in
      match entry with
      | None => Ok (false, entries_)
      | Some entry =>
          read_lines lines (match set_find entry entries_ with None => set_insert entry entries_ | Some _ => entries_ end)
      end
  end.
Definition BUFFER_SIZE : nat := 1024.
(** [maps]: the file, when it can be opened. *)
Definition ReadMaps (maps : option (list Z)) (entries_ : list MapEntry) : res (bool * list MapEntry) :=
  match maps with
  | None => Ok (false, entries_)
  | Some file => read_lines (fgets_all (BUFFER_SIZE - 1) [] file) entries_
  end.

(** The entry and, when [rel_pc] is not NULL, what is stored there. *)
Definition find (m : mem) (maps : option (list Z)) (pc : Z) (rel_pc : bool) (entries_ : list MapEntry)
  : res (option (MapEntry * option Z) * list MapEntry) :=
  let! entries_ := match set_find (pc_entry pc) entries_ with
                   | None => let! (ok, entries_) := ReadMaps maps entries_ in Ok entries_
                   | Some _ => Ok entries_
                   end in
  match set_find (pc_entry pc) entries_ with
  | None => Ok (None, entries_)
  | Some i =>
      let! entry := of_opt (entries_ !! i) in
      let! entry := if load_base_read entry then Ok entry else read_loadbase m entry in
      let! rel := if rel_pc then let! b := of_opt (load_base entry) in Ok (Some (up (pc - start entry + b))) else Ok None in
      Ok (Some (entry, rel), <[i := entry]> entries_)
  end.

(** ** The set's order *)

(** The addresses [find] takes to be in a mapping: not its first one. *)
Definition holds (pc : Z) (e : MapEntry) : Prop := start e < pc < end_ e.
#[global] Instance holds_dec pc e : Decision (holds pc e).
Proof. unfold holds. apply _. Defined.

Definition entry_ok (e : MapEntry) : Prop :=
  0 <= start e < end_ e /\ end_ e < 2 ^ ptr_bits /\ is_Some (offset e) /\
  (load_base_read e = true -> is_Some (load_base e)).
Definition below (a b : MapEntry) : Prop := end_ a <= start b.
Definition entries_ok (es : list MapEntry) : Prop := StronglySorted below es /\ Forall entry_ok es.

Lemma lower_bound_split k es :
  exists b a, es = b ++ a /\ lower_bound k es = length b /\ Forall (fun e => end_ e <= start k) b /\
    match a with e :: _ => start k < end_ e | [] => True end.
Proof.
  induction es as [|e es (b & a & -> & Hl & Hb & Ha)]; [by exists [], []|]. cbn [lower_bound]. unfold compare_entries.
  destruct (Z.leb_spec (end_ e) (start k)).
  - exists (e :: b), a. rewrite Hl. repeat split; [|done]. by constructor.
  - exists [], (e :: b ++ a). by repeat split.
Qed.

(** What [set_find] returns: the first entry that does not end before [k], unless it begins
    behind it. *)
Lemma set_find_split k es :
  exists b a, es = b ++ a /\ lower_bound k es = length b /\ Forall (fun e => end_ e <= start k) b /\
    match a with
    | [] => set_find k es = None
    | e :: _ => start k < end_ e /\ set_find k es = if end_ k <=? start e then None else Some (length b)
    end.
Proof.
  destruct (lower_bound_split k es) as (b & a & -> & Hl & Hb & Ha). exists b, a. unfold set_find. rewrite Hl.
  split; [done|split; [done|split; [done|]]]. rewrite lookup_app_r, Nat.sub_diag by done. by destruct a.
Qed.

Lemma set_find_Some k es i :
  set_find k es = Some i -> exists e, es !! i = Some e /\ start k < end_ e /\ start e < end_ k.
Proof.
  destruct (set_find_split k es) as (b & [|e a] & -> & _ & _ & Ha); [by rewrite Ha|]. destruct Ha as [Hlt ->].
  destruct (Z.leb_spec (end_ k) (start e)); [done|]. intros [= <-]. exists e. by rewrite list_lookup_middle.
Qed.

(** The order makes the rest of the list irrelevant. *)
Lemma set_find_None k es :
  entries_ok es -> set_find k es = None ->
  exists b a, es = b ++ a /\ lower_bound k es = length b /\ Forall (fun e => end_ e <= start k) b /\
    Forall (fun e => end_ k <= start e) a.
Proof.
  intros [Hs Hok] Hf. destruct (set_find_split k es) as (b & a & -> & Hl & Hb & Ha). exists b, a.
  split; [done|split; [done|split; [done|]]]. destruct a as [|e a]; [constructor|]. destruct Ha as [Hlt Ha].
  rewrite Hf in Ha. destruct (Z.leb_spec (end_ k) (start e)) as [Hke|]; [|done].
  apply StronglySorted_app_1_r, StronglySorted_cons in Hs as [Hs _].
  apply Forall_app in Hok as [_ [(He & _) _]%Forall_cons].
  constructor; [done|]. eapply Forall_impl; [exact Hs|]. unfold below. cbn. lia.
Qed.

Lemma set_find_pc pc es :
  entries_ok es ->
  match set_find (pc_entry pc) es with
  | Some i => exists e, es !! i = Some e /\ holds pc e
  | None => Forall (fun e => ~ holds pc e) es
  end.
Proof.
  intros Hok. destruct (set_find (pc_entry pc) es) as [i|] eqn:E.
  { apply set_find_Some in E as (e & He & H1 & H2). exists e. unfold holds. cbn in *. split; [done|lia]. }
  apply set_find_None in E as (b & a & -> & _ & Hb & Ha); [|done]. unfold holds. cbn [start end_ pc_entry] in *.
  apply Forall_app. split; (eapply Forall_impl; [eassumption|]; cbn; lia).
Qed.

Lemma entries_disjoint es e e' : entries_ok es -> e ∈ es -> e' ∈ es -> e = e' \/ below e e' \/ below e' e.
Proof.
  intros [Hs _] He He'. induction Hs as [|x es Hs IH Hx]; [by apply not_elem_of_nil in He|]. rewrite Forall_forall in Hx.
  apply elem_of_cons in He as [->|He], He' as [->|He']; [by left|right; left|right; right|by apply IH]; by apply Hx.
Qed.

(** Two entries of the set never hold the same address. *)
Lemma holds_unique pc es e e' : entries_ok es -> e ∈ es -> e' ∈ es -> holds pc e -> holds pc e' -> e = e'.
Proof.
  intros Hok He He'. unfold holds. destruct (entries_disjoint es e e' Hok He He') as [|[Hb|Hb]]; [done|unfold below in Hb; lia..].
Qed.

(** The set of the addresses an entry covers, and where it comes from. *)
Definition extent (e : MapEntry) : Z * Z * option Z * list Z := (start e, end_ e, offset e, name e).

(** A new entry is recorded unless it overlaps one. *)
Definition add_entry (es : list MapEntry) (e : MapEntry) : list MapEntry :=
  match set_find e es with None => set_insert e es | Some _ => es end.

Lemma add_entry_ok es e :
  entries_ok es -> entry_ok e -> entries_ok (add_entry es e) /\ es `sublist_of` add_entry es e.
Proof.
  intros Hes He. unfold add_entry. destruct (set_find e es) eqn:E; [done|]. unfold set_insert. rewrite E.
  destruct (set_find_None e es Hes E) as (b & a & -> & -> & Hb & Ha). destruct Hes as [Hs Hok].
  rewrite take_app_length, drop_app_length.
  apply StronglySorted_app in Hs as (Hba & Hsb & Hsa). apply Forall_app in Hok as [Hob Hoa].
  split; [split|].
  - apply StronglySorted_app. rewrite StronglySorted_cons. rewrite Forall_forall in Hb. split; [|by split_and!].
    intros x y Hx [->|Hy]%elem_of_cons; [by apply Hb|by apply Hba].
  - apply Forall_app. split; [done|by constructor].
  - apply sublist_app; [done|]. by apply sublist_cons.
Qed.

Lemma add_entry_in es e x : x ∈ add_entry es e -> x ∈ es \/ x = e.
Proof.
  unfold add_entry. destruct (set_find e es) eqn:E; [by left|]. unfold set_insert. rewrite E.
  destruct (lower_bound_split e es) as (b & a & -> & -> & _). rewrite take_app_length, drop_app_length. set_solver.
Qed.

(** Behind all others an entry is appended. *)
Lemma add_entry_last es e : Forall (fun x => end_ x <= start e) es -> add_entry es e = es ++ [e].
Proof.
  intros Hes. destruct (set_find_split e es) as (b & [|x a] & -> & Hl & Hb & Ha).
  - unfold add_entry, set_insert. rewrite Ha, Hl, take_app_length, drop_app_length. by rewrite app_nil_r.
  - destruct Ha as [Ha _]. apply Forall_app in Hes as [_ [Hx _]%Forall_cons]. lia.
Qed.

Lemma add_entries_ok es new :
  entries_ok es -> Forall entry_ok new ->
  entries_ok (foldl add_entry es new) /\ es `sublist_of` foldl add_entry es new /\
  (forall x, x ∈ foldl add_entry es new -> x ∈ es \/ x ∈ new).
Proof.
  intros Hes Hnew. revert es Hes. induction Hnew as [|e new He Hnew IH]; intros es Hes; cbn [foldl].
  { split; [done|split; [done|by left]]. }
  destruct (add_entry_ok es e Hes He) as [Hok Hsub]. destruct (IH _ Hok) as (Hok' & Hsub' & Hin).
  split; [done|]. split; [by etrans|]. intros x [Hx|Hx]%Hin; [|by right; right].
  apply add_entry_in in Hx as [Hx| ->]; [by left|right; by left].
Qed.

Lemma add_entries_fresh es new :
  StronglySorted below (es ++ new) -> foldl add_entry es new = es ++ new.
Proof.
  revert es. induction new as [|e new IH]; intros es Hs; cbn [foldl]; [by rewrite app_nil_r|].
  rewrite add_entry_last.
  - change (e :: new) with ([e] ++ new) in Hs |- *. rewrite app_assoc in Hs |- *. by apply IH.
  - apply Forall_forall. intros x Hx. apply (StronglySorted_app_1_elem_of below es (e :: new)); [done..|by left].
Qed.

(** ** The kernel's file *)

(** Whether a path ends in ".so". *)
Definition is_so (p : list Z) : bool := bool_decide (take 3 (drop (length p - 3) p) = so_suffix).
(** The mappings whose load base is read from memory. *)
Definition elf_mapping (x : mapping) : bool := readable (region x) && is_so (path x).
Definition entry_of (x : mapping) : MapEntry :=
  let e := new_entry (lo (region x)) (hi (region x)) (XhCore.offset x) (path x) in
  if elf_mapping x then e else set_load_base 0 e.

(** From the last position where it fits, [rfind] finds the suffix or something before it. *)
Lemma rfind_suffix p :
  negb (bool_decide (rfind p so_suffix (length p - 3) = Some (length p - 3)%nat)) = negb (is_so p).
Proof.
  f_equal. unfold is_so. apply bool_decide_ext. change 3%nat with (length so_suffix) at 3.
  remember (length p - 3)%nat as n eqn:E. clear E.
  assert (Hle : forall k i, rfind p so_suffix k = Some i -> (i <= k)%nat).
  { intros k. induction k as [|k IH]; intros i; cbn [rfind]; case_bool_decide; intros Hk;
      [injection Hk; lia|done|injection Hk; lia|]. apply IH in Hk. lia. }
  destruct n as [|n]; cbn [rfind]; case_bool_decide as Hs; split; try done.
  intros Hk. apply Hle in Hk. lia.
Qed.

Lemma is_so_short p : is_so p = true -> (3 <= length p)%nat.
Proof.
  unfold is_so. intros Hp%bool_decide_eq_true. apply (f_equal length) in Hp.
  rewrite length_take, length_drop in Hp. change (length so_suffix) with 3%nat in Hp. lia.
Qed.

Lemma line_no_nul x : mapping_form x -> no_nul (head_text x ++ tail_text x).
Proof.
  intros Hx. destruct Hx as (_ & _ & _ & _ & _ & _ & _ & Hi & _ & Hp & _).
  assert (Hhex : forall n v, no_nul (hex_of n v)).
  { intros n v. eapply Forall_impl; [apply hex_of_chars|]. by intros ? [? _]. }
  assert (Hd : no_nul (inode x)) by (eapply Forall_impl; [exact Hi|]; cbn; lia).
  assert (Hperm : no_nul (perms (region x))).
  { unfold perms. repeat constructor; repeat case_match; done. }
  unfold head_text, tail_text, no_nul, NL in *.
  repeat first [done | apply Forall_nil_2 | apply Hhex | by apply Forall_replicate |
                apply Forall_app; split | apply Forall_cons; split].
Qed.

Lemma until_nul_all s : no_nul s -> until_nul s = s.
Proof. induction 1 as [|c s Hc _ IH]; [done|]. cbn. destruct (Z.eqb_spec c 0); [done|by rewrite IH]. Qed.

(** A line of the kernel's file gives the entry of its mapping. *)
Lemma parse_mapping x : mapping_form x -> parse_line (text_line (vma_text (region x))) = Ok (Some (entry_of x)).
Proof.
  intros Hx. pose proof (device_scan x Hx) as Hdev. pose proof (line_no_nul x Hx) as Hnul.
  rewrite (mapping_line x Hx). unfold parse_line. rewrite (until_nul_all _ Hnul). clear Hnul.
  destruct Hx as (Hv & Hi & Ho & Hop & _ & _ & _ & _ & _ & _ & Hfirst). destruct Hv as (Hw & Hlo & Hlt & Hhi & Hp & _).
  unfold head_text. rewrite <- !app_assoc. rewrite hex_scan by (done || lia). cbn [app scan_lit Z.eqb Pos.eqb].
  rewrite <- !app_assoc. rewrite hex_scan by (done || lia). cbn [app].
  unfold scan_info. rewrite <- !app_assoc. cbn [app]. rewrite perms_word. rewrite <- !app_assoc.
  rewrite hex_space by (done || lia). cbn [app]. rewrite <- !app_assoc. cbn [app]. rewrite <- !app_assoc. cbn [app].
  rewrite Hdev. cbn [of_opt rbind]. clear Hdev.
  assert (Hname : skip_spaces (tail_text x) = match path x with [] => [] | p => p ++ [NL] end).
  { unfold tail_text. induction (pad x) as [|n IH]; [|exact IH]. cbn [replicate app].
    destruct (path x) as [|c l]; [done|]. cbn [app skip_spaces]. by rewrite Hfirst. }
  assert (Hcut : match rev (skip_spaces (tail_text x)) with
                 | c :: r => if c =? NL then rev r else skip_spaces (tail_text x) | [] => [] end = path x).
  { rewrite Hname. destruct (path x) as [|c l]; [done|]. rewrite rev_app_distr. cbn [rev app].
    rewrite Z.eqb_refl. change (rev l ++ [c]) with (rev (c :: l)). apply rev_involutive. }
  rewrite Hcut. clear Hcut Hname. rewrite rfind_suffix. unfold entry_of, elf_mapping.
  assert (Hr : bool_decide (perms (region x) !! 0%nat = Some 114) = readable (region x)).
  { unfold perms. by destruct (readable (region x)). }
  rewrite Hr. destruct (readable (region x)); [|done]. cbn [negb orb andb].
  destruct (is_so (path x)) eqn:Eso; cbn [negb]; [|by rewrite orb_true_r].
  apply is_so_short in Eso. destruct (Nat.ltb_spec (length (path x)) 3); [lia|done].
Qed.

Lemma entry_of_ok x : mapping_form x -> entry_ok (entry_of x).
Proof.
  intros ((Hw & Hlo & Hlt & Hhi & Hp & _) & _). unfold entry_of, entry_ok.
  destruct (elf_mapping x); cbn; split_and!; try lia; by eexists.
Qed.

(** A line of the kernel's that fits the buffer of 1024 characters. *)
Definition line_ok (x : mapping) : Prop := mapping_form x /\ (length (vma_text (region x)) < 1023)%nat.
#[global] Instance line_ok_dec x : Decision (line_ok x).
Proof. unfold line_ok. apply _. Defined.

(** [ReadMaps] on the kernel's file: it reads all of it. *)
Lemma read_maps_ok l es :
  Forall line_ok l -> ReadMaps (Some (maps_file l)) es = Ok (true, foldl add_entry es (entry_of <$> l)).
Proof.
  intros Hl. unfold ReadMaps, maps_file, maps_text. rewrite fgets_all_lines.
  - revert es. induction Hl as [|x l Hx Hl IH]; intros es; [done|]. cbn [fmap list_fmap read_lines].
    rewrite (parse_mapping x (proj1 Hx)). cbn [rbind]. apply IH.
  - apply form_lines_ok, Forall_fmap. eapply Forall_impl; [exact Hl|]. by intros x [[Hv _] Hlen].
Qed.

(** ** The load base *)

(** The sizes [get_val] is used with. *)
Definition size_ok (n : Z) : Prop := n = 2 \/ n = 4 \/ n = ptr_size.

Lemma size_ok_pow n : size_ok n -> exists k, 0 < k < 4 /\ n = 2 ^ k.
Proof.
  unfold size_ok, ptr_size. intros [->|[->| ->]]; [by exists 1|by exists 2|]. destruct lp64; [by exists 3|by exists 2].
Qed.
Lemma aligned_mod n a : size_ok n -> (a .& (n - 1) =? 0) = (a mod n =? 0).
Proof.
  intros (k & Hk & ->)%size_ok_pow. rewrite <- (Z.land_ones a k) by lia. by rewrite Z.ones_equiv.
Qed.
Lemma space_mod n : size_ok n -> 2 ^ ptr_bits mod n = 0.
Proof. unfold size_ok, ptr_size, ptr_bits. intros [->|[->| ->]]; by destruct lp64. Qed.

(** The bounds check admits the aligned addresses of the mapping and, for a mapping below it,
    the last word of the address space. *)
Lemma get_val_spec m e n addr :
  size_ok n -> 0 <= start e < end_ e -> end_ e < 2 ^ ptr_bits -> addr < 2 ^ ptr_bits ->
  get_val m e n addr =
    if bool_decide (addr mod n = 0 /\ start e <= addr /\ (addr + n <= end_ e \/ addr = 2 ^ ptr_bits - n))
    then let! v := of_opt (load m (Z.to_nat n) addr) in Ok (Some v) else Ok None.
Proof.
  intros Hn Hs He Ha. unfold get_val. rewrite (aligned_mod n addr Hn). pose proof (space_mod n Hn) as Hspace.
  assert (Hpos : 2 <= n) by (unfold size_ok, ptr_size in Hn; destruct lp64; lia).
  destruct (Z.ltb_spec addr (start e)); cbn [orb]; [by rewrite bool_decide_false by (intros (_ & ? & [?|?]); lia)|].
  destruct (Z.eqb_spec (addr mod n) 0) as [Hal|Hal]; cbn [negb].
  2:{ rewrite bool_decide_false by (intros [? _]; done). by destruct (end_ e <? up (addr + n)). }
  destruct (Z.leb_spec (2 ^ ptr_bits - n) addr) as [Htop|Htop].
  - assert (addr = 2 ^ ptr_bits - n) as ->.
    { assert (Hd : (2 ^ ptr_bits - addr) mod n = 0) by (rewrite Zminus_mod, Hspace, Hal; apply Z.mod_0_l; lia).
      apply Z.mod_divide in Hd as [q Hq]; [|lia]. assert (Hb : 0 < q * n <= n) by lia.
      assert (q = 1) by nia. subst q. lia. }
    rewrite bool_decide_true by (split_and!; [done|lia|by right]). replace (2 ^ ptr_bits - n + n) with (2 ^ ptr_bits) by lia.
    assert (Hup : up (2 ^ ptr_bits) = 0) by (unfold up, uwrap; apply Z.mod_same; lia).
    rewrite Hup. destruct (Z.ltb_spec (end_ e) 0); [|done]. lia.
  - rewrite up_small by lia. destruct (Z.ltb_spec (end_ e) (addr + n));
      [rewrite bool_decide_false by (intros (_ & ? & [?|?]); lia)|rewrite bool_decide_true by (split_and!; [done|lia|left; lia])]; done.
Qed.

Lemma in_bounds m e n addr v :
  entry_ok e -> size_ok n -> addr mod n = 0 -> start e <= addr -> addr + n <= end_ e ->
  load m (Z.to_nat n) addr = Some v -> get_val m e n addr = Ok (Some v).
Proof.
  intros (Hs & He & _) Hn Ha Hlo Hhi Hl.
  assert (Hpos : 2 <= n) by (unfold size_ok, ptr_size in Hn; destruct lp64; lia).
  rewrite get_val_spec by (done || lia). rewrite bool_decide_true by (split_and!; [done|done|by left]). by rewrite Hl.
Qed.

(** Reading stays in a mapped mapping: it can fault in the last word of the address space only. *)
Definition top_readable (m : mem) : Prop := forall n, size_ok n -> is_Some (load m (Z.to_nat n) (2 ^ ptr_bits - n)).

Lemma get_val_total m e n addr :
  entry_ok e -> size_ok n -> addr < 2 ^ ptr_bits -> mapped m (start e) (end_ e - start e) -> top_readable m ->
  exists v, get_val m e n addr = Ok v.
Proof.
  intros (Hs & He & _) Hn Ha Hm Ht. rewrite get_val_spec by done. case_bool_decide as Hin; [|by eexists].
  assert (Hpos : 2 <= n) by (unfold size_ok, ptr_size in Hn; destruct lp64; lia).
  destruct Hin as (_ & Hlo & [Hhi| ->]).
  - destruct (load_mapped m (Z.to_nat n) addr) as [v ->]; [|by eexists]. intros i Hi.
    replace (addr + i) with (start e + (addr - start e + i)) by lia. apply Hm. lia.
  - destruct (Ht n Hn) as [v ->]. by eexists.
Qed.

Lemma up_lt x : up x < 2 ^ ptr_bits.
Proof. apply uwrap_range. unfold ptr_bits. by destruct lp64. Qed.
Lemma sizes : size_ok 2 /\ size_ok 4 /\ size_ok ptr_size.
Proof. unfold size_ok. tauto. Qed.

Lemma read_loadbase_total m e :
  entry_ok e -> mapped m (start e) (end_ e - start e) -> top_readable m ->
  exists b, read_loadbase m e = Ok (set_load_base b e).
Proof.
  intros He Hm Ht. destruct sizes as (S2 & S4 & Sp). unfold read_loadbase.
  destruct (get_val_total m e 2 (up (start e + (if lp64 then 56 else 44))) He S2 (up_lt _) Hm Ht) as [[n|] ->];
    cbn [rbind]; [|by eexists].
  destruct (get_val_total m e ptr_size (up (start e + (if lp64 then 32 else 28))) He Sp (up_lt _) Hm Ht) as [[off|] ->];
    cbn [rbind]; [|by eexists].
  assert (Hloop : forall n addr, addr < 2 ^ ptr_bits -> exists b, load_base_loop n m e addr = Ok b).
  { clear n off. intros n. induction n as [|n IH]; intros addr Ha; cbn [load_base_loop]; [by eexists|].
    destruct (get_val_total m e 4 addr He S4 Ha Hm Ht) as [[ty|] ->]; cbn [rbind]; [|by eexists].
    destruct (get_val_total m e ptr_size (up (addr + ptr_size)) He Sp (up_lt _) Hm Ht) as [[o|] ->]; cbn [rbind]; [|by eexists].
    destruct He as (? & ? & [eo Heo] & ?). rewrite Heo. cbn [of_opt rbind].
    assert (Hf : exists f, (if ty =? PT_LOAD then Ok (o =? eo) else Ok false) = Ok (f : bool)) by (destruct (_ =? _); by eexists).
    destruct Hf as [[] ->]; cbn [rbind]; [|apply IH, up_lt].
    destruct (get_val_total m e ptr_size (up (addr + 2 * ptr_size))) as [[v|] ->]; cbn [rbind]; try done; try apply up_lt;
      by eexists || split_and!. }
  destruct (Hloop (Z.to_nat n) (up (start e + off)) (up_lt _)) as [b ->]. cbn [rbind]. by eexists.
Qed.

(** A library's headers at the start of a mapping, all of them inside. *)
Record image (m : mem) (e : MapEntry) (off : Z) (segs : list seg) : Prop := {
  i_align : start e mod ptr_size = 0 /\ off mod ptr_size = 0;
  i_phnum : e_phnum m (start e) = Some (Z.of_nat (length segs));
  i_phoff : e_phoff m (start e) = Some off;
  i_fits : 64 <= off /\ start e + off + Z.of_nat (length segs) * phdr_size <= end_ e;
  i_segs : segs_at m (start e + off) segs
}.
(** The load base: the virtual address of the segment mapped from the file's offset [o]. *)
Definition bias_of (o : Z) (segs : list seg) : Z :=
  match first_seg (fun s => (s_type s =? PT_LOAD) && (s_off s =? o)) segs with Some s => s_vaddr s | None => 0 end.

Lemma mod_ptr a k n : a mod ptr_size = 0 -> size_ok n -> k mod n = 0 -> (a + k) mod n = 0.
Proof.
  unfold size_ok, ptr_size. destruct lp64; intros Ha [->|[->| ->]] Hk; Z.to_euclidean_division_equations; lia.
Qed.

Lemma in_bounds_ptr m e n a k v :
  entry_ok e -> size_ok n -> a mod ptr_size = 0 -> k mod n = 0 -> 0 <= k -> start e <= a -> a + k + n <= end_ e ->
  load m (Z.to_nat n) (a + k) = Some v -> get_val m e n (up (a + k)) = Ok (Some v).
Proof.
  intros He Hn Ha Hk Hpos Hlo Hhi Hl. pose proof He as ((Hs & _) & Hend & _).
  assert (2 <= n) by (unfold size_ok, ptr_size in Hn; destruct lp64; lia).
  rewrite up_small by lia. apply in_bounds; [done..|by apply mod_ptr|lia|lia|done].
Qed.

Lemma load_base_loop_ok m e o segs addr :
  entry_ok e -> offset e = Some o -> addr mod ptr_size = 0 -> start e <= addr ->
  addr + Z.of_nat (length segs) * phdr_size <= end_ e -> segs_at m addr segs ->
  load_base_loop (length segs) m e addr = Ok (bias_of o segs).
Proof.
  intros He Ho. destruct sizes as (_ & S4 & Sp). revert addr.
  assert (Hps : 0 < ptr_size /\ 4 <= ptr_size /\ 3 * ptr_size <= phdr_size /\ phdr_size mod ptr_size = 0).
  { unfold ptr_size, phdr_size. destruct lp64; split_and!; done. }
  destruct Hps as (Hp0 & Hp4 & Hp3 & Hpm).
  induction segs as [|s segs IH]; intros addr Ha Hlo Hhi Hat; [done|]. cbn [length load_base_loop].
  destruct (Hat 0%nat s eq_refl) as (Ht & Hof & Hv & _). rewrite Z.add_0_r in Ht, Hof, Hv.
  cbn [length] in Hhi. pose proof He as ((Hs & _) & Hend & _).
  replace (Z.of_nat (S (length segs)) * phdr_size) with (phdr_size + Z.of_nat (length segs) * phdr_size) in Hhi by lia.
  assert (Hrest : 0 <= Z.of_nat (length segs) * phdr_size) by (apply Z.mul_nonneg_nonneg; lia).
  pose proof (in_bounds_ptr m e 4 addr 0 (s_type s) He S4 Ha eq_refl) as H1.
  rewrite Z.add_0_r, up_small in H1 by lia. rewrite H1 by (done || lia). cbn [rbind].
  rewrite (in_bounds_ptr m e ptr_size addr ptr_size (s_off s) He Sp Ha) by (done || lia || (apply Z.mod_same; lia)).
  cbn [rbind]. rewrite Ho. cbn [of_opt rbind]. unfold bias_of, first_seg. rewrite filter_cons.
  assert (Hf : (if s_type s =? PT_LOAD then Ok (s_off s =? o) else Ok false) = Ok ((s_type s =? PT_LOAD) && (s_off s =? o)))
    by by destruct (s_type s =? PT_LOAD).
  rewrite Hf. clear Hf. cbn [rbind]. destruct (_ && _) eqn:E.
  - rewrite decide_True by done.
    rewrite (in_bounds_ptr m e ptr_size addr (2 * ptr_size) (s_vaddr s) He Sp Ha)
      by (done || lia || (apply Z.mod_mul; lia)). done.
  - rewrite decide_False by done. rewrite up_small by nia. apply IH.
    + apply mod_ptr; [done|exact Sp|done].
    + lia.
    + lia.
    + intros k s' Hk. specialize (Hat (S k) s' Hk).
      by replace (addr + phdr_size + Z.of_nat k * phdr_size) with (addr + Z.of_nat (S k) * phdr_size) by lia.
Qed.

Lemma read_loadbase_image m e o off segs :
  entry_ok e -> offset e = Some o -> image m e off segs -> read_loadbase m e = Ok (set_load_base (bias_of o segs) e).
Proof.
  intros He Ho [[Ha Hoff] Hn Hp [H64 Hfit] Hsegs]. destruct sizes as (S2 & _ & Sp). pose proof He as ((Hs & _) & Hend & _).
  assert (0 <= phdr_size) by (unfold phdr_size; by destruct lp64).
  assert (Hsmall : ptr_size <= 8) by (unfold ptr_size; by destruct lp64). unfold read_loadbase.
  rewrite (in_bounds_ptr m e 2 (start e) _ (Z.of_nat (length segs)) He S2 Ha); [|by destruct lp64|destruct lp64; lia|lia|destruct lp64; lia|exact Hn].
  cbn [rbind].
  rewrite (in_bounds_ptr m e ptr_size (start e) _ off He Sp Ha);
    [|by unfold ptr_size; destruct lp64|destruct lp64; lia|lia|destruct lp64; lia|exact Hp].
  cbn [rbind]. rewrite Nat2Z.id, up_small by lia. rewrite (load_base_loop_ok m e o) by (done || lia || (by apply mod_ptr)). done.
Qed.

(** ** What [find] answers *)

(** The entry with its load base. *)
Definition loaded (m : mem) (e : MapEntry) : res MapEntry := if load_base_read e then Ok e else read_loadbase m e.

Lemma loaded_ok m e e' : entry_ok e -> loaded m e = Ok e' ->
  extent e' = extent e /\ entry_ok e' /\ exists b, load_base e' = Some b.
Proof.
  intros He. unfold loaded. destruct (load_base_read e) eqn:E.
  - intros [= <-]. split; [done|split; [done|]]. destruct He as (_ & _ & _ & Hb). by apply Hb.
  - unfold read_loadbase. intros Hr.
    assert (Hset : exists b, e' = set_load_base b e).
    { repeat (first [destruct (get_val _ _ _ _) as [[?|]| |] | destruct (load_base_loop _ _ _ _) as [?| |]];
              cbn [rbind] in Hr; try done; try (injection Hr as <-; by eexists)). }
    destruct Hset as [b ->]. destruct He as (H1 & H2 & H3 & _). split; [done|].
    split; [|by exists b]. unfold entry_ok. cbn. split; [done|split; [done|split; [done|by eexists]]].
Qed.

(** The value of [rel_pc]. *)
Definition relative (rel_pc : bool) (pc b : Z) (e : MapEntry) : option Z :=
  if rel_pc then Some (up (pc - start e + b)) else None.

(** The entries after the maps file was read, when it is. *)
Definition refilled (l : list mapping) (pc : Z) (es : list MapEntry) : list MapEntry :=
  match set_find (pc_entry pc) es with None => foldl add_entry es (entry_of <$> l) | Some _ => es end.

Lemma refilled_ok l pc es :
  entries_ok es -> Forall line_ok l ->
  entries_ok (refilled l pc es) /\ es `sublist_of` refilled l pc es /\
  (forall x, x ∈ refilled l pc es -> x ∈ es \/ x ∈ entry_of <$> l).
Proof.
  intros Hes Hl. unfold refilled. destruct (set_find (pc_entry pc) es); [split; [done|split; [done|by left]]|].
  apply add_entries_ok; [done|]. apply Forall_fmap. eapply Forall_impl; [exact Hl|]. intros x [Hx _]. by apply entry_of_ok.
Qed.

Lemma find_spec m l pc rel_pc es :
  entries_ok es -> Forall line_ok l ->
  find m (Some (maps_file l)) pc rel_pc es =
    match set_find (pc_entry pc) (refilled l pc es) with
    | None => Ok (None, refilled l pc es)
    | Some i =>
        let! e := of_opt (refilled l pc es !! i) in
        let! e := loaded m e in
        let! rel := if rel_pc then let! b := of_opt (load_base e) in Ok (Some (up (pc - start e + b))) else Ok None in
        Ok (Some (e, rel), <[i := e]> (refilled l pc es))
    end.
Proof.
  intros Hes Hl. unfold find, refilled, loaded. destruct (set_find (pc_entry pc) es) eqn:E; cbn [rbind]; [by rewrite E|].
  by rewrite read_maps_ok.
Qed.

(** The two outcomes: no entry holds [pc], or the one that does is returned. *)
Lemma find_none m l pc rel_pc es :
  entries_ok es -> Forall line_ok l -> Forall (fun e => ~ holds pc e) (refilled l pc es) ->
  find m (Some (maps_file l)) pc rel_pc es = Ok (None, refilled l pc es).
Proof.
  intros Hes Hl Hno. rewrite find_spec by done. destruct (refilled_ok l pc es Hes Hl) as (Hok & _).
  pose proof (set_find_pc pc _ Hok) as Hf. destruct (set_find _ _) as [i|]; [|done].
  destruct Hf as (e & He & Hh). rewrite Forall_forall in Hno. by destruct (Hno e (list_elem_of_lookup_2 _ _ _ He)).
Qed.

Lemma find_some m l pc rel_pc es e :
  entries_ok es -> Forall line_ok l -> e ∈ refilled l pc es -> holds pc e ->
  exists i, refilled l pc es !! i = Some e /\
  find m (Some (maps_file l)) pc rel_pc es =
    let! e' := loaded m e in
    let! rel := if rel_pc then let! b := of_opt (load_base e') in Ok (Some (up (pc - start e' + b))) else Ok None in
    Ok (Some (e', rel), <[i := e']> (refilled l pc es)).
Proof.
  intros Hes Hl He Hh. rewrite find_spec by done. destruct (refilled_ok l pc es Hes Hl) as (Hok & _).
  pose proof (set_find_pc pc _ Hok) as Hf. destruct (set_find _ _) as [i|].
  - destruct Hf as (e' & He' & Hh'). exists i.
    assert (e' = e) as -> by (eapply holds_unique; try done; by eapply list_elem_of_lookup_2). by rewrite He'.
  - rewrite Forall_forall in Hf. by destruct (Hf e He).
Qed.

(** Replacing an entry by one with the same extent keeps the set. *)
Lemma replace_entry_ok es i e e' :
  entries_ok es -> es !! i = Some e -> entry_ok e' -> extent e' = extent e ->
  entries_ok (<[i := e']> es) /\ extent <$> <[i := e']> es = extent <$> es.
Proof.
  intros [Hs Hok] Hi He' Hx. assert (Hext : extent <$> <[i := e']> es = extent <$> es).
  { rewrite list_fmap_insert, Hx. apply list_insert_id. by rewrite list_lookup_fmap, Hi. }
  split; [|done]. split; [|by apply Forall_insert].
  revert Hs. generalize (<[i:=e']> es) Hext. clear -H. intros es' Hext Hs. revert es' Hext.
  induction Hs as [|x es Hs IH Hx]; intros [|y es'] [=]; constructor; [by apply IH|].
  assert (Hfa : Forall (fun t : Z * Z * option Z * list Z => end_ y <= t.1.1.1) (extent <$> es')).
  { replace (extent <$> es') with (extent <$> es). apply Forall_fmap. eapply Forall_impl; [exact Hx|].
    unfold below. cbn. lia. }
  rewrite Forall_fmap in Hfa. exact Hfa.
Qed.

Lemma get_val_fuel m e n a : get_val m e n a <> NoFuel.
Proof. unfold get_val. repeat case_match; try done. by destruct (load m (Z.to_nat n) a). Qed.

Lemma loaded_fuel m e : loaded m e <> NoFuel.
Proof.
  assert (Hloop : forall n addr, load_base_loop n m e addr <> NoFuel).
  { induction n as [|n IH]; intros addr; cbn [load_base_loop]; [done|].
    destruct (get_val m e 4 addr) as [[?|]| |] eqn:E1; cbn [rbind]; try done; [|by apply get_val_fuel in E1].
    destruct (get_val m e ptr_size (up (addr + ptr_size))) as [[?|]| |] eqn:E2; cbn [rbind]; try done; [|by apply get_val_fuel in E2].
    assert (Hf : forall r : res bool, r <> NoFuel -> (let! found := r in
      if found : bool then
        let! p_vaddr := get_val m e ptr_size (up (addr + 2 * ptr_size)) in
        match p_vaddr with None => Ok 0 | Some p_vaddr => Ok p_vaddr end
      else load_base_loop n m e (up (addr + phdr_size))) <> NoFuel).
    { intros [[]| |] Hr; cbn [rbind]; try done.
      destruct (get_val m e ptr_size (up (addr + 2 * ptr_size))) as [[?|]| |] eqn:E3; cbn [rbind]; try done. by apply get_val_fuel in E3. }
    apply Hf. destruct (_ =? _); [|done]. by destruct (offset e). }
  unfold loaded, read_loadbase. destruct (load_base_read e); [done|].
  destruct (get_val m e 2 _) as [[n|]| |] eqn:E1; cbn [rbind]; try done; [|by apply get_val_fuel in E1].
  destruct (get_val m e ptr_size _) as [[o|]| |] eqn:E2; cbn [rbind]; try done; [|by apply get_val_fuel in E2].
  destruct (load_base_loop _ _ _ _) eqn:E3; cbn [rbind]; try done. by apply Hloop in E3.
Qed.

(** C32: the set of mappings behind [MapData::find] stays well formed - mappings in order, disjoint and with
    a load base once it has been read - whatever mappings the maps file lists, in any order and overlapping as they may,
    in lines of the kernel's form that are shorter than 1023 characters (longer ones can break the set:
    [long_line_faults], [long_line_disorders]).  An answer is
    an entry of the set that holds the address, [rel_pc] its offset with the load base added; there is none only
    when no entry does.  An entry once made is never removed or changed, so an address it holds is answered from it for ever
    after, without the maps file being read again.  On such a file the search can only fault while it reads the header of the
    library found: when its mapping is gone, or when the end of a field is the end of the address space. *)
Theorem find_keeps_entries m l pc rel_pc es :
  entries_ok es -> Forall line_ok l ->
  match find m (Some (maps_file l)) pc rel_pc es with
  | Ok (r, es') =>
      entries_ok es' /\ (extent <$> es) `sublist_of` (extent <$> es') /\
      match r with
      | Some (e, rel) => e ∈ es' /\ holds pc e /\ exists b, load_base e = Some b /\ rel = relative rel_pc pc b e
      | None => Forall (fun e => ~ holds pc e) es'
      end /\
      (forall e, e ∈ es -> holds pc e ->
        extent <$> es' = extent <$> es /\ exists e' rel, r = Some (e', rel) /\ extent e' = extent e)
  | Fault => exists e, (e ∈ es \/ e ∈ entry_of <$> l) /\ holds pc e /\
      ~ (mapped m (start e) (end_ e - start e) /\ top_readable m)
  | NoFuel => False
  end.
Proof.
  intros Hes Hl. destruct (refilled_ok l pc es Hes Hl) as (Hok & Hsub & Hfrom).
  assert (Hstale : forall e, e ∈ es -> holds pc e -> refilled l pc es = es).
  { intros e He Hh. unfold refilled. pose proof (set_find_pc pc es Hes) as Hf. destruct (set_find _ _); [done|].
    rewrite Forall_forall in Hf. by destruct (Hf e He). }
  assert (Hin : forall e, e ∈ es -> e ∈ refilled l pc es) by (intros e He; by eapply sublist_subseteq).
  destruct (Exists_dec (holds pc) (refilled l pc es)) as [(e & He & Hh)%Exists_exists|Hno%not_Exists_Forall]; [| |apply _].
  - destruct (find_some m l pc rel_pc es e Hes Hl He Hh) as (i & Hi & ->).
    assert (Heok : entry_ok e) by (destruct Hok as [_ Hall]; by eapply Forall_forall in Hall).
    destruct (loaded m e) as [e'| |] eqn:El; cbn [rbind].
    + destruct (loaded_ok m e e' Heok El) as (Hx & He' & b & Hb).
      destruct (replace_entry_ok _ i e e' Hok Hi He' Hx) as [Hok' Hext].
      assert (Hh' : holds pc e') by (injection Hx; unfold holds in *; congruence).
      assert (Hrel : (if rel_pc then let! b := of_opt (load_base e') in Ok (Some (up (pc - start e' + b))) else Ok None) =
        Ok (relative rel_pc pc b e')) by (rewrite Hb; by destruct rel_pc).
      rewrite Hrel. cbn [rbind]. rewrite Hext. split; [done|].
      split; [by apply fmap_sublist|]. split; [split; [|by eauto]|].
      * apply list_elem_of_lookup_2 with i, list_lookup_insert_eq. by eapply lookup_lt_Some.
      * intros e0 He0 Hh0. split; [by rewrite (Hstale e0)|].
        exists e', (relative rel_pc pc b e'). split; [done|]. rewrite Hx. f_equal. by apply (holds_unique pc (refilled l pc es)); auto.
    + exists e. split; [by apply Hfrom|]. split; [done|]. intros [Hm Ht]. unfold loaded in El.
      destruct (load_base_read e); [done|]. destruct (read_loadbase_total m e Heok Hm Ht) as [b Hb]. congruence.
    + by apply loaded_fuel in El.
  - rewrite find_none by done. split; [done|]. split; [by apply fmap_sublist|]. split; [done|].
    intros e He Hh. rewrite Forall_forall in Hno. by destruct (Hno e (Hin e He)).
Qed.

Lemma find_fresh_entries l pc :
  StronglySorted below (entry_of <$> l) -> refilled l pc [] = entry_of <$> l.
Proof. intros Hs. assert (Hf : set_find (pc_entry pc) [] = None) by done. unfold refilled. rewrite Hf.
  rewrite (add_entries_fresh [] _ Hs). done. Qed.

Lemma nil_ok : entries_ok [].
Proof. split; constructor. Qed.

Lemma holds_entry pc x : holds pc (entry_of x) <-> lo (region x) < pc < hi (region x).
Proof. unfold holds, entry_of. by destruct (elf_mapping x). Qed.

(** The comparison of [find] leaves out the first address of every mapping. *)
Lemma find_first_address m l x rel_pc :
  Forall line_ok l -> StronglySorted below (entry_of <$> l) -> x ∈ l ->
  find m (Some (maps_file l)) (lo (region x)) rel_pc [] = Ok (None, entry_of <$> l).
Proof.
  intros Hl Hs Hx. pose proof (find_fresh_entries l (lo (region x)) Hs) as Hre.
  destruct (refilled_ok l (lo (region x)) [] nil_ok Hl) as (Hok & _).
  rewrite find_none, Hre; [done|exact nil_ok|done|]. apply Forall_forall. intros e He Hh. rewrite Hre in Hok, He.
  assert (Hin : entry_of x ∈ entry_of <$> l) by by apply list_elem_of_fmap_2.
  assert (Hxs : start (entry_of x) = lo (region x)) by (unfold entry_of; by destruct (elf_mapping x)).
  assert (Hxe : start (entry_of x) < end_ (entry_of x)) by (destruct Hok as [_ Hok]; by eapply Forall_forall in Hok as ([_ ?] & _)).
  unfold holds in Hh. destruct (entries_disjoint _ _ _ Hok He Hin) as [->|[Hb|Hb]]; unfold below in *; lia.
Qed.

(** The load base of a mapping that starts with the headers of a library, or that is not of a
    library. *)
Definition base_of (m : mem) (x : mapping) (b : Z) : Prop :=
  if elf_mapping x then exists off segs, image m (entry_of x) off segs /\ b = bias_of (XhCore.offset x) segs else b = 0.

(** A mapping whose load base can be read, whatever is at its start. *)
Definition base_readable (m : mem) (x : mapping) : Prop :=
  (exists b, base_of m x b) \/ mapped m (lo (region x)) (hi (region x) - lo (region x)) /\ top_readable m.

Lemma loaded_base m x :
  mapping_form x -> base_readable m x ->
  exists b, loaded m (entry_of x) = Ok (set_load_base b (entry_of x)) /\ forall b', base_of m x b' -> b = b'.
Proof.
  intros Hx Hr. pose proof (entry_of_ok x Hx) as Heok.
  assert (Hbase : forall b, base_of m x b -> loaded m (entry_of x) = Ok (set_load_base b (entry_of x))).
  { intros b Hb. unfold loaded, base_of in *. destruct (elf_mapping x) eqn:E.
    - destruct Hb as (off & segs & Him & ->). rewrite (read_loadbase_image m _ (XhCore.offset x) off segs Heok); [|by unfold entry_of; rewrite E|done].
      by unfold entry_of; rewrite E.
    - subst b. by unfold entry_of; rewrite E. }
  assert (Hex : exists b, loaded m (entry_of x) = Ok (set_load_base b (entry_of x))).
  { destruct Hr as [[b Hb]|[Hm Ht]]; [eauto|]. destruct (elf_mapping x) eqn:E.
    - unfold loaded. assert (Hn : load_base_read (entry_of x) = false) by (unfold entry_of; by rewrite E). rewrite Hn.
      apply read_loadbase_total; [done| |done]. unfold entry_of. by rewrite E.
    - exists 0. apply Hbase. unfold base_of. by rewrite E. }
  destruct Hex as [b Hb]. exists b. split; [done|]. intros b' Hb'. apply Hbase in Hb'. rewrite Hb in Hb'.
  by injection Hb'.
Qed.

End MapData.

(** ** Witnesses *)

Section Demo.
#[local] Existing Instance arm64.

(** A library linked at 0x4000, with its headers in the first mapping of XhCore.v's maps file. *)
Definition demo_bias : list seg :=
  [ {| s_type := PT_DYNAMIC; s_off := 0x200; s_vaddr := 0x4200; s_memsz := 128 |};
    {| s_type := PT_LOAD; s_off := 0; s_vaddr := 0x4000; s_memsz := 0x7000 |} ].
Definition demo_image_mem : mem :=
  mem_at 0x1000 (replicate 32 0 ++ le_bytes 8 64 ++ replicate 16 0 ++ le_bytes 2 2 ++ replicate 6 0 ++ mjoin (demo_phdr <$> demo_bias)) ∅.
Definition demo_maps : list mapping := demo_mappings (true, false, false).
Definition demo_first : mapping := nth 0 demo_maps {| region := demo_text; XhCore.offset := 0; major := 0; minor := 0; inode := []; pad := 0; path := [] |}.
Definition demo_entry : MapEntry :=
  {| start := 0x1000; end_ := 0x8000; offset := Some 0; load_base := Some 0x4000; load_base_read := true; name := demo_path |}.

Lemma demo_lines_ok : Forall line_ok demo_maps.
Proof. eapply Forall_impl; [exact (demo_mappings_ok _)|]. intros x [Hx Hlen]. split; [done|lia]. Qed.

Lemma demo_sorted : StronglySorted below (entry_of <$> demo_maps).
Proof. repeat constructor. unfold below. vm_compute. discriminate. Qed.

Lemma demo_image : image demo_image_mem (entry_of demo_first) 64 demo_bias.
Proof.
  constructor; [by split|vm_compute; reflexivity|vm_compute; reflexivity|by split|].
  intros [|[|k]] x [= <-]; vm_compute; by split_and!.
Qed.


(** A library that is known is answered for when the maps file lists another one there. *)
Lemma find_keeps_entries_witness :
  match find demo_image_mem (Some (maps_file demo_maps)) 0x1234 true [demo_entry] with
  | Ok (r, es') => r = Some (demo_entry, Some 0x4234) /\ extent <$> es' = [extent demo_entry] /\ entries_ok es'
  | _ => False
  end.
Proof.
  assert (Hok : entries_ok [demo_entry]).
  { split; [repeat constructor|]. apply Forall_singleton. unfold entry_ok. split_and!; try done; by eexists. }
  pose proof (find_keeps_entries demo_image_mem demo_maps 0x1234 true [demo_entry] Hok demo_lines_ok) as Hk.
  destruct (find demo_image_mem (Some (maps_file demo_maps)) 0x1234 true [demo_entry]) as [[r es']| |] eqn:E.
  - destruct Hk as (Hok' & _ & _ & Hk). destruct (Hk demo_entry) as (He & _); [by left|vm_compute; by split|].
    split; [|by split]. vm_compute in E. injection E as <- _. reflexivity.
  - vm_compute in E. discriminate.
  - done.
Defined.

(** The check of [get_val] wraps: program headers that begin in the last word of the address space are
    not found to be outside of the mapping. *)
Definition demo_wrap_mem : mem :=
  mem_at 0x1000 (replicate 32 0 ++ le_bytes 8 (2 ^ 64 - 0x1004) ++ replicate 16 0 ++ le_bytes 2 1) ∅.
Lemma read_loadbase_wraps : read_loadbase demo_wrap_mem (entry_of demo_first) = Fault.
Proof. vm_compute. reflexivity. Qed.

(** A line that stops behind the permissions leaves the locals of [parse_line] unset. *)
Lemma parse_line_unset : parse_line (codes "1000-8000 r-xp" ++ [NL]) = Fault.
Proof. vm_compute. reflexivity. Qed.

(** A line longer than the buffer: its rest is taken for a line.  Mostly that is no mapping, and the lines
    behind it are not read. *)
Definition demo_long (rest : list Z) : list Z :=
  codes "10000-20000 r-xp 00000000 fd:00 12 /" ++ replicate 987 97 ++ rest ++ NL :: codes "30000-40000 r-xp 00000000 fd:00 12 /b" ++ [NL].
Lemma long_line_aborts :
  match ReadMaps (Some (demo_long (replicate 113 97))) [] with Ok (ok, es) => (ok, start <$> es) = (false, [0x10000]) | _ => False end.
Proof. vm_compute. reflexivity. Qed.

(** But a path chosen so that the rest looks like the start of a mapping makes the reading use unset
    variables, and one that looks like a whole mapping gives an entry that ends before it starts. *)
Lemma long_line_faults : ReadMaps (Some (demo_long (codes "1-2"))) [] = Fault.
Proof. vm_compute. reflexivity. Qed.
Lemma long_line_disorders :
  match ReadMaps (Some (demo_long (codes "5-3 r-xp 0 0:0 0 x"))) [] with
  | Ok (_, es) => (5, 3) ∈ (fun e => (start e, end_ e)) <$> es
  | _ => False
  end.
Proof. vm_compute. by repeat constructor. Qed.

(** The second mapping of a library: its start is not an ELF header, and the load base read there not the
    library's. *)
Definition demo_second : mapping := nth 1 demo_maps demo_first.
Lemma second_mapping_base :
  path demo_second = path demo_first /\
  match find (mem_at (lo (region demo_second)) (replicate 64 0) demo_image_mem) (Some (maps_file demo_maps))
      (lo (region demo_second) + 1) true [] with
  | Ok (Some (e, _), _) => load_base e = Some 0
  | _ => False
  end.
Proof. split; vm_compute; reflexivity. Qed.
End Demo.
