(* ===== verification/Lifecycle.v ===== *)
(** Raphael.cpp and xloader.cpp: a recording session, from [start] over the hooked
    program's calls to [print] and [stop], with the files it leaves in the report
    directory. *)
From S2P Require Import Prelude Cache AllocPool MemoryCache HookProxy Memory CString.

#[local] Arguments rbind {_ _} !_ _ /.

(** ** A cache that can be deleted

    [HookProxy.cache] and [Raphael::mCache] point to one object: [None] is the
    object after [delete], which no operation may touch. *)

Definition freed_ops {C : Type} (ops : cache_ops C) : cache_ops (option C) :=
  {| c_reset := fmap (c_reset ops);
     c_insert := fun o a s bt => let! c := of_opt o in let! c := c_insert ops c a s bt in Ok (Some c);
     c_remove := fun o a => let! c := of_opt o in let! c := c_remove ops c a in Ok (Some c);
     c_print := fun o => let! c := of_opt o in c_print ops c |}.

#[export] Program Instance freed_spec {C : Type} (ops : cache_ops C) `{!CacheSpec ops} : CacheSpec (freed_ops ops) :=
  {| wf o := match o with Some c => wf c | None => False end;
     view o a := match o with Some c => view c a | None => [] end;
     room o := match o with Some c => room c | None => 0%nat end;
     made o := match o with Some c => made c | None => False end;
     capacity o := match o with Some c => capacity c | None => 0%nat end |}.
Next Obligation. intros C ops S [c|] Hm; [by apply (reset_view c)|done]. Qed.
Next Obligation.
  intros C ops S [c|] a s bt Hwf Hbt Hr; [|done]. destruct (insert_room c a s bt Hwf Hbt Hr) as (c' & Hi & Hc').
  exists (Some c'). cbn. by rewrite Hi.
Qed.
Next Obligation. intros C ops S [c|] a s bt Hwf Hr; [|done]. cbn. by rewrite insert_full. Qed.
Next Obligation.
  intros C ops S [c|] a Hwf; [|done]. destruct (remove_view c a Hwf) as (c' & Hi & Hc').
  exists (Some c'). cbn. by rewrite Hi.
Qed.
Next Obligation. intros C ops S [c|] Hwf; [|done]. by apply (print_view c). Qed.

(** ** Files *)

(** The report is kept as the records written, other files as their characters. *)
Inductive content := Report (l : list alloc_record) | Text (l : list Z).
Record directory := { dir_mode : Z; files : gmap (list Z) content }.

Definition MAX_BUFFER_SIZE : Z := 1024.
Definition report_name : list Z := codes "report".
Definition maps_name : list Z := codes "maps".

Definition set_files (f : gmap (list Z) content) (d : directory) : directory := {| dir_mode := dir_mode d; files := f |}.

(** [snprintf(path, MAX_BUFFER_SIZE, "%s/%s", mSpace, name) < MAX_BUFFER_SIZE] *)
Definition path_fits (space name : list Z) : bool := Z.of_nat (length space + 1 + length name) <? MAX_BUFFER_SIZE.

Section Lifecycle.
Context `{Arch} {C : Type} (ops : cache_ops C) {W : Type} (origin : W -> call -> Z * W) (unwind : W -> Z -> Backtrace)
  (stack_base : W -> option Z).

(** [new_cache]: the object [new MemoryCache] makes; [install]: what
    [registerSoLoadProxy] and [registerInlineProxy] do to the process;
    [core_clear]: [xh_core_clear]; [proc_maps]: /proc/self/maps; [posix]: whether
    the file system of a directory keeps permissions; [mkdir_ok]: whether a
    directory can be made there; [umask]: the mask of its mode. *)
Context (new_cache : C) (install : option (list Z) -> W -> res W) (core_clear : W -> res W) (proc_maps : W -> option (list Z))
  (posix mkdir_ok : list Z -> bool) (umask : Z).

Record raphael := {
  mSpace : option (list Z);
  mCache : bool;                                  (* not a null pointer *)
  hst : hook (C := option C) (W := W);            (* the static variables of HookProxy.h *)
  dirs : gmap (list Z) directory
}.

Definition set_hst (h : hook) (s : raphael) : raphael :=
  {| mSpace := mSpace s; mCache := mCache s; hst := h; dirs := dirs s |}.
Definition set_dirs (d : gmap (list Z) directory) (s : raphael) : raphael :=
  {| mSpace := mSpace s; mCache := mCache s; hst := hst s; dirs := d |}.

(** Entries can be made in a directory and taken out of it. *)
Definition can_modify (space : list Z) (d : directory) : bool :=
  negb (posix space) || ((dir_mode d .& 0xC0) =? 0xC0).

(** [fopen(path, "w")]: the directories afterwards, [None] when it fails. *)
Definition fopen_w (space name : list Z) (ds : gmap (list Z) directory) : option (gmap (list Z) directory) :=
  match ds !! space with
  | None => None
  | Some d =>
      if bool_decide (is_Some (files d !! name)) || can_modify space d
      then Some (<[space := set_files (<[name := Text []]> (files d)) d]> ds) else None
  end.
Definition fwrite (space name : list Z) (x : content) (ds : gmap (list Z) directory) : gmap (list Z) directory :=
  alter (fun d => set_files (<[name := x]> (files d)) d) space ds.

(** [mkdir(mSpace, 777)]: the mode is a decimal number. *)
Definition clean_cache (space : list Z) (ds : gmap (list Z) directory) : gmap (list Z) directory :=
  match ds !! space with
  | Some d => <[space := if can_modify space d then set_files (filter (fun f => path_fits space f.1 = false) (files d)) d else d]> ds
  | None => if mkdir_ok space then <[space := {| dir_mode := 777 .& Z.lnot umask; files := ∅ |}]> ds else ds
  end.

(** [MemoryCache::print] with its file; the path is written without a bound. *)
Definition print_cache (space : list Z) (h : hook (C := option C) (W := W)) (ds : gmap (list Z) directory)
    : res (gmap (list Z) directory) :=
  if Z.of_nat (length space + 8) <=? MAX_BUFFER_SIZE then
    match fopen_w space report_name ds with
    | None => Ok ds
    | Some ds => let! c := of_opt (cache h) in let! l := c_print (freed_ops ops) c in
                 Ok (fwrite space report_name (Report l) ds)
    end
  else Fault.

(** The loop of [dump_system] copies the file in pieces of at most 1023 characters. *)
Definition dump_system (space : list Z) (maps : option (list Z)) (ds : gmap (list Z) directory) : gmap (list Z) directory :=
  if path_fits space maps_name then
    match fopen_w space maps_name ds with
    | None => ds
    | Some ds =>
        match maps with
        | None => ds
        | Some file => fwrite space maps_name (Text (mjoin (fgets_all 1023 [] file))) ds
        end
    end
  else ds.

Definition print (s : raphael) : res raphael :=
  let h := set_guard 1 (hst s) in
  let! space := of_opt (mSpace s) in
  let ds := clean_cache space (dirs s) in
  if mCache s then
    let! ds := print_cache space h ds in
    let ds := dump_system space (proc_maps (world h)) ds in
    Ok {| mSpace := mSpace s; mCache := mCache s; hst := set_guard 0 h; dirs := ds |}
  else Fault.

Definition start (configs : Z) (space : list Z) (regex : option (list Z)) (s : raphael) : res raphael :=
  let h := update_configs (Some (Some new_cache)) 0 (hst s) in
  let! w := install regex (world h) in
  let h := set_world w h in
  let! c := of_opt (cache h) in
  let c := c_reset (freed_ops ops) c in
  let h := set_guard 0 (set_cache c h) in
  Ok {| mSpace := Some space; mCache := true; hst := update_configs (Some c) configs h; dirs := dirs s |}.

(** After [pthread_key_delete] the key reads as null. *)
Definition stop (s : raphael) : res raphael :=
  let! s := print (set_hst (update_configs None 0 (hst s)) s) in
  let h := set_cache None (hst s) in
  let! w := core_clear (world h) in
  let h := set_guard 0 (set_world w h) in
  Ok {| mSpace := None; mCache := false; hst := h; dirs := dirs s |}.

(** The program between two calls of the library. *)
Definition run_program (ks : list call) (s : raphael) : res raphael :=
  let! h := run_calls (freed_ops ops) origin unwind stack_base ks (hst s) in Ok (set_hst h s).

(** ** Files, as written *)

Lemma mjoin_fgets_all n cur file : mjoin (fgets_all n cur file) = cur ++ file.
Proof.
  revert cur. induction file as [|c file IH]; intros cur; cbn [fgets_all].
  - rewrite app_nil_r. destruct cur; [done|]. cbn. by rewrite app_nil_r.
  - destruct (_ || _); cbn [mjoin list_join]; rewrite ?IH, <- app_assoc; done.
Qed.

Lemma dump_system_ok space file ds d :
  ds !! space = Some d -> can_modify space d = true -> path_fits space maps_name = true ->
  dump_system space (Some file) ds = <[space := set_files (<[maps_name := Text file]> (files d)) d]> ds.
Proof.
  intros Hd Hcan Hfit. unfold dump_system, fopen_w, fwrite. rewrite Hfit, Hd, Hcan, orb_true_r.
  rewrite mjoin_fgets_all. cbn [app]. rewrite alter_insert_eq. unfold set_files. cbn [files dir_mode]. by rewrite insert_insert_eq.
Qed.

Lemma clean_cache_ok space ds d :
  ds !! space = Some d -> can_modify space d = true -> (forall name, is_Some (files d !! name) -> path_fits space name = true) ->
  clean_cache space ds = <[space := set_files ∅ d]> ds.
Proof.
  intros Hd Hcan Hfit. unfold clean_cache. rewrite Hd, Hcan. do 2 f_equal. apply map_eq. intros name.
  rewrite lookup_empty. apply map_lookup_filter_None. destruct (files d !! name) as [x|] eqn:Hx; [right|by left].
  intros x' _. cbn. by rewrite Hfit by (by eexists).
Qed.

(** *** A session *)

Context `{!CacheSpec ops}.
Hypothesis unwind_ok : forall w d, 0 <= d <= Z.of_nat MAX_TRACE_DEPTH -> bt_ok (unwind w d).
Hypothesis new_cache_made : made new_cache.

(** A configuration at a depth the buffers hold; in mode [vss] as to mappings. *)
Definition depth_ok (configs : Z) : Prop := (configs .& DEPTH_MASK) .>> 16 < Z.of_nat MAX_TRACE_DEPTH.
Definition configs_ok (vss : bool) (configs : Z) : Prop :=
  depth_ok configs /\ truthy (configs .& MAP64_MODE) = vss.

Lemma start_ok configs space regex s w :
  depth_ok configs -> install regex (world (hst s)) = Ok w ->
  exists s1, start configs space regex s = Ok s1 /\
    recording (freed_ops ops) (truthy (configs .& MAP64_MODE)) (hst s1) /\
    (forall a, cache_view (freed_ops ops) (hst s1) a = []) /\ cache_room (freed_ops ops) (hst s1) = capacity new_cache /\
    limit (hst s1) = configs .& LIMIT_MASK /\ isPss (hst s1) = b2z (truthy (configs .& ALLOC_MODE)) /\
    world (hst s1) = w /\ dirs s1 = dirs s /\ mSpace s1 = Some space /\ mCache s1 = true.
Proof.
  intros Hdepth Hin. destruct (reset_view new_cache new_cache_made) as (Hwf & Hroom & Hview).
  unfold start. cbn. rewrite Hin. cbn. eexists. split; [done|]. cbn. split; [|by split_and!].
  split; [|split; [done|]]; cbn.
  - split; cbn; [|by exists (Some (c_reset ops new_cache))].
    split; [apply Z.shiftr_nonneg, Z.land_nonneg; by right|exact Hdepth].
  - by destruct (truthy (configs .& MAP64_MODE)).
Qed.

(** A directory the library may empty and write to. *)
Definition writable (space : list Z) (s : raphael) (d : directory) : Prop :=
  dirs s !! space = Some d /\ can_modify space d = true /\
  forall name, is_Some (files d !! name) -> path_fits space name = true.

(** What [print] leaves there. *)
Lemma print_writes space s d file c l :
  mSpace s = Some space -> mCache s = true -> Z.of_nat (length space + 8) <= MAX_BUFFER_SIZE ->
  writable space s d -> proc_maps (world (hst s)) = Some file ->
  cache (hst s) = Some c -> c_print (freed_ops ops) c = Ok l ->
  exists s', print s = Ok s' /\
    dirs s' = <[space := set_files {[report_name := Report l; maps_name := Text file]} d]> (dirs s).
Proof.
  intros Hsp Hc Hlen (Hd & Hcan & Hfit) Hmaps Hcc Hl.
  unfold print. rewrite Hsp, Hc. cbn [of_opt rbind]. rewrite (clean_cache_ok space (dirs s) d Hd Hcan Hfit).
  set (ds := <[space := set_files ∅ d]> (dirs s)). assert (Hds : ds !! space = Some (set_files ∅ d)) by apply lookup_insert_eq.
  unfold print_cache, fopen_w. rewrite (proj2 (Z.leb_le _ _) Hlen), Hds.
  change (can_modify space (set_files ∅ d)) with (can_modify space d). rewrite Hcan, orb_true_r.
  cbn [cache set_guard]. rewrite Hcc. cbn [of_opt rbind]. rewrite Hl. cbn [rbind].
  unfold fwrite. rewrite alter_insert_eq. unfold ds. rewrite !insert_insert_eq. cbn [world set_guard]. rewrite Hmaps.
  unfold set_files at 2 3. cbn [files dir_mode].
  erewrite dump_system_ok; [|apply lookup_insert_eq|exact Hcan|].
  2:{ unfold path_fits. cbn. unfold MAX_BUFFER_SIZE in *. apply Z.ltb_lt. lia. }
  eexists. split; [done|]. cbn [dirs]. by rewrite insert_insert_eq.
Qed.

(** *** After the session *)

Definition after_calls (ks : list call) (w : W) : W := foldl (fun w k => (origin w k).2) w ks.

Lemma idle_run ks h :
  isPss h = 0 -> isVss h = 0 ->
  run_calls (freed_ops ops) origin unwind stack_base ks h = Ok (set_world (after_calls ks (world h)) h).
Proof.
  revert h. induction ks as [|k ks IH]; intros h Hp Hv; [by destruct h|]. cbn [run_calls].
  rewrite idle_is_origin, call_origin_eq by done. cbn [rbind]. by rewrite IH.
Qed.

(** [print] succeeds whatever the files allow. *)
Lemma print_total space s :
  mSpace s = Some space -> mCache s = true -> Z.of_nat (length space + 8) <= MAX_BUFFER_SIZE ->
  ready (freed_ops ops) (hst s) ->
  exists s', print s = Ok s' /\ hst s' = set_guard 0 (hst s) /\ mSpace s' = mSpace s /\ mCache s' = mCache s.
Proof.
  intros Hsp Hc Hlen (_ & c & Hcc & Hwf). destruct (print_view c Hwf) as (l & Hl & _).
  unfold print. rewrite Hsp, Hc. cbn [of_opt rbind]. unfold print_cache. rewrite (proj2 (Z.leb_le _ _) Hlen).
  cbn [cache set_guard]. destruct (fopen_w _ _ _); [rewrite Hcc; cbn [of_opt rbind]; rewrite Hl|];
    cbn [rbind]; eexists; (split; [done|]); by destruct (hst s).
Qed.

Lemma stop_ok space s w :
  mSpace s = Some space -> mCache s = true -> Z.of_nat (length space + 8) <= MAX_BUFFER_SIZE ->
  ready (freed_ops ops) (hst s) -> core_clear (world (hst s)) = Ok w ->
  exists s', stop s = Ok s' /\ mCache s' = false /\ mSpace s' = None /\ cache (hst s') = Some None /\
    isPss (hst s') = 0 /\ isVss (hst s') = 0 /\ world (hst s') = w /\
    exists s1, print (set_hst (update_configs None 0 (hst s)) s) = Ok s1 /\ dirs s' = dirs s1.
Proof.
  intros Hsp Hc Hlen Hready Hclear. unfold stop.
  destruct (print_total space (set_hst (update_configs None 0 (hst s)) s) Hsp Hc Hlen) as (s1 & Hs1 & Hh & _ & _).
  { destruct Hready as (Hd & Hcc). split; [by cbn|exact Hcc]. }
  rewrite Hs1. cbn [rbind]. rewrite Hh. cbn [set_cache world set_guard set_hst hst update_configs]. rewrite Hclear. cbn [rbind].
  eexists. split; [done|]. split_and!; try done. by exists s1.
Qed.

(** C21: [stop] writes a last report and deletes the cache; no call of a hooked
    function touches the deleted cache afterwards, whatever the program does: each
    is exactly the original function.  The state is one that records, with a report path
    of at most 1016 characters, and [xh_core_clear] ends without a fault.  The report
    is in the directory, with a copy of the maps file, when there is a directory that the process may
    write to and whose files have paths short enough to be removed: it holds the records
    the cache had. *)
Theorem stopped_is_origin space s w :
  mSpace s = Some space -> mCache s = true -> Z.of_nat (length space + 8) <= MAX_BUFFER_SIZE ->
  ready (freed_ops ops) (hst s) -> core_clear (world (hst s)) = Ok w ->
  exists s', stop s = Ok s' /\ mCache s' = false /\ mSpace s' = None /\ cache (hst s') = Some None /\
    (forall d file, writable space s d -> proc_maps (world (hst s)) = Some file ->
      exists c l, cache (hst s) = Some c /\ c_print (freed_ops ops) c = Ok l /\
        dirs s' = <[space := set_files {[report_name := Report l; maps_name := Text file]} d]> (dirs s)) /\
    forall ks k, exists h, run_calls (freed_ops ops) origin unwind stack_base ks (hst s') = Ok h /\
      cache h = Some None /\ world h = after_calls ks w /\
      proxy (freed_ops ops) origin unwind stack_base k h = Ok (call_origin origin k h).
Proof.
  intros Hsp Hc Hlen Hready Hclear.
  destruct (stop_ok space s w Hsp Hc Hlen Hready Hclear) as (s' & Hs & Hm & Hn & Hcc & Hp & Hv & Hw & s1 & Hs1 & Hds).
  exists s'. do 4 (split; [done|]). split.
  - intros d file Hd Hfile. destruct Hready as (_ & c & Hc0 & Hwf). destruct (print_view c Hwf) as (l & Hl & _).
    exists c, l. split; [done|]. split; [done|].
    destruct (print_writes space (set_hst (update_configs None 0 (hst s)) s) d file c l) as (s2 & Hs2 & Hds2); try done.
    rewrite Hds. by replace s1 with s2 by congruence.
  - intros ks k. eexists. rewrite idle_run, Hw by done. split; [done|]. split; [done|].
    split; [done|]. by apply idle_is_origin.
Qed.

(** The report directory is made with the decimal mode 777, which gives its owner
    no right to write: on a file system that keeps permissions, printing into a
    directory that does not exist yet leaves it empty, without a report. *)
Theorem fresh_directory_empty space s :
  mSpace s = Some space -> mCache s = true -> Z.of_nat (length space + 8) <= MAX_BUFFER_SIZE ->
  ready (freed_ops ops) (hst s) -> dirs s !! space = None -> mkdir_ok space = true -> posix space = true ->
  exists s', print s = Ok s' /\ dirs s' = <[space := {| dir_mode := 777 .& Z.lnot umask; files := ∅ |}]> (dirs s).
Proof.
  intros Hsp Hc Hlen Hready Hd Hmk Hposix.
  assert (Hdeny : forall ds name, fopen_w space name (<[space := {| dir_mode := 777 .& Z.lnot umask; files := ∅ |}]> ds) = None).
  { intros ds name. unfold fopen_w, can_modify. rewrite lookup_insert_eq, Hposix. cbn [files dir_mode].
    rewrite lookup_empty. cbn [negb orb]. rewrite <- Z.land_assoc, (Z.land_comm (Z.lnot umask)), Z.land_assoc.
    change (777 .& 0xC0) with 0. by rewrite Z.land_0_l. }
  unfold print. rewrite Hsp, Hc. cbn [of_opt rbind]. unfold clean_cache. rewrite Hd, Hmk.
  unfold print_cache. rewrite (proj2 (Z.leb_le _ _) Hlen), Hdeny. cbn [rbind]. eexists. split; [done|].
  cbn [dirs]. unfold dump_system. rewrite Hdeny. by destruct (path_fits _ _).
Qed.

(** The program's calls, with the state they leave: what the original functions make of the process,
    and a recorder that can be used. *)
Lemma run_ready ks h :
  ready (freed_ops ops) h ->
  exists h', run_calls (freed_ops ops) origin unwind stack_base ks h = Ok h' /\ ready (freed_ops ops) h' /\
    world h' = after_calls ks (world h).
Proof.
  revert h. induction ks as [|k ks IH]; intros h Hr; cbn [run_calls]; [by exists h|].
  destruct (proxy_transparent_aux (freed_ops ops) origin unwind stack_base unwind_ok k h Hr) as (h1 & -> & Hr1 & _ & Hw & _).
  destruct (IH h1 Hr1) as (h' & Hrun & Hr' & Hw'). exists h'. cbn [rbind]. split; [done|]. split; [done|].
  rewrite Hw'. cbn. by rewrite Hw.
Qed.

(** Any session up to [stop]. *)
Lemma session_runs configs space regex s w ks :
  depth_ok configs -> install regex (world (hst s)) = Ok w ->
  exists s1 s2, start configs space regex s = Ok s1 /\ run_program ks s1 = Ok s2 /\
    world (hst s1) = w /\ world (hst s2) = after_calls ks w /\ ready (freed_ops ops) (hst s2) /\
    mSpace s2 = Some space /\ mCache s2 = true.
Proof.
  intros Hcfg Hin.
  destruct (start_ok configs space regex s w Hcfg Hin) as (s1 & Hs1 & (Hready & _) & _ & _ & _ & _ & Hw & _ & Hsp & Hmc).
  destruct (run_ready ks (hst s1) Hready) as (h & Hrun & Hr & Hwh).
  exists s1, (set_hst h s1). unfold run_program. rewrite Hrun. by rewrite <- Hw.
Qed.

Section Session.
Context (vss : bool) (live : W -> Z -> option item) `{!HeapContract origin stack_base vss live}.

(** The mode word of the configuration and the flag of the recorder select the same items. *)
Lemma to_report_flag lim x t : to_report lim (b2z (truthy x)) t = to_report lim x t.
Proof. unfold to_report, reported. by destruct (truthy x) eqn:Hx. Qed.

Lemma session_ok configs space regex s d w ks file :
  configs_ok vss configs -> install regex (world (hst s)) = Ok w ->
  writable space s d -> Z.of_nat (length space + 8) <= MAX_BUFFER_SIZE ->
  legal_run origin vss live ks w -> Forall small_call ks -> (length ks <= capacity new_cache)%nat ->
  proc_maps (after_calls ks w) = Some file ->
  exists s1 s2 s3 l, start configs space regex s = Ok s1 /\ run_program ks s1 = Ok s2 /\ print s2 = Ok s3 /\
    dirs s3 = <[space := set_files {[report_name := Report l; maps_name := Text file]} d]> (dirs s) /\
    shown <$> l ≡ₚ map_to_list (to_report (configs .& LIMIT_MASK) (configs .& ALLOC_MODE) (leaks origin stack_base vss ks w ∅)) /\
    world (hst s1) = w /\ world (hst s2) = after_calls ks w.
Proof.
  intros [Hcfg Hvss] Hin Hd Hlen Hlegal Hsmall Hroom Hmaps.
  destruct (start_ok configs space regex s w Hcfg Hin) as (s1 & Hs1 & Hrec & Hview & Hcap & Hlim & Hpss & Hw & Hdirs & Hsp & Hmc).
  rewrite Hvss in Hrec.
  destruct (run_calls_tracks (freed_ops ops) origin unwind stack_base unwind_ok vss live ks (hst s1) ∅) as (h & Hrun & Hi & Hc).
  { split; [done|]. split; [|by intros]. intros a. by rewrite Hview, to_report_lookup. }
  { by rewrite Hw. }
  { done. }
  { by rewrite Hcap. }
  destruct Hrec as (Hready1 & _). destruct (run_ready ks (hst s1) Hready1) as (h' & Hrun' & _ & Hworld).
  replace h' with h in Hworld by congruence.
  destruct Hi as ((Hready & _) & Htr & _). rewrite Hw in Htr, Hworld.
  destruct (tracked_report (freed_ops ops) h _ Hready Htr) as (c & l & Hcc & Hl & Hperm).
  destruct (print_writes space (set_hst h s1) d file c l Hsp Hmc Hlen) as (s3 & Hp & Hds); try done.
  { destruct Hd as (Hd & ? & ?). by rewrite <- Hdirs in Hd. }
  { cbn. by rewrite Hworld. }
  exists s1, (set_hst h s1), s3, l. split; [done|]. split; [unfold run_program; by rewrite Hrun|]. split; [exact Hp|].
  split; [by rewrite Hds; cbn; rewrite Hdirs|]. split; [|by split_and!].
  destruct Hc as (Hl' & _ & Hp' & _). by rewrite Hl', Hp', Hlim, Hpss, to_report_flag in Hperm.
Qed.

(** C2: A whole session, with any configuration of a depth of at most 15, an unwinder that keeps to the
    16 words it is given and hooks that are installed without a fault: [start], any
    calls the allocator and the kernel allow (the legal calls of [leak_report_exact], with 32-bit
    sizes and no more than the cache has room for), then [print].  The report directory exists, the
    process may write to it, the paths of its files fit the buffer of 1024 characters and its own path
    has at most 1016; the maps file can be read.  The directory then holds two files and nothing else: the report, with a record for each
    block (in ALLOC_MODE, of at least [limit] bytes) and each mapping (in MAP64_MODE)
    obtained since the start and not released (a thread's exit releases its stack), and a copy of the maps file.  This is
    so whatever an earlier session left behind. *)
Theorem session_report_exact configs space regex s d w ks file :
  configs_ok vss configs -> install regex (world (hst s)) = Ok w ->
  writable space s d -> Z.of_nat (length space + 8) <= MAX_BUFFER_SIZE ->
  legal_run origin vss live ks w -> Forall small_call ks -> (length ks <= capacity new_cache)%nat ->
  proc_maps (after_calls ks w) = Some file ->
  exists s1 s2 s3 l, start configs space regex s = Ok s1 /\ run_program ks s1 = Ok s2 /\ print s2 = Ok s3 /\
    dirs s3 = <[space := set_files {[report_name := Report l; maps_name := Text file]} d]> (dirs s) /\
    shown <$> l ≡ₚ map_to_list (to_report (configs .& LIMIT_MASK) (configs .& ALLOC_MODE) (leaks origin stack_base vss ks w ∅)).
Proof.
  intros Hcfg Hin Hd Hlen Hlegal Hsmall Hroom Hmaps.
  destruct (session_ok configs space regex s d w ks file Hcfg Hin Hd Hlen Hlegal Hsmall Hroom Hmaps)
    as (s1 & s2 & s3 & l & ? & ? & ? & ? & ? & _).
  by exists s1, s2, s3, l.
Qed.

End Session.

End Lifecycle.

(** ** Witnesses: the bump allocator of HookProxy.v, and a directory with an old file *)

#[local] Existing Instance arm64.

Definition demo_space : list Z := codes "/s".
Definition demo_dir : directory := {| dir_mode := 511; files := {[codes "old" := Text []]} |}.
Definition demo_cache : MemoryCache := new_MemoryCache blank_node ∅ 0 None.
Definition demo_raphael : raphael (C := MemoryCache) (W := gmap Z item) :=
  {| mSpace := None; mCache := false;
     hst := {| cache := None; limit := 0; depth := 0; isPss := 0; isVss := 0; guard := 0; world := ∅ |};
     dirs := {[demo_space := demo_dir]} |}.
Definition demo_maps (_ : gmap Z item) : option (list Z) := Some (codes "maps").
Definition demo_running : raphael (C := MemoryCache) (W := gmap Z item) :=
  {| mSpace := Some demo_space; mCache := true;
     hst := update_configs (Some (Some (reset demo_cache))) (pack_configs 1024 15 true true) (hst demo_raphael);
     dirs := {[demo_space := demo_dir]} |}.

Lemma demo_cache_made : made (CacheSpec := MemoryCache_spec) demo_cache.
Proof. apply made_new; [reflexivity|]. intros k _. apply lookup_empty. Qed.

Lemma demo_ready : ready (freed_ops MemoryCache_ops) (hst demo_running).
Proof.
  destruct (@reset_ok arm64 _ demo_cache_made) as (Hwf & _). split; [change (0 <= 15 < 16); lia|].
  by exists (Some (reset demo_cache)).
Qed.

Lemma demo_dir_fits name : is_Some (files demo_dir !! name) -> path_fits demo_space name = true.
Proof. intros [x Hx]. cbn [files demo_dir] in Hx. apply lookup_singleton_Some in Hx as [<- _]. reflexivity. Qed.

Lemma demo_dir_writable : writable (fun _ => true) demo_space demo_raphael demo_dir.
Proof. split; [reflexivity|]. split; [reflexivity|]. exact demo_dir_fits. Qed.

Lemma session_report_exact_witness :
  exists s1 s2 s3 l,
    start MemoryCache_ops demo_cache (fun _ w => Ok w) (pack_configs 1024 15 true true) demo_space None demo_raphael = Ok s1 /\
    run_program MemoryCache_ops bump fixed_unwind (fun _ => None) sample_calls s1 = Ok s2 /\
    print MemoryCache_ops demo_maps (fun _ => true) (fun _ => true) 0 s2 = Ok s3 /\
    dirs s3 = <[demo_space := set_files {[report_name := Report l; maps_name := Text (codes "maps")]} demo_dir]>
      (dirs demo_raphael) /\
    shown <$> l ≡ₚ map_to_list (to_report (pack_configs 1024 15 true true .& LIMIT_MASK) (pack_configs 1024 15 true true .& ALLOC_MODE)
      (leaks bump (fun _ => None) true sample_calls ∅ ∅)).
Proof.
  apply (session_report_exact MemoryCache_ops bump fixed_unwind (fun _ => None) demo_cache (fun _ w => Ok w) demo_maps
    (fun _ => true) (fun _ => true) 0 fixed_unwind_ok demo_cache_made true (bump_live true)).
  - by vm_compute.
  - reflexivity.
  - exact demo_dir_writable.
  - by vm_compute.
  - exact sample_legal.
  - repeat (constructor; [by vm_compute; repeat split|]). constructor.
  - change (capacity demo_cache) with (Z.to_nat 32768). cbn [length sample_calls]. lia.
  - reflexivity.
Defined.

Lemma stopped_is_origin_witness :
  exists s', stop MemoryCache_ops Ok demo_maps (fun _ => true) (fun _ => true) 0 demo_running = Ok s' /\
    mCache s' = false /\ mSpace s' = None /\ cache (hst s') = Some None /\
    (forall d file, writable (fun _ => true) demo_space demo_running d -> demo_maps (world (hst demo_running)) = Some file ->
      exists c l, cache (hst demo_running) = Some c /\ c_print (freed_ops MemoryCache_ops) c = Ok l /\
        dirs s' = <[demo_space := set_files {[report_name := Report l; maps_name := Text file]} d]> (dirs demo_running)) /\
    forall ks k, exists h, run_calls (freed_ops MemoryCache_ops) bump fixed_unwind (fun _ => None) ks (hst s') = Ok h /\
      cache h = Some None /\ world h = after_calls bump ks ∅ /\
      proxy (freed_ops MemoryCache_ops) bump fixed_unwind (fun _ => None) k h = Ok (call_origin bump k h).
Proof.
  apply (stopped_is_origin MemoryCache_ops bump fixed_unwind (fun _ => None) Ok demo_maps (fun _ => true)
    (fun _ => true) 0 demo_space demo_running ∅).
  - reflexivity.
  - reflexivity.
  - by vm_compute.
  - exact demo_ready.
  - reflexivity.
Defined.

Lemma fresh_directory_empty_witness :
  exists s', print MemoryCache_ops demo_maps (fun _ => true) (fun _ => true) 0 (set_dirs ∅ demo_running) = Ok s' /\
    dirs s' = <[demo_space := {| dir_mode := 777 .& Z.lnot 0; files := ∅ |}]> ∅.
Proof.
  apply (fresh_directory_empty MemoryCache_ops demo_maps (fun _ => true) (fun _ => true) 0 demo_space (set_dirs ∅ demo_running)).
  - reflexivity.
  - reflexivity.
  - by vm_compute.
  - exact demo_ready.
  - reflexivity.
  - reflexivity.
  - reflexivity.
Defined.
