(* ===== verification/Session.v ===== *)
(** cpp/Raphael.cpp with its hooking components: the process a session of Lifecycle.v runs in,
    made of the states of the components it uses.  [start] installs the inline hooks of
    InlineProxy.v or the table hooks of PltGot.v, [stop] clears the registry of XhCore.v. *)
From Stdlib Require Import List.
From S2P Require Import Prelude Memory CString Cache AllocPool MemoryCache XhReloc XhUtil XhElf XdlIterate Xdl PltGot Backtrace64 A64Hook A64Rehook InlineProxy XhCore HookProxy Lifecycle.

#[local] Arguments rbind {_ _} !_ _ /.

(** The process on arm64. *)
#[local] Existing Instance arm64.

Section Session.
(** [K], the kernel with its state [KW]; [R], compiled regular expressions; and the parameters of the
    components. *)
Context {KW R V : Type} (K : kernel KW) (raw_perm : list Z) (fuel : nat) (proxy_of : list Z -> Z)
  (regexec : R -> list Z -> bool) (regcomp : list Z -> option R) (loaded : KW -> option (list dl_phdr_info))
  (level : Z) (linker_syms : option (Z * Z)) (make_rwx : Z -> Z -> bool) (insns_pool : Z) (created1 created2 : bool)
  (raw_buf : list Z).

(** The memory is shared by the components.  [d_heap]: the rest of the process, which the program's
    calls of the allocator change; they do not touch code, tables and variables of the hooks. *)
Record device := {
  d_rows : list inline_entry;
  d_index : Z;
  d_unwinder : unwind_state;
  d_memory : mem;
  d_kernel : KW;
  d_flushed : list (Z * Z);
  d_glob : PltGot.globals (R := R);
  d_core : core (R := R);
  d_old_funcs : gmap Z Z;
  d_heap : V
}.

Definition inline_part (d : device) : process64 :=
  {| rows64 := d_rows d; index64 := d_index d; unwinder := d_unwinder d; memory64 := d_memory d |}.
Definition set_inline (p : process64) (d : device) : device :=
  {| d_rows := rows64 p; d_index := index64 p; d_unwinder := unwinder p; d_memory := memory64 p; d_kernel := d_kernel d;
     d_flushed := d_flushed d; d_glob := d_glob d; d_core := d_core d; d_old_funcs := d_old_funcs d; d_heap := d_heap d |}.
Definition hook_part (d : device) : XhElf.hook_state :=
  {| XhElf.hmem := d_memory d; XhElf.world := d_kernel d; XhElf.old_func := None; XhElf.flushed := d_flushed d |}.
Definition set_hooks (st : XhElf.hook_state) (g : PltGot.globals) (c : core) (old : gmap Z Z) (d : device) : device :=
  {| d_rows := d_rows d; d_index := d_index d; d_unwinder := d_unwinder d; d_memory := XhElf.hmem st;
     d_kernel := XhElf.world st; d_flushed := XhElf.flushed st; d_glob := g; d_core := c; d_old_funcs := old;
     d_heap := d_heap d |}.
Definition set_heap (v : V) (d : device) : device :=
  {| d_rows := d_rows d; d_index := d_index d; d_unwinder := d_unwinder d; d_memory := d_memory d; d_kernel := d_kernel d;
     d_flushed := d_flushed d; d_glob := d_glob d; d_core := d_core d; d_old_funcs := d_old_funcs d; d_heap := v |}.

(** [if (regex != nullptr) registerSoLoadProxy(env, regex) else registerInlineProxy(env)] *)
Definition register_inline (d : device) (p : process64) : res process64 :=
  registerInlineProxy64 make_rwx insns_pool (loaded (d_kernel d)) (XhElf.proc_maps KW K (d_kernel d)) level fuel created1 created2 p.
Definition install (regex : option (list Z)) (d : device) : res device :=
  match regex with
  | Some regex =>
      let! (r, s) := registerSoLoadProxy K raw_perm fuel proxy_of regexec regcomp loaded level (Some regex) linker_syms
        {| PltGot.hooks := hook_part d; PltGot.glob := d_glob d |} in
      Ok (set_hooks (PltGot.hooks s) (PltGot.glob s) (d_core d) (d_old_funcs d) d)
  | None => let! p := register_inline d (inline_part d) in Ok (set_inline p d)
  end.
Definition clear (d : device) : res device :=
  let! (c, p) := xh_core_clear K raw_perm fuel regexec raw_buf (d_core d)
    {| XhCore.hooks := hook_part d; XhCore.old_funcs := d_old_funcs d |} in
  Ok (set_hooks (XhCore.hooks p) (d_glob d) c (XhCore.old_funcs p) d).

(** The program: the original functions, and the unwinder, on the rest of the process. *)
Context (heap_call : V -> call -> Z * V) (heap_unwind : V -> Z -> Backtrace) (heap_base : V -> option Z).
Definition origin (d : device) (k : call) : Z * device :=
  let '(r, v) := heap_call (d_heap d) k in (r, set_heap v d).
Definition unwind (d : device) (n : Z) : Backtrace := heap_unwind (d_heap d) n.
Definition stack_base (d : device) : option Z := heap_base (d_heap d).

Lemma origin_eq d k : origin d k = ((heap_call (d_heap d) k).1, set_heap (heap_call (d_heap d) k).2 d).
Proof. unfold origin. by destruct (heap_call (d_heap d) k). Qed.

Lemma after_calls_heap ks d : after_calls origin ks d = set_heap (after_calls heap_call ks (d_heap d)) d.
Proof.
  revert d. induction ks as [|k ks IH]; intros d; [by destruct d|]. cbn. rewrite origin_eq. cbn [snd].
  unfold after_calls in IH. rewrite IH. done.
Qed.

Lemma leaks_heap vss ks d t : leaks origin stack_base vss ks d t = leaks heap_call heap_base vss ks (d_heap d) t.
Proof. revert d t. induction ks as [|k ks IH]; intros d t; [done|]. cbn. by rewrite origin_eq, IH. Qed.

Context (vss : bool) (live : V -> Z -> option item) `{!HeapContract heap_call heap_base vss live}.
Definition device_live (d : device) (a : Z) : option item := live (d_heap d) a.

#[export] Instance device_contract : HeapContract origin stack_base vss device_live.
Proof.
  split; intros w k a i; rewrite origin_eq; cbn; unfold device_live; cbn; intros Hl.
  - apply (heap_keeps heap_call heap_base vss (d_heap w) k a i). by destruct k.
  - apply (heap_fresh heap_call heap_base vss (d_heap w) k a i). by destruct k.
Qed.

Lemma legal_heap ks d : legal_run heap_call vss live ks (d_heap d) -> legal_run origin vss device_live ks d.
Proof.
  revert d. induction ks as [|k ks IH]; intros d; [done|]. cbn. intros [Hl Hr]. split; [by destruct k|].
  rewrite origin_eq. by apply IH.
Qed.

(** ** A session with inline hooks *)

Context {C : Type} (ops : cache_ops C) `{!CacheSpec ops} (new_cache : C) (new_cache_made : made new_cache).
Context (heap_unwind_ok : forall v d, 0 <= d <= Z.of_nat MAX_TRACE_DEPTH -> bt_ok (heap_unwind v d)).
Context (posix mkdir_ok : list Z -> bool) (umask : Z).

Abbreviation maps := (fun d => XhElf.proc_maps KW K (d_kernel d)).
Abbreviation raphael := (Lifecycle.raphael (C := C) (W := device)).
Abbreviation start := (Lifecycle.start ops new_cache install).
Abbreviation run_program := (Lifecycle.run_program ops origin unwind stack_base).
Abbreviation print := (Lifecycle.print ops maps posix mkdir_ok umask).
Abbreviation stop := (Lifecycle.stop ops clear maps posix mkdir_ok umask).
Abbreviation process s := (HookProxy.world (hst s)).

(** The functions of the table can be hooked, in [n] sessions. *)
Record hookable (d : device) (rows : list inline_entry) (n : nat) : Prop := {
  h_rows : invoke_je_free (H := arm64) (loaded (d_kernel d)) (maps d) level fuel (d_memory d) (d_rows d) = Ok rows;
  h_row : Forall (row_ok make_rwx insns_pool (d_memory d)) rows;
  h_apart : ForallOrdPairs rows_apart rows;
  h_pool : pool_ok insns_pool (d_memory d) (d_index d) (n * length rows);
  h_bytes : mem_ok (d_memory d)
}.

(** The row [e], number [k] of the table, is hooked in [m]: its function goes to the proxy, and its variable
    holds a trampoline with the instructions of [m0] that goes on behind them. *)
Definition row_redirected (tk : bool) (m0 m : mem) (index k : Z) (e : inline_entry) : Prop :=
  exists t hi, load64 m (i_origin e) = Some t /\ t = slot insns_pool (index + 1 + k) /\
    leaves tk m (i_target e) (i_target e + 4 * row_count e) (i_proxy e) 0 /\
    (forall j, 0 <= j < row_count e -> load32 m (t + 4 * j) = load32 m0 (i_target e + 4 * j)) /\
    hi <= t + 200 /\ leaves tk m (t + 4 * row_count e) hi (i_target e + 4 * row_count e) 0.

Lemma install_inline d rows : hookable d rows 1 ->
  exists p, register_inline d (inline_part d) = Ok p /\ install None d = Ok (set_inline p d) /\
    forall tk k e, rows !! k = Some e -> row_redirected tk (d_memory d) (memory64 p) (d_index d) (Z.of_nat k) e.
Proof.
  intros [Hje Hrow Hap Hpool Hbytes]. rewrite Nat.mul_1_l in Hpool.
  destruct (arm64_rows_redirected make_rwx insns_pool (loaded (d_kernel d)) (maps d) level fuel created1 created2
    (inline_part d) rows true Hje Hrow Hap Hpool Hbytes) as (p & Hp & _).
  exists p. unfold install, register_inline. rewrite Hp. split; [done|]. split; [done|]. intros tk.
  destruct (arm64_rows_redirected make_rwx insns_pool (loaded (d_kernel d)) (maps d) level fuel created1 created2
    (inline_part d) rows tk Hje Hrow Hap Hpool Hbytes) as (p' & Hp' & _ & _ & Hr).
  assert (p' = p) as -> by congruence. exact Hr.
Qed.

(** C12: a whole session of the library on arm64 with inline hooks, from a configuration of a depth of at most 15 on, with
    an unwinder that keeps to the 16 words it is given: [start] redirects every function of the table to its proxy, and leaves in the variable of the original function a
    trampoline that runs the first instructions and goes on behind them; then come any calls the allocator and the kernel
    allow (the legal calls of [leak_report_exact], with 32-bit sizes and no more than the cache has room for), as changes of
    the part of the process that is not the hooks'; then [print].
    The report directory (which exists, is writable, with file paths that fit the buffer) holds the report and the maps
    file, and the report lists exactly the blocks (in ALLOC_MODE, of at least [limit] bytes) and the mappings (in MAP64_MODE)
    obtained since the start and not released (a thread's exit releases its stack).  The maps file can be read, and the
    functions are those [hookable] describes: mapped and apart from each other,
    their one, four or five overwritten instructions not relative to the pc, with room in the pool of trampolines, in memory that can be made
    writable. *)
Theorem inline_session_exact configs space (s : raphael) dir rows ks file tk :
  configs_ok vss configs -> hookable (process s) rows 1 ->
  writable posix space s dir -> Z.of_nat (length space + 8) <= MAX_BUFFER_SIZE ->
  legal_run heap_call vss live ks (d_heap (process s)) -> Forall small_call ks -> (length ks <= capacity new_cache)%nat ->
  maps (process s) = Some file ->
  exists s1 s2 s3 l, start configs space None s = Ok s1 /\ run_program ks s1 = Ok s2 /\ print s2 = Ok s3 /\
    (forall k e, rows !! k = Some e ->
      row_redirected tk (d_memory (process s)) (d_memory (process s1)) (d_index (process s)) (Z.of_nat k) e) /\
    dirs s3 = <[space := set_files {[report_name := Report l; maps_name := Text file]} dir]> (dirs s) /\
    shown <$> l ≡ₚ map_to_list (to_report (configs .& LIMIT_MASK) (configs .& ALLOC_MODE)
      (leaks heap_call heap_base vss ks (d_heap (process s)) ∅)).
Proof.
  intros Hcfg Hh Hd Hlen Hlegal Hsmall Hroom Hmaps.
  destruct (install_inline _ _ Hh) as (p & _ & Hin & Hred).
  destruct (session_ok ops origin unwind stack_base new_cache install maps posix mkdir_ok umask
    (fun w d => heap_unwind_ok (d_heap w) d) new_cache_made vss device_live configs space None s dir (set_inline p (process s)) ks file)
    as (s1 & s2 & s3 & l & Hs1 & Hs2 & Hs3 & Hds & Hl & Hw1 & _); try done.
  - by apply legal_heap.
  - by rewrite after_calls_heap.
  - exists s1, s2, s3, l. split; [done|]. split; [done|]. split; [done|]. rewrite Hw1.
    split; [intros k e Hk; by apply Hred|]. split; [done|]. by rewrite leaks_heap in Hl.
Qed.

(** ** A second session *)

(** [start] uses the registry of xh_core.c in no case: there is nothing to clear. *)
Lemma clear_unused d : d_core d = init_core -> clear d = Ok d.
Proof. intros Hc. unfold clear. rewrite Hc. cbn. destruct d. cbn in Hc. by subst. Qed.

End Session.

(** ** Witnesses: the two functions of InlineProxy.v and the allocator of HookProxy.v *)

Definition demo_kernel : kernel unit :=
  {| XhElf.proc_maps := fun _ => Some (codes "maps"); XhElf.mprotect := fun _ _ _ w => (None, w); XhElf.byte_prot := fun _ _ => 7 |}.
Definition demo_globals : PltGot.globals (R := unit) :=
  {| PltGot.api_level := 0; PltGot.focused_regex := None; PltGot.is_hook_libdl_success := false; PltGot.g_dl_mutex := 0;
     PltGot.dlopen_ext_N := 0; PltGot.origins := ∅ |}.
Definition demo_device : device (KW := unit) (R := unit) (V := gmap Z item) :=
  {| d_rows := InlineProxy.demo_rows; d_index := -1; d_unwinder := InlineProxy.demo_unwinder; d_memory := InlineProxy.demo_process;
     d_kernel := tt; d_flushed := []; d_glob := demo_globals; d_core := init_core; d_old_funcs := ∅; d_heap := ∅ |}.
Definition demo_session : Lifecycle.raphael (C := MemoryCache) (W := device (KW := unit) (R := unit) (V := gmap Z item)) :=
  {| mSpace := None; mCache := false;
     hst := {| cache := None; limit := 0; depth := 0; isPss := 0; isVss := 0; guard := 0; HookProxy.world := demo_device |};
     dirs := {[demo_space := demo_dir]} |}.
Definition demo_configs : Z := pack_configs 1024 15 true true.

Abbreviation demo_install :=
  (install demo_kernel [] 8 (fun _ => 0) (fun (_ : unit) _ => true) (fun _ => None) (fun _ => None) 25 None (fun _ _ => true) 0x40000 true true).
Abbreviation demo_origin := (origin (KW := unit) (R := unit) bump).
Abbreviation demo_unwind := (unwind (KW := unit) (R := unit) fixed_unwind).
Abbreviation demo_base := (stack_base (KW := unit) (R := unit) (fun _ : gmap Z item => None)).
Abbreviation demo_files := (fun _ : list Z => true).

Lemma demo_hookable n : (n <= 2)%nat ->
  hookable demo_kernel 8 (fun _ => None) 25 (fun _ _ => true) 0x40000 demo_device InlineProxy.demo_rows n.
Proof.
  intros Hn. split.
  - reflexivity.
  - rewrite Forall_forall. exact InlineProxy.demo_row_ok.
  - exact demo_rows_apart.
  - apply (InlineProxy.demo_pool (n * 2)). lia.
  - apply mem_ok_check. vm_compute. reflexivity.
Qed.

Lemma demo_writable : writable (fun _ => true) demo_space demo_session demo_dir.
Proof. split; [reflexivity|]. split; [reflexivity|]. exact demo_dir_fits. Qed.

Lemma inline_session_exact_witness :
  exists s1 s2 s3 l,
    Lifecycle.start MemoryCache_ops demo_cache demo_install demo_configs demo_space None demo_session = Ok s1 /\
    Lifecycle.run_program MemoryCache_ops demo_origin demo_unwind demo_base sample_calls s1 = Ok s2 /\
    Lifecycle.print MemoryCache_ops (fun d => XhElf.proc_maps unit demo_kernel (d_kernel d)) demo_files demo_files 0 s2 = Ok s3 /\
    (forall k e, InlineProxy.demo_rows !! k = Some e ->
      row_redirected 0x40000 true InlineProxy.demo_process (d_memory (HookProxy.world (hst s1))) (-1) (Z.of_nat k) e) /\
    dirs s3 = <[demo_space := set_files {[report_name := Report l; maps_name := Text (codes "maps")]} demo_dir]> (dirs demo_session) /\
    shown <$> l ≡ₚ map_to_list (to_report (demo_configs .& LIMIT_MASK) (demo_configs .& ALLOC_MODE)
      (leaks bump (fun _ => None) true sample_calls ∅ ∅)).
Proof.
  apply (inline_session_exact demo_kernel [] 8 (fun _ => 0) (fun _ _ => true) (fun _ => None) (fun _ => None) 25 None (fun _ _ => true)
    0x40000 true true bump fixed_unwind (fun _ => None) true (bump_live true) MemoryCache_ops demo_cache demo_cache_made fixed_unwind_ok
    demo_files demo_files 0 demo_configs demo_space demo_session demo_dir InlineProxy.demo_rows sample_calls (codes "maps") true).
  - by vm_compute.
  - apply (demo_hookable 1). lia.
  - exact demo_writable.
  - by vm_compute.
  - exact sample_legal.
  - repeat (constructor; [by vm_compute; repeat split|]). constructor.
  - change (capacity demo_cache) with (Z.to_nat 32768). cbn [length sample_calls]. lia.
  - reflexivity.
Defined.

